(** * minitorch: strided buffers and the reverse-mode autograd engine

    A shallow embedding of [minitorch/buffer.py] (class [MiniBuffer]) and of
    the graph part of [minitorch/tensor.py] (classes [Function] and
    [Tensor]), with the properties of the specification stated over it.

    Conventions of the embedding:
    - a Python [int] is a [Z]; a Python [float] is a binary64 number, that
      is, Rocq's primitive [float];
    - a Python [list] or [tuple] is a [list]; subscripts follow Python
      (a negative subscript counts from the end, anything else out of range
      raises [IndexError]);
    - a call that may raise returns a [result]; the exception is kept;
    - Python objects that are mutated and shared (tensors) live in a heap
      and are named by their address; [NoSuchObject] is not a Python
      exception: it is what reading an address outside the heap gives, which
      no Python program can hold. *)

From Stdlib Require Import ZArith List Bool Lia Floats.
From stdpp Require Import base option list gmap.

Local Open Scope Z_scope.

(** ** Exceptions and results *)

Inductive PyExc : Set :=
| IndexError
| TypeError
| AssertionError
| AttributeError
| ZeroDivisionError
| RecursionError
| NoSuchObject.

Inductive result (A : Type) : Type :=
| Ok (a : A)
| Raise (e : PyExc).

Arguments Ok {A} a.
Arguments Raise {A} e.

Definition bind {A B : Type} (m : result A) (k : A → result B) : result B :=
  match m with
  | Ok a => k a
  | Raise e => Raise e
  end.

Notation "'let*' x ':=' m 'in' k" := (bind m (λ x, k))
  (at level 10, x pattern, m at level 100, k at level 200, only parsing).

Definition py_assert (b : bool) : result unit :=
  if b then Ok tt else Raise AssertionError.

(** ** Python sequences *)

Module Py.

(** [range(n)]: empty when [n <= 0]. *)
Definition range (n : Z) : list Z := seqZ 0 n.

(** [l[i]]. *)
Definition index {A : Type} (l : list A) (i : Z) : result A :=
  let n := Z.of_nat (length l) in
  let j := if i <? 0 then i + n else i in
  if (0 <=? j) && (j <? n) then
    match l !! Z.to_nat j with
    | Some a => Ok a
    | None => Raise IndexError
    end
  else Raise IndexError.

(** [l[i] = v] on a list. *)
Definition setitem {A : Type} (l : list A) (i : Z) (v : A) : result (list A) :=
  let n := Z.of_nat (length l) in
  let j := if i <? 0 then i + n else i in
  if (0 <=? j) && (j <? n) then Ok (<[Z.to_nat j := v]> l)
  else Raise IndexError.

(** [l[i], l[j] = l[j], l[i]]: the right-hand side is read first, then
    the two stores follow from left to right. *)
Definition swap {A : Type} (l : list A) (i j : Z) : result (list A) :=
  let* a := index l j in
  let* b := index l i in
  let* l1 := setitem l i a in
  setitem l1 j b.

(** [l * n] for a list [l]: empty when [n <= 0]. *)
Definition repeat_list {A : Type} (l : list A) (n : Z) : list A :=
  mjoin (replicate (Z.to_nat n) l).

(** [l[i:]] for [0 <= i]. *)
Definition slice_from {A : Type} (l : list A) (i : Z) : list A :=
  drop (Z.to_nat i) l.

(** [math.prod]. *)
Definition prod (l : list Z) : Z := foldr Z.mul 1 l.

(** [for a in l: out.append(f(a))]. *)
Fixpoint for_append {A B : Type} (f : A → result B) (l : list A) : result (list B) :=
  match l with
  | [] => Ok []
  | a :: l' =>
      let* b := f a in
      let* bs := for_append f l' in
      Ok (b :: bs)
  end.

(** [for a in l: out += f(a)]. *)
Fixpoint for_extend {A B : Type} (f : A → result (list B)) (l : list A) : result (list B) :=
  match l with
  | [] => Ok []
  | a :: l' =>
      let* b := f a in
      let* bs := for_extend f l' in
      Ok (b ++ bs)
  end.

End Py.

(** ** [MiniBuffer] *)

Record MiniBuffer : Type := mkMiniBuffer {
  data : list float;
  shape : list Z;
  strides : list Z
}.

Inductive BinaryOp : Set := ADD | SUB | MUL | DIV | MAX.

(** [MiniBuffer.get_strides_from_shape]. *)
Definition get_strides_from_shape (shape : list Z) : list Z :=
  let shape_len := Z.of_nat (length shape) in
  (λ dim_idx,
     if dim_idx =? shape_len - 1 then 1
     else Py.prod (Py.slice_from shape (dim_idx + 1))) <$> Py.range shape_len.

(** [MiniBuffer.__init__]; the two assertions of the constructor are on the
    types of its arguments and hold by typing here. *)
Definition MiniBuffer_init (data : list float) (shape : list Z)
    (strides : option (list Z)) : MiniBuffer :=
  match strides with
  | None => mkMiniBuffer data shape (get_strides_from_shape shape)
  | Some st => mkMiniBuffer data shape st
  end.

(** [MiniBuffer.fill]; [value] is already the float that [float(value)]
    gives for an [int]. *)
Definition fill (shape : list Z) (value : float) : MiniBuffer :=
  let total_elements := Py.prod shape in
  MiniBuffer_init (replicate (Z.to_nat total_elements) value) shape None.

(** [MiniBuffer.full_like]. *)
Definition full_like (input : MiniBuffer) (value : float) : MiniBuffer :=
  fill (shape input) value.

(** [MiniBuffer._apply_op_binary]. Division of floats raises on a zero
    divisor in Python; [max(x, y)] keeps [x] unless [y > x]. The member
    [POW] of the enumeration has no primitive float counterpart and no
    function below uses it: it is not embedded. *)
Definition _apply_op_binary (op : BinaryOp) (x y : float) : result float :=
  match op with
  | ADD => Ok (PrimFloat.add x y)
  | SUB => Ok (PrimFloat.sub x y)
  | MUL => Ok (PrimFloat.mul x y)
  | DIV => if PrimFloat.eqb y PrimFloat.zero then Raise ZeroDivisionError
           else Ok (PrimFloat.div x y)
  | MAX => Ok (if PrimFloat.ltb x y then y else x)
  end.

(** [MiniBuffer._traverse_dims_and_apply_op] for a binary operation and its
    two operands. The recursion is on [depth_idx], which grows up to the
    rank; [fuel] bounds the depth of the Python call stack. *)
Fixpoint _traverse_dims_and_apply_op (fuel : nat) (depth_idx : Z)
    (current_positions : Z * Z) (op : BinaryOp) (x y : MiniBuffer)
    : result (list float) :=
  match fuel with
  | O => Raise RecursionError
  | S fuel' =>
      if depth_idx =? Z.of_nat (length (shape x)) - 1 then
        let* n := Py.index (shape x) depth_idx in
        Py.for_append (λ val_idx,
          let* sx := Py.index (strides x) depth_idx in
          let x_val_pos := current_positions.1 + val_idx * sx in
          let* sy := Py.index (strides y) depth_idx in
          let y_val_pos := current_positions.2 + val_idx * sy in
          let* xv := Py.index (data x) x_val_pos in
          let* yv := Py.index (data y) y_val_pos in
          _apply_op_binary op xv yv) (Py.range n)
      else
        let* n := Py.index (shape x) depth_idx in
        Py.for_extend (λ dim_idx,
          let* sx := Py.index (strides x) depth_idx in
          let x_pos := current_positions.1 + dim_idx * sx in
          let* sy := Py.index (strides y) depth_idx in
          let y_pos := current_positions.2 + dim_idx * sy in
          _traverse_dims_and_apply_op fuel' (depth_idx + 1) (x_pos, y_pos) op x y)
          (Py.range n)
  end.

(** The Python stack is deep enough for every rank: one frame per axis. *)
Definition stack_depth (x : MiniBuffer) : nat := S (length (shape x)).

(** [MiniBuffer.add], which is also [__add__]. *)
Definition add (self other : MiniBuffer) : result MiniBuffer :=
  let* out_data :=
    _traverse_dims_and_apply_op (stack_depth self) 0 (0, 0) ADD self other in
  Ok (MiniBuffer_init out_data (shape self) None).

(** [MiniBuffer.reshape]. *)
Definition reshape (self : MiniBuffer) (new_shape : list Z) : MiniBuffer :=
  MiniBuffer_init (data self) new_shape None.

(** [MiniBuffer.permute]. *)
Definition permute (self : MiniBuffer) (order : list Z) : result MiniBuffer :=
  let* dims_strides := Py.for_append (λ ord,
      let* d := Py.index (shape self) ord in
      let* s := Py.index (strides self) ord in
      Ok (d, s)) order in
  let new_dims := dims_strides.*1 in
  let new_strides := dims_strides.*2 in
  let result := MiniBuffer_init (data self) new_dims (Some new_strides) in
  add result (full_like result PrimFloat.zero).

(** [MiniBuffer.expand]. *)
Definition expand (self : MiniBuffer) (axis expanded_size : Z) : result MiniBuffer :=
  let out_data := Py.repeat_list (data self) expanded_size in
  let* out_shape := Py.setitem (shape self) axis expanded_size in
  let corrected_input_shape :=
    imap (λ i dim, if Z.of_nat i =? axis then 1 else dim) (shape self) in
  let* out_strides := Py.setitem (strides self) axis (Py.prod corrected_input_shape) in
  let result := MiniBuffer_init out_data out_shape (Some out_strides) in
  add result (full_like result PrimFloat.zero).

(** [MiniBuffer.is_scalar]. *)
Definition is_scalar (self : MiniBuffer) : bool :=
  Z.of_nat (length (shape self)) =? 1.

(** [MiniBuffer.__getitem__]. *)
Definition getitem (self : MiniBuffer) (keys : list Z) : result float :=
  let* item_pos := foldl (λ acc '(dim_idx, key),
      let* item_pos := acc in
      let* s := Py.index (strides self) (Z.of_nat dim_idx) in
      Ok (item_pos + s * key)) (Ok 0) (imap (λ i k, (i, k)) keys) in
  Py.index (data self) item_pos.

(** [MiniBuffer._traverse_dims_and_sum_along_last]; [0.0 + v0 + v1 + ...]
    from left to right. *)
Fixpoint _traverse_dims_and_sum_along_last (fuel : nat) (depth_idx : Z)
    (current_position : Z) (x : MiniBuffer) : result (list float) :=
  match fuel with
  | O => Raise RecursionError
  | S fuel' =>
      if depth_idx =? Z.of_nat (length (shape x)) - 1 then
        let* n := Py.index (shape x) depth_idx in
        let* sum := foldl (λ acc val_idx,
            let* sum := acc in
            let* s := Py.index (strides x) depth_idx in
            let val_pos := current_position + val_idx * s in
            let* v := Py.index (data x) val_pos in
            Ok (PrimFloat.add sum v)) (Ok PrimFloat.zero) (Py.range n) in
        Ok [sum]
      else
        let* n := Py.index (shape x) depth_idx in
        Py.for_extend (λ dim_idx,
          let* s := Py.index (strides x) depth_idx in
          let next_pos := current_position + dim_idx * s in
          _traverse_dims_and_sum_along_last fuel' (depth_idx + 1) next_pos x)
          (Py.range n)
  end.

(** [MiniBuffer.sum]. The last swap of [out_shape] in the source changes a
    list that is not read again. *)
Definition sum (self : MiniBuffer) (axis : Z) : result MiniBuffer :=
  let out_shape := imap (λ dim_idx dim, if Z.of_nat dim_idx =? axis then 1 else dim)
                        (shape self) in
  let dim_order := Py.range (Z.of_nat (length (shape self))) in
  let* dim_order := Py.swap dim_order axis (-1) in
  let* out_shape := Py.swap out_shape axis (-1) in
  let* x := permute self dim_order in
  let* sums := _traverse_dims_and_sum_along_last (stack_depth x) 0 0 x in
  let x := MiniBuffer_init sums out_shape None in
  let* result := permute x dim_order in
  add result (full_like result PrimFloat.zero).

(** The position argument of the comparison walk is whatever Python value
    the caller passes: a pair of ints at the entry point, and an int is
    what the arithmetic on it needs. *)
Inductive PyPos : Set :=
| PInt (p : Z)
| PTuple (p0 p1 : Z).

(** [pos + n] for an int [n]: a tuple and an int do not add. *)
Definition PyPos_add_int (pos : PyPos) (n : Z) : result Z :=
  match pos with
  | PInt p => Ok (p + n)
  | PTuple _ _ => Raise TypeError
  end.

(** [pos[i]] for [i] in [{0, 1}]: an int has no subscript. *)
Definition PyPos_item (pos : PyPos) (i : nat) : result Z :=
  match pos with
  | PInt _ => Raise TypeError
  | PTuple p0 p1 => Ok (if i is O then p0 else p1)
  end.

(** [MiniBuffer._compare]: [Ok false] at the first pair that differs under
    the float comparison [!=]. *)
Definition _compare (depth_idx : Z) (current_positions : PyPos)
    (x target : MiniBuffer) : result bool :=
  let* n := Py.index (shape x) depth_idx in
  foldl (λ acc val_idx,
      let* so_far := acc in
      if negb so_far then Ok false else
      let* p0 := PyPos_item current_positions 0 in
      let* sx := Py.index (strides x) depth_idx in
      let val_pos := p0 + val_idx * sx in
      let* p1 := PyPos_item current_positions 1 in
      let* st := Py.index (strides target) depth_idx in
      let target_pos := p1 + val_idx * st in
      let* xv := Py.index (data x) val_pos in
      let* tv := Py.index (data target) target_pos in
      Ok (PrimFloat.eqb xv tv)) (Ok true) (Py.range n).

(** [MiniBuffer._traverse_dims_and_compare]. The value is a Python [bool],
    or [None] when the loop of the second branch has nothing to run. The
    [return] inside that loop ends it in its first round. *)
Fixpoint _traverse_dims_and_compare (fuel : nat) (depth_idx : Z)
    (current_position : PyPos) (x target : MiniBuffer) : result (option bool) :=
  match fuel with
  | O => Raise RecursionError
  | S fuel' =>
      if depth_idx =? Z.of_nat (length (shape x)) - 1 then
        let* b := _compare depth_idx current_position x target in
        Ok (Some b)
      else
        let* n := Py.index (shape x) depth_idx in
        match Py.range n with
        | [] => Ok None
        | dim_idx :: _ =>
            let* sx := Py.index (strides x) depth_idx in
            let* x_pos := PyPos_add_int current_position (dim_idx * sx) in
            let* st := Py.index (strides target) depth_idx in
            let target_pos := dim_idx * st in
            _traverse_dims_and_compare fuel' (depth_idx + 1)
              (PTuple x_pos target_pos) x target
        end
  end.

(** [MiniBuffer.is_equal_to]. *)
Definition is_equal_to (self target : MiniBuffer) : result (option bool) :=
  _traverse_dims_and_compare (stack_depth self) 0 (PTuple 0 0) self target.


(** ** Further operations of [MiniBuffer] *)

(** [MiniBuffer.replace]. *)
Definition replace (input : MiniBuffer) (target new : float) : MiniBuffer :=
  let out_data := (λ val, if PrimFloat.eqb val target then new else val) <$> data input in
  MiniBuffer_init out_data (shape input) None.

(** The members of [MiniBuffer.UnaryOp]. [LOG] and [LOG2] end in
    [math.log], which has no primitive float counterpart: they are not
    embedded. *)
Inductive UnaryOp : Set := NEG.

(** [MiniBuffer._apply_op_unary]. *)
Definition _apply_op_unary (op : UnaryOp) (x : float) : result float :=
  match op with
  | NEG => Ok (PrimFloat.opp x)
  end.

(** [MiniBuffer._traverse_dims_and_apply_op] for a unary operation: the
    tuple of positions has one component. *)
Fixpoint _traverse_dims_and_apply_op_unary (fuel : nat) (depth_idx : Z)
    (current_positions : Z) (op : UnaryOp) (x : MiniBuffer) : result (list float) :=
  match fuel with
  | O => Raise RecursionError
  | S fuel' =>
      if depth_idx =? Z.of_nat (length (shape x)) - 1 then
        let* n := Py.index (shape x) depth_idx in
        Py.for_append (λ val_idx,
          let* sx := Py.index (strides x) depth_idx in
          let x_val_pos := current_positions + val_idx * sx in
          let* xv := Py.index (data x) x_val_pos in
          _apply_op_unary op xv) (Py.range n)
      else
        let* n := Py.index (shape x) depth_idx in
        Py.for_extend (λ dim_idx,
          let* sx := Py.index (strides x) depth_idx in
          let x_pos := current_positions + dim_idx * sx in
          _traverse_dims_and_apply_op_unary fuel' (depth_idx + 1) x_pos op x)
          (Py.range n)
  end.

(** [MiniBuffer.neg], which is also [__neg__]. *)
Definition neg (self : MiniBuffer) : result MiniBuffer :=
  let* out_data := _traverse_dims_and_apply_op_unary (stack_depth self) 0 0 NEG self in
  Ok (MiniBuffer_init out_data (shape self) None).

(** [MiniBuffer.sub], [mul], [div] and [max], which are also [__sub__],
    [__mul__] and [__truediv__]; [max] is named apart from the maximum of
    two numbers. *)
Definition sub (self other : MiniBuffer) : result MiniBuffer :=
  let* out_data :=
    _traverse_dims_and_apply_op (stack_depth self) 0 (0, 0) SUB self other in
  Ok (MiniBuffer_init out_data (shape self) None).

Definition mul (self other : MiniBuffer) : result MiniBuffer :=
  let* out_data :=
    _traverse_dims_and_apply_op (stack_depth self) 0 (0, 0) MUL self other in
  Ok (MiniBuffer_init out_data (shape self) None).

Definition div (self other : MiniBuffer) : result MiniBuffer :=
  let* out_data :=
    _traverse_dims_and_apply_op (stack_depth self) 0 (0, 0) DIV self other in
  Ok (MiniBuffer_init out_data (shape self) None).

Definition MiniBuffer_max (self other : MiniBuffer) : result MiniBuffer :=
  let* out_data :=
    _traverse_dims_and_apply_op (stack_depth self) 0 (0, 0) MAX self other in
  Ok (MiniBuffer_init out_data (shape self) None).

Inductive CmpOp : Set := LT | EQ | GT.

(** [MiniBuffer._traverse_dims_and_compare_elementwise]. *)
Fixpoint _traverse_dims_and_compare_elementwise (fuel : nat) (depth_idx : Z)
    (current_position : Z) (op : CmpOp) (x : MiniBuffer) (target : float)
    : result (list bool) :=
  match fuel with
  | O => Raise RecursionError
  | S fuel' =>
      if depth_idx =? Z.of_nat (length (shape x)) - 1 then
        let* n := Py.index (shape x) depth_idx in
        Py.for_append (λ val_idx,
          let* s := Py.index (strides x) depth_idx in
          let val_pos := current_position + val_idx * s in
          let* v := Py.index (data x) val_pos in
          match op with
          | LT => Ok (PrimFloat.ltb v target)
          | EQ => Ok (PrimFloat.eqb v target)
          | GT => Ok (PrimFloat.ltb target v)
          end) (Py.range n)
      else
        let* n := Py.index (shape x) depth_idx in
        Py.for_extend (λ dim_idx,
          let* s := Py.index (strides x) depth_idx in
          let next_pos := current_position + dim_idx * s in
          _traverse_dims_and_compare_elementwise fuel' (depth_idx + 1) next_pos
            op x target) (Py.range n)
  end.

(** [MiniBuffer.is_elementwise_greater_than], which is also [__gt__];
    [target] is already the float that [float(other)] gives for an [int]. *)
Definition is_elementwise_greater_than (self : MiniBuffer) (target : float)
    : result (list bool) :=
  _traverse_dims_and_compare_elementwise (stack_depth self) 0 0 GT self target.

(** [MiniBuffer.is_elementwise_less_than], which is also [__lt__]. *)
Definition is_elementwise_less_than (self : MiniBuffer) (target : float)
    : result (list bool) :=
  _traverse_dims_and_compare_elementwise (stack_depth self) 0 0 LT self target.

(** [MiniBuffer.is_elementwise_equal_to]. *)
Definition is_elementwise_equal_to (self : MiniBuffer) (target : float)
    : result (list bool) :=
  _traverse_dims_and_compare_elementwise (stack_depth self) 0 0 EQ self target.

(** [MiniBuffer.flatten]. *)
Definition flatten (self : MiniBuffer) : MiniBuffer :=
  let total_elements := Py.prod (shape self) in
  MiniBuffer_init (data self) [total_elements] None.

(** [MiniBuffer._traverse_dims_and_masked_fill]: the mask is read at the
    flat position, and the data only where the mask is false. *)
Fixpoint _traverse_dims_and_masked_fill (fuel : nat) (depth_idx : Z)
    (current_position : Z) (mask : list bool) (value : float) (x : MiniBuffer)
    : result (list float) :=
  match fuel with
  | O => Raise RecursionError
  | S fuel' =>
      if depth_idx =? Z.of_nat (length (shape x)) - 1 then
        let* n := Py.index (shape x) depth_idx in
        Py.for_append (λ val_idx,
          let* s := Py.index (strides x) depth_idx in
          let val_pos := current_position + val_idx * s in
          let* should_fill := Py.index mask val_pos in
          if should_fill : bool then Ok value
          else Py.index (data x) val_pos) (Py.range n)
      else
        let* n := Py.index (shape x) depth_idx in
        Py.for_extend (λ dim_idx,
          let* s := Py.index (strides x) depth_idx in
          let next_pos := current_position + dim_idx * s in
          _traverse_dims_and_masked_fill fuel' (depth_idx + 1) next_pos
            mask value x) (Py.range n)
  end.

(** [MiniBuffer.masked_fill]. *)
Definition masked_fill (input : MiniBuffer) (mask : list bool) (value : float)
    : result MiniBuffer :=
  let* out_data :=
    _traverse_dims_and_masked_fill (stack_depth input) 0 0 mask value input in
  Ok (MiniBuffer_init out_data (shape input) None).

(** [MiniBuffer._tril]: the cursor grows by one with every row; the data
    is read only where the value is kept. *)
Definition _tril (depth_idx : Z) (current_position : Z) (diagonal : Z)
    (x : MiniBuffer) : result (list float) :=
  let tril_cursor := 1 + diagonal in
  let* rows := Py.index (shape x) depth_idx in
  let* r := foldl (λ acc row_idx,
      let* st := acc in
      let out_data := st.1 in
      let tril_cursor := st.2 in
      let* s := Py.index (strides x) depth_idx in
      let row_pos := current_position + row_idx * s in
      let* cols := Py.index (shape x) (depth_idx + 1) in
      let* out_row := Py.for_append (λ val_idx,
          let* s1 := Py.index (strides x) (depth_idx + 1) in
          let val_pos := row_pos + val_idx * s1 in
          let should_keep_value := val_idx <? tril_cursor in
          if should_keep_value then Py.index (data x) val_pos
          else Ok PrimFloat.zero) (Py.range cols) in
      Ok (out_data ++ out_row, tril_cursor + 1))
    (Ok ([], tril_cursor)) (Py.range rows) in
  Ok r.1.

(** [MiniBuffer._traverse_dims_and_tril]. *)
Fixpoint _traverse_dims_and_tril (fuel : nat) (depth_idx : Z)
    (current_position : Z) (diagonal : Z) (x : MiniBuffer) : result (list float) :=
  match fuel with
  | O => Raise RecursionError
  | S fuel' =>
      if depth_idx =? Z.of_nat (length (shape x)) - 2 then
        _tril depth_idx current_position diagonal x
      else
        let* n := Py.index (shape x) depth_idx in
        Py.for_extend (λ dim_idx,
          let* s := Py.index (strides x) depth_idx in
          let next_pos := current_position + dim_idx * s in
          _traverse_dims_and_tril fuel' (depth_idx + 1) next_pos diagonal x)
          (Py.range n)
  end.

(** [MiniBuffer.tril]. *)
Definition tril (input : MiniBuffer) (diagonal : Z) : result MiniBuffer :=
  let* out_data := _traverse_dims_and_tril (stack_depth input) 0 0 diagonal input in
  Ok (MiniBuffer_init out_data (shape input) None).

Inductive ReshapeOp : Set := PAD | SHRINK.

(** [MiniBuffer._pad]: the guard looks at the last axis and at the end of
    the data, in that order. *)
Definition _pad (depth_idx : Z) (current_position : Z) (new_shape : list Z)
    (x : MiniBuffer) : result (list float) :=
  let* n := Py.index new_shape depth_idx in
  Py.for_append (λ val_idx,
    let* s := Py.index (strides x) depth_idx in
    let val_pos := current_position + val_idx * s in
    let* d := Py.index (shape x) depth_idx in
    if (val_idx <? d) && (val_pos <? Z.of_nat (length (data x)))
    then Py.index (data x) val_pos
    else Ok PrimFloat.zero) (Py.range n).

(** [MiniBuffer._shrink]: the row is appended to while it is shorter than
    the new size. *)
Definition _shrink (depth_idx : Z) (current_position : Z) (new_shape : list Z)
    (x : MiniBuffer) : result (list float) :=
  let* n := Py.index new_shape depth_idx in
  foldl (λ acc val_idx,
      let* current_dim := acc in
      let* s := Py.index (strides x) depth_idx in
      let val_pos := current_position + val_idx * s in
      let* n' := Py.index new_shape depth_idx in
      if Z.of_nat (length current_dim) <? n' then
        let* v := Py.index (data x) val_pos in
        Ok (current_dim ++ [v])
      else Ok current_dim) (Ok []) (Py.range n).

(** [MiniBuffer._traverse_dims_and_apply_reshape_op]: the walk is over
    the new shape, with the steps of the buffer. *)
Fixpoint _traverse_dims_and_apply_reshape_op (fuel : nat) (depth_idx : Z)
    (current_position : Z) (op : ReshapeOp) (new_shape : list Z) (x : MiniBuffer)
    : result (list float) :=
  match fuel with
  | O => Raise RecursionError
  | S fuel' =>
      if depth_idx =? Z.of_nat (length new_shape) - 1 then
        match op with
        | PAD => _pad depth_idx current_position new_shape x
        | SHRINK => _shrink depth_idx current_position new_shape x
        end
      else
        let* n := Py.index new_shape depth_idx in
        Py.for_extend (λ dim_idx,
          let* s := Py.index (strides x) depth_idx in
          let next_pos := current_position + dim_idx * s in
          _traverse_dims_and_apply_reshape_op fuel' (depth_idx + 1) next_pos
            op new_shape x) (Py.range n)
  end.

(** [MiniBuffer.pad]. *)
Definition pad (self : MiniBuffer) (new_shape : list Z) : result MiniBuffer :=
  let* out_data :=
    _traverse_dims_and_apply_reshape_op (S (length new_shape)) 0 0 PAD new_shape self in
  Ok (MiniBuffer_init out_data new_shape None).

(** [MiniBuffer.shrink]. *)
Definition shrink (self : MiniBuffer) (new_shape : list Z) : result MiniBuffer :=
  let* out_data :=
    _traverse_dims_and_apply_reshape_op (S (length new_shape)) 0 0 SHRINK new_shape self in
  Ok (MiniBuffer_init out_data new_shape None).

(** [MiniBuffer.is_square]. *)
Definition is_square (self : MiniBuffer) : result bool :=
  let* _ := py_assert (2 <=? Z.of_nat (length (shape self))) in
  let* a := Py.index (shape self) (-2) in
  let* b := Py.index (shape self) (-1) in
  Ok (a =? b).

(** ** [Storage]

    [minitorch/storage.py] is not part of the sources at hand; what
    [tensor.py] uses of it is modelled here. *)

Inductive Dtype : Set := DFloat | DInt.

#[global] Instance Dtype_eq_dec : EqDecision Dtype.
Proof. solve_decision. Defined.

Record Storage : Type := mkStorage {
  buffer : MiniBuffer;
  dtype : Dtype
}.

(** Modelled from the spec: [Storage.shape] is missing; the storage is a
    thin dtype-tagging wrapper around the buffer, and [Tensor.shape] hands
    its shape on as a list. *)
Definition Storage_shape (s : Storage) : list Z := shape (buffer s).

(** Modelled from the spec: [Storage.rank] is missing; the rank is the
    number of axes of the buffer. *)
Definition Storage_rank (s : Storage) : Z := Z.of_nat (length (shape (buffer s))).

(** Modelled from the spec: [Storage.is_scalar] is missing; the wrapper
    asks its buffer. *)
Definition Storage_is_scalar (s : Storage) : bool := is_scalar (buffer s).

(** Modelled from the spec: the constructor [Storage(value, dtype)] for a
    Python float is missing; a scalar is a buffer with exactly one element,
    of the one-axis shape that [is_scalar] accepts. *)
Definition Storage_of_float (value : float) (dt : Dtype) : Storage :=
  mkStorage (MiniBuffer_init [value] [1] None) dt.

(** Modelled from the spec: [Storage.__add__], [Storage.reshape] and
    [Storage.expand] are missing; each is the buffer operation of the same
    name under the wrapper. *)
Definition Storage_add (x y : Storage) : result Storage :=
  let* b := add (buffer x) (buffer y) in
  Ok (mkStorage b (dtype x)).

Definition Storage_reshape (x : Storage) (new_shape : list Z) : Storage :=
  mkStorage (reshape (buffer x) new_shape) (dtype x).

Definition Storage_expand (x : Storage) (axis expanded_size : Z) : result Storage :=
  let* b := expand (buffer x) axis expanded_size in
  Ok (mkStorage b (dtype x)).

(** ** [Function] and [Tensor] *)

(** A tensor is a Python object with an identity: it is hashed by [id],
    mutated in place and shared between operation records. *)
Abbreviation addr := nat.

(** What a backward rule returns: one gradient (or [None]) for an operation
    of one input, a tuple of them otherwise. *)
Inductive BackwardRet : Type :=
| One (g : option Storage)
| Many (gs : list (option Storage)).

(** [class Function]: the attributes of an operation record. [parents] is
    set only when the output requires a gradient. The backward rule is the
    method of the subclass, bound to what its forward pass saved. *)
Record Function : Type := mkFunction {
  inputs_need_grad : list bool;
  output_requires_grad : bool;
  parents : option (list addr);
  backward_rule : Storage → result BackwardRet
}.

(** The slot [_ctx] of a tensor: [None] from the constructor, an operation
    record once [Function.apply] links it, or gone after [del node._ctx]. *)
Inductive CtxSlot : Type :=
| CtxNone
| CtxSome (ctx : Function)
| CtxDeleted.

Record Tensor : Type := mkTensor {
  storage : Storage;
  requires_grad : bool;
  tensor_dtype : Dtype;
  grad : option addr;
  _ctx : CtxSlot
}.

Abbreviation Heap := (list Tensor).

(** Computations over the heap that may raise. *)
Definition M (A : Type) : Type := Heap → result (A * Heap).

Definition ret {A : Type} (a : A) : M A := λ h, Ok (a, h).

Definition bindM {A B : Type} (m : M A) (k : A → M B) : M B :=
  λ h, match m h with
       | Ok (a, h') => k a h'
       | Raise e => Raise e
       end.

Notation "'let!' x ':=' m 'in' k" := (bindM m (λ x, k))
  (at level 10, x pattern, m at level 100, k at level 200, only parsing).

Definition lift {A : Type} (r : result A) : M A :=
  λ h, match r with
       | Ok a => Ok (a, h)
       | Raise e => Raise e
       end.

Definition alloc (t : Tensor) : M addr := λ h, Ok (length h, h ++ [t]).

Definition load (a : addr) : M Tensor :=
  λ h, match h !! a with
       | Some t => Ok (t, h)
       | None => Raise NoSuchObject
       end.

Definition modify (a : addr) (f : Tensor → Tensor) : M unit :=
  λ h, match h !! a with
       | Some t => Ok (tt, <[a := f t]> h)
       | None => Raise NoSuchObject
       end.

(** [t.grad = g]. *)
Definition set_grad (a : addr) (g : option addr) : M unit :=
  modify a (λ t, mkTensor (storage t) (requires_grad t) (tensor_dtype t) g (_ctx t)).

(** [t._ctx = ctx]. *)
Definition set_ctx (a : addr) (c : CtxSlot) : M unit :=
  modify a (λ t, mkTensor (storage t) (requires_grad t) (tensor_dtype t) (grad t) c).

(** [del t._ctx]: deleting a slot that is already gone raises. *)
Definition del_ctx (a : addr) : M unit :=
  let! t := load a in
  match _ctx t with
  | CtxDeleted => lift (Raise AttributeError)
  | _ => set_ctx a CtxDeleted
  end.

(** [for a in l: f(a)]. *)
Fixpoint for_each {A : Type} (f : A → M unit) (l : list A) : M unit :=
  match l with
  | [] => ret tt
  | a :: l' => let! _ := f a in for_each f l'
  end.

(** [[f(a) for a in l]]. *)
Fixpoint for_collect {A B : Type} (f : A → M B) (l : list A) : M (list B) :=
  match l with
  | [] => ret []
  | a :: l' =>
      let! b := f a in
      let! bs := for_collect f l' in
      ret (b :: bs)
  end.

(** [Tensor.__init__] for a [Storage] argument. *)
Definition Tensor_init (data : Storage) (requires_grad : bool) (dt : Dtype) : M addr :=
  let! _ := lift (py_assert (Storage_rank data <=? 4)) in
  alloc (mkTensor data requires_grad dt None CtxNone).

(** [Tensor.shape]. *)
Definition Tensor_shape (a : addr) : M (list Z) :=
  let! t := load a in
  ret (Storage_shape (storage t)).

(** [Tensor.is_scalar]. *)
Definition Tensor_is_scalar (a : addr) : M bool :=
  let! t := load a in
  ret (Storage_is_scalar (storage t)).

(** [Tensor.assign] for a tensor argument: the storage of [x] replaces the
    one of [self], and [self] is returned. *)
Definition Tensor_assign (self x : addr) : M addr :=
  let! sshape := Tensor_shape self in
  let! xshape := Tensor_shape x in
  let! _ := lift (py_assert (bool_decide (sshape = xshape))) in
  let! tx := load x in
  let! _ := lift (py_assert (negb (requires_grad tx))) in
  let! _ := modify self (λ t,
      mkTensor (storage tx) (requires_grad t) (tensor_dtype t) (grad t) (_ctx t)) in
  ret self.

(** [Tensor.detach]: [Tensor(self.storage)], with the defaults of the
    constructor for [requires_grad] and [dtype]. *)
Definition Tensor_detach (self : addr) : M addr :=
  let! t := load self in
  Tensor_init (storage t) false DFloat.

(** A subclass of [Function] as [Function.apply] sees it: its forward pass
    over the storages of the inputs, and its backward rule, which may use
    the inputs it saw and which of them need a gradient. The keyword
    arguments of [apply] are fixed in the class value. *)
Record OpClass : Type := mkOpClass {
  op_forward : list Storage → result Storage;
  op_backward : list Storage → list bool → Storage → result BackwardRet
}.

(** [Function.__init__] followed by the binding of the backward rule. *)
Definition Function_init (op : OpClass) (inputs : list addr) : M Function :=
  let! ts := for_collect load inputs in
  let inputs_need_grad := requires_grad <$> ts in
  let output_requires_grad := existsb id inputs_need_grad in
  ret (mkFunction inputs_need_grad output_requires_grad
         (if output_requires_grad then Some inputs else None)
         (op_backward op (storage <$> ts) inputs_need_grad)).

(** [Function.apply]. *)
Definition Function_apply (fn_ctor : OpClass) (inputs : list addr) : M addr :=
  let! ctx := Function_init fn_ctor inputs in
  let! ts := for_collect load inputs in
  let! out := lift (op_forward fn_ctor (storage <$> ts)) in
  let! result := Tensor_init out (output_requires_grad ctx) DFloat in
  let! _ := if output_requires_grad ctx then set_ctx result (CtxSome ctx) else ret tt in
  ret result.

(** What [tensor.py] takes from outside the sources at hand: the flag
    [DEBUG] of [minitorch/settings.py], the backward rules of the operation
    classes [Add], [Reshape] and [Expand] of [minitorch/ops.py], and the
    room that the interpreter leaves to the recursion of [toposort]:
    [spare_frames] is the number of calls of [_toposort] that can still be
    nested inside the first one before the recursion limit of the
    interpreter ([sys.getrecursionlimit()], 1000 unless it is changed) is
    reached and the call raises [RecursionError]. *)
Record Env : Type := mkEnv {
  DEBUG : bool;
  Add_backward : list Storage → list bool → Storage → result BackwardRet;
  Reshape_backward : list Z → list Storage → list bool → Storage → result BackwardRet;
  Expand_backward : Z → Z → list Storage → list bool → Storage → result BackwardRet;
  spare_frames : nat
}.

Section TensorOps.

Context (env : Env).

(** Modelled from the spec: the forward pass of [ops.Add] is missing; it is
    the elementwise addition of the two storages. *)
Definition ops_Add : OpClass :=
  mkOpClass
    (λ ins, match ins with
            | [x; y] => Storage_add x y
            | _ => Raise TypeError
            end)
    (Add_backward env).

(** Modelled from the spec: the forward pass of [ops.Reshape] is missing; it
    reinterprets the shape over the same flat data. *)
Definition ops_Reshape (new_shape : list Z) : OpClass :=
  mkOpClass
    (λ ins, match ins with
            | [x] => Ok (Storage_reshape x new_shape)
            | _ => Raise TypeError
            end)
    (Reshape_backward env new_shape).

(** Modelled from the spec: the forward pass of [ops.Expand] is missing; it
    is the expansion of the storage along [axis]. *)
Definition ops_Expand (axis expanded_size : Z) : OpClass :=
  mkOpClass
    (λ ins, match ins with
            | [x] => Storage_expand x axis expanded_size
            | _ => Raise TypeError
            end)
    (Expand_backward env axis expanded_size).

(** [Tensor.reshape] for a list argument ([helpers.argfix] hands a list
    on unchanged). *)
Definition Tensor_reshape (self : addr) (new_shape : list Z) : M addr :=
  let! _ := lift (py_assert (negb (bool_decide (0 ∈ new_shape)))) in
  let! sh := Tensor_shape self in
  let! _ := lift (py_assert (Py.prod new_shape =? Py.prod sh)) in
  Function_apply (ops_Reshape new_shape) [self].

(** [Tensor.pad_shapes]. *)
Definition Tensor_pad_shapes (shape_diff : Z) (x : addr) : M addr :=
  let! sh := Tensor_shape x in
  let padded_shape := replicate (Z.to_nat shape_diff) 1 ++ sh in
  Function_apply (ops_Reshape padded_shape) [x].

(** [Tensor.expand]. *)
Definition Tensor_expand (self : addr) (new_shape : list Z) : M addr :=
  let! sh := Tensor_shape self in
  let! _ := lift (py_assert (Z.of_nat (length sh) <=? Z.of_nat (length new_shape))) in
  let x := self in
  let shape_diff := Z.of_nat (length new_shape) - Z.of_nat (length sh) in
  let! x := if 0 <? shape_diff then Tensor_pad_shapes shape_diff x else ret x in
  let! sh := Tensor_shape x in
  foldl (λ acc dim_idx,
      let! x := acc in
      let! sh := Tensor_shape x in
      let! d := lift (Py.index sh dim_idx) in
      let! n := lift (Py.index new_shape dim_idx) in
      if negb (d =? n) then
        let! _ := lift (py_assert (d =? 1)) in
        Function_apply (ops_Expand dim_idx n) [x]
      else ret x) (ret x) (Py.range (Z.of_nat (length sh))).

(** [Tensor._broadcasted]. *)
Definition Tensor__broadcasted (self y : addr) : M (addr * addr) :=
  let x := self in
  let! xshape := Tensor_shape x in
  let! yshape := Tensor_shape y in
  if bool_decide (xshape = yshape) then ret (x, y) else
  let shape_delta := Z.of_nat (length xshape) - Z.of_nat (length yshape) in
  let! xy :=
    if 0 <? shape_delta then
      let new_shape := replicate (Z.to_nat shape_delta) 1 ++ yshape in
      let! y := Tensor_reshape y new_shape in
      ret (x, y)
    else if shape_delta <? 0 then
      let new_shape := replicate (Z.to_nat (- shape_delta)) 1 ++ xshape in
      let! x := Tensor_reshape x new_shape in
      ret (x, y)
    else ret (x, y) in
  let x := xy.1 in
  let y := xy.2 in
  let! xshape := Tensor_shape x in
  let! yshape := Tensor_shape y in
  if bool_decide (xshape = yshape) then ret (x, y) else
  let shape_ret := zip_with Z.max xshape yshape in
  let! x := if bool_decide (xshape ≠ shape_ret) then Tensor_expand x shape_ret else ret x in
  let! y := if bool_decide (yshape ≠ shape_ret) then Tensor_expand y shape_ret else ret y in
  ret (x, y).

(** [Tensor.add] with [reverse=False]. *)
Definition Tensor_add (self other : addr) : M addr :=
  let! xy := Tensor__broadcasted self other in
  Function_apply ops_Add [xy.1; xy.2].

(** [Tensor.__add__] for a tensor operand. *)
Definition Tensor___add__ (self other : addr) : M addr :=
  let! s := load self in
  let! o := load other in
  let! _ := if DEBUG env
            then lift (py_assert (bool_decide (tensor_dtype s = tensor_dtype o)))
            else ret tt in
  Tensor_add self other.

(** [getattr(node, "_ctx", None)], read for its truth value and then for
    its [parents]: a missing or [None] slot is false. *)
Definition getattr_ctx (t : Tensor) : option Function :=
  match _ctx t with
  | CtxSome ctx => Some ctx
  | _ => None
  end.

(** [node._ctx.parents], [node._ctx.backward]: the slot is read first. *)
Definition Tensor_ctx (t : Tensor) : result Function :=
  match _ctx t with
  | CtxSome ctx => Ok ctx
  | _ => Raise AttributeError
  end.

Definition Function_parents (ctx : Function) : result (list addr) :=
  match parents ctx with
  | Some ps => Ok ps
  | None => Raise AttributeError
  end.

(** The inner function [_toposort] of [Tensor.toposort]. The set [visited]
    and the list [nodes] are shared by all calls, so they are threaded.
    [fuel] bounds the depth of the call stack. *)
Fixpoint _toposort (fuel : nat) (h : Heap) (node : addr)
    (st : gset addr * list addr) : result (gset addr * list addr) :=
  match fuel with
  | O => Raise RecursionError
  | S fuel' =>
      let visited := {[node]} ∪ st.1 in
      match h !! node with
      | None => Raise NoSuchObject
      | Some t =>
          match getattr_ctx t with
          | Some ctx =>
              let* ps := Function_parents ctx in
              let* st' := foldl (λ acc parent,
                  let* st := acc in
                  if bool_decide (parent ∈ st.1) then Ok st
                  else _toposort fuel' h parent st) (Ok (visited, st.2)) ps in
              Ok (st'.1, st'.2 ++ [node])
          | None => Ok (visited, st.2)
          end
      end
  end.

(** [Tensor.toposort]. Every nested call of [_toposort] takes a frame of
    the interpreter: the first call has one, and [spare_frames] more can be
    nested in it. *)
Definition Tensor_toposort (self : addr) : M (list addr) :=
  λ h, let* st := _toposort (S (spare_frames env)) h self (∅, []) in
       Ok (st.2, h).

(** The body of the inner loop of [Tensor.backward]:
    one pair of [zip(node._ctx.parents, grads)]. *)
Definition accumulate (parent : addr) (grad_ : option addr) : M unit :=
  match grad_ with
  | None => ret tt
  | Some g =>
      let! p := load parent in
      if requires_grad p then
        let! gshape := Tensor_shape g in
        let! pshape := Tensor_shape parent in
        let! _ := lift (py_assert (bool_decide (gshape = pshape))) in
        match grad p with
        | None => set_grad parent (Some g)
        | Some old =>
            let! new := Tensor___add__ old g in
            set_grad parent (Some new)
        end
      else ret tt
  end.

(** [[grads] if len(node._ctx.parents) == 1 else grads], as the sequence
    that the comprehension walks. A single value where a tuple is walked,
    or a tuple where one gradient is wrapped, is no storage to build a
    tensor from. *)
Definition grads_sequence (n_parents : nat) (r : BackwardRet)
    : result (list (option Storage)) :=
  if bool_decide (n_parents = 1%nat) then
    match r with
    | One g => Ok [g]
    | Many _ => Raise TypeError
    end
  else
    match r with
    | Many gs => Ok gs
    | One _ => Raise TypeError
    end.

(** The body of the outer loop of [Tensor.backward]. *)
Definition backward_step (node : addr) : M unit :=
  let! t := load node in
  let! _ := lift (py_assert (bool_decide (grad t ≠ None))) in
  let! ctx := lift (Tensor_ctx t) in
  let! g := load (default O (grad t)) in
  let! r := lift (backward_rule ctx (storage g)) in
  let! ps := lift (Function_parents ctx) in
  let! gs := lift (grads_sequence (length ps) r) in
  let! grads := for_collect (λ g : option Storage,
      match g with
      | Some s => let! a := Tensor_init s false DFloat in ret (Some a)
      | None => ret None
      end) gs in
  let! _ := for_each (λ pg : addr * option addr, accumulate pg.1 pg.2) (zip ps grads) in
  del_ctx node.

(** [Tensor.backward]. *)
Definition Tensor_backward (self : addr) : M unit :=
  let! scalar := Tensor_is_scalar self in
  let! _ := lift (py_assert scalar) in
  let! seed := Tensor_init (Storage_of_float 1%float DFloat) false DFloat in
  let! _ := set_grad self (Some seed) in
  let! autograd_graph := Tensor_toposort self in
  for_each backward_step (reverse autograd_graph).

End TensorOps.

(** * Notions used by the statements *)

(** The row-major strides, by recursion on the shape. *)
Fixpoint contiguous_strides (dims : list Z) : list Z :=
  match dims with
  | [] => []
  | _ :: dims' => Py.prod dims' :: contiguous_strides dims'
  end.

(** The element at a position of the flat data that is in range. *)
Definition peek (l : list float) (p : Z) : float :=
  default PrimFloat.zero (l !! Z.to_nat p).

Definition in_range (l : list float) (p : Z) : Prop :=
  0 ≤ p < Z.of_nat (length l).

(** The flat positions that a walk over the axes [dims] with the steps
    [strides] visits from [base], in row-major order. *)
Fixpoint offsets (dims strides : list Z) (base : Z) : list Z :=
  match dims with
  | [] => [base]
  | n :: dims' =>
      Py.range n ≫= (λ i, offsets dims' (tail strides)
                             (base + i * default 0 (head strides)))
  end.

(** The number of elements of a shape. *)
Definition size (dims : list Z) : nat := foldr (λ n acc, (Z.to_nat n * acc)%nat) 1%nat dims.

(** [sum(key[i] * strides[i])]. *)
Definition dot (key strides : list Z) : Z := foldr Z.add 0 (zip_with Z.mul key strides).

(** A key that names an element of a buffer of shape [dims]. *)
Definition valid_key (key dims : list Z) : Prop := Forall2 (λ k n, 0 ≤ k < n) key dims.

(** What the neutral addition at the end of a movement operation builds
    from a strided view: the elements in row-major order, each with zero
    added, under the row-major strides of the shape. *)
Definition materialized (v : MiniBuffer) : MiniBuffer :=
  mkMiniBuffer
    ((λ p, PrimFloat.add (peek (data v) p) PrimFloat.zero)
       <$> offsets (shape v) (strides v) 0)
    (shape v)
    (contiguous_strides (shape v)).

(** A view that the walk can read: one stride per axis, at least one axis,
    no negative size, and every position it visits inside the data. *)
Record readable (v : MiniBuffer) : Prop := mkReadable {
  readable_rank : shape v ≠ [];
  readable_strides : length (strides v) = length (shape v);
  readable_dims : Forall (λ n, 0 ≤ n) (shape v);
  readable_offsets : Forall (in_range (data v)) (offsets (shape v) (strides v) 0)
}.

(** The buffers that the operations hand out: row-major strides and as
    many elements as the shape asks for. *)
Record contiguous (b : MiniBuffer) : Prop := mkContiguous {
  contiguous_rank : shape b ≠ [];
  contiguous_dims : Forall (λ n, 0 ≤ n) (shape b);
  contiguous_strides_eq : strides b = contiguous_strides (shape b);
  contiguous_length : Z.of_nat (length (data b)) = Py.prod (shape b)
}.

(** [[l[o] for o in order]] for an order that is in range. *)
Definition gather (l order : list Z) : list Z :=
  (λ o, default 0 (l !! Z.to_nat o)) <$> order.

(** The view that [permute] builds before it re-materializes. *)
Definition permuted_view (x : MiniBuffer) (order : list Z) : MiniBuffer :=
  mkMiniBuffer (data x) (gather (shape x) order) (gather (strides x) order).

(** [l] with the entries at [a] and [b] exchanged. *)
Definition exchanged {A : Type} (l : list A) (a b : nat) : list A :=
  match l !! a, l !! b with
  | Some x, Some y => <[b := x]> (<[a := y]> l)
  | _, _ => l
  end.

(** [0.0 + v0 + v1 + ...], added from left to right. *)
Definition fsum (l : list float) : float := foldl PrimFloat.add PrimFloat.zero l.

(** The sums that the walk of [_traverse_dims_and_sum_along_last] collects:
    one per position of the axes before the last, each over the last axis. *)
Fixpoint row_sums (d : list float) (dims strides : list Z) (base : Z) : list float :=
  match dims with
  | [] => []
  | n :: dims' =>
      let s := default 0 (head strides) in
      match dims' with
      | [] => [fsum ((λ j, peek d (base + j * s)) <$> Py.range n)]
      | _ => Py.range n ≫= (λ i, row_sums d dims' (tail strides) (base + i * s))
      end
  end.

(** What [sum] builds, step by step. *)
Definition sum_steps (x : MiniBuffer) (a : nat) : MiniBuffer :=
  let last := (length (shape x) - 1)%nat in
  let x1 := materialized
              (mkMiniBuffer (data x) (exchanged (shape x) a last)
                 (exchanged (strides x) a last)) in
  let sums := row_sums (data x1) (shape x1) (strides x1) 0 in
  let out_shape := <[last := 1]> (shape x1) in
  let x2 := mkMiniBuffer sums out_shape (contiguous_strides out_shape) in
  let x3 := materialized
              (mkMiniBuffer sums (exchanged out_shape a last)
                 (exchanged (contiguous_strides out_shape) a last)) in
  materialized x3.

(** The element that a key names. *)
Definition element (b : MiniBuffer) (key : list Z) : float :=
  peek (data b) (dot key (strides b)).

(** [float(m)] for an int [0 <= m < 2^63]. *)
Definition float_of_int (m : Z) : float := PrimFloat.of_uint63 (Uint63.of_Z m).

(** The binary64 number of a positive integer of at most 53 bits: the
    mantissa is the integer shifted to 53 bits. *)
Definition SF_of_pos (p : positive) : spec_float :=
  let d := Zpos (digits2_pos p) in
  S754_finite false (Pos.shiftl p (Z.to_N (53 - d))) (d - 53).

(** A leaf tensor as the constructor leaves it: no gradient, no operation
    record. *)
Definition leaf (d : list float) (sh : list Z) (rg : bool) : Tensor :=
  mkTensor (mkStorage (MiniBuffer_init d sh None) DFloat) rg DFloat None CtxNone.

(** The tensor [t] with its gradient slot set. *)
Definition with_grad (t : Tensor) (g : option addr) : Tensor :=
  mkTensor (storage t) (requires_grad t) (tensor_dtype t) g (_ctx t).

(** The tensor [t] with its operation slot set. *)
Definition with_ctx (t : Tensor) (c : CtxSlot) : Tensor :=
  mkTensor (storage t) (requires_grad t) (tensor_dtype t) (grad t) c.

(** The heap grows and keeps, for every tensor it had, everything but the
    gradient slot. *)
Definition preserves (h h' : Heap) : Prop :=
  (length h ≤ length h')%nat ∧
  ∀ a t, h !! a = Some t →
    ∃ t', h' !! a = Some t' ∧ storage t' = storage t
        ∧ requires_grad t' = requires_grad t
        ∧ tensor_dtype t' = tensor_dtype t
        ∧ _ctx t' = _ctx t.

(** The tensor that seeds the gradient of the root: [Tensor(1.0)]. *)
Definition seed_tensor : Tensor :=
  mkTensor (Storage_of_float 1%float DFloat) false DFloat None CtxNone.

(** The heap once [backward] has seeded the gradient of [root]. *)
Definition seeded (h : Heap) (root : addr) : Heap :=
  match h !! root with
  | Some t => <[root := with_grad t (Some (length h))]> (h ++ [seed_tensor])
  | None => h
  end.

(** The heap grows, every tensor it had keeps its storage and its flag, the
    operation slot of each of [nodes] is gone and every other operation
    slot is as it was. *)
Definition released (nodes : list addr) (h h' : Heap) : Prop :=
  (length h ≤ length h')%nat ∧
  ∀ a t, h !! a = Some t →
    ∃ t', h' !! a = Some t' ∧ storage t' = storage t
        ∧ requires_grad t' = requires_grad t
        ∧ (a ∈ nodes → _ctx t' = CtxDeleted)
        ∧ (a ∉ nodes → _ctx t' = _ctx t).

(** An environment for the examples: [DEBUG] on, backward rules that hand
    the gradient of the output on to every input, and room for 990 nested
    calls of [_toposort]. *)
Definition example_env : Env :=
  mkEnv true
    (λ _ _ g, Ok (Many [Some g; Some g]))
    (λ _ _ _ g, Ok (One (Some g)))
    (λ _ _ _ _ g, Ok (One (Some g)))
    990.

(** The graph of [c = a + b] for two leaves [a = Tensor(3.0)] and
    [b = Tensor(2.0)] that require a gradient: [c] is at address 2. *)
Definition example_graph : Heap :=
  match (let! a := alloc (leaf [3%float] [1] true) in
         let! b := alloc (leaf [2%float] [1] true) in
         Function_apply (ops_Add example_env) [a; b]) [] with
  | Ok (_, h) => h
  | Raise _ => []
  end.

(** The heap after [c.backward()]. *)
Definition example_graph_consumed : Heap :=
  match Tensor_backward example_env 2%nat example_graph with
  | Ok (_, h) => h
  | Raise _ => []
  end.

(** A diamond: the leaf [a] (address 0) feeds [b] (1) and [c] (2), which
    merge into [d] (3). All four require a gradient; [fb], [fc] and [fd] are
    the backward rules of the three operations. *)
Definition diamond (sa sb sc sd : Storage)
    (fb fc fd : Storage → result BackwardRet) : Heap :=
  [ mkTensor sa true DFloat None CtxNone;
    mkTensor sb true DFloat None (CtxSome (mkFunction [true] true (Some [0%nat]) fb));
    mkTensor sc true DFloat None (CtxSome (mkFunction [true] true (Some [0%nat]) fc));
    mkTensor sd true DFloat None
      (CtxSome (mkFunction [true; true] true (Some [1%nat; 2%nat]) fd)) ].

(** A storage as the constructors hand it out: row-major strides, as many
    elements as the shape asks for and no empty axis. *)
Definition well_formed (s : Storage) : Prop :=
  Forall (λ n, 1 ≤ n) (Storage_shape s)
  ∧ strides (buffer s) = contiguous_strides (Storage_shape s)
  ∧ Z.of_nat (length (data (buffer s))) = Py.prod (Storage_shape s).

(** [[1] * (r - len(dims)) + dims]. *)
Definition padded (r : nat) (dims : list Z) : list Z :=
  replicate (r - length dims) 1 ++ dims.

(** Two shapes of one rank that broadcasting can align: on every axis the
    sizes agree or one of them is 1. *)
Definition compatible (dims1 dims2 : list Z) : Prop :=
  Forall2 (λ a b, a = b ∨ a = 1 ∨ b = 1) dims1 dims2.


(** Two tensors that it cannot align: shapes (3,) and (2,). *)
Definition mismatched_pair : Heap :=
  [leaf [1; 2; 3]%float [3] false; leaf [10; 20]%float [2] false].

(** The expansions that bring a tensor of shape [dims] to the shape
    [target]: the axes where the two sizes differ, from the axis [i] on and
    in increasing order, each with the size it is given. *)
Fixpoint expansions (i : Z) (dims target : list Z) : list (Z * Z) :=
  match dims, target with
  | d :: dims', m :: target' =>
      if d =? m then expansions (i + 1) dims' target'
      else (i, m) :: expansions (i + 1) dims' target'
  | _, _ => []
  end.

(** The buffer [b] expanded along the axes of [axes], one after the
    other. *)
Definition expanded_along (axes : list (Z * Z)) (b : MiniBuffer) : result MiniBuffer :=
  foldl (λ acc im, let* b := acc in expand b im.1 im.2) (Ok b) axes.




(** What a binary operation does with one pair of flat positions. *)
Definition binary_at (op : BinaryOp) (x y : MiniBuffer) (pq : Z * Z) : result float :=
  let* xv := Py.index (data x) pq.1 in
  let* yv := Py.index (data y) pq.2 in
  _apply_op_binary op xv yv.

(** The result [r] of an operation on [x] and [y] is a row-major buffer of
    the shape of [x] that holds [f] of the two elements at every key. *)
Definition elementwise (f : float → float → float) (x y : MiniBuffer)
    (r : result MiniBuffer) : Prop :=
  ∃ z, r = Ok z ∧ contiguous z ∧ shape z = shape x
     ∧ ∀ key, valid_key key (shape x) →
         ∃ a b, getitem x key = Ok a ∧ getitem y key = Ok b
              ∧ getitem z key = Ok (f a b).

(** What the negation does at one flat position. *)
Definition unary_at (op : UnaryOp) (x : MiniBuffer) (p : Z) : result float :=
  let* xv := Py.index (data x) p in
  _apply_op_unary op xv.

(** What a comparison with [target] gives at one flat position. *)
Definition compare_at (op : CmpOp) (x : MiniBuffer) (target : float) (p : Z) : result bool :=
  let* v := Py.index (data x) p in
  match op with
  | LT => Ok (PrimFloat.ltb v target)
  | EQ => Ok (PrimFloat.eqb v target)
  | GT => Ok (PrimFloat.ltb target v)
  end.

(** What [masked_fill] does at one flat position. *)
Definition mask_at (mask : list bool) (value : float) (x : MiniBuffer) (p : Z)
    : result float :=
  let* should_fill := Py.index mask p in
  if should_fill : bool then Ok value else Py.index (data x) p.

(** The loop that [pad] and [shrink] run along the last axis of the new
    shape, from the flat position [base]. *)
Definition reshape_row (op : ReshapeOp) (new_shape : list Z) (x : MiniBuffer) (base : Z)
    : result (list float) :=
  let last := Z.of_nat (length new_shape) - 1 in
  match op with
  | PAD => _pad last base new_shape x
  | SHRINK => _shrink last base new_shape x
  end.

(** What [pad] puts at the key [key] of the new shape: the element at the
    flat position of the key under the strides of the buffer, when the
    last component of the key is inside the last axis of the buffer and
    the position is inside the data, and zero otherwise. *)
Definition pad_value (x : MiniBuffer) (key : list Z) : float :=
  let p := dot key (strides x) in
  if (default 0 (last key) <? default 0 (last (shape x)))
     && (p <? Z.of_nat (length (data x)))
  then peek (data x) p else PrimFloat.zero.

(** The block that [_tril] builds from the position [base] of a matrix of
    [m] rows and [n] columns with the steps [s0] and [s1]. *)
Definition tril_block (d : list float) (diagonal m n s0 s1 base : Z) : list float :=
  Py.range m ≫= (λ i,
    (λ j, if j <? 1 + diagonal + i then peek d (base + i * s0 + j * s1)
          else PrimFloat.zero) <$> Py.range n).

(** The tensor at [a] carries an operation record. *)
Definition recorded (h : Heap) (a : addr) : Prop :=
  ∃ t ctx, h !! a = Some t ∧ getattr_ctx t = Some ctx.

(** [p] is one of the inputs that the record of [n] names. *)
Definition parent_of (h : Heap) (p n : addr) : Prop :=
  ∃ t ctx ps, h !! n = Some t ∧ getattr_ctx t = Some ctx
              ∧ parents ctx = Some ps ∧ p ∈ ps.

(** [v] is reached from [root] along recorded inputs. *)
Definition ancestor (h : Heap) (root v : addr) : Prop :=
  rtc (λ n p, parent_of h p n) root v.

(** The graph as [Function.apply] builds it: every record names its
    inputs, and they are older than the tensor that holds the record. *)
Definition inputs_older (h : Heap) : Prop :=
  ∀ n t ctx, h !! n = Some t → getattr_ctx t = Some ctx →
    ∃ ps, parents ctx = Some ps ∧ ∀ p, p ∈ ps → (p < n)%nat.

(** What the calls of [_toposort] below [node] have added to the state
    [(V, N)]: the visited set has grown to [V'] and the list by [new]. *)
Definition toposort_adds (h : Heap) (node : addr) (V : gset addr) (N : list addr)
    (V' : gset addr) (new : list addr) : Prop :=
  V ⊆ V'
  ∧ (∀ v, v ∈ new → v ∈ V' ∧ (v ∉ V) ∧ recorded h v ∧ ancestor h node v)
  ∧ (∀ v, v ∈ V' → v ∉ V → recorded h v → v ∈ new)
  ∧ NoDup new
  ∧ (∀ i n p, new !! i = Some n → parent_of h p n → recorded h p →
       p ∈ N ++ take i new).

(** The diamond with concrete storages and backward rules that hand the
    gradient of the output on. *)
Definition example_diamond : Heap :=
  diamond (Storage_of_float 3%float DFloat) (Storage_of_float 3%float DFloat)
    (Storage_of_float 3%float DFloat) (Storage_of_float 6%float DFloat)
    (λ g, Ok (One (Some g))) (λ g, Ok (One (Some g)))
    (λ g, Ok (Many [Some g; Some g])).

(** Every record names inputs, and they are tensors of the heap. *)
Definition inputs_in_heap (h : Heap) : Prop :=
  ∀ n t ctx, h !! n = Some t → getattr_ctx t = Some ctx →
    ∃ ps, parents ctx = Some ps ∧ ∀ p, p ∈ ps → (p < length h)%nat.

(** The tensors of the heap that [_toposort] has not visited. *)
Definition unvisited (h : Heap) (V : gset addr) : nat :=
  stdpp.base.size (list_to_set (seq 0 (length h)) ∖ V : gset addr).

(** A tensor whose record names the tensor itself: a cycle. *)
Definition example_cycle : Heap :=
  [ mkTensor (Storage_of_float 1%float DFloat) true DFloat None
      (CtxSome (mkFunction [true] true (Some [0%nat]) (λ g, Ok (One (Some g))))) ].

(** A chain of [n] operations of one input over a leaf: the leaf is at
    address 0, and the tensor at address [i + 1] is computed from the one
    at address [i]. *)
Definition chain (s : Storage) (f : Storage → result BackwardRet) (n : nat) : Heap :=
  mkTensor s true DFloat None CtxNone
  :: ((λ i, mkTensor s true DFloat None (CtxSome (mkFunction [true] true (Some [i]) f)))
        <$> seq 0 n).

(** The heap grows, and no tensor it had changes its dtype or its flag, nor
    its gradient unless it requires one. *)
Definition quiet (h h' : Heap) : Prop :=
  (length h ≤ length h')%nat ∧
  ∀ a t, h !! a = Some t →
    ∃ t', h' !! a = Some t' ∧ tensor_dtype t' = tensor_dtype t
        ∧ requires_grad t' = requires_grad t
        ∧ (requires_grad t = false → grad t' = grad t).

(** The storage [s] is the sum of the storages [x] and [y]: it has their
    shape and holds, at every key, the sum of their two elements. *)
Definition sum_of_storages (x y s : Storage) : Prop :=
  Storage_shape s = Storage_shape x
  ∧ ∀ key, valid_key key (Storage_shape x) →
      ∃ a b, getitem (buffer x) key = Ok a ∧ getitem (buffer y) key = Ok b
           ∧ getitem (buffer s) key = Ok (PrimFloat.add a b).

(** * Properties *)

(** ** Results and Python sequences *)

Lemma bind_Ok {A B : Type} (m : result A) (k : A → result B) (b : B) :
  bind m k = Ok b ↔ ∃ a, m = Ok a ∧ k a = Ok b.
Proof.
  destruct m as [a|e]; simpl; split.
  - intros H. exists a. auto.
  - intros (a' & [= <-] & H). exact H.
  - discriminate.
  - intros (a' & [=] & _).
Qed.

Lemma index_lookup {A : Type} (l : list A) (i : Z) (a : A) :
  0 ≤ i → l !! Z.to_nat i = Some a → Py.index l i = Ok a.
Proof.
  intros Hi Hl. unfold Py.index.
  pose proof (lookup_lt_Some _ _ _ Hl) as Hlt.
  destruct (Z.ltb_spec i 0) as [?|_]; [lia|].
  destruct (Z.leb_spec 0 i) as [_|?]; [|lia].
  destruct (Z.ltb_spec i (Z.of_nat (length l))) as [_|?]; [|lia].
  simpl. by rewrite Hl.
Qed.

Lemma index_nat {A : Type} (l : list A) (i : nat) (a : A) :
  l !! i = Some a → Py.index l (Z.of_nat i) = Ok a.
Proof. intros H. apply index_lookup; [lia|]. by rewrite Nat2Z.id. Qed.

Lemma index_nil {A : Type} (i : Z) : Py.index (@nil A) i = Raise IndexError.
Proof.
  unfold Py.index. simpl length.
  destruct (Z.ltb_spec i 0);
    destruct (Z.leb_spec 0 (i + Z.of_nat 0));
    destruct (Z.leb_spec 0 i);
    destruct (Z.ltb_spec (i + Z.of_nat 0) (Z.of_nat 0));
    destruct (Z.ltb_spec i (Z.of_nat 0));
    simpl; try reflexivity; lia.
Qed.

Lemma setitem_nat {A : Type} (l : list A) (i : nat) (v : A) :
  (i < length l)%nat → Py.setitem l (Z.of_nat i) v = Ok (<[i := v]> l).
Proof.
  intros Hi. unfold Py.setitem.
  destruct (Z.ltb_spec (Z.of_nat i) 0) as [?|_]; [lia|].
  destruct (Z.leb_spec 0 (Z.of_nat i)) as [_|?]; [|lia].
  destruct (Z.ltb_spec (Z.of_nat i) (Z.of_nat (length l))) as [_|?]; [|lia].
  simpl. by rewrite Nat2Z.id.
Qed.

Lemma for_append_fmap {A B : Type} (f : A → result B) (g : A → B) (l : list A) :
  Forall (λ a, f a = Ok (g a)) l → Py.for_append f l = Ok (g <$> l).
Proof.
  induction 1 as [|a l Ha _ IH]; simpl; [done|].
  by rewrite Ha, IH.
Qed.

Lemma for_extend_bind {A B : Type} (f : A → result (list B)) (g : A → list B)
    (l : list A) :
  Forall (λ a, f a = Ok (g a)) l → Py.for_extend f l = Ok (l ≫= g).
Proof.
  induction 1 as [|a l Ha _ IH]; simpl; [done|].
  by rewrite Ha, IH.
Qed.

Lemma range_S (n : nat) : Py.range (Z.of_nat (S n)) = Py.range (Z.of_nat n) ++ [Z.of_nat n].
Proof.
  unfold Py.range. replace (Z.of_nat (S n)) with (Z.of_nat n + 1) by lia.
  rewrite seqZ_app by lia. simpl. f_equal.
Qed.

Lemma elem_of_range (n i : Z) : i ∈ Py.range n ↔ 0 ≤ i < n.
Proof. unfold Py.range. rewrite elem_of_seqZ. lia. Qed.

Lemma range_nonpos (n : Z) : n ≤ 0 → Py.range n = [].
Proof. intros H. unfold Py.range, seqZ. by replace (Z.to_nat n) with O by lia. Qed.


Lemma range_pos (n : Z) : 0 < n → ∃ l, Py.range n = 0 :: l.
Proof.
  intros H. unfold Py.range. exists (seqZ 1 (n - 1)).
  rewrite (seqZ_cons 0 n) by lia. reflexivity.
Qed.

(** ** Strides *)

Lemma get_strides_from_shape_cons (n : Z) (dims : list Z) :
  get_strides_from_shape (n :: dims) = Py.prod dims :: get_strides_from_shape dims.
Proof.
  unfold get_strides_from_shape, Py.range.
  set (L := Z.of_nat (length dims)).
  replace (Z.of_nat (length (n :: dims))) with (L + 1)
    by (subst L; simpl length; lia).
  rewrite seqZ_cons by lia. rewrite fmap_cons. f_equal.
  - unfold Py.slice_from. change (Z.to_nat (0 + 1)) with 1%nat.
    cbn [drop].
    destruct (Z.eqb_spec 0 (L + 1 - 1)) as [E|E]; [|reflexivity].
    destruct dims; [reflexivity|]. subst L. simpl length in E. lia.
  - replace (Z.pred (L + 1)) with L by lia.
    replace (Z.succ 0) with (1 + 0) by lia.
    rewrite <- (fmap_add_seqZ 1 0 L), <- list_fmap_compose.
    apply list_fmap_ext. intros i x Hx. cbn [compose].
    apply lookup_seqZ in Hx as [-> Hi].
    unfold Py.slice_from.
    replace (Z.to_nat (1 + (0 + Z.of_nat i) + 1)) with (S (Z.to_nat (0 + Z.of_nat i + 1))) by lia.
    cbn [drop].
    destruct (Z.eqb_spec (1 + (0 + Z.of_nat i)) (L + 1 - 1));
      destruct (Z.eqb_spec (0 + Z.of_nat i) (L - 1));
      try lia; reflexivity.
Qed.

Lemma get_strides_from_shape_contiguous (dims : list Z) :
  get_strides_from_shape dims = contiguous_strides dims.
Proof.
  induction dims as [|n dims IH]; [reflexivity|].
  rewrite get_strides_from_shape_cons, IH. reflexivity.
Qed.

(** ** Indexing *)

(** Claim C10. [__getitem__] computes the flat position as the sum of
    [key[i] * strides[i]] and checks no axis: in a row-major buffer of
    shape (m, n), a key [(i, k)] whose second component is at least [n],
    while [i * n + k] is still inside the data, does not fail. It returns
    the element of another logical position, the one of the valid key
    [(i + k / n, k mod n)]. *)
Theorem getitem_unchecked_key (d : list float) (m n i k : Z) :
  Z.of_nat (length d) = m * n → 0 < n → 0 ≤ i → n ≤ k → i * n + k < m * n →
  let b := MiniBuffer_init d [m; n] None in
  ∃ v, getitem b [i; k] = Py.index (data b) (i * n + k * 1)
     ∧ getitem b [i; k] = Ok v
     ∧ getitem b [i + k / n; k `mod` n] = Ok v
     ∧ (0 ≤ i + k / n < m ∧ 0 ≤ k `mod` n < n)
     ∧ [i + k / n; k `mod` n] ≠ [i; k].
Proof.
  intros Hlen Hn Hi Hk Hpos b.
  assert (Hstr : strides b = [n * 1; 1]).
  { unfold b, MiniBuffer_init. cbn [strides].
    rewrite get_strides_from_shape_contiguous. reflexivity. }
  assert (Hget : ∀ a c, getitem b [a; c] = Py.index (data b) (a * n + c * 1)).
  { intros a c. unfold getitem. cbn [imap foldl bind].
    rewrite Hstr. cbn [Z.of_nat].
    rewrite (index_nat [n * 1; 1] 0 (n * 1)) by reflexivity. cbn [bind].
    unfold compose; cbn beta iota.
    rewrite (index_nat [n * 1; 1] 1 1) by reflexivity. cbn [bind].
    f_equal. lia. }
  destruct (lookup_lt_is_Some_2 d (Z.to_nat (i * n + k))) as [v Hv]; [lia|].
  pose proof (Z.div_mod k n ltac:(lia)) as Hdm.
  pose proof (Z.mod_pos_bound k n Hn) as Hmod.
  assert (0 < k / n) as Hq by (apply Z.div_str_pos; lia).
  exists v. rewrite !Hget. repeat split.
  - apply index_lookup; [lia|]. cbn [data b MiniBuffer_init].
    by replace (i * n + k * 1) with (i * n + k) by lia.
  - apply index_lookup; [lia|]. cbn [data b MiniBuffer_init].
    by replace ((i + k / n) * n + k `mod` n * 1) with (i * n + k) by lia.
  - lia.
  - nia.
  - lia.
  - lia.
  - intros [= E _]. lia.
Qed.

Lemma getitem_unchecked_key_witness :
  ∃ v, getitem (MiniBuffer_init [1; 2; 3; 4]%float [2; 2] None) [0; 2] = Ok v
     ∧ getitem (MiniBuffer_init [1; 2; 3; 4]%float [2; 2] None) [1; 0] = Ok v.
Proof.
  destruct (getitem_unchecked_key [1; 2; 3; 4]%float 2 2 0 2)
    as (v & _ & H1 & H2 & _); [reflexivity|lia|lia|lia|lia|].
  exists v. split; [exact H1|exact H2].
Defined.

(** ** Equality of buffers *)

Lemma index_peek (l : list float) (p : Z) :
  in_range l p → Py.index l p = Ok (peek l p).
Proof.
  intros [H0 H1]. unfold peek.
  destruct (lookup_lt_is_Some_2 l (Z.to_nat p)) as [v Hv]; [lia|].
  rewrite Hv. by apply index_lookup.
Qed.

Lemma foldl_until_false {A : Type} (step : A → result bool) (g : A → bool)
    (l : list A) (acc : bool) :
  Forall (λ i, step i = Ok (g i)) l →
  foldl (λ acc i, let* so_far := acc in
                  if negb so_far then Ok false else step i) (Ok acc) l
  = Ok (acc && forallb g l).
Proof.
  intros Hl. revert acc.
  induction Hl as [|i l Hi _ IH]; intros acc; cbn [foldl forallb].
  - by rewrite andb_true_r.
  - destruct acc; cbn [bind negb andb].
    + rewrite Hi, IH. reflexivity.
    + rewrite IH. reflexivity.
Qed.

(** On one axis the comparison is the one the specification asks for: the
    answer is [True] exactly when every pair of elements is equal under the
    float comparison. *)
Lemma is_equal_to_rank1 (dx dt : list float) (n : Z) :
  Z.of_nat (length dx) = n → Z.of_nat (length dt) = n →
  is_equal_to (MiniBuffer_init dx [n] None) (MiniBuffer_init dt [n] None)
  = Ok (Some (forallb (λ i, PrimFloat.eqb (peek dx i) (peek dt i)) (Py.range n))).
Proof.
  intros Hx Ht. unfold is_equal_to, stack_depth.
  cbn [MiniBuffer_init shape length _traverse_dims_and_compare].
  change (0 =? Z.of_nat 1 - 1) with true. cbn iota.
  unfold _compare. cbn [shape strides data].
  rewrite (index_lookup [n] 0 n) by done. cbn [bind].
  rewrite (foldl_until_false _ (λ i, PrimFloat.eqb (peek dx i) (peek dt i))).
  - reflexivity.
  - apply Forall_forall. intros i Hi%elem_of_range.
    rewrite get_strides_from_shape_contiguous. cbn [contiguous_strides Py.prod foldr].
    cbn [PyPos_item bind]. rewrite (index_lookup [1] 0 1) by done. cbn [bind].
    replace (0 + i * 1) with i by lia.
    rewrite !index_peek by (unfold in_range; lia). reflexivity.
Qed.

Lemma is_equal_to_rank1_iff (dx dt : list float) (n : Z) :
  Z.of_nat (length dx) = n → Z.of_nat (length dt) = n →
  is_equal_to (MiniBuffer_init dx [n] None) (MiniBuffer_init dt [n] None) = Ok (Some true)
  ↔ ∀ i, 0 ≤ i < n → PrimFloat.eqb (peek dx i) (peek dt i) = true.
Proof.
  intros Hx Ht. rewrite is_equal_to_rank1 by done.
  split.
  - intros [= H] i Hi. rewrite forallb_forall in H. apply H.
    apply list_elem_of_In, elem_of_range, Hi.
  - intros H. do 2 f_equal. apply forallb_forall. intros i Hi.
    apply H, elem_of_range, list_elem_of_In, Hi.
Qed.

(** With two axes or more the walk never reaches a comparison: its first
    step adds an int to the pair of positions. *)
Lemma is_equal_to_rank_ge_2 (x target : MiniBuffer) (n s : Z) :
  (2 ≤ length (shape x))%nat → shape x !! 0%nat = Some n → 0 < n →
  strides x !! 0%nat = Some s →
  is_equal_to x target = Raise TypeError.
Proof.
  intros Hrank Hn Hpos Hs. unfold is_equal_to, stack_depth.
  cbn [_traverse_dims_and_compare].
  destruct (Z.eqb_spec 0 (Z.of_nat (length (shape x)) - 1)) as [E|_]; [lia|].
  rewrite (index_lookup _ 0 n) by done. cbn [bind].
  destruct (range_pos n Hpos) as [l ->].
  rewrite (index_lookup _ 0 s) by done. reflexivity.
Qed.

(** Claim C5. For two buffers of the same shape, [is_equal_to] should
    return true exactly when all corresponding elements are equal. For the
    two all-ones buffers of shape (2, 2), whose elements are pairwise equal,
    the call returns nothing: it raises [TypeError], since the walk adds an
    integer to the pair of positions. *)
Theorem is_equal_to_2x2_raises :
  is_equal_to (fill [2; 2] 1%float) (fill [2; 2] 1%float) = Raise TypeError
  ∧ (∀ i, 0 ≤ i < 4 →
       PrimFloat.eqb (peek (data (fill [2; 2] 1%float)) i)
                     (peek (data (fill [2; 2] 1%float)) i) = true).
Proof.
  split; [reflexivity|].
  intros i Hi.
  assert (i = 0 ∨ i = 1 ∨ i = 2 ∨ i = 3) as [->|[->|[->| ->]]] by lia; reflexivity.
Qed.

(** ** The walk over the axes *)

Lemma length_bind_const {A B : Type} (f : A → list B) (l : list A) (k : nat) :
  (∀ a, length (f a) = k) → length (l ≫= f) = (length l * k)%nat.
Proof.
  intros Hf. induction l as [|a l IH]; [done|].
  cbn [mbind list_bind]. rewrite length_app. simpl. rewrite Hf.
  change (length (l ≫= f) = (length l * k)%nat) in IH. lia.
Qed.

Lemma length_offsets (dims strides : list Z) (base : Z) :
  length (offsets dims strides base) = size dims.
Proof.
  revert strides base. induction dims as [|n dims IH]; intros strides base; [done|].
  cbn [offsets size foldr].
  rewrite (length_bind_const _ _ (size dims)) by (intros; apply IH).
  unfold Py.range. rewrite length_seqZ. reflexivity.
Qed.

Lemma zip_with_bind {A B C D : Type} (h : B → C → D) (f : A → list B)
    (g : A → list C) (l : list A) :
  (∀ a, length (f a) = length (g a)) →
  zip_with h (l ≫= f) (l ≫= g) = l ≫= (λ a, zip_with h (f a) (g a)).
Proof.
  intros Hlen. induction l as [|a l IH]; [done|].
  cbn [mbind list_bind]. rewrite zip_with_app by apply Hlen. f_equal. apply IH.
Qed.

Lemma zip_with_fmap_same {A B C D : Type} (h : B → C → D) (f : A → B) (g : A → C)
    (l : list A) :
  zip_with h (f <$> l) (g <$> l) = (λ a, h (f a) (g a)) <$> l.
Proof. induction l as [|a l IH]; [done|]. cbn. by rewrite IH. Qed.

Lemma bind_singleton {A B : Type} (f : A → B) (l : list A) :
  l ≫= (λ a, [f a]) = f <$> l.
Proof. induction l as [|a l IH]; [done|]. cbn. by f_equal. Qed.

Lemma drop_lookup_head (l : list Z) (d : nat) : head (drop d l) = l !! d.
Proof. revert d. induction l; intros [|d]; simpl; auto. Qed.

Lemma tail_drop (l : list Z) (d : nat) : tail (drop d l) = drop (S d) l.
Proof. revert d. induction l as [|a l IH]; intros [|d]; simpl; auto. Qed.

Lemma traverse_apply_op_offsets (x y : MiniBuffer) (fuel d : nat) (px py : Z) :
  (d < length (shape x))%nat → (length (shape x) - d ≤ fuel)%nat →
  (length (shape x) ≤ length (strides x))%nat →
  (length (shape x) ≤ length (strides y))%nat →
  Forall (in_range (data x)) (offsets (drop d (shape x)) (drop d (strides x)) px) →
  Forall (in_range (data y)) (offsets (drop d (shape x)) (drop d (strides y)) py) →
  _traverse_dims_and_apply_op fuel (Z.of_nat d) (px, py) ADD x y
  = Ok (zip_with (λ p q, PrimFloat.add (peek (data x) p) (peek (data y) q))
          (offsets (drop d (shape x)) (drop d (strides x)) px)
          (offsets (drop d (shape x)) (drop d (strides y)) py)).
Proof.
  intros Hd Hfuel Hsx Hsy. revert d px py Hd Hfuel.
  induction fuel as [|fuel IH]; intros d px py Hd Hfuel Hx Hy; [lia|].
  destruct (lookup_lt_is_Some_2 (shape x) d Hd) as [n Hn].
  destruct (lookup_lt_is_Some_2 (strides x) d ltac:(lia)) as [sx Hsxd].
  destruct (lookup_lt_is_Some_2 (strides y) d ltac:(lia)) as [sy Hsyd].
  rewrite (drop_S _ _ _ Hn) in Hx, Hy |- *.
  cbn [offsets] in Hx, Hy |- *.
  rewrite drop_lookup_head, tail_drop in Hx, Hy.
  rewrite !(drop_lookup_head (strides x)), !(drop_lookup_head (strides y)),
    !(tail_drop (strides x)), !(tail_drop (strides y)).
  rewrite Hsxd in Hx |- *. rewrite Hsyd in Hy |- *. cbn [default from_option id] in Hx, Hy |- *.
  rewrite Forall_bind in Hx, Hy.
  cbn [_traverse_dims_and_apply_op].
  rewrite (index_nat _ _ _ Hn). cbn [bind fst snd].
  destruct (Z.eqb_spec (Z.of_nat d) (Z.of_nat (length (shape x)) - 1)) as [E|E].
  - rewrite (drop_ge (shape x) (S d)) in Hx, Hy |- * by lia.
    cbn [offsets] in Hx, Hy |- *. rewrite !bind_singleton, zip_with_fmap_same.
    apply for_append_fmap. apply Forall_forall. intros i Hi.
    rewrite Forall_forall in Hx, Hy.
    specialize (Hx i Hi). specialize (Hy i Hi). cbn [compose] in Hx, Hy.
    apply Forall_inv in Hx. apply Forall_inv in Hy.
    rewrite (index_nat _ _ _ Hsxd), (index_nat _ _ _ Hsyd). cbn [bind].
    rewrite (index_peek _ _ Hx), (index_peek _ _ Hy). reflexivity.
  - rewrite zip_with_bind by (intros; rewrite !length_offsets; reflexivity).
    apply for_extend_bind. apply Forall_forall. intros i Hi.
    rewrite Forall_forall in Hx, Hy.
    rewrite (index_nat _ _ _ Hsxd), (index_nat _ _ _ Hsyd). cbn [bind].
    replace (Z.of_nat d + 1) with (Z.of_nat (S d)) by lia.
    apply IH; [lia|lia|by apply Hx|by apply Hy].
Qed.

Lemma seqZ_blocks (b P : Z) (n : nat) :
  0 ≤ P →
  Py.range (Z.of_nat n) ≫= (λ i, seqZ (b + i * P) P) = seqZ b (Z.of_nat n * P).
Proof.
  intros HP. induction n as [|n IH].
  - reflexivity.
  - rewrite range_S, bind_app, IH.
    replace (Z.of_nat (S n) * P) with (Z.of_nat n * P + P) by lia.
    rewrite seqZ_app by lia. f_equal.
    cbn [mbind list_bind]. by rewrite app_nil_r.
Qed.

Lemma prod_nonneg (dims : list Z) : Forall (λ n, 0 ≤ n) dims → 0 ≤ Py.prod dims.
Proof.
  induction 1 as [|n dims Hn _ IH]; cbn [Py.prod foldr]; [lia|].
  change (foldr Z.mul 1 dims) with (Py.prod dims). lia.
Qed.

Lemma prod_cons (n : Z) (dims : list Z) : Py.prod (n :: dims) = n * Py.prod dims.
Proof. reflexivity. Qed.

Lemma size_prod (dims : list Z) :
  Forall (λ n, 0 ≤ n) dims → Z.of_nat (size dims) = Py.prod dims.
Proof.
  induction 1 as [|n dims Hn _ IH]; [reflexivity|].
  rewrite prod_cons, <- IH. cbn [size foldr]. change (foldr _ 1%nat dims) with (size dims).
  lia.
Qed.

Lemma offsets_contiguous (dims : list Z) (b : Z) :
  Forall (λ n, 0 ≤ n) dims →
  offsets dims (contiguous_strides dims) b = seqZ b (Py.prod dims).
Proof.
  intros Hdims. revert b. induction Hdims as [|n dims Hn Hdims IH]; intros b.
  - reflexivity.
  - cbn [offsets contiguous_strides head tail default from_option id].
    rewrite prod_cons.
    pose proof (prod_nonneg dims Hdims) as HP.
    rewrite <- (Z2Nat.id n Hn) at 2. rewrite <- seqZ_blocks by done.
    rewrite Z2Nat.id by done.
    apply list_bind_ext; [|done]. intros i. apply IH.
Qed.

Lemma peek_replicate (n : nat) (v : float) (q : Z) :
  v = PrimFloat.zero → peek (replicate n v) q = PrimFloat.zero.
Proof.
  intros ->. unfold peek.
  destruct (replicate n PrimFloat.zero !! Z.to_nat q) eqn:E; [|done].
  by apply lookup_replicate in E as [-> _].
Qed.

Lemma zip_with_const_r {A B C : Type} (h : A → B → C) (h' : A → C)
    (l : list A) (k : list B) :
  length l = length k → (∀ a b, b ∈ k → h a b = h' a) →
  zip_with h l k = h' <$> l.
Proof.
  revert k. induction l as [|a l IH]; intros [|b k] Hlen Hh; try done.
  cbn. rewrite Hh by left. f_equal. apply IH; [by injection Hlen|].
  intros a' b' Hb'. apply Hh. by right.
Qed.

Lemma length_contiguous_strides (dims : list Z) :
  length (contiguous_strides dims) = length dims.
Proof. induction dims; simpl; auto. Qed.

(** The neutral addition [v + full_like(v, 0)] re-materializes a view. *)
Lemma add_zeros_materialized (v : MiniBuffer) :
  readable v → add v (full_like v PrimFloat.zero) = Ok (materialized v).
Proof.
  intros [Hrank Hstr Hdims Hoff]. unfold add, stack_depth.
  pose proof (prod_nonneg _ Hdims) as HP.
  assert (Hfl : strides (full_like v PrimFloat.zero) = contiguous_strides (shape v)).
  { unfold full_like, fill, MiniBuffer_init. cbn [strides].
    apply get_strides_from_shape_contiguous. }
  rewrite (traverse_apply_op_offsets v _ _ 0 0 0).
  - cbn [bind]. unfold materialized, MiniBuffer_init. f_equal.
    rewrite get_strides_from_shape_contiguous. f_equal.
    rewrite !drop_0. apply zip_with_const_r.
    + by rewrite !length_offsets.
    + intros p q _. f_equal. by apply peek_replicate.
  - destruct (shape v); [done|simpl; lia].
  - lia.
  - lia.
  - rewrite Hfl, length_contiguous_strides. lia.
  - by rewrite !drop_0.
  - rewrite !drop_0, Hfl, offsets_contiguous by done.
    apply Forall_seqZ. intros q Hq. unfold in_range, full_like, fill, MiniBuffer_init.
    cbn [data]. rewrite length_replicate. lia.
Qed.

(** ** Keys and positions *)

Lemma dot_nil_r (key : list Z) : dot key [] = 0.
Proof. by destruct key. Qed.

Lemma dot_cons (k s : Z) (key strides : list Z) :
  dot (k :: key) (s :: strides) = k * s + dot key strides.
Proof. reflexivity. Qed.

Lemma dot_cons_head (k : Z) (key strides : list Z) :
  dot (k :: key) strides = k * default 0 (head strides) + dot key (tail strides).
Proof.
  destruct strides as [|s strides]; [|reflexivity].
  cbn [head tail default from_option id]. rewrite !dot_nil_r. lia.
Qed.

Lemma valid_key_dims (key dims : list Z) :
  valid_key key dims → Forall (λ n, 0 ≤ n) dims.
Proof. induction 1; constructor; auto; lia. Qed.

(** A key of a row-major buffer names a position inside the data. *)
Lemma dot_contiguous_bound (key dims : list Z) :
  valid_key key dims →
  0 ≤ dot key (contiguous_strides dims) < Py.prod dims.
Proof.
  induction 1 as [|k n key dims Hk Hkey IH].
  - cbn. lia.
  - cbn [contiguous_strides]. rewrite dot_cons, prod_cons. nia.
Qed.

Lemma lookup_bind_blocks {A B : Type} (f : A → list B) (l : list A)
    (m j i : nat) (a : A) :
  (∀ a, length (f a) = m) → l !! j = Some a → (i < m)%nat →
  (l ≫= f) !! (j * m + i)%nat = f a !! i.
Proof.
  intros Hf. revert j. induction l as [|x l IH]; intros j Hj Hi; [done|].
  rewrite bind_cons. destruct j as [|j].
  - injection Hj as ->. rewrite lookup_app_l by (rewrite Hf; lia). reflexivity.
  - rewrite lookup_app_r by (rewrite Hf; lia). rewrite Hf.
    replace (S j * m + i - m)%nat with (j * m + i)%nat by lia.
    by apply IH.
Qed.

(** The walk meets the element of a key at the row-major rank of the key. *)
Lemma offsets_lookup_key (dims strides key : list Z) (b : Z) :
  valid_key key dims →
  offsets dims strides b !! Z.to_nat (dot key (contiguous_strides dims))
  = Some (b + dot key strides).
Proof.
  intros Hkey. revert strides b.
  induction Hkey as [|k n key dims Hk Hkey IH]; intros strides b.
  - cbn. by rewrite Z.add_0_r.
  - cbn [offsets contiguous_strides]. rewrite dot_cons, dot_cons_head.
    pose proof (dot_contiguous_bound _ _ Hkey) as Hb.
    pose proof (size_prod _ (valid_key_dims _ _ Hkey)) as Hsz.
    replace (Z.to_nat (k * Py.prod dims + dot key (contiguous_strides dims)))
      with (Z.to_nat k * size dims + Z.to_nat (dot key (contiguous_strides dims)))%nat
      by nia.
    rewrite (lookup_bind_blocks _ _ (size dims) _ _ k).
    + rewrite IH. f_equal. lia.
    + intros. apply length_offsets.
    + unfold Py.range. rewrite lookup_seqZ. lia.
    + lia.
Qed.

(** Every position of the walk is the position of some key. *)
Lemma elem_of_offsets (dims strides : list Z) (b p : Z) :
  p ∈ offsets dims strides b →
  ∃ key, valid_key key dims ∧ p = b + dot key strides.
Proof.
  revert strides b. induction dims as [|n dims IH]; intros strides b Hp.
  - apply list_elem_of_singleton in Hp as ->. exists []. split; [constructor|].
    cbn. lia.
  - cbn [offsets] in Hp. apply list_elem_of_bind in Hp as (i & Hp & Hi).
    apply elem_of_range in Hi. apply IH in Hp as (key & Hkey & ->).
    exists (i :: key). split; [by constructor|].
    rewrite dot_cons_head. lia.
Qed.

(** [MiniBuffer.__getitem__] reads the position [sum(key[i] * strides[i])]. *)
Lemma getitem_dot (b : MiniBuffer) (keys : list Z) :
  (length keys ≤ length (strides b))%nat →
  getitem b keys = Py.index (data b) (dot keys (strides b)).
Proof.
  intros Hlen. unfold getitem.
  assert (H : ∀ (st : list Z) (off : nat) (acc : Z),
    (∀ i, st !! i = strides b !! (off + i)%nat) → (length keys ≤ length st)%nat →
    foldl (λ acc '(dim_idx, key),
        let* item_pos := acc in
        let* s := Py.index (strides b) (Z.of_nat dim_idx) in
        Ok (item_pos + s * key)) (Ok acc) (imap (λ i k, ((off + i)%nat, k)) keys)
    = Ok (acc + dot keys st)).
  { clear Hlen. induction keys as [|k keys IH]; intros st off acc Hst Hlen.
    - cbn. f_equal. lia.
    - destruct st as [|s st]; [simpl in Hlen; lia|].
      cbn [imap foldl bind].
      rewrite (index_nat _ (off + 0) s) by (rewrite <- Hst; reflexivity).
      cbn [bind]. rewrite dot_cons.
      rewrite (imap_ext _ (λ i k, ((S off + i)%nat, k))) by (intros; cbn; f_equal; lia).
      rewrite (IH st (S off)).
      + f_equal. lia.
      + intros i. replace (S off + i)%nat with (off + S i)%nat by lia.
        rewrite <- Hst. reflexivity.
      + simpl in Hlen. lia. }
  specialize (H (strides b) 0%nat 0). cbn [Nat.add] in H.
  rewrite H; [cbn [bind]; f_equal; lia|done|done].
Qed.

(** ** Floats *)

(** Adding [0.0] keeps a float up to the float comparison, which tells a
    NaN apart from itself. *)
Lemma add_zero_eqb (v : float) :
  PrimFloat.eqb (PrimFloat.add v PrimFloat.zero) v = negb (PrimFloat.is_nan v).
Proof.
  unfold PrimFloat.is_nan. rewrite negb_involutive.
  rewrite !FloatAxioms.eqb_spec, add_spec.
  change (Prim2SF PrimFloat.zero) with (S754_zero false).
  destruct (Prim2SF v) as [[|]| [|] | |s m e]; reflexivity.
Qed.

(** ** [permute] *)

Lemma permute_view (x : MiniBuffer) (order : list Z) :
  length (strides x) = length (shape x) →
  Forall (λ o, 0 ≤ o < Z.of_nat (length (shape x))) order →
  permute x order
  = add (permuted_view x order) (full_like (permuted_view x order) PrimFloat.zero).
Proof.
  intros Hlen Hord. unfold permute.
  rewrite (for_append_fmap _
    (λ o, (default 0 (shape x !! Z.to_nat o), default 0 (strides x !! Z.to_nat o)))).
  - cbn [bind]. unfold MiniBuffer_init, permuted_view, gather.
    rewrite <- !list_fmap_compose. reflexivity.
  - eapply Forall_impl; [exact Hord|]. intros o Ho. cbn beta in Ho |- *.
    destruct (lookup_lt_is_Some_2 (shape x) (Z.to_nat o)) as [d Hd]; [lia|].
    destruct (lookup_lt_is_Some_2 (strides x) (Z.to_nat o)) as [s Hs]; [lia|].
    rewrite (index_lookup _ _ _ (proj1 Ho) Hd), (index_lookup _ _ _ (proj1 Ho) Hs).
    rewrite Hd, Hs. reflexivity.
Qed.

Lemma gather_range (l : list Z) : gather l (Py.range (Z.of_nat (length l))) = l.
Proof.
  unfold gather, Py.range. apply list_eq. intros i.
  rewrite list_lookup_fmap.
  destruct (decide (i < length l)%nat) as [Hi|Hi].
  - rewrite lookup_seqZ_lt by lia. cbn [fmap option_fmap option_map].
    destruct (lookup_lt_is_Some_2 l i Hi) as [v Hv].
    replace (Z.to_nat (0 + Z.of_nat i)) with i by lia. by rewrite Hv.
  - rewrite lookup_seqZ_ge by lia. rewrite lookup_ge_None_2 by lia. reflexivity.
Qed.

Lemma materialized_contiguous (v : MiniBuffer) :
  shape v ≠ [] → Forall (λ n, 0 ≤ n) (shape v) → contiguous (materialized v).
Proof.
  intros Hrank Hdims. split; cbn [materialized shape strides data]; try done.
  rewrite length_fmap, length_offsets. by apply size_prod.
Qed.

(** What a key reads from a re-materialized view. *)
Lemma getitem_materialized (v : MiniBuffer) (key : list Z) :
  readable v → valid_key key (shape v) →
  getitem v key = Ok (peek (data v) (dot key (strides v)))
  ∧ getitem (materialized v) key
    = Ok (PrimFloat.add (peek (data v) (dot key (strides v))) PrimFloat.zero).
Proof.
  intros [Hrank Hstr Hdims Hoff] Hkey.
  pose proof (Forall2_length _ _ _ Hkey) as Hklen.
  pose proof (offsets_lookup_key _ (strides v) _ 0 Hkey) as Hlook.
  rewrite Z.add_0_l in Hlook.
  pose proof (dot_contiguous_bound _ _ Hkey) as Hb.
  split.
  - rewrite getitem_dot by lia. apply index_peek.
    rewrite Forall_forall in Hoff. apply Hoff.
    apply list_elem_of_lookup. eauto.
  - rewrite getitem_dot
      by (cbn [materialized strides]; rewrite length_contiguous_strides; lia).
    cbn [materialized strides data]. apply index_lookup; [lia|].
    rewrite list_lookup_fmap, Hlook. reflexivity.
Qed.

(** Claim C9. Permuting a readable buffer with the identity order succeeds:
    the shape and the strides are reordered positionally, which changes
    nothing, and the neutral addition re-materializes the view. The result
    is row-major, has the shape of the argument and holds, at every valid
    key, the element of the argument with zero added; the two compare equal
    unless the element is not a number, which compares equal to nothing. *)
Theorem permute_identity (x : MiniBuffer) :
  readable x →
  ∃ y, permute x (Py.range (Z.of_nat (length (shape x)))) = Ok y
     ∧ shape y = shape x
     ∧ contiguous y
     ∧ ∀ key, valid_key key (shape x) →
         ∃ v, getitem x key = Ok v
            ∧ getitem y key = Ok (PrimFloat.add v PrimFloat.zero)
            ∧ PrimFloat.eqb (PrimFloat.add v PrimFloat.zero) v
              = negb (PrimFloat.is_nan v).
Proof.
  intros Hx. pose proof Hx as [Hrank Hstr Hdims Hoff].
  assert (Hview : permuted_view x (Py.range (Z.of_nat (length (shape x)))) = x).
  { unfold permuted_view. rewrite gather_range.
    rewrite <- Hstr at 1. rewrite gather_range. by destruct x. }
  exists (materialized x). split; [|split; [|split]].
  - rewrite permute_view, Hview; [by apply add_zeros_materialized|done|].
    apply Forall_forall. intros o Ho%elem_of_range. exact Ho.
  - reflexivity.
  - by apply materialized_contiguous.
  - intros key Hkey. destruct (getitem_materialized x key Hx Hkey) as [H1 H2].
    eexists. split; [exact H1|]. split; [exact H2|]. apply add_zero_eqb.
Qed.

(** ** [expand] *)

Lemma contiguous_readable (b : MiniBuffer) : contiguous b → readable b.
Proof.
  intros [Hrank Hdims Hstr Hlen]. split; try done.
  - by rewrite Hstr, length_contiguous_strides.
  - rewrite Hstr, offsets_contiguous by done.
    apply Forall_seqZ. intros p Hp. unfold in_range. lia.
Qed.

Lemma dot_insert (key st : list Z) (a : nat) (ka N : Z) :
  key !! a = Some ka → (a < length st)%nat →
  dot key (<[a := N]> st) = dot (<[a := 0]> key) st + ka * N.
Proof.
  revert key st. induction a as [|a IH]; intros [|k key] [|s st] Hka Hlen;
    try done; try (simpl in Hlen; lia).
  - injection Hka as ->.
    change (<[0%nat := N]> (s :: st)) with (N :: st).
    change (<[0%nat := 0]> (ka :: key)) with (0 :: key).
    rewrite !dot_cons. lia.
  - change (<[S a := N]> (s :: st)) with (s :: <[a := N]> st).
    change (<[S a := 0]> (k :: key)) with (k :: <[a := 0]> key).
    rewrite !dot_cons.
    rewrite (IH key st) by (done || simpl in Hlen; lia). lia.
Qed.

Lemma prod_insert_one (dims : list Z) (a : nat) :
  dims !! a = Some 1 → Py.prod (<[a := 1]> dims) = Py.prod dims.
Proof. intros H. by rewrite list_insert_id. Qed.

Lemma imap_insert_one (dims : list Z) (a : nat) :
  imap (λ i dim, if Z.of_nat i =? Z.of_nat a then 1 else dim) dims = <[a := 1]> dims.
Proof.
  apply list_eq. intros i. rewrite list_lookup_imap.
  destruct (decide (i = a)) as [->|Hne].
  - destruct (dims !! a) as [d|] eqn:E; cbn.
    + rewrite Z.eqb_refl. rewrite list_lookup_insert_eq; [done|].
      by eapply lookup_lt_Some.
    + rewrite list_insert_ge; [by rewrite E|]. by apply lookup_ge_None.
  - rewrite list_lookup_insert_ne by done.
    destruct (dims !! i); cbn; [|done].
    destruct (Z.eqb_spec (Z.of_nat i) (Z.of_nat a)); [lia|done].
Qed.

Lemma length_repeat_list (d : list float) (k : Z) :
  length (Py.repeat_list d k) = (Z.to_nat k * length d)%nat.
Proof.
  unfold Py.repeat_list. induction (Z.to_nat k) as [|n IH]; [done|].
  simpl. simpl in IH. rewrite length_app, IH. lia.
Qed.

Lemma peek_repeat_list (d : list float) (k j o : Z) :
  0 ≤ j < k → 0 ≤ o < Z.of_nat (length d) →
  peek (Py.repeat_list d k) (j * Z.of_nat (length d) + o) = peek d o.
Proof.
  intros Hj Ho. unfold peek, Py.repeat_list.
  destruct (lookup_lt_is_Some_2 d (Z.to_nat o)) as [v Hv]; [lia|].
  rewrite Hv.
  replace (Z.to_nat (j * Z.of_nat (length d) + o))
    with (Z.to_nat j * length d + Z.to_nat o)%nat by nia.
  rewrite (proj2 (join_lookup_Some_same_length' (length d) _ (Z.to_nat j) (Z.to_nat o) v
             ltac:(by apply Forall_replicate) ltac:(lia))); [done|].
  exists d. split; [|done]. apply lookup_replicate_2. lia.
Qed.

Lemma expand_view (x : MiniBuffer) (a : nat) (k : Z) :
  (a < length (shape x))%nat → length (strides x) = length (shape x) →
  let view := mkMiniBuffer (Py.repeat_list (data x) k) (<[a := k]> (shape x))
                (<[a := Py.prod (<[a := 1]> (shape x))]> (strides x)) in
  expand x (Z.of_nat a) k = add view (full_like view PrimFloat.zero).
Proof.
  intros Ha Hlen view. unfold expand.
  rewrite (setitem_nat (shape x)) by lia. cbn [bind].
  rewrite (setitem_nat (strides x)) by lia. cbn [bind].
  rewrite imap_insert_one. reflexivity.
Qed.

Lemma expand_view_readable (x : MiniBuffer) (a : nat) (k : Z) :
  contiguous x → shape x !! a = Some 1 → 0 ≤ k →
  readable (mkMiniBuffer (Py.repeat_list (data x) k) (<[a := k]> (shape x))
              (<[a := Py.prod (<[a := 1]> (shape x))]> (strides x))).
Proof.
  intros [Hrank Hdims Hstr Hlen] Ha Hk.
  pose proof (lookup_lt_Some _ _ _ Ha) as Halt.
  split; cbn [shape strides data].
  - intros E. apply (f_equal length) in E. rewrite length_insert in E.
    destruct (shape x); simpl in *; lia.
  - rewrite !length_insert, Hstr. apply length_contiguous_strides.
  - apply Forall_insert; done.
  - apply Forall_forall. intros p Hp.
    apply elem_of_offsets in Hp as (key & Hkey & ->).
    assert (∃ ka, key !! a = Some ka ∧ 0 ≤ ka < k) as (ka & Hka & Hkab).
    { destruct (Forall2_lookup_r _ _ _ a k Hkey) as (ka & ? & ?).
      - by apply list_lookup_insert_eq.
      - eauto. }
    rewrite (dot_insert _ _ _ ka) by (done || rewrite Hstr, length_contiguous_strides; lia).
    rewrite prod_insert_one by done.
    assert (Hkey0 : valid_key (<[a := 0]> key) (shape x)).
    { rewrite <- (list_insert_id (shape x) a 1 Ha).
      rewrite <- (list_insert_insert_eq (shape x) a 1 k).
      apply Forall2_insert; [done|lia]. }
    pose proof (dot_contiguous_bound _ _ Hkey0) as Hb. rewrite <- Hstr in Hb.
    unfold in_range. rewrite length_repeat_list. nia.
Qed.

(** Claim C6. For a row-major buffer whose axis [a] has size one,
    [expand(a, k)] repeats the flat data [k] times, sets the stride of the
    axis to the product of the other sizes (the size of the axis counted as
    one) and re-materializes that view: the result is row-major, has the
    size [k] at axis [a], and its element at a key is the element of the
    argument at the key with [a] set to zero (with zero added). Expanding
    the shape (1, 3) to (2, 3) and the shape (3, 1) to (3, 2) over the same
    flat data gives the layouts [f0 f1 f2 f0 f1 f2] and [f0 f0 f1 f1 f2 f2],
    which differ as soon as two neighbours of the data do. *)
Theorem expand_size_one_axis (x : MiniBuffer) (a : nat) (k : Z) :
  contiguous x → shape x !! a = Some 1 → 0 ≤ k →
  let view := mkMiniBuffer (Py.repeat_list (data x) k) (<[a := k]> (shape x))
                (<[a := Py.prod (<[a := 1]> (shape x))]> (strides x)) in
  let z := λ v, PrimFloat.add v PrimFloat.zero in
  (∃ y, expand x (Z.of_nat a) k = Ok y
      ∧ add view (full_like view PrimFloat.zero) = Ok y
      ∧ shape y = <[a := k]> (shape x)
      ∧ contiguous y
      ∧ ∀ key, valid_key key (shape y) →
          ∃ v, getitem x (<[a := 0]> key) = Ok v ∧ getitem y key = Ok (z v))
  ∧ (∀ f0 f1 f2 : float,
       expand (MiniBuffer_init [f0; f1; f2] [1; 3] None) 0 2
         = Ok (mkMiniBuffer [z f0; z f1; z f2; z f0; z f1; z f2] [2; 3] [3; 1])
       ∧ expand (MiniBuffer_init [f0; f1; f2] [3; 1] None) 1 2
         = Ok (mkMiniBuffer [z f0; z f0; z f1; z f1; z f2; z f2] [3; 2] [2; 1])
       ∧ (z f0 ≠ z f1 ∨ z f1 ≠ z f2 →
          [z f0; z f1; z f2; z f0; z f1; z f2] ≠ [z f0; z f0; z f1; z f1; z f2; z f2])).
Proof.
  intros Hx Ha Hk view z. split.
  - pose proof Hx as [Hrank Hdims Hstr Hlen].
    pose proof (lookup_lt_Some _ _ _ Ha) as Halt.
    pose proof (expand_view_readable x a k Hx Ha Hk) as Hview.
    fold view in Hview.
    exists (materialized view). split; [|split; [|split; [|split]]].
    + rewrite expand_view by (done || by rewrite Hstr, length_contiguous_strides).
      by apply add_zeros_materialized.
    + by apply add_zeros_materialized.
    + reflexivity.
    + apply materialized_contiguous; apply Hview.
    + intros key Hkey. cbn [materialized shape view] in Hkey.
      assert (∃ ka, key !! a = Some ka ∧ 0 ≤ ka < k) as (ka & Hka & Hkab).
      { destruct (Forall2_lookup_r _ _ _ a k Hkey) as (ka & ? & ?).
        - by apply list_lookup_insert_eq.
        - eauto. }
      assert (Hkey0 : valid_key (<[a := 0]> key) (shape x)).
      { rewrite <- (list_insert_id (shape x) a 1 Ha).
        rewrite <- (list_insert_insert_eq (shape x) a 1 k).
        apply Forall2_insert; [done|lia]. }
      destruct (getitem_materialized x _ (contiguous_readable _ Hx) Hkey0) as [H1 _].
      destruct (getitem_materialized view key Hview Hkey) as [_ H2].
      eexists. split; [exact H1|]. rewrite H2. unfold z. do 2 f_equal.
      cbn [view data strides].
      rewrite (dot_insert _ _ _ ka) by (done || rewrite Hstr, length_contiguous_strides; lia).
      rewrite prod_insert_one by done.
      pose proof (dot_contiguous_bound _ _ Hkey0) as Hb. rewrite <- Hstr in Hb.
      rewrite <- Hlen. rewrite Z.add_comm. rewrite peek_repeat_list by lia.
      reflexivity.
  - intros f0 f1 f2. split; [reflexivity|]. split; [reflexivity|].
    intros Hne [= E1 E2 E3]. destruct Hne as [Hne|Hne]; congruence.
Qed.

Lemma expand_size_one_axis_witness :
  ∃ y, expand (MiniBuffer_init [1; 2; 3]%float [3; 1] None) 1 2 = Ok y
     ∧ shape y = [3; 2]
     ∧ getitem y [2; 1] = Ok 3%float.
Proof.
  destruct (expand_size_one_axis (MiniBuffer_init [1; 2; 3]%float [3; 1] None) 1 2)
    as [(y & Hy & _ & Hs & _ & Hget) _].
  - split; [done|repeat constructor; lia|reflexivity|reflexivity].
  - reflexivity.
  - lia.
  - exists y. split; [exact Hy|]. split; [exact Hs|].
    destruct (Hget [2; 1]) as (v & Hv & Hyv).
    + rewrite Hs. repeat constructor; lia.
    + injection Hv as <-. exact Hyv.
Defined.

Lemma permute_identity_witness :
  ∃ y, permute (MiniBuffer_init [1; 2; 3; 4]%float [2; 2] None) [0; 1] = Ok y
     ∧ shape y = [2; 2]
     ∧ getitem y [1; 0] = Ok 3%float.
Proof.
  destruct (permute_identity (MiniBuffer_init [1; 2; 3; 4]%float [2; 2] None))
    as (y & Hy & Hs & _ & Hget).
  - apply contiguous_readable.
    split; [done|repeat constructor; lia|reflexivity|reflexivity].
  - exists y. split; [exact Hy|]. split; [exact Hs|].
    destruct (Hget [1; 0]) as (v & Hv & Hyv & _).
    + repeat constructor; lia.
    + injection Hv as <-. exact Hyv.
Defined.

(** Not every buffer comes back elementwise equal. An element that is not
    a number comes back as not a number, and that compares equal to
    nothing, itself included: the result is then not elementwise equal to
    the argument. And on a buffer without axes the re-materialization asks
    for the size of an axis that is not there: [permute] raises
    [IndexError]. *)
Lemma permute_identity_unequal :
  (∃ y v w,
     permute (MiniBuffer_init [PrimFloat.nan] [1] None) [0] = Ok y
     ∧ getitem (MiniBuffer_init [PrimFloat.nan] [1] None) [0] = Ok v
     ∧ getitem y [0] = Ok w
     ∧ PrimFloat.eqb w v = false)
  ∧ permute (MiniBuffer_init [1%float] [] None) [] = Raise IndexError.
Proof.
  split; [|reflexivity].
  eexists _, _, _. split; [reflexivity|]. split; [reflexivity|].
  split; reflexivity.
Qed.

(** ** Exchanging two axes *)

Lemma index_last {A : Type} (l : list A) (x : A) :
  l !! (length l - 1)%nat = Some x → Py.index l (-1) = Ok x.
Proof.
  intros Hx. pose proof (lookup_lt_Some _ _ _ Hx) as Hlt.
  unfold Py.index. change (-1 <? 0) with true. cbn iota.
  destruct (Z.leb_spec 0 (-1 + Z.of_nat (length l))); [|lia].
  destruct (Z.ltb_spec (-1 + Z.of_nat (length l)) (Z.of_nat (length l))); [|lia].
  cbn [andb]. replace (Z.to_nat (-1 + Z.of_nat (length l))) with (length l - 1)%nat by lia.
  by rewrite Hx.
Qed.

Lemma setitem_last {A : Type} (l : list A) (v : A) :
  l ≠ [] → Py.setitem l (-1) v = Ok (<[(length l - 1)%nat := v]> l).
Proof.
  intros Hl. assert (0 < length l)%nat by (destruct l; [done|simpl; lia]).
  unfold Py.setitem. change (-1 <? 0) with true. cbn iota.
  destruct (Z.leb_spec 0 (-1 + Z.of_nat (length l))); [|lia].
  destruct (Z.ltb_spec (-1 + Z.of_nat (length l)) (Z.of_nat (length l))); [|lia].
  cbn [andb]. by replace (Z.to_nat (-1 + Z.of_nat (length l))) with (length l - 1)%nat by lia.
Qed.

Lemma exchanged_eq {A : Type} (l : list A) (a b : nat) (x y : A) :
  l !! a = Some x → l !! b = Some y → exchanged l a b = <[b := x]> (<[a := y]> l).
Proof. intros Ha Hb. unfold exchanged. by rewrite Ha, Hb. Qed.

Lemma length_exchanged {A : Type} (l : list A) (a b : nat) :
  length (exchanged l a b) = length l.
Proof.
  unfold exchanged. destruct (l !! a), (l !! b); try done.
  by rewrite !length_insert.
Qed.

Lemma lookup_exchanged {A : Type} (l : list A) (a b i : nat) :
  (a < length l)%nat → (b < length l)%nat →
  exchanged l a b !! i = if decide (i = b) then l !! a
                         else if decide (i = a) then l !! b else l !! i.
Proof.
  intros Ha Hb.
  destruct (lookup_lt_is_Some_2 l a Ha) as [x Hx].
  destruct (lookup_lt_is_Some_2 l b Hb) as [y Hy].
  rewrite (exchanged_eq l a b x y) by done.
  destruct (decide (i = b)) as [->|Hib].
  - rewrite list_lookup_insert_eq by (by rewrite length_insert). done.
  - rewrite list_lookup_insert_ne by done.
    destruct (decide (i = a)) as [->|Hia].
    + rewrite list_lookup_insert_eq by done. done.
    + by rewrite list_lookup_insert_ne.
Qed.

Lemma exchanged_involutive {A : Type} (l : list A) (a b : nat) :
  (a < length l)%nat → (b < length l)%nat →
  exchanged (exchanged l a b) a b = l.
Proof.
  intros Ha Hb. apply list_eq. intros i.
  rewrite lookup_exchanged by (by rewrite length_exchanged).
  rewrite !lookup_exchanged by done.
  repeat case_decide; subst; try done.
Qed.

Lemma swap_exchanged {A : Type} (l : list A) (a : nat) :
  (a < length l)%nat →
  Py.swap l (Z.of_nat a) (-1) = Ok (exchanged l a (length l - 1)).
Proof.
  intros Ha.
  destruct (lookup_lt_is_Some_2 l a Ha) as [x Hx].
  destruct (lookup_lt_is_Some_2 l (length l - 1)) as [y Hy]; [lia|].
  unfold Py.swap. rewrite (index_last l y Hy). cbn [bind].
  rewrite (index_nat l a x Hx). cbn [bind].
  rewrite setitem_nat by done. cbn [bind].
  rewrite setitem_last by (intros E; apply (f_equal length) in E;
                           rewrite length_insert in E; destruct l; simpl in *; lia).
  rewrite length_insert. by rewrite (exchanged_eq l a _ x y).
Qed.

Lemma gather_lookup (l order : list Z) (i : nat) (o : Z) (v : Z) :
  order !! i = Some o → l !! Z.to_nat o = Some v → gather l order !! i = Some v.
Proof. intros Ho Hv. unfold gather. by rewrite list_lookup_fmap, Ho; cbn; rewrite Hv. Qed.

Lemma gather_exchanged (l : list Z) (a b : nat) :
  (a < length l)%nat → (b < length l)%nat →
  gather l (exchanged (Py.range (Z.of_nat (length l))) a b) = exchanged l a b.
Proof.
  intros Ha Hb. set (r := Py.range (Z.of_nat (length l))).
  assert (Hr : ∀ i, (i < length l)%nat → r !! i = Some (Z.of_nat i)).
  { intros i Hi. unfold r, Py.range. by rewrite lookup_seqZ_lt by lia. }
  assert (Hrl : length r = length l).
  { unfold r, Py.range. rewrite length_seqZ. lia. }
  apply list_eq. intros i. unfold gather. rewrite list_lookup_fmap.
  rewrite !lookup_exchanged by (done || by rewrite Hrl).
  destruct (decide (i < length l)%nat) as [Hi|Hi].
  - repeat case_decide; subst; rewrite Hr by done; cbn; rewrite Nat2Z.id;
      match goal with |- Some (default 0 (l !! ?j)) = _ =>
        destruct (lookup_lt_is_Some_2 l j ltac:(done)) as [v ->] end; done.
  - repeat case_decide; subst; try lia.
    rewrite (lookup_ge_None_2 r) by lia. rewrite (lookup_ge_None_2 l) by lia. done.
Qed.

Lemma dot_comm (key st : list Z) : dot key st = dot st key.
Proof.
  revert st. induction key as [|k key IH]; intros [|s st]; try done.
  rewrite !dot_cons, IH. lia.
Qed.

Lemma dot_update (key st : list Z) (i : nat) (k s v : Z) :
  key !! i = Some k → st !! i = Some s →
  dot key (<[i := v]> st) = dot key st + k * (v - s).
Proof.
  intros Hk Hs. pose proof (lookup_lt_Some _ _ _ Hs) as Hlt.
  rewrite (dot_insert key st i k v) by done.
  rewrite <- (list_insert_id st i s Hs) at 2.
  rewrite (dot_insert key st i k s) by done. lia.
Qed.

Lemma dot_exchanged (key st : list Z) (a b : nat) :
  length key = length st → (a < length st)%nat → (b < length st)%nat →
  dot key (exchanged st a b) = dot (exchanged key a b) st.
Proof.
  intros Hlen Ha Hb.
  destruct (lookup_lt_is_Some_2 st a Ha) as [sa Hsa].
  destruct (lookup_lt_is_Some_2 st b Hb) as [sb Hsb].
  destruct (lookup_lt_is_Some_2 key a ltac:(lia)) as [ka Hka].
  destruct (lookup_lt_is_Some_2 key b ltac:(lia)) as [kb Hkb].
  rewrite (exchanged_eq st a b sa sb), (exchanged_eq key a b ka kb) by done.
  destruct (decide (a = b)) as [->|Hab].
  - assert (sa = sb) as -> by congruence. assert (ka = kb) as -> by congruence.
    rewrite !list_insert_insert_eq, !list_insert_id by done. done.
  - rewrite (dot_update key _ b kb sb)
      by (done || by rewrite list_lookup_insert_ne).
    rewrite (dot_update key st a ka sa) by done.
    rewrite (dot_comm (<[b:=ka]> (<[a:=kb]> key)) st).
    rewrite (dot_update st _ b sb kb)
      by (done || by rewrite list_lookup_insert_ne).
    rewrite (dot_update st key a sa ka) by done.
    rewrite (dot_comm st key). lia.
Qed.

Lemma valid_key_exchanged (key dims : list Z) (a b : nat) :
  (a < length dims)%nat → (b < length dims)%nat →
  valid_key key (exchanged dims a b) → valid_key (exchanged key a b) dims.
Proof.
  intros Ha Hb Hkey.
  pose proof (Forall2_length _ _ _ Hkey) as Hlen. rewrite length_exchanged in Hlen.
  apply Forall2_same_length_lookup. split; [by rewrite length_exchanged|].
  intros i k n Hk Hn.
  rewrite lookup_exchanged in Hk by lia.
  assert (Hlook : ∀ j k' n', key !! j = Some k' → exchanged dims a b !! j = Some n' →
                             0 ≤ k' < n').
  { intros j k' n' H1 H2. by eapply (Forall2_lookup_lr _ _ _ _ _ _ Hkey). }
  repeat case_decide; subst.
  - eapply (Hlook a); [done|]. rewrite lookup_exchanged by done.
    repeat case_decide; subst; done.
  - eapply (Hlook b); [done|]. rewrite lookup_exchanged by done.
    repeat case_decide; subst; done.
  - eapply (Hlook i); [done|]. rewrite lookup_exchanged by done.
    repeat case_decide; subst; done.
Qed.

(** ** The sums along the last axis *)

Lemma sum_loop (x : MiniBuffer) (depth_idx s p : Z) (l : list Z) (acc : float) :
  Py.index (strides x) depth_idx = Ok s →
  Forall (λ i, in_range (data x) (p + i * s)) l →
  foldl (λ acc val_idx,
      let* sum := acc in
      let* s := Py.index (strides x) depth_idx in
      let val_pos := p + val_idx * s in
      let* v := Py.index (data x) val_pos in
      Ok (PrimFloat.add sum v)) (Ok acc) l
  = Ok (foldl PrimFloat.add acc ((λ j, peek (data x) (p + j * s)) <$> l)).
Proof.
  intros Hs Hl.
  set (F := λ (acc : result float) (val_idx : Z),
      let* sum := acc in
      let* s := Py.index (strides x) depth_idx in
      let val_pos := p + val_idx * s in
      let* v := Py.index (data x) val_pos in
      Ok (PrimFloat.add sum v)).
  assert (Hstep : ∀ acc i, in_range (data x) (p + i * s) →
            F (Ok acc) i = Ok (PrimFloat.add acc (peek (data x) (p + i * s)))).
  { intros acc' i Hi. unfold F. cbn [bind]. rewrite Hs. cbn [bind].
    by rewrite (index_peek _ _ Hi). }
  clearbody F. revert acc.
  induction Hl as [|i l Hi _ IH]; intros acc; [done|].
  cbn [foldl fmap list_fmap]. rewrite Hstep by done. apply IH.
Qed.

Lemma row_sums_cons2 (d : list float) (n m : Z) (dims strides : list Z) (base : Z) :
  row_sums d (n :: m :: dims) strides base
  = Py.range n ≫= (λ i, row_sums d (m :: dims) (tail strides)
                          (base + i * default 0 (head strides))).
Proof. reflexivity. Qed.

Lemma offsets_last_axis (n s base : Z) :
  offsets [n] [s] base = (λ j, base + j * s) <$> Py.range n.
Proof. cbn [offsets head tail default from_option id]. apply bind_singleton. Qed.

Lemma traverse_sum_row_sums (x : MiniBuffer) (fuel d : nat) (p : Z) :
  (d < length (shape x))%nat → (length (shape x) - d ≤ fuel)%nat →
  (length (shape x) ≤ length (strides x))%nat →
  Forall (in_range (data x)) (offsets (drop d (shape x)) (drop d (strides x)) p) →
  _traverse_dims_and_sum_along_last fuel (Z.of_nat d) p x
  = Ok (row_sums (data x) (drop d (shape x)) (drop d (strides x)) p).
Proof.
  intros Hd Hfuel Hsx. revert d p Hd Hfuel.
  induction fuel as [|fuel IH]; intros d p Hd Hfuel Hx; [lia|].
  destruct (lookup_lt_is_Some_2 (shape x) d Hd) as [n Hn].
  destruct (lookup_lt_is_Some_2 (strides x) d ltac:(lia)) as [s Hs].
  rewrite (drop_S _ _ _ Hn) in Hx |- *.
  rewrite (drop_S _ _ _ Hs) in Hx |- *.
  cbn [_traverse_dims_and_sum_along_last].
  rewrite (index_nat _ _ _ Hn). cbn [bind].
  destruct (Z.eqb_spec (Z.of_nat d) (Z.of_nat (length (shape x)) - 1)) as [E|E].
  - rewrite (drop_ge (shape x) (S d)) in Hx |- * by lia.
    cbn [row_sums head default from_option id].
    cbn [offsets head tail default from_option id] in Hx.
    rewrite bind_singleton in Hx. rewrite Forall_fmap in Hx.
    rewrite (sum_loop x _ s p _ _ (index_nat _ _ _ Hs)); [done|].
    eapply Forall_impl; [exact Hx|]. done.
  - destruct (drop (S d) (shape x)) as [|m dims] eqn:Edrop.
    { apply (f_equal length) in Edrop. rewrite length_drop in Edrop. simpl in Edrop. lia. }
    rewrite row_sums_cons2. cbn [head tail default from_option id].
    cbn [offsets head tail default from_option id] in Hx.
    rewrite Forall_bind in Hx.
    apply for_extend_bind. apply Forall_forall. intros i Hi.
    rewrite Forall_forall in Hx.
    rewrite (index_nat _ _ _ Hs). cbn [bind].
    replace (Z.of_nat d + 1) with (Z.of_nat (S d)) by lia.
    rewrite IH; [by rewrite Edrop|lia|lia|].
    rewrite Edrop. by apply Hx.
Qed.

Lemma row_sums_cons_app (d : list float) (m n : Z) (pre strides : list Z) (base : Z) :
  row_sums d (m :: pre ++ [n]) strides base
  = Py.range m ≫= (λ i, row_sums d (pre ++ [n]) (tail strides)
                          (base + i * default 0 (head strides))).
Proof. destruct pre; reflexivity. Qed.

Lemma length_row_sums (d : list float) (pre strides : list Z) (n base : Z) :
  length (row_sums d (pre ++ [n]) strides base) = size pre.
Proof.
  revert strides base. induction pre as [|m pre IH]; intros strides base; [done|].
  cbn [app]. rewrite row_sums_cons_app.
  rewrite (length_bind_const _ _ (size pre)) by (intros; apply IH).
  unfold Py.range. rewrite length_seqZ. reflexivity.
Qed.

(** The sum that belongs to a key of the axes before the last. *)
Lemma row_sums_lookup (d : list float) (pre kpre strides : list Z) (n base : Z) :
  valid_key kpre pre →
  row_sums d (pre ++ [n]) strides base
    !! Z.to_nat (dot kpre (contiguous_strides pre))
  = Some (fsum ((λ j, peek d (base + dot (kpre ++ [j]) strides)) <$> Py.range n)).
Proof.
  intros Hkey. revert strides base.
  induction Hkey as [|k m kpre pre Hk Hkey IH]; intros strides base.
  - change (row_sums d ([] ++ [n]) strides base !! Z.to_nat (dot [] (contiguous_strides [])))
      with (Some (fsum ((λ j, peek d (base + j * default 0 (head strides))) <$> Py.range n))).
    do 2 f_equal. apply list_fmap_ext. intros _ j _. f_equal.
    cbn [app]. rewrite dot_cons_head. unfold dot at 1. cbn. lia.
  - cbn [app contiguous_strides]. rewrite row_sums_cons_app, dot_cons.
    pose proof (dot_contiguous_bound _ _ Hkey) as Hb.
    pose proof (size_prod _ (valid_key_dims _ _ Hkey)) as Hsz.
    replace (Z.to_nat (k * Py.prod pre + dot kpre (contiguous_strides pre)))
      with (Z.to_nat k * size pre + Z.to_nat (dot kpre (contiguous_strides pre)))%nat
      by nia.
    rewrite (lookup_bind_blocks _ _ (size pre) _ _ k).
    + rewrite IH. do 2 f_equal. apply list_fmap_ext. intros _ j _. f_equal.
      rewrite (dot_cons_head k). lia.
    + intros. apply length_row_sums.
    + unfold Py.range. rewrite lookup_seqZ. lia.
    + lia.
Qed.

(** ** [sum] *)

Lemma Forall_exchanged {A : Type} (P : A → Prop) (l : list A) (a b : nat) :
  Forall P l → Forall P (exchanged l a b).
Proof.
  intros Hl. unfold exchanged.
  destruct (l !! a) as [x|] eqn:Ea; [|done].
  destruct (l !! b) as [y|] eqn:Eb; [|done].
  rewrite Forall_lookup in Hl.
  apply Forall_insert; [apply Forall_insert; [by apply Forall_lookup|]|]; eauto.
Qed.

Lemma exchanged_nil {A : Type} (l : list A) (a b : nat) : l ≠ [] → exchanged l a b ≠ [].
Proof.
  intros Hl E. apply (f_equal length) in E. rewrite length_exchanged in E.
  by destruct l.
Qed.

Lemma length_range (n : nat) : length (Py.range (Z.of_nat n)) = n.
Proof. unfold Py.range. rewrite length_seqZ. lia. Qed.

Lemma permuted_view_exchanged (b : MiniBuffer) (a c : nat) :
  length (strides b) = length (shape b) →
  (a < length (shape b))%nat → (c < length (shape b))%nat →
  permuted_view b (exchanged (Py.range (Z.of_nat (length (shape b)))) a c)
  = mkMiniBuffer (data b) (exchanged (shape b) a c) (exchanged (strides b) a c).
Proof.
  intros Hlen Ha Hc. unfold permuted_view. f_equal.
  - by apply gather_exchanged.
  - rewrite <- Hlen. apply gather_exchanged; lia.
Qed.

Lemma exchanged_view_readable (b : MiniBuffer) (a c : nat) :
  contiguous b → (a < length (shape b))%nat → (c < length (shape b))%nat →
  readable (mkMiniBuffer (data b) (exchanged (shape b) a c) (exchanged (strides b) a c)).
Proof.
  intros [Hrank Hdims Hstr Hlen] Ha Hc.
  pose proof (length_contiguous_strides (shape b)) as Hcl.
  split; cbn [shape strides data].
  - by apply exchanged_nil.
  - rewrite !length_exchanged, Hstr. done.
  - by apply Forall_exchanged.
  - apply Forall_forall. intros p Hp.
    apply elem_of_offsets in Hp as (key & Hkey & ->).
    pose proof (Forall2_length _ _ _ Hkey) as Hkl. rewrite length_exchanged in Hkl.
    rewrite dot_exchanged by (rewrite Hstr, Hcl; lia).
    apply valid_key_exchanged in Hkey; [|done..].
    pose proof (dot_contiguous_bound _ _ Hkey) as Hb. rewrite <- Hstr in Hb.
    unfold in_range. lia.
Qed.

Lemma exchanged_order_in_range (r a c : nat) :
  (a < r)%nat → (c < r)%nat →
  Forall (λ o, 0 ≤ o < Z.of_nat r) (exchanged (Py.range (Z.of_nat r)) a c).
Proof.
  intros Ha Hc. apply Forall_exchanged.
  apply Forall_forall. intros o Ho%elem_of_range. done.
Qed.

(** [permute] with two axes exchanged, on a row-major buffer. *)
Lemma permute_exchanged (b : MiniBuffer) (a c : nat) :
  contiguous b → (a < length (shape b))%nat → (c < length (shape b))%nat →
  permute b (exchanged (Py.range (Z.of_nat (length (shape b)))) a c)
  = Ok (materialized
          (mkMiniBuffer (data b) (exchanged (shape b) a c) (exchanged (strides b) a c))).
Proof.
  intros Hb Ha Hc.
  assert (Hlen : length (strides b) = length (shape b)).
  { destruct Hb as [_ _ -> _]. apply length_contiguous_strides. }
  rewrite permute_view by (done || by apply exchanged_order_in_range).
  rewrite permuted_view_exchanged by done.
  apply add_zeros_materialized. by apply exchanged_view_readable.
Qed.

Lemma insert_last_app (pre : list Z) (n v : Z) :
  <[length pre := v]> (pre ++ [n]) = pre ++ [v].
Proof. rewrite insert_app_r_alt by lia. by rewrite Nat.sub_diag. Qed.

Lemma prod_app_one (pre : list Z) : Py.prod (pre ++ [1]) = Py.prod pre.
Proof. induction pre as [|m pre IH]; [done|]. cbn [app]. rewrite !prod_cons, IH. done. Qed.

Lemma contiguous_strides_app_one (pre : list Z) :
  contiguous_strides (pre ++ [1]) = contiguous_strides pre ++ [1].
Proof.
  induction pre as [|m pre IH]; [done|].
  cbn [app contiguous_strides]. by rewrite prod_app_one, IH.
Qed.

Lemma split_last (l : list Z) :
  l ≠ [] → ∃ pre n, l = pre ++ [n] ∧ length pre = (length l - 1)%nat.
Proof.
  intros Hl. destruct (exists_last Hl) as (pre & n & ->).
  exists pre, n. split; [done|]. rewrite length_app. simpl. lia.
Qed.

Lemma exchanged_insert_one (dims : list Z) (a : nat) :
  (a < length dims)%nat →
  exchanged (<[a := 1]> dims) a (length dims - 1)
  = <[(length dims - 1)%nat := 1]> (exchanged dims a (length dims - 1)).
Proof.
  intros Ha. set (last := (length dims - 1)%nat).
  assert (Hlast : (last < length dims)%nat) by (unfold last; lia).
  apply list_eq. intros i.
  destruct (decide (i < length dims)%nat) as [Hi|Hi].
  - rewrite lookup_exchanged by (rewrite length_insert; lia).
    destruct (decide (i = last)) as [->|Hil].
    + rewrite (list_lookup_insert_eq (exchanged dims a last))
        by (rewrite length_exchanged; lia).
      by rewrite list_lookup_insert_eq.
    + rewrite (list_lookup_insert_ne (exchanged dims a last)) by done.
      rewrite lookup_exchanged by lia.
      repeat case_decide; subst; try done.
      * by rewrite list_lookup_insert_ne by lia.
      * by rewrite list_lookup_insert_ne.
  - rewrite !lookup_ge_None_2;
      rewrite ?length_insert, ?length_exchanged, ?length_insert; (done || lia).
Qed.

Lemma sum_sum_steps (x : MiniBuffer) (a : nat) :
  contiguous x → (a < length (shape x))%nat →
  sum x (Z.of_nat a) = Ok (sum_steps x a).
Proof.
  intros Hx Ha. pose proof Hx as [Hrank Hdims Hstr Hlen].
  set (last := (length (shape x) - 1)%nat).
  assert (Hlast : (last < length (shape x))%nat) by (unfold last; lia).
  unfold sum. rewrite imap_insert_one.
  rewrite swap_exchanged by (by rewrite length_range). cbn [bind].
  rewrite swap_exchanged by (by rewrite length_insert). cbn [bind].
  rewrite length_range, length_insert. fold last.
  rewrite permute_exchanged by done. cbn [bind].
  set (x1 := materialized (mkMiniBuffer (data x) (exchanged (shape x) a last)
                             (exchanged (strides x) a last))).
  assert (Hx1 : contiguous x1).
  { apply materialized_contiguous; cbn [shape].
    - by apply exchanged_nil.
    - by apply Forall_exchanged. }
  assert (Hx1s : shape x1 = exchanged (shape x) a last) by reflexivity.
  assert (Hx1l : length (shape x1) = length (shape x))
    by (by rewrite Hx1s, length_exchanged).
  unfold stack_depth.
  rewrite (traverse_sum_row_sums x1 _ 0 0);
    [|lia|lia|destruct Hx1 as [_ _ -> _]; rewrite length_contiguous_strides; lia
     |rewrite !drop_0; apply (contiguous_readable _ Hx1)].
  cbn [bind]. rewrite !drop_0.
  set (sums := row_sums (data x1) (shape x1) (strides x1) 0).
  unfold last. rewrite exchanged_insert_one by done. fold last.
  rewrite <- Hx1s.
  set (out_shape := <[last := 1]> (shape x1)).
  assert (Hout : length out_shape = length (shape x))
    by (unfold out_shape; by rewrite length_insert).
  assert (Hx2 : contiguous (MiniBuffer_init sums out_shape None)).
  { destruct (split_last (shape x1)) as (pre & n & Hpre & Hprel);
      [by destruct Hx1|].
    assert (Hop : out_shape = pre ++ [1]).
    { unfold out_shape, last. rewrite <- Hx1l, <- Hprel, Hpre. apply insert_last_app. }
    assert (Hpred : Forall (λ n, 0 ≤ n) pre).
    { destruct Hx1 as [_ Hd _ _]. rewrite Hpre in Hd. by apply Forall_app in Hd as [? _]. }
    split; cbn [MiniBuffer_init shape strides data].
    - rewrite Hop. by destruct pre.
    - rewrite Hop. apply Forall_app. split; [done|]. repeat constructor. lia.
    - apply get_strides_from_shape_contiguous.
    - unfold sums. rewrite Hpre, length_row_sums, Hop, prod_app_one.
      by apply size_prod. }
  replace (length (shape x)) with (length (shape (MiniBuffer_init sums out_shape None)))
    by done.
  rewrite permute_exchanged by (done || cbn [MiniBuffer_init shape]; lia).
  cbn [bind MiniBuffer_init shape strides data].
  rewrite get_strides_from_shape_contiguous.
  rewrite add_zeros_materialized; [reflexivity|].
  apply contiguous_readable, materialized_contiguous; cbn [shape].
  - apply exchanged_nil. destruct Hx2 as [H _ _ _]. exact H.
  - apply Forall_exchanged. destruct Hx2 as [_ H _ _]. exact H.
Qed.

Lemma getitem_element (b : MiniBuffer) (key : list Z) :
  readable b → valid_key key (shape b) → getitem b key = Ok (element b key).
Proof. intros Hb Hkey. by destruct (getitem_materialized b key Hb Hkey) as [H _]. Qed.

Lemma materialized_element (v : MiniBuffer) (key : list Z) :
  valid_key key (shape v) →
  element (materialized v) key = PrimFloat.add (element v key) PrimFloat.zero.
Proof.
  intros Hkey. unfold element at 1, peek. cbn [materialized data strides].
  rewrite list_lookup_fmap, (offsets_lookup_key _ (strides v) _ 0 Hkey).
  cbn. by rewrite Z.add_0_l.
Qed.

Lemma dot_app (k1 k2 s1 s2 : list Z) :
  length k1 = length s1 → dot (k1 ++ k2) (s1 ++ s2) = dot k1 s1 + dot k2 s2.
Proof.
  revert s1. induction k1 as [|k k1 IH]; intros [|s s1] Hlen; try done.
  cbn [app]. rewrite !dot_cons, IH by (simpl in Hlen; lia). lia.
Qed.

Lemma exchanged_insert_last (key : list Z) (a : nat) (j : Z) :
  (a < length key)%nat →
  exchanged (<[(length key - 1)%nat := j]> (exchanged key a (length key - 1)))
            a (length key - 1)
  = <[a := j]> key.
Proof.
  intros Ha. set (last := (length key - 1)%nat).
  assert (Hlast : (last < length key)%nat) by (unfold last; lia).
  apply list_eq. intros i.
  destruct (decide (i < length key)%nat) as [Hi|Hi].
  - rewrite lookup_exchanged by (rewrite length_insert, length_exchanged; lia).
    destruct (decide (i = a)) as [->|Hia].
    + rewrite (list_lookup_insert_eq key) by done.
      destruct (decide (a = last)) as [->|Hal].
      * by rewrite list_lookup_insert_eq by (rewrite length_exchanged; lia).
      * by rewrite list_lookup_insert_eq by (rewrite length_exchanged; lia).
    + rewrite (list_lookup_insert_ne key) by done.
      destruct (decide (i = last)) as [->|Hil].
      * rewrite list_lookup_insert_ne by done.
        rewrite lookup_exchanged by done.
        repeat case_decide; subst; done.
      * rewrite list_lookup_insert_ne by done.
        rewrite lookup_exchanged by done.
        repeat case_decide; subst; done.
  - rewrite !lookup_ge_None_2;
      rewrite ?length_exchanged, ?length_insert, ?length_exchanged; (done || lia).
Qed.

(** The element of [sum_steps] at a key: the elements of [x] along the axis,
    each re-materialized once, added from left to right, and the sum
    re-materialized twice. *)
Lemma sum_steps_element (x : MiniBuffer) (a : nat) (n : Z) (key : list Z) :
  contiguous x → shape x !! a = Some n →
  valid_key key (<[a := 1]> (shape x)) →
  let z := λ v, PrimFloat.add v PrimFloat.zero in
  element (sum_steps x a) key
  = z (z (fsum ((λ j, z (element x (<[a := j]> key))) <$> Py.range n))).
Proof.
  intros Hx Han Hkey z. pose proof Hx as [Hrank Hdims Hstr Hlen].
  pose proof (lookup_lt_Some _ _ _ Han) as Ha.
  pose proof (Forall2_length _ _ _ Hkey) as Hkl. rewrite length_insert in Hkl.
  pose proof (length_contiguous_strides (shape x)) as Hcl.
  unfold sum_steps.
  set (last := (length (shape x) - 1)%nat).
  assert (Hlast : (last < length (shape x))%nat) by (unfold last; lia).
  set (view1 := mkMiniBuffer (data x) (exchanged (shape x) a last)
                  (exchanged (strides x) a last)).
  set (x1 := materialized view1).
  set (out_shape := <[last := 1]> (shape x1)).
  set (sums := row_sums (data x1) (shape x1) (strides x1) 0).
  set (view3 := mkMiniBuffer sums (exchanged out_shape a last)
                  (exchanged (contiguous_strides out_shape) a last)).
  assert (Hos : exchanged out_shape a last = <[a := 1]> (shape x)).
  { unfold out_shape, x1, view1. cbn [materialized shape].
    unfold last. rewrite <- exchanged_insert_one by done.
    apply exchanged_involutive; rewrite length_insert; lia. }
  assert (Hol : length out_shape = length (shape x)).
  { unfold out_shape, x1, view1. cbn [materialized shape].
    by rewrite length_insert, length_exchanged. }
  rewrite materialized_element by (cbn [materialized shape view3]; by rewrite Hos).
  rewrite materialized_element by (cbn [shape view3]; by rewrite Hos).
  fold (z (element view3 key)). fold (z (z (element view3 key))). do 2 f_equal.
  unfold element at 1. cbn [view3 data strides].
  rewrite dot_exchanged
    by (rewrite ?length_contiguous_strides; lia).
  assert (Hkey' : valid_key (exchanged key a last) out_shape).
  { apply valid_key_exchanged; [lia..|]. by rewrite Hos. }
  destruct (split_last (shape x1)) as (pre & n' & Hpre & Hprel).
  { unfold x1, view1. cbn [materialized shape]. by apply exchanged_nil. }
  assert (Hx1l : length (shape x1) = length (shape x)).
  { unfold x1, view1. cbn [materialized shape]. by rewrite length_exchanged. }
  assert (Hn' : n' = n).
  { assert (shape x1 !! last = Some n) as H1.
    { unfold x1, view1. cbn [materialized shape].
      rewrite lookup_exchanged by done. by rewrite decide_True. }
    rewrite Hpre in H1. rewrite lookup_app_r in H1 by lia.
    replace (last - length pre)%nat with 0%nat in H1 by lia. by injection H1. }
  subst n'.
  assert (Hop : out_shape = pre ++ [1]).
  { unfold out_shape. unfold last. rewrite <- Hx1l, <- Hprel, Hpre. apply insert_last_app. }
  rewrite Hop in Hkey'.
  apply Forall2_app_inv_r in Hkey' as (kpre & kl & Hkpre & Hkl1 & Hk').
  apply Forall2_cons_inv_r in Hkl1 as (k0 & kl' & Hk0 & Hnil & ->).
  apply Forall2_nil_inv_r in Hnil as ->.
  assert (k0 = 0) as -> by lia.
  pose proof (Forall2_length _ _ _ Hkpre) as Hkprel.
  rewrite Hk', Hop, contiguous_strides_app_one.
  rewrite dot_app by (by rewrite length_contiguous_strides).
  replace (dot [0] [1]) with 0 by reflexivity. rewrite Z.add_0_r.
  unfold peek, sums. rewrite Hpre.
  rewrite (row_sums_lookup _ pre kpre _ n 0 Hkpre). cbn [default from_option id].
  f_equal. apply list_fmap_ext. intros _ j Hj%list_elem_of_lookup_2%elem_of_range.
  rewrite Z.add_0_l.
  assert (Hk1 : kpre ++ [j] = <[last := j]> (exchanged key a last)).
  { rewrite Hk'. replace last with (length kpre) by lia. by rewrite insert_last_app. }
  assert (Hv1 : valid_key (kpre ++ [j]) (shape x1)).
  { rewrite Hpre. apply Forall2_app; [done|]. repeat constructor; lia. }
  change (peek (data x1) (dot (kpre ++ [j]) (strides x1))) with (element x1 (kpre ++ [j])).
  unfold x1 at 1. rewrite materialized_element by exact Hv1.
  fold (z (element view1 (kpre ++ [j]))). f_equal.
  unfold element. cbn [view1 data strides].
  rewrite dot_exchanged; [|rewrite length_app, Hstr, Hcl; simpl; lia|rewrite Hstr, Hcl; lia..].
  do 2 f_equal. rewrite Hk1.
  unfold last. rewrite <- Hkl. apply exchanged_insert_last. lia.
Qed.

Lemma fill_contiguous (dims : list Z) (v : float) :
  dims ≠ [] → Forall (λ n, 0 ≤ n) dims → contiguous (fill dims v).
Proof.
  intros Hrank Hdims. split; cbn [fill MiniBuffer_init shape strides data]; try done.
  - apply get_strides_from_shape_contiguous.
  - rewrite length_replicate. pose proof (prod_nonneg _ Hdims). lia.
Qed.

Lemma fill_element (dims key : list Z) (v : float) :
  Forall (λ n, 0 ≤ n) dims → valid_key key dims → element (fill dims v) key = v.
Proof.
  intros Hdims Hkey. unfold element, peek, fill, MiniBuffer_init. cbn [data strides].
  rewrite get_strides_from_shape_contiguous.
  pose proof (dot_contiguous_bound _ _ Hkey).
  rewrite lookup_replicate_2 by lia. done.
Qed.

(** ** The float sum of ones *)

Lemma shiftl_succ_r (p : positive) (n : N) :
  Pos.shiftl p (N.succ n) = xO (Pos.shiftl p n).
Proof. destruct n as [|q]; [done|]. cbn [N.succ Pos.shiftl]. apply Pos.iter_succ. Qed.

Lemma digits2_pos_shiftl (p : positive) (n : N) :
  Zpos (digits2_pos (Pos.shiftl p n)) = Zpos (digits2_pos p) + Z.of_N n.
Proof.
  induction n as [|n IH] using N.peano_ind.
  - change (Pos.shiftl p 0) with p. change (Z.of_N 0) with 0. lia.
  - rewrite shiftl_succ_r. cbn [digits2_pos]. lia.
Qed.

Lemma shiftl_shiftl (p : positive) (a b : N) :
  Pos.shiftl (Pos.shiftl p a) b = Pos.shiftl p (a + b).
Proof.
  induction b as [|b IH] using N.peano_ind; [by rewrite N.add_0_r|].
  rewrite N.add_succ_r, !shiftl_succ_r. by rewrite IH.
Qed.

Lemma iter_pos_iter {A : Type} (f : A → A) (n : positive) (x : A) :
  SpecFloat.iter_pos f n x = Pos.iter f x n.
Proof.
  revert x. induction n as [n IH|n IH|]; intros x; cbn [SpecFloat.iter_pos Pos.iter].
  - rewrite !IH. by rewrite <- !Pos.iter_swap.
  - by rewrite !IH.
  - done.
Qed.

Lemma shr_shiftl (p : positive) (q : positive) (n : N) :
  SpecFloat.iter_pos shr_1 q (Build_shr_record (Zpos (Pos.shiftl p (N.pos q + n))) false false)
  = Build_shr_record (Zpos (Pos.shiftl p n)) false false.
Proof.
  rewrite iter_pos_iter. revert n.
  induction q as [|q IH] using Pos.peano_ind; intros n.
  - cbn [Pos.iter]. replace (1 + n)%N with (N.succ n) by lia.
    by rewrite shiftl_succ_r.
  - rewrite Pos.iter_succ.
    replace (N.pos (Pos.succ q) + n)%N with (N.pos q + N.succ n)%N by lia.
    rewrite IH. by rewrite shiftl_succ_r.
Qed.

Lemma fexp_small (e : Z) : -1021 ≤ e → fexp prec emax e = e - 53.
Proof. intros He. unfold fexp, emin, prec, emax. lia. Qed.

(** Rounding an integer of at most 53 bits, given with any number of
    trailing zeros, is exact. *)
Lemma binary_round_exact (p : positive) (j : N) :
  Zpos (digits2_pos p) ≤ 53 →
  binary_round prec emax false (Pos.shiftl p j) (- Z.of_N j) = SF_of_pos p.
Proof.
  intros Hd. set (d := Zpos (digits2_pos p)) in *.
  assert (Hd1 : 1 ≤ d) by (unfold d; lia).
  unfold binary_round. rewrite digits2_pos_shiftl. fold d.
  replace (d + Z.of_N j + - Z.of_N j) with d by lia.
  rewrite fexp_small by lia.
  assert (Haux : ∀ n ez,
    Z.of_N n = - ez → ez ≤ d - 53 →
    binary_round_aux prec emax false (Zpos (Pos.shiftl p n)) ez loc_Exact = SF_of_pos p).
  { intros n ez Hn Hez.
    unfold binary_round_aux, shr_fexp. cbn [Zdigits2 shr_record_of_loc].
    rewrite digits2_pos_shiftl. fold d.
    replace (d + Z.of_N n + ez) with d by lia.
    rewrite fexp_small by lia.
    assert (Hshr : shr (Build_shr_record (Zpos (Pos.shiftl p n)) false false) ez (d - 53 - ez)
                   = (Build_shr_record (Zpos (Pos.shiftl p (Z.to_N (53 - d)))) false false,
                      d - 53)).
    { unfold shr. destruct (d - 53 - ez) as [|q|q] eqn:E.
      - f_equal; [|lia]. do 3 f_equal. lia.
      - rewrite <- E. f_equal; [|lia].
        replace n with (N.pos q + Z.to_N (53 - d))%N by lia.
        apply shr_shiftl.
      - lia. }
    rewrite Hshr. cbn [shr_m loc_of_shr_record round_nearest_even Zdigits2 shr_record_of_loc].
    rewrite digits2_pos_shiftl. fold d.
    replace (d + Z.of_N (Z.to_N (53 - d)) + (d - 53)) with d by lia.
    rewrite fexp_small by lia. rewrite Z.sub_diag. cbn [shr shr_m].
    unfold SF_of_pos. fold d.
    destruct (Z.leb_spec (d - 53) (emax - prec)) as [_|H]; [done|].
    unfold emax, prec in H. lia. }
  unfold shl_align. destruct (d - 53 - - Z.of_N j) as [|q|q] eqn:E.
  - apply Haux; lia.
  - apply Haux; lia.
  - change (Pos.iter xO (Pos.shiftl p j) q) with (Pos.shiftl (Pos.shiftl p j) (N.pos q)).
    rewrite shiftl_shiftl. apply Haux; lia.
Qed.

Lemma digits2_pos_bound (p : positive) :
  Zpos p < 2 ^ 53 → Zpos (digits2_pos p) ≤ 53.
Proof.
  intros Hp. destruct (Z.le_gt_cases (Zpos (digits2_pos p)) 53) as [|Hgt]; [done|].
  exfalso.
  assert (Hlow : ∀ q, 2 ^ (Zpos (digits2_pos q) - 1) ≤ Zpos q).
  { induction q as [q IH|q IH|]; cbn [digits2_pos].
    - rewrite Pos2Z.inj_succ. replace (Z.succ (Zpos (digits2_pos q)) - 1)
        with (Z.succ (Zpos (digits2_pos q) - 1)) by lia.
      rewrite Z.pow_succ_r by lia. lia.
    - rewrite Pos2Z.inj_succ. replace (Z.succ (Zpos (digits2_pos q)) - 1)
        with (Z.succ (Zpos (digits2_pos q) - 1)) by lia.
      rewrite Z.pow_succ_r by lia. lia.
    - done. }
  specialize (Hlow p).
  assert (2 ^ 53 ≤ 2 ^ (Zpos (digits2_pos p) - 1)) by (apply Z.pow_le_mono_r; lia).
  lia.
Qed.

Lemma Zpos_shiftl (p : positive) (n : N) :
  Zpos (Pos.shiftl p n) = Zpos p * 2 ^ Z.of_N n.
Proof.
  induction n as [|n IH] using N.peano_ind.
  - change (Pos.shiftl p 0) with p. change (Z.of_N 0) with 0. lia.
  - rewrite shiftl_succ_r, N2Z.inj_succ, Z.pow_succ_r by lia. lia.
Qed.

(** The float of a positive integer below [2^53]. *)
Lemma Prim2SF_float_of_int (p : positive) :
  Zpos p < 2 ^ 53 → Prim2SF (float_of_int (Zpos p)) = SF_of_pos p.
Proof.
  intros Hp. unfold float_of_int. rewrite of_uint63_spec.
  rewrite Uint63.of_Z_spec. rewrite Z.mod_small.
  2:{ change Uint63.wB with (2 ^ 63). assert (2 ^ 53 < 2 ^ 63) by done. lia. }
  cbn [binary_normalize].
  apply (binary_round_exact p 0). by apply digits2_pos_bound.
Qed.

(** Adding one to an integer float is exact as long as the result is below
    [2^53]. *)
Lemma SFadd_one (p : positive) :
  Zpos p + 1 < 2 ^ 53 →
  SF64add (SF_of_pos p) (SF_of_pos 1) = SF_of_pos (Pos.succ p).
Proof.
  intros Hp.
  pose proof (digits2_pos_bound p ltac:(lia)) as Hd.
  set (d := Zpos (digits2_pos p)) in *.
  assert (Hd1 : 1 ≤ d) by (unfold d; lia).
  unfold SF64add, SFadd, SF_of_pos. fold d.
  change (Zpos (digits2_pos 1)) with 1. change (1 - 53) with (-52).
  change (Z.to_N (53 - 1)) with 52%N.
  replace (Z.min (d - 53) (-52)) with (-52) by lia.
  assert (Hx : fst (shl_align (Pos.shiftl p (Z.to_N (53 - d))) (d - 53) (-52))
               = Pos.shiftl p 52).
  { unfold shl_align. destruct (-52 - (d - 53)) as [|q|q] eqn:E.
    - cbn [fst]. f_equal. lia.
    - lia.
    - cbn [fst].
      change (Pos.iter xO ?a q) with (Pos.shiftl a (N.pos q)).
      rewrite shiftl_shiftl. f_equal. lia. }
  rewrite Hx. change (fst (shl_align (Pos.shiftl 1 52) (-52) (-52))) with (Pos.shiftl 1 52).
  cbn [cond_Zopp].
  assert (Hsum : Zpos (Pos.shiftl p 52) + Zpos (Pos.shiftl 1 52)
                 = Zpos (Pos.shiftl (Pos.succ p) 52)).
  { rewrite !Zpos_shiftl. lia. }
  rewrite Hsum. cbn [binary_normalize].
  apply (binary_round_exact (Pos.succ p) 52). apply digits2_pos_bound. lia.
Qed.

(** The sum of [m] ones, added one by one from zero, is the float of [m]
    as long as [m] is below [2^53]. *)
Lemma fsum_ones (m : nat) :
  Z.of_nat m < 2 ^ 53 → fsum (replicate m 1%float) = float_of_int (Z.of_nat m).
Proof.
  unfold fsum. induction m as [|m IH]; intros Hm; [reflexivity|].
  rewrite replicate_S_end, foldl_snoc, IH by lia.
  apply Prim2SF_inj. rewrite add_spec.
  change (Prim2SF 1) with (SF_of_pos 1).
  replace (Z.of_nat (S m)) with (Zpos (Pos.of_succ_nat m)) by lia.
  rewrite Prim2SF_float_of_int by lia.
  destruct m as [|m]; [reflexivity|].
  replace (Z.of_nat (S m)) with (Zpos (Pos.of_succ_nat m)) by lia.
  rewrite Prim2SF_float_of_int by lia.
  cbn [Pos.of_succ_nat]. apply SFadd_one. lia.
Qed.

(** Adding zero to the float of a natural number below [2^53] changes
    nothing. *)
Lemma float_of_int_add_zero (m : Z) :
  0 ≤ m < 2 ^ 53 → PrimFloat.add (float_of_int m) PrimFloat.zero = float_of_int m.
Proof.
  intros Hm. destruct m as [|p|p]; [reflexivity| |lia].
  apply Prim2SF_inj. rewrite add_spec, Prim2SF_float_of_int by lia.
  reflexivity.
Qed.

(** Claim C7. For a row-major buffer and an axis [a] of size [n], [sum(a)]
    is the chain of its steps (exchange [a] with the last axis, sum the
    runs along the last axis, exchange back, re-materialize): the result is
    row-major, has size one at [a], and its element at a key is the sum,
    from left to right and starting from zero, of the elements of the
    argument along [a]. For the all-ones buffer of shape (m, c) the sum
    along axis 0 has shape (1, c) and every element is the [m]-fold sum of
    ones, which is the float of [m]: below [2^53] the float sum of ones
    is exact. *)
Theorem sum_along_axis :
  let z := λ v, PrimFloat.add v PrimFloat.zero in
  (∀ (x : MiniBuffer) (a : nat) (n : Z),
     contiguous x → shape x !! a = Some n →
     ∃ y, sum x (Z.of_nat a) = Ok y
        ∧ y = sum_steps x a
        ∧ shape y = <[a := 1]> (shape x)
        ∧ contiguous y
        ∧ ∀ key, valid_key key (shape y) →
            getitem y key
            = Ok (z (z (fsum ((λ j, z (element x (<[a := j]> key))) <$> Py.range n))))
            ∧ ∀ j, 0 ≤ j < n →
                getitem x (<[a := j]> key) = Ok (element x (<[a := j]> key)))
  ∧ (∀ m c : Z, 0 ≤ m < 2 ^ 53 → 0 < c →
     ∃ y, sum (fill [m; c] 1%float) 0 = Ok y
        ∧ shape y = [1; c]
        ∧ Z.of_nat (length (data y)) = c
        ∧ ∀ j, 0 ≤ j < c →
            fsum (replicate (Z.to_nat m) 1%float) = float_of_int m
            ∧ getitem y [0; j] = Ok (float_of_int m)).
Proof.
  intros z.
  assert (Hgen : ∀ (x : MiniBuffer) (a : nat) (n : Z),
     contiguous x → shape x !! a = Some n →
     ∃ y, sum x (Z.of_nat a) = Ok y
        ∧ y = sum_steps x a
        ∧ shape y = <[a := 1]> (shape x)
        ∧ contiguous y
        ∧ ∀ key, valid_key key (shape y) →
            getitem y key
            = Ok (z (z (fsum ((λ j, z (element x (<[a := j]> key))) <$> Py.range n))))
            ∧ ∀ j, 0 ≤ j < n →
                getitem x (<[a := j]> key) = Ok (element x (<[a := j]> key))).
  { intros x a n Hx Han. pose proof Hx as [Hrank Hdims Hstr Hlen].
    pose proof (lookup_lt_Some _ _ _ Han) as Ha.
    set (last := (length (shape x) - 1)%nat).
    assert (Hshape : shape (sum_steps x a) = <[a := 1]> (shape x)).
    { unfold sum_steps. cbn [materialized shape]. fold last.
      unfold last. rewrite <- exchanged_insert_one by done.
      apply exchanged_involutive; rewrite length_insert; lia. }
    assert (Hy : contiguous (sum_steps x a)).
    { unfold sum_steps. apply materialized_contiguous.
      - change (shape (sum_steps x a) ≠ []). rewrite Hshape.
        intros E. apply (f_equal length) in E. rewrite length_insert in E.
        destruct (shape x); simpl in *; done.
      - change (Forall (λ n, 0 ≤ n) (shape (sum_steps x a))). rewrite Hshape.
        apply Forall_insert; [done|lia]. }
    exists (sum_steps x a). split; [by apply sum_sum_steps|].
    split; [done|]. split; [done|]. split; [done|].
    intros key Hkey. split.
    - rewrite getitem_element by (done || by apply contiguous_readable).
      f_equal. rewrite Hshape in Hkey. by apply (sum_steps_element x a n key).
    - intros j Hj. apply getitem_element; [by apply contiguous_readable|].
      rewrite Hshape in Hkey.
      rewrite <- (list_insert_id (shape x) a n Han).
      rewrite <- (list_insert_insert_eq (shape x) a n 1).
      apply Forall2_insert; done. }
  split; [exact Hgen|].
  intros m c Hm Hc.
  assert (Hdims : Forall (λ n, 0 ≤ n) [m; c]) by (repeat constructor; lia).
  destruct (Hgen (fill [m; c] 1%float) 0%nat m) as (y & Hsum & _ & Hshape & Hy & Hget).
  { by apply fill_contiguous. }
  { reflexivity. }
  exists y. split; [exact Hsum|]. split; [exact Hshape|]. split.
  { destruct Hy as [_ _ _ ->]. rewrite Hshape. cbn. lia. }
  intros j Hj.
  destruct (Hget [0; j]) as [Hv _].
  { rewrite Hshape. repeat constructor; lia. }
  assert (Hones : (λ i, z (element (fill [m; c] 1%float) (<[0%nat := i]> [0; j])))
                    <$> Py.range m = replicate (Z.to_nat m) 1%float).
  { rewrite <- (length_seqZ 0 m). apply const_fmap.
    intros i k Hk%list_elem_of_lookup_2%elem_of_range.
    rewrite fill_element; [reflexivity|done|]. repeat constructor; lia. }
  assert (Hexact : fsum (replicate (Z.to_nat m) 1%float) = float_of_int m).
  { rewrite fsum_ones by lia. f_equal. lia. }
  split; [exact Hexact|].
  rewrite Hv, Hones, Hexact. unfold z.
  by rewrite !float_of_int_add_zero by lia.
Qed.

Lemma sum_along_axis_witness :
  ∃ y, sum (fill [3; 2] 1%float) 0 = Ok y
     ∧ shape y = [1; 2]
     ∧ getitem y [0; 1] = Ok 3%float.
Proof.
  destruct sum_along_axis as [_ H].
  destruct (H 3 2) as (y & Hy & Hs & _ & Hget); [lia|lia|].
  exists y. split; [exact Hy|]. split; [exact Hs|].
  destruct (Hget 1) as [_ Hv]; [lia|]. exact Hv.
Defined.

(** ** Computations over the heap *)

Lemma bindM_Ok {A B : Type} (m : M A) (k : A → M B) (h h' : Heap) (b : B) :
  bindM m k h = Ok (b, h') ↔ ∃ a h1, m h = Ok (a, h1) ∧ k a h1 = Ok (b, h').
Proof.
  unfold bindM. destruct (m h) as [[a h1]|e]; split.
  - intros H. eauto.
  - intros (a' & h1' & [= <- <-] & H). exact H.
  - discriminate.
  - intros (a' & h1' & [=] & _).
Qed.

Lemma lift_Ok {A : Type} (r : result A) (h h' : Heap) (a : A) :
  lift r h = Ok (a, h') ↔ r = Ok a ∧ h' = h.
Proof.
  unfold lift. destruct r as [a'|e]; split.
  - intros [= <- <-]. done.
  - intros [[= <-] ->]. done.
  - discriminate.
  - intros [[=] _].
Qed.

Lemma ret_Ok {A : Type} (a a' : A) (h h' : Heap) :
  ret a h = Ok (a', h') ↔ a' = a ∧ h' = h.
Proof. unfold ret. split; [intros [= <- <-]|intros [-> ->]]; done. Qed.

Lemma load_Ok (a : addr) (h h' : Heap) (t : Tensor) :
  load a h = Ok (t, h') ↔ h !! a = Some t ∧ h' = h.
Proof.
  unfold load. destruct (h !! a) as [t'|]; split.
  - intros [= <- <-]. done.
  - intros [[= <-] ->]. done.
  - discriminate.
  - intros [[=] _].
Qed.

Lemma modify_Ok (a : addr) (f : Tensor → Tensor) (h h' : Heap) (u : unit) :
  modify a f h = Ok (u, h') ↔ ∃ t, h !! a = Some t ∧ h' = <[a := f t]> h.
Proof.
  unfold modify. destruct (h !! a) as [t'|]; split.
  - intros [= <-]. eauto.
  - intros (t & [= <-] & ->). by destruct u.
  - discriminate.
  - intros (t & [=] & _).
Qed.

Lemma py_assert_Ok (b : bool) (u : unit) : py_assert b = Ok u ↔ b = true.
Proof. destruct b, u; done. Qed.

Lemma alloc_Ok (t : Tensor) (h h' : Heap) (a : addr) :
  alloc t h = Ok (a, h') ↔ a = length h ∧ h' = h ++ [t].
Proof. unfold alloc. split; [intros [= <- <-]|intros [-> ->]]; done. Qed.

Lemma Tensor_init_Ok (s : Storage) (rg : bool) (dt : Dtype) (h h' : Heap) (a : addr) :
  Tensor_init s rg dt h = Ok (a, h')
  ↔ Storage_rank s ≤ 4 ∧ a = length h ∧ h' = h ++ [mkTensor s rg dt None CtxNone].
Proof.
  unfold Tensor_init. rewrite bindM_Ok. split.
  - intros (u & h1 & H1 & H2). apply lift_Ok in H1 as [H1 ->].
    apply py_assert_Ok, Z.leb_le in H1. apply alloc_Ok in H2. tauto.
  - intros (Hr & -> & ->). exists tt, h. split; [|done].
    apply lift_Ok. split; [|done]. apply py_assert_Ok. by apply Z.leb_le.
Qed.

Lemma for_collect_load (inputs : list addr) (h h' : Heap) (ts : list Tensor) :
  for_collect load inputs h = Ok (ts, h') →
  h' = h ∧ Forall2 (λ a t, h !! a = Some t) inputs ts.
Proof.
  revert h h' ts. induction inputs as [|a inputs IH]; intros h h' ts H;
    cbn [for_collect] in H.
  - apply ret_Ok in H as [-> ->]. done.
  - apply bindM_Ok in H as (t & h1 & H1 & H).
    apply load_Ok in H1 as [Ht ->].
    apply bindM_Ok in H as (ts' & h2 & H2 & H).
    apply IH in H2 as [-> HF]. apply ret_Ok in H as [-> ->].
    split; [done|]. by constructor.
Qed.

(** [Function.apply] allocates the result and touches nothing else. *)
Lemma set_grad_Ok (a : addr) (g : option addr) (h h' : Heap) (u : unit) :
  set_grad a g h = Ok (u, h') ↔ ∃ t, h !! a = Some t ∧ h' = <[a := with_grad t g]> h.
Proof. apply modify_Ok. Qed.

Lemma set_ctx_Ok (a : addr) (c : CtxSlot) (h h' : Heap) (u : unit) :
  set_ctx a c h = Ok (u, h') ↔ ∃ t, h !! a = Some t ∧ h' = <[a := with_ctx t c]> h.
Proof. apply modify_Ok. Qed.

(** ** The frame of the heap operations *)

Lemma preserves_refl (h : Heap) : preserves h h.
Proof. split; [done|]. intros a t Ht. exists t. done. Qed.

Lemma preserves_trans (h1 h2 h3 : Heap) :
  preserves h1 h2 → preserves h2 h3 → preserves h1 h3.
Proof.
  intros [Hl1 H1] [Hl2 H2]. split; [lia|].
  intros a t Ht. destruct (H1 a t Ht) as (t' & Ht' & ? & ? & ? & ?).
  destruct (H2 a t' Ht') as (t'' & Ht'' & ? & ? & ? & ?).
  exists t''. repeat split; congruence.
Qed.

Lemma preserves_alloc (h : Heap) (t : Tensor) : preserves h (h ++ [t]).
Proof.
  split; [rewrite length_app; lia|].
  intros a t' Ht'. exists t'. split; [|done].
  rewrite lookup_app_l; [done|]. by eapply lookup_lt_Some.
Qed.

Lemma preserves_set_grad (h : Heap) (a : addr) (t : Tensor) (g : option addr) :
  h !! a = Some t → preserves h (<[a := with_grad t g]> h).
Proof.
  intros Ht. split; [by rewrite length_insert|].
  intros b t' Ht'. destruct (decide (b = a)) as [->|Hne].
  - rewrite list_lookup_insert_eq by (by eapply lookup_lt_Some).
    exists (with_grad t g). assert (t' = t) as -> by congruence. done.
  - rewrite list_lookup_insert_ne by done. exists t'. done.
Qed.

Lemma Forall2_lookup_fun (h : Heap) (inputs : list addr) (ts ts' : list Tensor) :
  Forall2 (λ a t, h !! a = Some t) inputs ts →
  Forall2 (λ a t, h !! a = Some t) inputs ts' → ts = ts'.
Proof.
  intros H. revert ts'. induction H; intros ts' H'; inversion H'; subst; [done|].
  f_equal; [congruence|]. by apply IHForall2.
Qed.

Lemma Function_apply_Ok (op : OpClass) (inputs : list addr) (h h' : Heap) (r : addr) :
  Function_apply op inputs h = Ok (r, h') →
  ∃ ts out c,
    Forall2 (λ a t, h !! a = Some t) inputs ts
    ∧ op_forward op (storage <$> ts) = Ok out
    ∧ Storage_rank out ≤ 4
    ∧ r = length h
    ∧ h' = h ++ [mkTensor out (existsb id (requires_grad <$> ts)) DFloat None c].
Proof.
  intros H. unfold Function_apply, Function_init in H.
  apply bindM_Ok in H as (ctx & h1 & Hctx & H).
  apply bindM_Ok in Hctx as (ts & h2 & Hts & Hctx).
  apply for_collect_load in Hts as [-> Hts]. apply ret_Ok in Hctx as [-> ->].
  apply bindM_Ok in H as (ts' & h2 & Hts' & H).
  apply for_collect_load in Hts' as [-> Hts'].
  assert (ts' = ts) as -> by (by eapply Forall2_lookup_fun).
  apply bindM_Ok in H as (out & h2 & Hout & H). apply lift_Ok in Hout as [Hout ->].
  apply bindM_Ok in H as (res & h2 & Hres & H).
  apply Tensor_init_Ok in Hres as (Hrank & -> & ->).
  apply bindM_Ok in H as (u & h3 & Hset & H). apply ret_Ok in H as [-> ->].
  cbn [output_requires_grad] in *.
  exists ts, out. destruct (existsb id (requires_grad <$> ts)) eqn:E.
  - apply set_ctx_Ok in Hset as (t & Ht & ->).
    rewrite lookup_app_r in Ht by lia. rewrite Nat.sub_diag in Ht. injection Ht as <-.
    eexists. repeat split; try done.
    rewrite insert_app_r_alt by lia. rewrite Nat.sub_diag. reflexivity.
  - apply ret_Ok in Hset as [_ ->]. eexists. repeat split; done.
Qed.

Lemma Function_apply_preserves (op : OpClass) (inputs : list addr) (h h' : Heap) (r : addr) :
  Function_apply op inputs h = Ok (r, h') → preserves h h'.
Proof.
  intros H. apply Function_apply_Ok in H as (ts & out & c & _ & _ & _ & _ & ->).
  apply preserves_alloc.
Qed.

Lemma foldl_bindM_preserves {A : Type} (body : addr → A → M addr) (l : list A)
    (acc : M addr) :
  (∀ x i h r h', body x i h = Ok (r, h') → preserves h h') →
  (∀ h r h', acc h = Ok (r, h') → preserves h h') →
  ∀ h r h', foldl (λ acc i, bindM acc (λ x, body x i)) acc l h = Ok (r, h') →
            preserves h h'.
Proof.
  intros Hbody. revert acc. induction l as [|i l IH]; intros acc Hacc h r h' H.
  - by eapply Hacc.
  - cbn [foldl] in H. eapply IH; [|exact H].
    intros h1 r1 h1' H1. apply bindM_Ok in H1 as (x & h2 & Hx & H1).
    eapply preserves_trans; [by eapply Hacc|by eapply Hbody].
Qed.

Section Frames.

Context (env : Env).

Lemma Tensor_reshape_preserves (self : addr) (new_shape : list Z) (h h' : Heap) (r : addr) :
  Tensor_reshape env self new_shape h = Ok (r, h') → preserves h h'.
Proof.
  unfold Tensor_reshape, Tensor_shape. intros H.
  apply bindM_Ok in H as (? & ? & H1 & H). apply lift_Ok in H1 as [_ ->].
  apply bindM_Ok in H as (? & ? & H1 & H).
  apply bindM_Ok in H1 as (? & ? & H1 & H2). apply load_Ok in H1 as [_ ->].
  apply ret_Ok in H2 as [-> ->].
  apply bindM_Ok in H as (? & ? & H1 & H). apply lift_Ok in H1 as [_ ->].
  by eapply Function_apply_preserves.
Qed.

Lemma Tensor_pad_shapes_preserves (d : Z) (x : addr) (h h' : Heap) (r : addr) :
  Tensor_pad_shapes env d x h = Ok (r, h') → preserves h h'.
Proof.
  unfold Tensor_pad_shapes, Tensor_shape. intros H.
  apply bindM_Ok in H as (? & ? & H1 & H).
  apply bindM_Ok in H1 as (? & ? & H1 & H2). apply load_Ok in H1 as [_ ->].
  apply ret_Ok in H2 as [-> ->].
  by eapply Function_apply_preserves.
Qed.

Lemma Tensor_expand_preserves (self : addr) (new_shape : list Z) (h h' : Heap) (r : addr) :
  Tensor_expand env self new_shape h = Ok (r, h') → preserves h h'.
Proof.
  unfold Tensor_expand, Tensor_shape. intros H.
  apply bindM_Ok in H as (? & ? & H1 & H).
  apply bindM_Ok in H1 as (? & ? & H1 & H2). apply load_Ok in H1 as [_ ->].
  apply ret_Ok in H2 as [-> ->].
  apply bindM_Ok in H as (? & ? & H1 & H). apply lift_Ok in H1 as [_ ->].
  apply bindM_Ok in H as (xa & ha & Hx & H).
  assert (Hp1 : preserves h ha).
  { destruct (0 <? _).
    - by eapply Tensor_pad_shapes_preserves.
    - apply ret_Ok in Hx as [-> ->]. apply preserves_refl. }
  apply bindM_Ok in H as (? & ? & H1 & H).
  apply bindM_Ok in H1 as (? & ? & H1 & H2). apply load_Ok in H1 as [_ ->].
  apply ret_Ok in H2 as [-> ->].
  eapply preserves_trans; [exact Hp1|].
  eapply (foldl_bindM_preserves
            (λ x dim_idx,
               let! sh := (let! t := load x in ret (Storage_shape (storage t))) in
               let! d := lift (Py.index sh dim_idx) in
               let! n := lift (Py.index new_shape dim_idx) in
               if negb (d =? n) then
                 let! _ := lift (py_assert (d =? 1)) in
                 Function_apply (ops_Expand env dim_idx n) [x]
               else ret x)); [| |exact H].
  - clear. intros x i h r h' H.
    apply bindM_Ok in H as (? & ? & H1 & H).
    apply bindM_Ok in H1 as (? & ? & H1 & H2). apply load_Ok in H1 as [_ ->].
    apply ret_Ok in H2 as [-> ->].
    apply bindM_Ok in H as (? & ? & H1 & H). apply lift_Ok in H1 as [_ ->].
    apply bindM_Ok in H as (? & ? & H1 & H). apply lift_Ok in H1 as [_ ->].
    destruct (negb _).
    + apply bindM_Ok in H as (? & ? & H1 & H). apply lift_Ok in H1 as [_ ->].
      by eapply Function_apply_preserves.
    + apply ret_Ok in H as [-> ->]. apply preserves_refl.
  - intros h2 r2 h2' H2. apply ret_Ok in H2 as [-> ->]. apply preserves_refl.
Qed.

Lemma Tensor__broadcasted_preserves (x y : addr) (h h' : Heap) (r : addr * addr) :
  Tensor__broadcasted env x y h = Ok (r, h') → preserves h h'.
Proof.
  unfold Tensor__broadcasted, Tensor_shape. intros H.
  apply bindM_Ok in H as (xs & ? & H1 & H).
  apply bindM_Ok in H1 as (? & ? & H1 & H2). apply load_Ok in H1 as [_ ->].
  apply ret_Ok in H2 as [-> ->].
  apply bindM_Ok in H as (ys & ? & H1 & H).
  apply bindM_Ok in H1 as (? & ? & H1 & H2). apply load_Ok in H1 as [_ ->].
  apply ret_Ok in H2 as [-> ->].
  case_bool_decide.
  { apply ret_Ok in H as [-> ->]. apply preserves_refl. }
  apply bindM_Ok in H as (xy & hb & Hxy & H).
  assert (Hp1 : preserves h hb).
  { destruct (0 <? _); [|destruct (_ <? 0)].
    - apply bindM_Ok in Hxy as (? & ? & H1 & H2). apply ret_Ok in H2 as [-> ->].
      by eapply Tensor_reshape_preserves.
    - apply bindM_Ok in Hxy as (? & ? & H1 & H2). apply ret_Ok in H2 as [-> ->].
      by eapply Tensor_reshape_preserves.
    - apply ret_Ok in Hxy as [-> ->]. apply preserves_refl. }
  eapply preserves_trans; [exact Hp1|]. clear Hp1 Hxy.
  apply bindM_Ok in H as (? & ? & H1 & H).
  apply bindM_Ok in H1 as (? & ? & H1 & H2). apply load_Ok in H1 as [_ ->].
  apply ret_Ok in H2 as [-> ->].
  apply bindM_Ok in H as (? & ? & H1 & H).
  apply bindM_Ok in H1 as (? & ? & H1 & H2). apply load_Ok in H1 as [_ ->].
  apply ret_Ok in H2 as [-> ->].
  case_bool_decide.
  { apply ret_Ok in H as [-> ->]. apply preserves_refl. }
  apply bindM_Ok in H as (x' & hc & Hx & H).
  apply bindM_Ok in H as (y' & hd & Hy & H). apply ret_Ok in H as [-> ->].
  eapply preserves_trans.
  - match type of Hx with context [bool_decide ?P] => destruct (bool_decide P) end.
    + by eapply Tensor_expand_preserves.
    + apply ret_Ok in Hx as [-> ->]. apply preserves_refl.
  - match type of Hy with context [bool_decide ?P] => destruct (bool_decide P) end.
    + by eapply Tensor_expand_preserves.
    + apply ret_Ok in Hy as [-> ->]. apply preserves_refl.
Qed.

Lemma Tensor___add___preserves (x y : addr) (h h' : Heap) (r : addr) :
  Tensor___add__ env x y h = Ok (r, h') → preserves h h'.
Proof.
  unfold Tensor___add__, Tensor_add. intros H.
  apply bindM_Ok in H as (? & ? & H1 & H). apply load_Ok in H1 as [_ ->].
  apply bindM_Ok in H as (? & ? & H1 & H). apply load_Ok in H1 as [_ ->].
  apply bindM_Ok in H as (? & hb & H1 & H).
  assert (hb = h) as ->.
  { destruct (DEBUG env).
    - by apply lift_Ok in H1 as [_ ->].
    - by apply ret_Ok in H1 as [_ ->]. }
  apply bindM_Ok in H as (xy & hc & Hxy & H).
  eapply preserves_trans.
  - by eapply Tensor__broadcasted_preserves.
  - by eapply Function_apply_preserves.
Qed.

Lemma accumulate_preserves (parent : addr) (g : option addr) (h h' : Heap) (u : unit) :
  accumulate env parent g h = Ok (u, h') → preserves h h'.
Proof.
  unfold accumulate, Tensor_shape. intros H. destruct g as [g|].
  2:{ apply ret_Ok in H as [_ ->]. apply preserves_refl. }
  apply bindM_Ok in H as (p & ? & H1 & H). apply load_Ok in H1 as [Hp ->].
  destruct (requires_grad p).
  2:{ apply ret_Ok in H as [_ ->]. apply preserves_refl. }
  apply bindM_Ok in H as (? & ? & H1 & H).
  apply bindM_Ok in H1 as (? & ? & H1 & H2). apply load_Ok in H1 as [_ ->].
  apply ret_Ok in H2 as [-> ->].
  apply bindM_Ok in H as (? & ? & H1 & H).
  apply bindM_Ok in H1 as (? & ? & H1 & H2). apply load_Ok in H1 as [_ ->].
  apply ret_Ok in H2 as [-> ->].
  apply bindM_Ok in H as (? & ? & H1 & H). apply lift_Ok in H1 as [_ ->].
  destruct (grad p) as [old|].
  - apply bindM_Ok in H as (new & hb & Hnew & H).
    apply set_grad_Ok in H as (t & Ht & ->).
    eapply preserves_trans; [by eapply Tensor___add___preserves|].
    by apply preserves_set_grad.
  - apply set_grad_Ok in H as (t & Ht & ->). by apply preserves_set_grad.
Qed.

End Frames.

(** ** The reverse traversal releases the graph *)

Lemma for_each_preserves {A : Type} (f : A → M unit) (l : list A) :
  (∀ a h u h', f a h = Ok (u, h') → preserves h h') →
  ∀ h u h', for_each f l h = Ok (u, h') → preserves h h'.
Proof.
  intros Hf. induction l as [|a l IH]; intros h u h' H; cbn [for_each] in H.
  - apply ret_Ok in H as [_ ->]. apply preserves_refl.
  - apply bindM_Ok in H as (? & h1 & H1 & H).
    eapply preserves_trans; [by eapply Hf|by eapply IH].
Qed.

Lemma for_collect_preserves {A B : Type} (f : A → M B) (l : list A) :
  (∀ a h b h', f a h = Ok (b, h') → preserves h h') →
  ∀ h bs h', for_collect f l h = Ok (bs, h') → preserves h h'.
Proof.
  intros Hf. induction l as [|a l IH]; intros h bs h' H; cbn [for_collect] in H.
  - apply ret_Ok in H as [_ ->]. apply preserves_refl.
  - apply bindM_Ok in H as (? & h1 & H1 & H).
    apply bindM_Ok in H as (? & h2 & H2 & H). apply ret_Ok in H as [_ ->].
    eapply preserves_trans; [by eapply Hf|by eapply IH].
Qed.

Lemma released_nil (h h' : Heap) : preserves h h' → released [] h h'.
Proof.
  intros [Hl H]. split; [done|]. intros a t Ht.
  destruct (H a t Ht) as (t' & ? & ? & ? & ? & ?).
  exists t'. repeat split; try done. by intros ?%elem_of_nil.
Qed.

Lemma released_cons (a : addr) (l : list addr) (h1 h2 h3 : Heap) :
  released [a] h1 h2 → released l h2 h3 → released (a :: l) h1 h3.
Proof.
  intros [Hl1 H1] [Hl2 H2]. split; [lia|].
  intros b t Ht. destruct (H1 b t Ht) as (t' & Ht' & Hs & Hr & Hin & Hout).
  destruct (H2 b t' Ht') as (t'' & Ht'' & Hs' & Hr' & Hin' & Hout').
  exists t''. repeat split; try congruence.
  - intros Hb. destruct (decide (b ∈ l)) as [Hbl|Hbl]; [by apply Hin'|].
    rewrite Hout' by done. apply Hin. apply elem_of_cons in Hb as [->|?]; [|done].
    by apply list_elem_of_singleton.
  - intros Hb. rewrite Hout', Hout; [done| |].
    + intros ->%list_elem_of_singleton. apply Hb. by left.
    + intros ?. apply Hb. by right.
Qed.

Section Release.

Context (env : Env).

Lemma del_ctx_Ok (a : addr) (h h' : Heap) (u : unit) :
  del_ctx a h = Ok (u, h') →
  ∃ t, h !! a = Some t ∧ _ctx t ≠ CtxDeleted ∧ h' = <[a := with_ctx t CtxDeleted]> h.
Proof.
  unfold del_ctx. intros H.
  apply bindM_Ok in H as (t & ? & H1 & H). apply load_Ok in H1 as [Ht ->].
  exists t. destruct (_ctx t) eqn:E.
  - apply set_ctx_Ok in H as (t' & Ht' & ->).
    assert (t' = t) as -> by congruence. done.
  - apply set_ctx_Ok in H as (t' & Ht' & ->).
    assert (t' = t) as -> by congruence. done.
  - by apply lift_Ok in H as [? _].
Qed.

(** One round of the outer loop: whatever it does to gradients, it ends by
    releasing the operation record of its node, and of no other tensor. *)
Lemma backward_step_released (node : addr) (h h' : Heap) (u : unit) :
  backward_step env node h = Ok (u, h') → released [node] h h'.
Proof.
  unfold backward_step. intros H.
  apply bindM_Ok in H as (t & ? & H1 & H). apply load_Ok in H1 as [Ht ->].
  apply bindM_Ok in H as (? & ? & H1 & H). apply lift_Ok in H1 as [_ ->].
  apply bindM_Ok in H as (ctx & ? & H1 & H). apply lift_Ok in H1 as [_ ->].
  apply bindM_Ok in H as (g & ? & H1 & H). apply load_Ok in H1 as [_ ->].
  apply bindM_Ok in H as (r & ? & H1 & H). apply lift_Ok in H1 as [_ ->].
  apply bindM_Ok in H as (ps & ? & H1 & H). apply lift_Ok in H1 as [_ ->].
  apply bindM_Ok in H as (gs & ? & H1 & H). apply lift_Ok in H1 as [_ ->].
  apply bindM_Ok in H as (grads & ha & Hgrads & H).
  apply bindM_Ok in H as (? & hb & Hacc & H).
  assert (Hp : preserves h hb).
  { eapply preserves_trans.
    - eapply for_collect_preserves; [|exact Hgrads].
      intros [s|] h1 b h1' Hb.
      + apply bindM_Ok in Hb as (? & ? & Hb1 & Hb). apply ret_Ok in Hb as [_ ->].
        apply Tensor_init_Ok in Hb1 as (_ & _ & ->). apply preserves_alloc.
      + apply ret_Ok in Hb as [_ ->]. apply preserves_refl.
    - eapply for_each_preserves; [|exact Hacc].
      intros [p g'] h1 u1 h1' Hb. by eapply accumulate_preserves. }
  apply del_ctx_Ok in H as (tn & Htn & _ & ->).
  destruct Hp as [Hl Hp]. split; [by rewrite length_insert|].
  intros a ta Hta. destruct (Hp a ta Hta) as (ta' & Hta' & Hs & Hr & Hd & Hc).
  destruct (decide (a = node)) as [->|Hne].
  - rewrite list_lookup_insert_eq by (by eapply lookup_lt_Some).
    assert (ta' = tn) as -> by congruence.
    exists (with_ctx tn CtxDeleted). repeat split; try done.
    intros Hn. exfalso. apply Hn. by apply list_elem_of_singleton.
  - rewrite list_lookup_insert_ne by done.
    exists ta'. repeat split; try done.
    intros ?%list_elem_of_singleton. done.
Qed.

Lemma for_each_backward_step_released (l : list addr) (h h' : Heap) (u : unit) :
  for_each (backward_step env) l h = Ok (u, h') → released l h h'.
Proof.
  revert h. induction l as [|a l IH]; intros h H; cbn [for_each] in H.
  - apply ret_Ok in H as [_ ->]. apply released_nil, preserves_refl.
  - apply bindM_Ok in H as (? & h1 & H1 & H).
    eapply released_cons; [by eapply backward_step_released|by apply IH].
Qed.

End Release.

(** ** The topological order *)

Ltac case_decision_in H :=
  match type of H with context [bool_decide ?P] => destruct (bool_decide P) eqn:? end.

Lemma foldl_bind_Raise {A S : Type} (f : S → A → result S) (l : list A) (e : PyExc) :
  foldl (λ acc a, bind acc (λ s, f s a)) (Raise e) l = Raise e.
Proof. induction l as [|a l IH]; [done|]. cbn [foldl bind]. apply IH. Qed.

Lemma foldl_bind_inv {A S : Type} (f : S → A → result S) (P : S → Prop)
    (l : list A) (s0 s' : S) :
  (∀ s a s1, a ∈ l → P s → f s a = Ok s1 → P s1) → P s0 →
  foldl (λ acc a, bind acc (λ s, f s a)) (Ok s0) l = Ok s' → P s'.
Proof.
  revert s0. induction l as [|a l IH]; intros s0 Hf H0 H; cbn [foldl bind] in H.
  - by injection H as <-.
  - destruct (f s0 a) as [s1|e] eqn:E.
    + eapply (IH s1); [|by eapply Hf; [left|..]|exact H].
      intros s a' s2 Ha'. apply Hf. by right.
    + by rewrite foldl_bind_Raise in H.
Qed.

(** Every node of the order is a tensor of the heap. *)
Lemma _toposort_in_heap (fuel : nat) (h : Heap) (node : addr)
    (st st' : gset addr * list addr) :
  _toposort fuel h node st = Ok st' →
  ∀ a, a ∈ st'.2 → a ∈ st.2 ∨ is_Some (h !! a).
Proof.
  revert node st st'. induction fuel as [|fuel IH]; intros node st st' H; [done|].
  cbn [_toposort] in H.
  destruct (h !! node) as [t|] eqn:Ht; [|done].
  destruct (getattr_ctx t) as [ctx|].
  - apply bind_Ok in H as (ps & Hps & H).
    apply bind_Ok in H as (st1 & Hfold & H). injection H as <-.
    cbn [snd]. intros a Ha. apply elem_of_app in Ha as [Ha|Ha].
    + revert a Ha.
      eapply (foldl_bind_inv _ (λ s, ∀ a, a ∈ s.2 → a ∈ st.2 ∨ is_Some (h !! a)));
        [| |exact Hfold].
      * intros s p s1 _ Hs Hp a Ha. cbn beta in Hp. case_decision_in Hp.
        -- injection Hp as <-. by apply Hs.
        -- destruct (IH _ _ _ Hp a Ha) as [?|?]; [by apply Hs|by right].
      * cbn [snd]. by left.
    + apply list_elem_of_singleton in Ha. subst a. right. by rewrite Ht.
  - injection H as <-. cbn [snd]. by left.
Qed.

(** A node with an operation record closes its own order. *)
Lemma _toposort_root_last (fuel : nat) (h : Heap) (node : addr) (t : Tensor)
    (ctx : Function) (st st' : gset addr * list addr) :
  h !! node = Some t → getattr_ctx t = Some ctx →
  _toposort fuel h node st = Ok st' → node ∈ st'.2.
Proof.
  intros Ht Hctx H. destruct fuel as [|fuel]; [done|].
  cbn [_toposort] in H. rewrite Ht, Hctx in H.
  apply bind_Ok in H as (ps & Hps & H).
  apply bind_Ok in H as (st1 & Hfold & H). injection H as <-.
  cbn [snd]. apply elem_of_app. right. by apply list_elem_of_singleton.
Qed.

(** A node without one is not appended: its order is empty. *)
Lemma Tensor_toposort_leaf (env : Env) (h : Heap) (root : addr) (t : Tensor) :
  h !! root = Some t → getattr_ctx t = None → Tensor_toposort env root h = Ok ([], h).
Proof. intros Ht Hctx. unfold Tensor_toposort. cbn [_toposort]. by rewrite Ht, Hctx. Qed.

Section SingleUse.

Context (env : Env).

Lemma Tensor_backward_unfold (root : addr) (h : Heap) (t : Tensor) :
  h !! root = Some t →
  Tensor_backward env root h
  = if Storage_is_scalar (storage t) then
      (let! autograd_graph := Tensor_toposort env root in
       for_each (backward_step env) (reverse autograd_graph)) (seeded h root)
    else Raise AssertionError.
Proof.
  intros Ht. pose proof (lookup_lt_Some _ _ _ Ht) as Hlt.
  unfold Tensor_backward, Tensor_is_scalar, seeded. rewrite Ht.
  unfold bindM at 1. unfold bindM at 1. unfold load at 1. rewrite Ht.
  unfold ret at 1. destruct (Storage_is_scalar (storage t)); [|done].
  unfold bindM at 1. unfold lift at 1. cbn [py_assert].
  unfold bindM at 1.
  change (Tensor_init (Storage_of_float 1 DFloat) false DFloat h)
    with (Ok (length h, h ++ [seed_tensor])).
  unfold bindM at 1. unfold set_grad, modify.
  rewrite lookup_app_l by done. rewrite Ht. reflexivity.
Qed.

(** Claim C3. Every step of the reverse traversal of [backward()] ends by
    deleting the operation slot of its node, so after a [backward()] that
    succeeds every node of the traversed graph has lost its slot. A second
    [backward()] on the same root does not fail for that: the traversal
    finds no operation record, visits no node, and the call succeeds after
    it has only seeded the gradient of the root again. *)
Theorem backward_single_use (h h1 : Heap) (root : addr) :
  Tensor_backward env root h = Ok (tt, h1) →
  ∃ graph,
    Tensor_toposort env root (seeded h root) = Ok (graph, seeded h root)
    ∧ for_each (backward_step env) (reverse graph) (seeded h root) = Ok (tt, h1)
    ∧ (∀ node h' h'', backward_step env node h' = Ok (tt, h'') →
         ∃ t, h'' !! node = Some t ∧ _ctx t = CtxDeleted)
    ∧ (∀ node, node ∈ graph → ∃ t, h1 !! node = Some t ∧ _ctx t = CtxDeleted)
    ∧ Tensor_toposort env root (seeded h1 root) = Ok ([], seeded h1 root)
    ∧ Tensor_backward env root h1 = Ok (tt, seeded h1 root).
Proof.
  intros H.
  destruct (h !! root) as [t|] eqn:Ht.
  2:{ unfold Tensor_backward, Tensor_is_scalar, bindM, load in H. by rewrite Ht in H. }
  pose proof (lookup_lt_Some _ _ _ Ht) as Hlt.
  rewrite (Tensor_backward_unfold root h t Ht) in H.
  destruct (Storage_is_scalar (storage t)) eqn:Hscalar; [|done].
  apply bindM_Ok in H as (graph & hs & Htopo & Hloop).
  assert (hs = seeded h root) as ->.
  { unfold Tensor_toposort in Htopo. apply bind_Ok in Htopo as (? & _ & Htopo).
    by injection Htopo as _ <-. }
  assert (Hroot_s : seeded h root !! root = Some (with_grad t (Some (length h)))).
  { unfold seeded. rewrite Ht.
    apply list_lookup_insert_eq. rewrite length_app. lia. }
  pose proof (for_each_backward_step_released env _ _ _ _ Hloop) as [Hlen Hrel].
  assert (Hgraph : ∀ a, a ∈ graph → is_Some (seeded h root !! a)).
  { intros a Ha. unfold Tensor_toposort in Htopo.
    apply bind_Ok in Htopo as (st & Hst & Htopo). injection Htopo as <-.
    destruct (_toposort_in_heap _ _ _ _ _ Hst a Ha) as [Hnil|?]; [|done].
    by apply elem_of_nil in Hnil. }
  destruct (Hrel root _ Hroot_s) as (t1 & Ht1 & Hs1 & Hr1 & Hin1 & Hout1).
  assert (Hctx1 : getattr_ctx t1 = None).
  { unfold getattr_ctx. destruct (decide (root ∈ reverse graph)) as [Hin|Hout].
    - by rewrite (Hin1 Hin).
    - rewrite (Hout1 Hout). cbn [with_grad _ctx].
      destruct (_ctx t) as [|ctx|] eqn:Hc; try done.
      exfalso. apply Hout. apply elem_of_reverse.
      unfold Tensor_toposort in Htopo.
      apply bind_Ok in Htopo as (st & Hst & Htopo). injection Htopo as <-.
      eapply (_toposort_root_last _ _ root _ ctx); [exact Hroot_s| |exact Hst].
      unfold getattr_ctx. cbn [with_grad _ctx]. by rewrite Hc. }
  assert (Hroot_s1 : seeded h1 root !! root = Some (with_grad t1 (Some (length h1)))).
  { unfold seeded. rewrite Ht1. apply list_lookup_insert_eq.
    rewrite length_app. apply lookup_lt_Some in Ht1. lia. }
  assert (Htopo1 : Tensor_toposort env root (seeded h1 root) = Ok ([], seeded h1 root)).
  { eapply Tensor_toposort_leaf; [exact Hroot_s1|]. exact Hctx1. }
  exists graph. split; [exact Htopo|]. split; [exact Hloop|].
  split; [|split; [|split]].
  - intros node h' h'' Hstep.
    pose proof (backward_step_released env _ _ _ _ Hstep) as [_ Hstep'].
    unfold backward_step in Hstep.
    apply bindM_Ok in Hstep as (tn & ? & Hload & _). apply load_Ok in Hload as [Hn _].
    destruct (Hstep' node tn Hn) as (tn' & Hn' & _ & _ & Hdel & _).
    exists tn'. split; [done|]. apply Hdel. by apply list_elem_of_singleton.
  - intros node Hnode. destruct (Hgraph node Hnode) as [tn Hn].
    destruct (Hrel node tn Hn) as (tn' & Hn' & _ & _ & Hdel & _).
    exists tn'. split; [done|]. apply Hdel. by apply elem_of_reverse.
  - exact Htopo1.
  - rewrite (Tensor_backward_unfold root h1 t1 Ht1).
    rewrite Hs1. cbn [with_grad storage]. rewrite Hscalar.
    unfold bindM. rewrite Htopo1. reflexivity.
Qed.

End SingleUse.

Lemma backward_single_use_witness :
  Tensor_backward example_env 2%nat example_graph_consumed
  = Ok (tt, seeded example_graph_consumed 2%nat)
  ∧ ∃ t, example_graph_consumed !! 2%nat = Some t ∧ _ctx t = CtxDeleted.
Proof.
  destruct (backward_single_use example_env example_graph example_graph_consumed 2%nat)
    as (graph & Htopo & _ & _ & Hdel & _ & Hsecond).
  - reflexivity.
  - split; [exact Hsecond|]. apply Hdel.
    assert (graph = [2%nat]) as -> by (by injection Htopo as <-).
    by apply list_elem_of_singleton.
Defined.

(** C3: a second [backward()] over the consumed graph of [c = a + b] does
    not fail; it finds no operation record and leaves the gradients of the
    leaves as the first call set them. *)
Lemma second_backward_succeeds :
  ∃ h1 h2 ta tb,
    Tensor_backward example_env 2%nat example_graph = Ok (tt, h1)
    ∧ Tensor_backward example_env 2%nat h1 = Ok (tt, h2)
    ∧ h1 !! 0%nat = Some ta ∧ h2 !! 0%nat = Some ta
    ∧ h1 !! 1%nat = Some tb ∧ h2 !! 1%nat = Some tb.
Proof.
  eexists _, _, _, _.
  split; [vm_compute; reflexivity|]. split; [vm_compute; reflexivity|].
  repeat split; reflexivity.
Qed.

(** ** The scalar check of [backward] *)

(** Claim C1. [backward()] should succeed only on a tensor of exactly one
    element. The check it makes is on the number of axes: a leaf of three
    elements and shape (3,) is accepted and [backward()] succeeds on it,
    while a tensor of one element and shape (1, 1) is refused. In general
    every tensor whose number of axes is not one is refused with an
    [AssertionError], and every leaf with one axis is accepted, whatever
    its number of elements. *)
Theorem backward_accepts_one_axis (env : Env) :
  (∃ h', Tensor_backward env 0%nat [leaf [1; 2; 3]%float [3] true] = Ok (tt, h'))
  ∧ Tensor_backward env 0%nat [leaf [1%float] [1; 1] true] = Raise AssertionError
  ∧ (∀ (h : Heap) (a : addr) (t : Tensor),
       h !! a = Some t →
       (length (Storage_shape (storage t)) ≠ 1%nat →
        Tensor_backward env a h = Raise AssertionError)
       ∧ (length (Storage_shape (storage t)) = 1%nat → getattr_ctx t = None →
          Tensor_backward env a h = Ok (tt, seeded h a))).
Proof.
  split; [|split].
  - eexists. reflexivity.
  - reflexivity.
  - intros h a t Ht. rewrite (Tensor_backward_unfold env a h t Ht).
    unfold Storage_is_scalar, is_scalar, Storage_shape. split.
    + intros Hne. destruct (Z.eqb_spec (Z.of_nat (length (shape (buffer (storage t))))) 1);
        [lia|done].
    + intros -> Hctx. cbn.
      unfold bindM.
      rewrite (Tensor_toposort_leaf env (seeded h a) a (with_grad t (Some (length h))));
        [reflexivity| |exact Hctx].
      unfold seeded. rewrite Ht. apply list_lookup_insert_eq.
      rewrite length_app. apply lookup_lt_Some in Ht. lia.
Qed.

(** ** Accumulation of gradients *)

Section Accumulation.

Context (env : Env).

Lemma Tensor_init_run (s : Storage) (rg : bool) (dt : Dtype) (h : Heap) :
  Storage_rank s ≤ 4 →
  Tensor_init s rg dt h = Ok (length h, h ++ [mkTensor s rg dt None CtxNone]).
Proof. intros Hr. by apply Tensor_init_Ok. Qed.

Lemma Storage_add_shape (x y s : Storage) :
  Storage_add x y = Ok s → Storage_shape s = Storage_shape x.
Proof.
  unfold Storage_add, add. intros H.
  apply bind_Ok in H as (b & Hb & H). injection H as <-.
  apply bind_Ok in Hb as (d & _ & Hb). by injection Hb as <-.
Qed.

Lemma Tensor_shape_run (a : addr) (t : Tensor) (h : Heap) :
  h !! a = Some t → Tensor_shape a h = Ok (Storage_shape (storage t), h).
Proof. intros Ht. unfold Tensor_shape, bindM, load. by rewrite Ht. Qed.

Lemma bindM_run {A B : Type} (m : M A) (k : A → M B) (h h1 : Heap) (a : A) :
  m h = Ok (a, h1) → bindM m k h = k a h1.
Proof. intros H. unfold bindM. by rewrite H. Qed.

Lemma load_run (a : addr) (t : Tensor) (h : Heap) :
  h !! a = Some t → load a h = Ok (t, h).
Proof. intros H. unfold load. by rewrite H. Qed.

Lemma for_collect_load_run (inputs : list addr) (ts : list Tensor) (h : Heap) :
  Forall2 (λ a t, h !! a = Some t) inputs ts → for_collect load inputs h = Ok (ts, h).
Proof.
  induction 1 as [|a t inputs ts Ht _ IH]; [done|].
  cbn [for_collect]. rewrite (bindM_run _ _ _ _ _ (load_run _ _ _ Ht)).
  by rewrite (bindM_run _ _ _ _ _ IH).
Qed.

(** [Function.apply] on inputs that are in the heap, when the forward pass
    succeeds. *)
Lemma Function_apply_run (op : OpClass) (inputs : list addr) (ts : list Tensor)
    (out : Storage) (h : Heap) :
  Forall2 (λ a t, h !! a = Some t) inputs ts →
  op_forward op (storage <$> ts) = Ok out → Storage_rank out ≤ 4 →
  let rg := existsb id (requires_grad <$> ts) in
  Function_apply op inputs h
  = Ok (length h,
        h ++ [mkTensor out rg DFloat None
                (if rg then CtxSome (mkFunction (requires_grad <$> ts) rg (Some inputs)
                                       (op_backward op (storage <$> ts)
                                          (requires_grad <$> ts)))
                 else CtxNone)]).
Proof.
  intros Hts Hout Hrank rg. unfold Function_apply, Function_init.
  rewrite (bindM_run _ _ h h _
             (bindM_run _ _ h h _ (for_collect_load_run _ _ _ Hts))).
  rewrite (bindM_run _ _ h h _ (for_collect_load_run _ _ _ Hts)).
  cbn [output_requires_grad]. fold rg.
  rewrite (bindM_run (lift _) _ h h out) by (by rewrite Hout).
  rewrite (bindM_run _ _ _ _ _ (Tensor_init_run _ _ _ _ Hrank)).
  destruct rg.
  - unfold bindM, set_ctx, modify.
    rewrite lookup_app_r by lia. rewrite Nat.sub_diag. cbn [lookup list_lookup].
    unfold ret. rewrite insert_app_r_alt by lia. by rewrite Nat.sub_diag.
  - reflexivity.
Qed.

(** The first gradient that reaches a parent becomes its gradient. *)
Lemma accumulate_first (h : Heap) (parent g : addr) (p tg : Tensor) :
  h !! parent = Some p → requires_grad p = true → grad p = None →
  h !! g = Some tg → Storage_shape (storage tg) = Storage_shape (storage p) →
  accumulate env parent (Some g) h = Ok (tt, <[parent := with_grad p (Some g)]> h).
Proof.
  intros Hp Hrg Hgrad Hg Hshape. unfold accumulate.
  rewrite (bindM_run _ _ _ _ _ (load_run _ _ _ Hp)), Hrg.
  rewrite (bindM_run _ _ _ _ _ (Tensor_shape_run _ _ _ Hg)).
  rewrite (bindM_run _ _ _ _ _ (Tensor_shape_run _ _ _ Hp)).
  rewrite Hshape, bool_decide_eq_true_2 by done.
  rewrite (bindM_run (lift _) _ h h tt) by done.
  rewrite Hgrad. unfold set_grad, modify. by rewrite Hp.
Qed.

(** [x + y] for two tensors of one shape that require no gradient. *)
Lemma Tensor___add___run (h : Heap) (x y : addr) (tx ty : Tensor) (s : Storage) :
  h !! x = Some tx → h !! y = Some ty →
  Storage_shape (storage tx) = Storage_shape (storage ty) →
  tensor_dtype tx = tensor_dtype ty →
  requires_grad tx = false → requires_grad ty = false →
  Storage_rank (storage tx) ≤ 4 →
  Storage_add (storage tx) (storage ty) = Ok s →
  Tensor___add__ env x y h
  = Ok (length h, h ++ [mkTensor s false DFloat None CtxNone]).
Proof.
  intros Hx Hy Hshape Hdt Hrx Hry Hrank Hadd.
  assert (Hrs : Storage_rank s ≤ 4).
  { unfold Storage_rank in *. apply Storage_add_shape in Hadd.
    unfold Storage_shape in Hadd. by rewrite Hadd. }
  unfold Tensor___add__.
  rewrite (bindM_run _ _ _ _ _ (load_run _ _ _ Hx)).
  rewrite (bindM_run _ _ _ _ _ (load_run _ _ _ Hy)).
  rewrite (bindM_run _ _ h h tt)
    by (destruct (DEBUG env); [by rewrite Hdt, bool_decide_eq_true_2|done]).
  unfold Tensor_add, Tensor__broadcasted.
  rewrite (bindM_run _ _ h h (x, y)).
  2:{ rewrite (bindM_run _ _ _ _ _ (Tensor_shape_run _ _ _ Hx)).
      rewrite (bindM_run _ _ _ _ _ (Tensor_shape_run _ _ _ Hy)).
      by rewrite Hshape, bool_decide_eq_true_2. }
  cbn [fst snd].
  rewrite (Function_apply_run (ops_Add env) [x; y] [tx; ty] s h);
    [|by repeat constructor|exact Hadd|exact Hrs].
  cbn [fmap list_fmap existsb id]. by rewrite Hrx, Hry.
Qed.

(** Every later gradient is added to the one that is there: the slot then
    holds a new tensor whose storage is the sum. *)
Lemma accumulate_add (h : Heap) (parent old g : addr) (p told tg : Tensor) (s : Storage) :
  h !! parent = Some p → requires_grad p = true → grad p = Some old →
  h !! old = Some told → h !! g = Some tg →
  Storage_shape (storage tg) = Storage_shape (storage p) →
  Storage_shape (storage told) = Storage_shape (storage tg) →
  tensor_dtype told = tensor_dtype tg →
  requires_grad told = false → requires_grad tg = false →
  Storage_rank (storage told) ≤ 4 →
  Storage_add (storage told) (storage tg) = Ok s →
  accumulate env parent (Some g) h
  = Ok (tt, <[parent := with_grad p (Some (length h))]>
              (h ++ [mkTensor s false DFloat None CtxNone])).
Proof.
  intros Hp Hrg Hgrad Hold Hg Hshape Hshape' Hdt Hro Hrg' Hrank Hadd.
  pose proof (lookup_lt_Some _ _ _ Hp) as Hplt.
  unfold accumulate.
  rewrite (bindM_run _ _ _ _ _ (load_run _ _ _ Hp)), Hrg.
  rewrite (bindM_run _ _ _ _ _ (Tensor_shape_run _ _ _ Hg)).
  rewrite (bindM_run _ _ _ _ _ (Tensor_shape_run _ _ _ Hp)).
  rewrite Hshape, bool_decide_eq_true_2 by done.
  rewrite (bindM_run (lift _) _ h h tt) by done.
  rewrite Hgrad.
  rewrite (bindM_run _ _ _ _ _
             (Tensor___add___run h old g told tg s Hold Hg Hshape' Hdt Hro Hrg' Hrank Hadd)).
  unfold set_grad, modify. rewrite lookup_app_l by done. by rewrite Hp.
Qed.

End Accumulation.

Section Diamond.

Context (env : Env).

Lemma backward_step_run (h : Heap) (node g : addr) (t tg : Tensor) (ctx : Function)
    (r : BackwardRet) (ps : list addr) (gs : list (option Storage)) :
  h !! node = Some t → grad t = Some g → _ctx t = CtxSome ctx → h !! g = Some tg →
  backward_rule ctx (storage tg) = Ok r → parents ctx = Some ps →
  grads_sequence (length ps) r = Ok gs →
  backward_step env node h
  = (let! grads := for_collect (λ g : option Storage,
         match g with
         | Some s => let! a := Tensor_init s false DFloat in ret (Some a)
         | None => ret None
         end) gs in
     let! _ := for_each (λ pg : addr * option addr, accumulate env pg.1 pg.2)
                 (zip ps grads) in
     del_ctx node) h.
Proof.
  intros Ht Hgrad Hctx Hg Hrule Hps Hgs. unfold backward_step.
  rewrite (bindM_run _ _ _ _ _ (load_run _ _ _ Ht)).
  rewrite (bindM_run (lift _) _ h h tt) by (by rewrite Hgrad).
  rewrite (bindM_run (lift _) _ h h ctx) by (unfold Tensor_ctx; by rewrite Hctx).
  rewrite Hgrad. cbn [default from_option id].
  rewrite (bindM_run _ _ _ _ _ (load_run _ _ _ Hg)).
  rewrite (bindM_run (lift _) _ h h r) by (by rewrite Hrule).
  rewrite (bindM_run (lift _) _ h h ps) by (unfold Function_parents; by rewrite Hps).
  rewrite (bindM_run (lift _) _ h h gs) by (by rewrite Hgs).
  reflexivity.
Qed.

Lemma del_ctx_run (h : Heap) (node : addr) (t : Tensor) (ctx : Function) :
  h !! node = Some t → _ctx t = CtxSome ctx →
  del_ctx node h = Ok (tt, <[node := with_ctx t CtxDeleted]> h).
Proof.
  intros Ht Hctx. unfold del_ctx.
  rewrite (bindM_run _ _ _ _ _ (load_run _ _ _ Ht)), Hctx.
  unfold set_ctx, modify. by rewrite Ht.
Qed.

Lemma grad_tensor_run (s : Storage) (h : Heap) :
  Storage_rank s ≤ 4 →
  (let! a := Tensor_init s false DFloat in ret (Some a)) h
  = Ok (Some (length h), h ++ [mkTensor s false DFloat None CtxNone]).
Proof. intros Hr. by rewrite (bindM_run _ _ _ _ _ (Tensor_init_run _ _ _ _ Hr)). Qed.

Lemma grad_tensors_run_one (s : Storage) (h : Heap) :
  Storage_rank s ≤ 4 →
  for_collect (λ g : option Storage,
      match g with
      | Some s => let! a := Tensor_init s false DFloat in ret (Some a)
      | None => ret None
      end) [Some s] h
  = Ok ([Some (length h)], h ++ [mkTensor s false DFloat None CtxNone]).
Proof.
  intros Hr. cbn [for_collect].
  by rewrite (bindM_run _ _ _ _ _ (grad_tensor_run s h Hr)).
Qed.

Lemma grad_tensors_run_two (s1 s2 : Storage) (h : Heap) :
  Storage_rank s1 ≤ 4 → Storage_rank s2 ≤ 4 →
  for_collect (λ g : option Storage,
      match g with
      | Some s => let! a := Tensor_init s false DFloat in ret (Some a)
      | None => ret None
      end) [Some s1; Some s2] h
  = Ok ([Some (length h); Some (S (length h))],
        h ++ [mkTensor s1 false DFloat None CtxNone;
              mkTensor s2 false DFloat None CtxNone]).
Proof.
  intros Hr1 Hr2. cbn [for_collect].
  rewrite (bindM_run _ _ _ _ _ (grad_tensor_run s1 h Hr1)).
  rewrite (bindM_run _ _ _ _ _ (bindM_run _ _ _ _ _ (grad_tensor_run s2 _ Hr2))).
  unfold bindM, ret. rewrite length_app, <- app_assoc. cbn [length app].
  by replace (length h + 1)%nat with (S (length h)) by lia.
Qed.

(** A round of the outer loop for an operation of one input whose parent
    has no gradient yet. *)
Lemma backward_step_one_first (h : Heap) (node g p : addr) (t tg tp : Tensor)
    (ctx : Function) (s : Storage) :
  h !! node = Some t → grad t = Some g → _ctx t = CtxSome ctx → h !! g = Some tg →
  backward_rule ctx (storage tg) = Ok (One (Some s)) → parents ctx = Some [p] →
  Storage_rank s ≤ 4 → p ≠ node →
  h !! p = Some tp → requires_grad tp = true → grad tp = None →
  Storage_shape s = Storage_shape (storage tp) →
  backward_step env node h
  = Ok (tt, <[node := with_ctx t CtxDeleted]>
              (<[p := with_grad tp (Some (length h))]>
                 (h ++ [mkTensor s false DFloat None CtxNone]))).
Proof.
  intros Ht Hgrad Hctx Hg Hrule Hps Hrank Hne Hp Hrg Hpg Hshape.
  pose proof (lookup_lt_Some _ _ _ Ht). pose proof (lookup_lt_Some _ _ _ Hp).
  rewrite (backward_step_run h node g t tg ctx _ [p] [Some s]) by done.
  rewrite (bindM_run _ _ _ _ _ (grad_tensors_run_one s h Hrank)).
  cbn [zip zip_with for_each fst snd].
  set (h1 := h ++ [mkTensor s false DFloat None CtxNone]).
  rewrite (bindM_run _ _ h1 (<[p := with_grad tp (Some (length h))]> h1) tt).
  2:{ rewrite (bindM_run _ _ h1 (<[p := with_grad tp (Some (length h))]> h1) tt);
        [reflexivity|].
      apply (accumulate_first env h1 p (length h) tp
               (mkTensor s false DFloat None CtxNone)); try done.
      - unfold h1. by rewrite lookup_app_l.
      - unfold h1. rewrite lookup_app_r by lia. by rewrite Nat.sub_diag. }
  apply (del_ctx_run _ node t ctx); [|done].
  rewrite list_lookup_insert_ne by done. unfold h1. by rewrite lookup_app_l.
Qed.

(** The same round when the parent already has a gradient: the new one is
    added to it. *)
Lemma backward_step_one_add (h : Heap) (node g p old : addr) (t tg tp told : Tensor)
    (ctx : Function) (s total : Storage) :
  h !! node = Some t → grad t = Some g → _ctx t = CtxSome ctx → h !! g = Some tg →
  backward_rule ctx (storage tg) = Ok (One (Some s)) → parents ctx = Some [p] →
  Storage_rank s ≤ 4 → p ≠ node →
  h !! p = Some tp → requires_grad tp = true → grad tp = Some old →
  Storage_shape s = Storage_shape (storage tp) →
  h !! old = Some told → Storage_shape (storage told) = Storage_shape s →
  tensor_dtype told = DFloat → requires_grad told = false →
  Storage_rank (storage told) ≤ 4 →
  Storage_add (storage told) s = Ok total →
  backward_step env node h
  = Ok (tt, <[node := with_ctx t CtxDeleted]>
              (<[p := with_grad tp (Some (S (length h)))]>
                 (h ++ [mkTensor s false DFloat None CtxNone;
                        mkTensor total false DFloat None CtxNone]))).
Proof.
  intros Ht Hgrad Hctx Hg Hrule Hps Hrank Hne Hp Hrg Hpg Hshape
    Hold Hoshape Hodt Horg Horank Hadd.
  pose proof (lookup_lt_Some _ _ _ Ht). pose proof (lookup_lt_Some _ _ _ Hp).
  pose proof (lookup_lt_Some _ _ _ Hold).
  rewrite (backward_step_run h node g t tg ctx _ [p] [Some s]) by done.
  rewrite (bindM_run _ _ _ _ _ (grad_tensors_run_one s h Hrank)).
  cbn [zip zip_with for_each fst snd].
  set (ts := mkTensor s false DFloat None CtxNone).
  set (h1 := h ++ [ts]).
  set (h2 := <[p := with_grad tp (Some (S (length h)))]>
               (h1 ++ [mkTensor total false DFloat None CtxNone])).
  rewrite (bindM_run _ _ h1 h2 tt).
  2:{ rewrite (bindM_run _ _ h1 h2 tt); [reflexivity|].
      rewrite (accumulate_add env h1 p old (length h) tp told ts total).
      - unfold h2, h1. rewrite length_app. cbn [length].
        by replace (length h + 1)%nat with (S (length h)) by lia.
      - unfold h1. by rewrite lookup_app_l.
      - done.
      - done.
      - unfold h1. by rewrite lookup_app_l.
      - unfold h1. rewrite lookup_app_r by lia. by rewrite Nat.sub_diag.
      - done.
      - done.
      - done.
      - done.
      - done.
      - done.
      - done. }
  unfold h2, h1. rewrite <- app_assoc. cbn [app].
  apply (del_ctx_run _ node t ctx); [|done].
  rewrite list_lookup_insert_ne by done. by rewrite lookup_app_l.
Qed.

(** A round for an operation of two distinct inputs, neither of which has
    a gradient yet. *)
Lemma backward_step_two_first (h : Heap) (node g p1 p2 : addr) (t tg tp1 tp2 : Tensor)
    (ctx : Function) (s1 s2 : Storage) :
  h !! node = Some t → grad t = Some g → _ctx t = CtxSome ctx → h !! g = Some tg →
  backward_rule ctx (storage tg) = Ok (Many [Some s1; Some s2]) →
  parents ctx = Some [p1; p2] →
  Storage_rank s1 ≤ 4 → Storage_rank s2 ≤ 4 → p1 ≠ node → p2 ≠ node → p1 ≠ p2 →
  h !! p1 = Some tp1 → requires_grad tp1 = true → grad tp1 = None →
  Storage_shape s1 = Storage_shape (storage tp1) →
  h !! p2 = Some tp2 → requires_grad tp2 = true → grad tp2 = None →
  Storage_shape s2 = Storage_shape (storage tp2) →
  backward_step env node h
  = Ok (tt, <[node := with_ctx t CtxDeleted]>
              (<[p2 := with_grad tp2 (Some (S (length h)))]>
                 (<[p1 := with_grad tp1 (Some (length h))]>
                    (h ++ [mkTensor s1 false DFloat None CtxNone;
                           mkTensor s2 false DFloat None CtxNone])))).
Proof.
  intros Ht Hgrad Hctx Hg Hrule Hps Hr1 Hr2 Hn1 Hn2 Hne
    Hp1 Hrg1 Hpg1 Hsh1 Hp2 Hrg2 Hpg2 Hsh2.
  pose proof (lookup_lt_Some _ _ _ Ht). pose proof (lookup_lt_Some _ _ _ Hp1).
  pose proof (lookup_lt_Some _ _ _ Hp2).
  rewrite (backward_step_run h node g t tg ctx _ [p1; p2] [Some s1; Some s2]) by done.
  rewrite (bindM_run _ _ _ _ _ (grad_tensors_run_two s1 s2 h Hr1 Hr2)).
  set (t1 := mkTensor s1 false DFloat None CtxNone).
  set (t2 := mkTensor s2 false DFloat None CtxNone).
  cbn [zip zip_with for_each fst snd].
  set (h1 := h ++ [t1; t2]).
  set (h2 := <[p1 := with_grad tp1 (Some (length h))]> h1).
  set (h3 := <[p2 := with_grad tp2 (Some (S (length h)))]> h2).
  rewrite (bindM_run _ _ h1 h3 tt).
  2:{ rewrite (bindM_run _ _ h1 h2 tt).
      - rewrite (bindM_run _ _ h2 h3 tt); [reflexivity|].
        apply (accumulate_first env h2 p2 (S (length h)) tp2 t2); try done.
        + unfold h2, h1. rewrite list_lookup_insert_ne by done. by rewrite lookup_app_l.
        + unfold h2, h1. rewrite list_lookup_insert_ne by lia.
          rewrite lookup_app_r by lia.
          by replace (S (length h) - length h)%nat with 1%nat by lia.
      - apply (accumulate_first env h1 p1 (length h) tp1 t1); try done.
        + unfold h1. by rewrite lookup_app_l.
        + unfold h1. rewrite lookup_app_r by lia. by rewrite Nat.sub_diag. }
  apply (del_ctx_run _ node t ctx); [|done].
  unfold h3, h2, h1. rewrite !list_lookup_insert_ne by done. by rewrite lookup_app_l.
Qed.

(** The backward pass over the diamond: the gradient of the leaf is the sum
    of what the two branches hand back, the one of [c] first. *)
Lemma diamond_backward (sa sb sc sd gb gc ga_b ga_c total : Storage)
    (fb fc fd : Storage → result BackwardRet) :
  Storage_is_scalar sd = true →
  fd (Storage_of_float 1%float DFloat) = Ok (Many [Some gb; Some gc]) →
  Storage_shape gb = Storage_shape sb → Storage_rank gb ≤ 4 →
  Storage_shape gc = Storage_shape sc → Storage_rank gc ≤ 4 →
  fc gc = Ok (One (Some ga_c)) → fb gb = Ok (One (Some ga_b)) →
  Storage_shape ga_c = Storage_shape sa → Storage_rank ga_c ≤ 4 →
  Storage_shape ga_b = Storage_shape sa → Storage_rank ga_b ≤ 4 →
  Storage_add ga_c ga_b = Ok total →
  (2 ≤ spare_frames env)%nat →
  ∃ h' ta g tg,
    Tensor_backward env 3%nat (diamond sa sb sc sd fb fc fd) = Ok (tt, h')
    ∧ h' !! 0%nat = Some ta ∧ grad ta = Some g
    ∧ h' !! g = Some tg ∧ storage tg = total.
Proof.
  intros Hscalar Hfd Hgb Hgbr Hgc Hgcr Hfc Hfb Hgac Hgacr Hgab Hgabr Hadd Hframes.
  set (td := mkTensor sd true DFloat None
               (CtxSome (mkFunction [true; true] true (Some [1%nat; 2%nat]) fd))).
  rewrite (Tensor_backward_unfold env 3 (diamond sa sb sc sd fb fc fd) td eq_refl).
  cbn [storage td]. rewrite Hscalar.
  unfold seeded, diamond. cbn [lookup list_lookup length app insert list_insert].
  fold td.
  match goal with |- context [bindM _ _ ?hs] => set (h0 := hs) end.
  rewrite (bindM_run _ _ h0 h0 [1; 2; 3]%nat).
  2:{ unfold Tensor_toposort. destruct (spare_frames env) as [|[|n]]; [lia|lia|].
      reflexivity. }
  cbn [reverse rev_append for_each].
  erewrite (bindM_run _ _ h0 _ tt).
  2:{ eapply (backward_step_two_first h0 3 4 1 2 _ _ _ _ _ gb gc);
        [reflexivity|reflexivity|reflexivity|reflexivity|exact Hfd|reflexivity
        |exact Hgbr|exact Hgcr|done|done|done
        |reflexivity|reflexivity|reflexivity|exact Hgb
        |reflexivity|reflexivity|reflexivity|exact Hgc]. }
  cbn [length h0 app insert list_insert with_grad with_ctx storage requires_grad
         tensor_dtype grad _ctx td].
  match goal with |- context [bindM _ _ ?hs] => set (h1 := hs) end.
  erewrite (bindM_run _ _ h1 _ tt).
  2:{ eapply (backward_step_one_first h1 2 6 0 _ _ _ _ ga_c);
        [reflexivity|reflexivity|reflexivity|reflexivity|exact Hfc|reflexivity
        |exact Hgacr|done|reflexivity|reflexivity|reflexivity|exact Hgac]. }
  cbn [length h1 app insert list_insert with_grad with_ctx storage requires_grad
         tensor_dtype grad _ctx].
  match goal with |- context [bindM _ _ ?hs] => set (h2 := hs) end.
  erewrite (bindM_run _ _ h2 _ tt).
  2:{ eapply (backward_step_one_add h2 1 5 0 7 _ _ _ _ _ ga_b total);
        [reflexivity|reflexivity|reflexivity|reflexivity|exact Hfb|reflexivity
        |exact Hgabr|done|reflexivity|reflexivity|reflexivity|exact Hgab
        |reflexivity|cbn [storage]; congruence|reflexivity|reflexivity
        |exact Hgacr|exact Hadd]. }
  cbn [length h2 app insert list_insert with_grad with_ctx storage requires_grad
         tensor_dtype grad _ctx].
  eexists _, _, _, _. split; [reflexivity|].
  cbn [lookup list_lookup]. repeat split; reflexivity.
Qed.

End Diamond.

(** ** Broadcasting *)

Section Broadcasting.

Context (env : Env).

Lemma Function_apply_one (op : OpClass) (x : addr) (t : Tensor) (out : Storage) (h : Heap) :
  h !! x = Some t → op_forward op [storage t] = Ok out → Storage_rank out ≤ 4 →
  ∃ t', Function_apply op [x] h = Ok (length h, h ++ [t']) ∧ storage t' = out.
Proof.
  intros Ht Hout Hrank. eexists. split.
  - apply (Function_apply_run op [x] [t]); [by repeat constructor|done|done].
  - reflexivity.
Qed.

Lemma foldl_bindM_at {A : Type} (body : addr → A → M addr) (l : list A)
    (acc acc' : M addr) (h h' : Heap) :
  acc h = acc' h' →
  foldl (λ acc i, bindM acc (λ x, body x i)) acc l h
  = foldl (λ acc i, bindM acc (λ x, body x i)) acc' l h'.
Proof.
  revert acc acc'. induction l as [|i l IH]; intros acc acc' H; [done|].
  cbn [foldl]. apply IH. unfold bindM. by rewrite H.
Qed.

Lemma prod_replicate_one (n : nat) (dims : list Z) :
  Py.prod (replicate n 1 ++ dims) = Py.prod dims.
Proof.
  induction n as [|n IH]; [done|].
  cbn [replicate app]. rewrite prod_cons. lia.
Qed.

Lemma well_formed_contiguous (s : Storage) :
  well_formed s → Storage_shape s ≠ [] → contiguous (buffer s).
Proof.
  intros (Hdims & Hstr & Hlen) Hrank. split; try done.
  eapply Forall_impl; [exact Hdims|]. intros n Hn. cbn beta in Hn. lia.
Qed.

Lemma well_formed_reshape (s : Storage) (new_shape : list Z) :
  well_formed s → Forall (λ n, 1 ≤ n) new_shape →
  Py.prod new_shape = Py.prod (Storage_shape s) →
  well_formed (Storage_reshape s new_shape).
Proof.
  intros (Hdims & Hstr & Hlen) Hnew Hprod.
  unfold well_formed, Storage_reshape, Storage_shape, reshape, MiniBuffer_init.
  cbn [buffer shape strides data]. split; [done|]. split.
  - apply get_strides_from_shape_contiguous.
  - by rewrite Hprod.
Qed.

(** [reshape] on a tensor of the heap. *)
Lemma Tensor_reshape_run (x : addr) (t : Tensor) (new_shape : list Z) (h : Heap) :
  h !! x = Some t → Forall (λ n, 1 ≤ n) new_shape →
  Py.prod new_shape = Py.prod (Storage_shape (storage t)) →
  (length new_shape ≤ 4)%nat →
  ∃ t', Tensor_reshape env x new_shape h = Ok (length h, h ++ [t'])
      ∧ storage t' = Storage_reshape (storage t) new_shape.
Proof.
  intros Ht Hdims Hprod Hrank. unfold Tensor_reshape.
  rewrite (bindM_run (lift _) _ h h tt).
  2:{ unfold lift. rewrite bool_decide_eq_false_2; [done|].
      intros H0. rewrite Forall_forall in Hdims. apply Hdims in H0. lia. }
  rewrite (bindM_run _ _ _ _ _ (Tensor_shape_run _ _ _ Ht)).
  rewrite (bindM_run (lift _) _ h h tt).
  2:{ unfold lift. rewrite Hprod, Z.eqb_refl. done. }
  apply Function_apply_one with (t := t); [done|done|].
  unfold Storage_rank, Storage_reshape, reshape, MiniBuffer_init.
  cbn [buffer shape]. lia.
Qed.

(** [expand] of a row-major buffer along an axis of size one. *)
Lemma expand_elements (x : MiniBuffer) (a : nat) (k : Z) :
  contiguous x → shape x !! a = Some 1 → 0 ≤ k →
  ∃ y, expand x (Z.of_nat a) k = Ok y
     ∧ shape y = <[a := k]> (shape x) ∧ contiguous y
     ∧ ∀ key, valid_key key (shape y) →
         ∃ v, getitem x (<[a := 0]> key) = Ok v
            ∧ getitem y key = Ok (PrimFloat.add v PrimFloat.zero).
Proof.
  intros Hx Ha Hk.
  pose proof Hx as [Hrank Hdims Hstr Hlen].
  pose proof (lookup_lt_Some _ _ _ Ha) as Halt.
  pose proof (expand_view_readable x a k Hx Ha Hk) as Hview.
  set (view := mkMiniBuffer (Py.repeat_list (data x) k) (<[a := k]> (shape x))
                 (<[a := Py.prod (<[a := 1]> (shape x))]> (strides x))) in *.
  exists (materialized view). split; [|split; [|split]].
  - rewrite expand_view by (done || by rewrite Hstr, length_contiguous_strides).
    by apply add_zeros_materialized.
  - reflexivity.
  - apply materialized_contiguous; apply Hview.
  - intros key Hkey. cbn [materialized shape view] in Hkey.
    assert (∃ ka, key !! a = Some ka ∧ 0 ≤ ka < k) as (ka & Hka & Hkab).
    { destruct (Forall2_lookup_r _ _ _ a k Hkey) as (ka & ? & ?).
      - by apply list_lookup_insert_eq.
      - eauto. }
    assert (Hkey0 : valid_key (<[a := 0]> key) (shape x)).
    { rewrite <- (list_insert_id (shape x) a 1 Ha).
      rewrite <- (list_insert_insert_eq (shape x) a 1 k).
      apply Forall2_insert; [done|lia]. }
    destruct (getitem_materialized x _ (contiguous_readable _ Hx) Hkey0) as [H1 _].
    destruct (getitem_materialized view key Hview Hkey) as [_ H2].
    eexists. split; [exact H1|]. rewrite H2. do 2 f_equal.
    cbn [view data strides].
    rewrite (dot_insert _ _ _ ka) by (done || rewrite Hstr, length_contiguous_strides; lia).
    rewrite prod_insert_one by done.
    pose proof (dot_contiguous_bound _ _ Hkey0) as Hb. rewrite <- Hstr in Hb.
    rewrite <- Hlen. rewrite Z.add_comm. rewrite peek_repeat_list by lia.
    reflexivity.
Qed.





Lemma expanded_along_cons (i m : Z) (axes : list (Z * Z)) (b y : MiniBuffer) :
  expand b i m = Ok y →
  expanded_along ((i, m) :: axes) b = expanded_along axes y.
Proof. intros H. unfold expanded_along. cbn [foldl bind fst snd]. by rewrite H. Qed.



(** The loop of [Tensor.expand] from axis [k] on: the axes before [k]
    have the sizes of the target already, every later one has the size of
    the target or the size one. *)
Lemma expand_loop (target : list Z) (n k : nat) (x : addr) (t : Tensor) (h : Heap) :
  h !! x = Some t →
  contiguous (buffer (storage t)) →
  (k + n = length target)%nat → (length target ≤ 4)%nat →
  Forall (λ m, 0 ≤ m) target →
  take k (Storage_shape (storage t)) = take k target →
  Forall2 (λ d m, d = m ∨ d = 1) (drop k (Storage_shape (storage t))) (drop k target) →
  ∃ x' t' h',
    foldl (λ acc dim_idx,
        let! x := acc in
        let! sh := Tensor_shape x in
        let! d := lift (Py.index sh dim_idx) in
        let! n := lift (Py.index target dim_idx) in
        if negb (d =? n) then
          let! _ := lift (py_assert (d =? 1)) in
          Function_apply (ops_Expand env dim_idx n) [x]
        else ret x) (ret x) (seqZ (Z.of_nat k) (Z.of_nat n)) h = Ok (x', h')
    ∧ preserves h h' ∧ h' !! x' = Some t'
    ∧ contiguous (buffer (storage t'))
    ∧ Storage_shape (storage t') = target
    ∧ (drop k (Storage_shape (storage t)) = drop k target → x' = x ∧ h' = h)
    ∧ expanded_along
        (expansions (Z.of_nat k) (drop k (Storage_shape (storage t))) (drop k target))
        (buffer (storage t)) = Ok (buffer (storage t'))
    ∧ dtype (storage t') = dtype (storage t).
Proof.
  revert k x t h. induction n as [|n IH]; intros k x t h Ht Hc Hkn Hr4 Htgt Htake Hdrop.
  - assert (Hlen : length (Storage_shape (storage t)) = length target).
    { apply Forall2_length in Hdrop. rewrite !length_drop in Hdrop.
      apply (f_equal length) in Htake. rewrite !length_take in Htake. lia. }
    exists x, t, h. cbn [seqZ Z.of_nat foldl]. split; [done|].
    split; [apply preserves_refl|]. split; [done|]. split; [done|]. split.
    { rewrite <- (take_ge (Storage_shape (storage t)) k) by lia.
      rewrite Htake. apply take_ge. lia. }
    split; [done|]. split; [|done].
    by rewrite (drop_ge (Storage_shape (storage t))) by lia.
  - assert (Hlen : length (Storage_shape (storage t)) = length target).
    { apply Forall2_length in Hdrop. rewrite !length_drop in Hdrop.
      apply (f_equal length) in Htake. rewrite !length_take in Htake. lia. }
    destruct (lookup_lt_is_Some_2 target k) as [m Hm]; [lia|].
    destruct (lookup_lt_is_Some_2 (Storage_shape (storage t)) k) as [d Hd]; [lia|].
    rewrite (drop_S _ _ _ Hm), (drop_S _ _ _ Hd) in Hdrop.
    apply Forall2_cons in Hdrop as [Hdm Hdrop].
    assert (0 ≤ m) as Hm0.
    { rewrite Forall_forall in Htgt. apply Htgt. by eapply list_elem_of_lookup_2. }
    rewrite seqZ_cons by lia. cbn [foldl].
    replace (Z.succ (Z.of_nat k)) with (Z.of_nat (S k)) by lia.
    replace (Z.pred (Z.of_nat (S n))) with (Z.of_nat n) by lia.
    set (body := λ (x : addr) (dim_idx : Z),
        let! sh := Tensor_shape x in
        let! d := lift (Py.index sh dim_idx) in
        let! n := lift (Py.index target dim_idx) in
        if negb (d =? n) then
          let! _ := lift (py_assert (d =? 1)) in
          Function_apply (ops_Expand env dim_idx n) [x]
        else ret x).
    change (foldl _ ?a0 ?l0 h) with (foldl (λ acc i, bindM acc (λ x, body x i)) a0 l0 h).
    
    assert (Hbody : ∀ r, body x (Z.of_nat k) h = r →
              bindM (ret x) (λ x0, body x0 (Z.of_nat k)) h = r) by done.
    destruct (Z.eqb_spec d m) as [->|Hne].
    + (* the axis has the size of the target already *)
      rewrite (foldl_bindM_at body _ _ (ret x) h h).
      2:{ apply Hbody. unfold body.
          rewrite (bindM_run _ _ _ _ _ (Tensor_shape_run _ _ _ Ht)).
          rewrite (bindM_run (lift _) _ h h m) by (unfold lift; by rewrite (index_nat _ _ _ Hd)).
          rewrite (bindM_run (lift _) _ h h m) by (unfold lift; by rewrite (index_nat _ _ _ Hm)).
          by rewrite Z.eqb_refl. }
      destruct (IH (S k) x t h)
        as (x' & t' & h' & Hrun & Hpre & Hx' & Hc' & Hsh & Hsame & Hex & Hdt);
        try done; try lia.
      { rewrite (take_S_r _ _ _ Hm), (take_S_r _ _ _ Hd). by rewrite Htake. }
      exists x', t', h'. repeat (split; [done|]).
      rewrite (drop_S _ _ _ Hm), (drop_S _ _ _ Hd). split.
      { intros [= E]. by apply Hsame. }
      split; [|done]. cbn [expansions]. rewrite Z.eqb_refl.
      by replace (Z.of_nat k + 1) with (Z.of_nat (S k)) by lia.
    + (* the axis is expanded *)
      destruct Hdm as [Hdm|Hdm]; [done|]. subst d.
      destruct (expand_elements (buffer (storage t)) k m Hc Hd Hm0)
        as (y & Hy & Hysh & Hyc & _).
      destruct (Function_apply_one (ops_Expand env (Z.of_nat k) m) x t
                  (mkStorage y (dtype (storage t))) h) as (t1 & Hap & Hst1).
      { done. }
      { cbn [ops_Expand op_forward]. unfold Storage_expand. by rewrite Hy. }
      { unfold Storage_rank. cbn [buffer]. rewrite Hysh, length_insert.
        unfold Storage_shape in Hlen. lia. }
      rewrite (foldl_bindM_at body _ _ (ret (length h)) h (h ++ [t1])).
      2:{ apply Hbody. unfold body.
          rewrite (bindM_run _ _ _ _ _ (Tensor_shape_run _ _ _ Ht)).
          rewrite (bindM_run (lift _) _ h h 1) by (unfold lift; by rewrite (index_nat _ _ _ Hd)).
          rewrite (bindM_run (lift _) _ h h m) by (unfold lift; by rewrite (index_nat _ _ _ Hm)).
          destruct (Z.eqb_spec 1 m) as [?|_]; [done|]. cbn [negb].
          rewrite (bindM_run (lift _) _ h h tt) by done.
          exact Hap. }
      assert (Hsh1 : Storage_shape (storage t1) = <[k := m]> (Storage_shape (storage t))).
      { rewrite Hst1. exact Hysh. }
      destruct (IH (S k) (length h) t1 (h ++ [t1]))
        as (x' & t' & h' & Hrun & Hpre & Hx' & Hc' & Hsh & Hsame & Hex & Hdt);
        try done; try lia.
      { rewrite lookup_app_r by lia. by rewrite Nat.sub_diag. }
      { by rewrite Hst1. }
      { rewrite Hsh1, (take_S_r _ _ _ Hm).
        rewrite (take_S_r _ k m) by (apply list_lookup_insert_eq; lia).
        by rewrite take_insert_ge, Htake by lia. }
      { rewrite Hsh1. by rewrite drop_insert_lt by lia. }
      exists x', t', h'. split; [done|]. split.
      { eapply preserves_trans; [apply preserves_alloc|done]. }
      repeat (split; [done|]).
      rewrite (drop_S _ _ _ Hm), (drop_S _ _ _ Hd). split.
      { intros [= E]. lia. }
      split; [|by rewrite Hdt, Hst1].
      cbn [expansions]. destruct (Z.eqb_spec 1 m) as [?|_]; [done|].
      replace (Z.of_nat k + 1) with (Z.of_nat (S k)) by lia.
      rewrite (expanded_along_cons _ _ _ _ _ Hy).
      rewrite Hsh1, drop_insert_lt, Hst1 in Hex by lia. exact Hex.
Qed.

(** [expand] to a target of the rank of the tensor. *)
Lemma Tensor_expand_run (target : list Z) (x : addr) (t : Tensor) (h : Heap) :
  h !! x = Some t →
  contiguous (buffer (storage t)) →
  (length target ≤ 4)%nat →
  Forall (λ m, 0 ≤ m) target →
  Forall2 (λ d m, d = m ∨ d = 1) (Storage_shape (storage t)) target →
  ∃ x' t' h',
    Tensor_expand env x target h = Ok (x', h')
    ∧ preserves h h' ∧ h' !! x' = Some t'
    ∧ contiguous (buffer (storage t'))
    ∧ Storage_shape (storage t') = target
    ∧ (Storage_shape (storage t) = target → x' = x ∧ h' = h)
    ∧ expanded_along (expansions 0 (Storage_shape (storage t)) target)
        (buffer (storage t)) = Ok (buffer (storage t'))
    ∧ dtype (storage t') = dtype (storage t).
Proof.
  intros Ht Hc Hr4 Htgt Hcompat.
  pose proof (Forall2_length _ _ _ Hcompat) as Hlen.
  unfold Tensor_expand.
  rewrite (bindM_run _ _ _ _ _ (Tensor_shape_run _ _ _ Ht)).
  rewrite (bindM_run (lift _) _ h h tt).
  2:{ unfold lift. destruct (Z.leb_spec (Z.of_nat (length (Storage_shape (storage t))))
                               (Z.of_nat (length target))); [done|lia]. }
  rewrite Hlen, Z.sub_diag. cbn [Z.ltb Z.compare].
  rewrite (bindM_run (ret x) _ h h x) by done.
  rewrite (bindM_run _ _ _ _ _ (Tensor_shape_run _ _ _ Ht)).
  rewrite Hlen. unfold Py.range.
  apply (expand_loop target (length target) 0 x t h); try done.
Qed.




Lemma padded_full (r : nat) (dims : list Z) : (r ≤ length dims)%nat → padded r dims = dims.
Proof. intros H. unfold padded. by replace (r - length dims)%nat with 0%nat by lia. Qed.

Lemma padded_length (r : nat) (dims : list Z) :
  (length dims ≤ r)%nat → length (padded r dims) = r.
Proof. intros H. unfold padded. rewrite length_app, length_replicate. lia. Qed.

Lemma padded_dims (r : nat) (dims : list Z) :
  Forall (λ n, 1 ≤ n) dims → Forall (λ n, 1 ≤ n) (padded r dims).
Proof. intros H. apply Forall_app. split; [|done]. by apply Forall_replicate. Qed.







End Broadcasting.


(** ** Shapes that broadcasting cannot align *)

Section BroadcastingFailure.

Context (env : Env).

Lemma foldl_bindM_Raise {A : Type} (body : addr → A → M addr) (l : list A)
    (acc : M addr) (h : Heap) (e : PyExc) :
  acc h = Raise e →
  foldl (λ acc i, bindM acc (λ x, body x i)) acc l h = Raise e.
Proof.
  revert acc. induction l as [|i l IH]; intros acc H; [done|].
  cbn [foldl]. apply IH. unfold bindM. by rewrite H.
Qed.

(** The loop of [Tensor.expand] from axis [k] on, when one of the axes
    from [k] on has neither the size of the target nor the size one: the
    assertion on that axis fails. *)
Lemma expand_loop_raises (target : list Z) (n k : nat) (x : addr) (t : Tensor) (h : Heap) :
  h !! x = Some t →
  contiguous (buffer (storage t)) →
  (k + n = length target)%nat → (length target ≤ 4)%nat →
  Forall (λ m, 0 ≤ m) target →
  length (Storage_shape (storage t)) = length target →
  ¬ Forall2 (λ d m, d = m ∨ d = 1) (drop k (Storage_shape (storage t))) (drop k target) →
  foldl (λ acc dim_idx,
      let! x := acc in
      let! sh := Tensor_shape x in
      let! d := lift (Py.index sh dim_idx) in
      let! n := lift (Py.index target dim_idx) in
      if negb (d =? n) then
        let! _ := lift (py_assert (d =? 1)) in
        Function_apply (ops_Expand env dim_idx n) [x]
      else ret x) (ret x) (seqZ (Z.of_nat k) (Z.of_nat n)) h = Raise AssertionError.
Proof.
  revert k x t h. induction n as [|n IH]; intros k x t h Ht Hc Hkn Hr4 Htgt Hlen Hdrop.
  - exfalso. apply Hdrop. rewrite !drop_ge by lia. constructor.
  - destruct (lookup_lt_is_Some_2 target k) as [m Hm]; [lia|].
    destruct (lookup_lt_is_Some_2 (Storage_shape (storage t)) k) as [d Hd]; [lia|].
    rewrite (drop_S _ _ _ Hm), (drop_S _ _ _ Hd) in Hdrop.
    assert (0 ≤ m) as Hm0.
    { rewrite Forall_forall in Htgt. apply Htgt. by eapply list_elem_of_lookup_2. }
    rewrite seqZ_cons by lia. cbn [foldl].
    replace (Z.succ (Z.of_nat k)) with (Z.of_nat (S k)) by lia.
    replace (Z.pred (Z.of_nat (S n))) with (Z.of_nat n) by lia.
    set (body := λ (x : addr) (dim_idx : Z),
        let! sh := Tensor_shape x in
        let! d := lift (Py.index sh dim_idx) in
        let! n := lift (Py.index target dim_idx) in
        if negb (d =? n) then
          let! _ := lift (py_assert (d =? 1)) in
          Function_apply (ops_Expand env dim_idx n) [x]
        else ret x).
    change (foldl _ ?a0 ?l0 h) with (foldl (λ acc i, bindM acc (λ x, body x i)) a0 l0 h).
    assert (Hbody : ∀ r, body x (Z.of_nat k) h = r →
              bindM (ret x) (λ x0, body x0 (Z.of_nat k)) h = r) by done.
    destruct (Z.eqb_spec d m) as [->|Hne].
    + (* the axis has the size of the target already *)
      rewrite (foldl_bindM_at body _ _ (ret x) h h).
      2:{ apply Hbody. unfold body.
          rewrite (bindM_run _ _ _ _ _ (Tensor_shape_run _ _ _ Ht)).
          rewrite (bindM_run (lift _) _ h h m) by (unfold lift; by rewrite (index_nat _ _ _ Hd)).
          rewrite (bindM_run (lift _) _ h h m) by (unfold lift; by rewrite (index_nat _ _ _ Hm)).
          by rewrite Z.eqb_refl. }
      apply (IH (S k) x t h); try done; try lia.
      intros H. apply Hdrop. constructor; [by left|done].
    + destruct (Z.eqb_spec d 1) as [->|Hne1].
      * (* the axis is expanded *)
        destruct (expand_elements (buffer (storage t)) k m Hc Hd Hm0)
          as (y & Hy & Hysh & Hyc & _).
        destruct (Function_apply_one (ops_Expand env (Z.of_nat k) m) x t
                    (mkStorage y (dtype (storage t))) h) as (t1 & Hap & Hst1).
        { done. }
        { cbn [ops_Expand op_forward]. unfold Storage_expand. by rewrite Hy. }
        { unfold Storage_rank. cbn [buffer]. rewrite Hysh, length_insert.
          unfold Storage_shape in Hlen. lia. }
        rewrite (foldl_bindM_at body _ _ (ret (length h)) h (h ++ [t1])).
        2:{ apply Hbody. unfold body.
            rewrite (bindM_run _ _ _ _ _ (Tensor_shape_run _ _ _ Ht)).
            rewrite (bindM_run (lift _) _ h h 1) by (unfold lift; by rewrite (index_nat _ _ _ Hd)).
            rewrite (bindM_run (lift _) _ h h m) by (unfold lift; by rewrite (index_nat _ _ _ Hm)).
            destruct (Z.eqb_spec 1 m) as [?|_]; [done|]. cbn [negb].
            rewrite (bindM_run (lift _) _ h h tt) by done.
            exact Hap. }
        assert (Hsh1 : Storage_shape (storage t1) = <[k := m]> (Storage_shape (storage t))).
        { rewrite Hst1. exact Hysh. }
        apply (IH (S k) (length h) t1 (h ++ [t1])); try done; try lia.
        { rewrite lookup_app_r by lia. by rewrite Nat.sub_diag. }
        { by rewrite Hst1. }
        { by rewrite Hsh1, length_insert. }
        rewrite Hsh1, drop_insert_lt by lia.
        intros H. apply Hdrop. constructor; [by right|done].
      * (* the assertion fails *)
        apply foldl_bindM_Raise. apply Hbody. unfold body.
        rewrite (bindM_run _ _ _ _ _ (Tensor_shape_run _ _ _ Ht)).
        rewrite (bindM_run (lift _) _ h h d) by (unfold lift; by rewrite (index_nat _ _ _ Hd)).
        rewrite (bindM_run (lift _) _ h h m) by (unfold lift; by rewrite (index_nat _ _ _ Hm)).
        destruct (Z.eqb_spec d m) as [?|_]; [done|]. cbn [negb].
        unfold bindM, lift, py_assert.
        by destruct (Z.eqb_spec d 1).
Qed.

(** [expand] to a target of the rank of the tensor, one of whose sizes the
    tensor can not be expanded to. *)
Lemma Tensor_expand_raises (target : list Z) (x : addr) (t : Tensor) (h : Heap) :
  h !! x = Some t →
  contiguous (buffer (storage t)) →
  (length target ≤ 4)%nat →
  Forall (λ m, 0 ≤ m) target →
  length (Storage_shape (storage t)) = length target →
  ¬ Forall2 (λ d m, d = m ∨ d = 1) (Storage_shape (storage t)) target →
  Tensor_expand env x target h = Raise AssertionError.
Proof.
  intros Ht Hc Hr4 Htgt Hlen Hcompat.
  unfold Tensor_expand.
  rewrite (bindM_run _ _ _ _ _ (Tensor_shape_run _ _ _ Ht)).
  rewrite (bindM_run (lift _) _ h h tt).
  2:{ unfold lift. destruct (Z.leb_spec (Z.of_nat (length (Storage_shape (storage t))))
                               (Z.of_nat (length target))); [done|lia]. }
  rewrite Hlen, Z.sub_diag. cbn [Z.ltb Z.compare].
  rewrite (bindM_run (ret x) _ h h x) by done.
  rewrite (bindM_run _ _ _ _ _ (Tensor_shape_run _ _ _ Ht)).
  rewrite Hlen. unfold Py.range.
  by apply (expand_loop_raises target (length target) 0 x t h).
Qed.

Lemma compatible_refl (dims : list Z) : compatible dims dims.
Proof. apply Forall2_same_length_lookup_2; [done|]. intros i a b Ha Hb. left. congruence. Qed.

Lemma expandable_refl (dims : list Z) : Forall2 (λ d m : Z, d = m ∨ d = 1) dims dims.
Proof. apply Forall2_same_length_lookup_2; [done|]. intros i a b Ha Hb. left. congruence. Qed.

Lemma expandable_compatible (dims1 dims2 : list Z) :
  length dims1 = length dims2 →
  Forall2 (λ d m, d = m ∨ d = 1) dims1 (zip_with Z.max dims1 dims2) →
  Forall2 (λ d m, d = m ∨ d = 1) dims2 (zip_with Z.max dims1 dims2) →
  compatible dims1 dims2.
Proof.
  revert dims2. induction dims1 as [|a dims1 IH]; intros [|b dims2] Hlen H1 H2; try done.
  { constructor. }
  cbn [zip_with] in H1, H2.
  apply Forall2_cons in H1 as [Ha H1]. apply Forall2_cons in H2 as [Hb H2].
  constructor; [lia|]. apply IH; [simpl in Hlen; lia|done|done].
Qed.

(** [_broadcasted] from the recheck on, for two tensors of one rank whose
    shapes cannot be aligned. *)
Lemma broadcasted_aligned_raises (x y : addr) (tx ty : Tensor) (h : Heap) :
  h !! x = Some tx → h !! y = Some ty →
  well_formed (storage tx) → well_formed (storage ty) →
  let dims1 := Storage_shape (storage tx) in
  let dims2 := Storage_shape (storage ty) in
  (length dims1 ≤ 4)%nat → length dims1 = length dims2 →
  ¬ compatible dims1 dims2 →
  (let! xshape := Tensor_shape x in
   let! yshape := Tensor_shape y in
   if bool_decide (xshape = yshape) then ret (x, y) else
   let shape_ret := zip_with Z.max xshape yshape in
   let! x := if bool_decide (xshape ≠ shape_ret)
             then Tensor_expand env x shape_ret else ret x in
   let! y := if bool_decide (yshape ≠ shape_ret)
             then Tensor_expand env y shape_ret else ret y in
   ret (x, y)) h = Raise AssertionError.
Proof.
  intros Hx Hy Hwx Hwy dims1 dims2 Hr4 Hlen Hinc.
  rewrite (bindM_run _ _ _ _ _ (Tensor_shape_run _ _ _ Hx)).
  rewrite (bindM_run _ _ _ _ _ (Tensor_shape_run _ _ _ Hy)).
  fold dims1 dims2.
  assert (Hne : dims1 ≠ dims2).
  { intros E. apply Hinc. rewrite E. apply compatible_refl. }
  rewrite bool_decide_eq_false_2 by done. cbv zeta.
  set (shape_ret := zip_with Z.max dims1 dims2).
  assert (Hlret : length shape_ret = length dims1).
  { unfold shape_ret. rewrite length_zip_with. lia. }
  assert (Hret : Forall (λ m, 0 ≤ m) shape_ret).
  { unfold shape_ret. apply Forall_forall. intros m Hm.
    apply list_elem_of_lookup in Hm as [i Hm].
    apply lookup_zip_with_Some in Hm as (a & b & -> & Ha & Hb).
    destruct Hwx as [Hdx _]. rewrite Forall_forall in Hdx.
    pose proof (Hdx a (list_elem_of_lookup_2 _ _ _ Ha)). lia. }
  assert (Hxne : dims1 ≠ []).
  { intros E. apply Hne. rewrite E in Hlen |- *. by destruct dims2. }
  assert (Hyne : dims2 ≠ []).
  { intros E. apply Hne. rewrite E in Hlen |- *. by destruct dims1. }
  destruct (decide (Forall2 (λ d m : Z, d = m ∨ d = 1) dims1 shape_ret)) as [Hex|Hnx].
  - (* x can be expanded, y can not *)
    assert (Hny : ¬ Forall2 (λ d m : Z, d = m ∨ d = 1) dims2 shape_ret).
    { intros Hey. apply Hinc. by apply expandable_compatible. }
    assert (Hney : dims2 ≠ shape_ret).
    { intros E. apply Hny. rewrite <- E. apply expandable_refl. }
    assert (∃ x' h1,
              (if bool_decide (dims1 ≠ shape_ret)
               then Tensor_expand env x shape_ret else ret x) h = Ok (x', h1)
              ∧ preserves h h1) as (x' & h1 & Hrx & Hp1).
    { destruct (decide (dims1 = shape_ret)) as [Hd|Hd].
      - rewrite bool_decide_eq_false_2 by (by intros ?). exists x, h.
        split; [done|apply preserves_refl].
      - rewrite bool_decide_eq_true_2 by done.
        destruct (Tensor_expand_run env shape_ret x tx h)
          as (x' & tx' & h1 & ? & ? & _); try done.
        + by apply well_formed_contiguous.
        + lia.
        + by exists x', h1. }
    destruct Hp1 as [Hl1 Hp1']. destruct (Hp1' y ty Hy) as (ty1 & Hy1 & Hsty & _).
    rewrite (bindM_run _ _ _ _ _ Hrx).
    rewrite bool_decide_eq_true_2 by done.
    unfold bindM. rewrite (Tensor_expand_raises shape_ret y ty1 h1); try done.
    + rewrite Hsty. by apply well_formed_contiguous.
    + lia.
    + rewrite Hsty. fold dims2. lia.
    + by rewrite Hsty.
  - (* x can not be expanded *)
    assert (Hnex : dims1 ≠ shape_ret).
    { intros E. apply Hnx. rewrite <- E. apply expandable_refl. }
    rewrite bool_decide_eq_true_2 by done.
    unfold bindM at 1. rewrite (Tensor_expand_raises shape_ret x tx h); try done.
    + by apply well_formed_contiguous.
    + lia.
Qed.

(** Property X25. For two well-formed tensors of rank at most four whose
    shapes, left-padded with ones to one rank, have an axis where the sizes
    differ and neither is one, [_broadcasted] returns no pair of tensors:
    the assertion of [Tensor.expand] on such an axis fails and the call
    raises [AssertionError]. *)
Theorem broadcasted_incompatible_raises (h : Heap) (x y : addr) (tx ty : Tensor) :
  h !! x = Some tx → h !! y = Some ty →
  let S1 := Storage_shape (storage tx) in
  let S2 := Storage_shape (storage ty) in
  let r := max (length S1) (length S2) in
  well_formed (storage tx) → well_formed (storage ty) → (r ≤ 4)%nat →
  ¬ compatible (padded r S1) (padded r S2) →
  Tensor__broadcasted env x y h = Raise AssertionError.
Proof.
  intros Hx Hy S1 S2 r Hwx Hwy Hr4 Hinc.
  unfold Tensor__broadcasted.
  rewrite (bindM_run _ _ _ _ _ (Tensor_shape_run _ _ _ Hx)).
  rewrite (bindM_run _ _ _ _ _ (Tensor_shape_run _ _ _ Hy)).
  fold S1 S2.
  assert (Hne : S1 ≠ S2).
  { intros E. apply Hinc. rewrite E. apply compatible_refl. }
  rewrite bool_decide_eq_false_2 by done. cbv zeta.
  destruct (Z.ltb_spec 0 (Z.of_nat (length S1) - Z.of_nat (length S2))) as [Hgt|Hle].
  - (* y has the lower rank *)
    replace (Z.to_nat (Z.of_nat (length S1) - Z.of_nat (length S2)))
      with (r - length S2)%nat by (unfold r; lia).
    change (replicate (r - length S2) 1 ++ S2) with (padded r S2).
    assert (Hr : r = length S1) by (unfold r; lia).
    rewrite (padded_full r S1) in Hinc by lia.
    destruct (Tensor_reshape_run env y ty (padded r S2) h) as (ty1 & Hrun & Hst); try done.
    { apply padded_dims, Hwy. }
    { apply prod_replicate_one. }
    { rewrite padded_length by lia. lia. }
    rewrite (bindM_run _ _ h (h ++ [ty1]) (x, length h))
      by (by rewrite (bindM_run _ _ _ _ _ Hrun)).
    cbn [fst snd].
    apply (broadcasted_aligned_raises x (length h) tx ty1 (h ++ [ty1])).
    { rewrite lookup_app_l; [done|]. by eapply lookup_lt_Some. }
    { rewrite lookup_app_r by lia. by rewrite Nat.sub_diag. }
    { done. }
    { rewrite Hst. apply well_formed_reshape; [done|apply padded_dims, Hwy|].
      apply prod_replicate_one. }
    { fold S1. lia. }
    { fold S1. rewrite Hst. unfold Storage_reshape, Storage_shape, reshape, MiniBuffer_init.
      cbn [buffer shape]. rewrite padded_length by lia. lia. }
    { fold S1. rewrite Hst. exact Hinc. }
  - destruct (Z.ltb_spec (Z.of_nat (length S1) - Z.of_nat (length S2)) 0) as [Hlt|Hge].
    + (* x has the lower rank *)
      replace (Z.to_nat (- (Z.of_nat (length S1) - Z.of_nat (length S2))))
        with (r - length S1)%nat by (unfold r; lia).
      change (replicate (r - length S1) 1 ++ S1) with (padded r S1).
      assert (Hr : r = length S2) by (unfold r; lia).
      rewrite (padded_full r S2) in Hinc by lia.
      destruct (Tensor_reshape_run env x tx (padded r S1) h) as (tx1 & Hrun & Hst); try done.
      { apply padded_dims, Hwx. }
      { apply prod_replicate_one. }
      { rewrite padded_length by lia. lia. }
      rewrite (bindM_run _ _ h (h ++ [tx1]) (length h, y))
        by (by rewrite (bindM_run _ _ _ _ _ Hrun)).
      cbn [fst snd].
      apply (broadcasted_aligned_raises (length h) y tx1 ty (h ++ [tx1])).
      { rewrite lookup_app_r by lia. by rewrite Nat.sub_diag. }
      { rewrite lookup_app_l; [done|]. by eapply lookup_lt_Some. }
      { rewrite Hst. apply well_formed_reshape; [done|apply padded_dims, Hwx|].
        apply prod_replicate_one. }
      { done. }
      { rewrite Hst. unfold Storage_reshape, Storage_shape, reshape, MiniBuffer_init.
        cbn [buffer shape]. rewrite padded_length by lia. lia. }
      { rewrite Hst. unfold Storage_reshape, Storage_shape, reshape, MiniBuffer_init.
        cbn [buffer shape]. rewrite padded_length by lia. fold (Storage_shape (storage ty)).
        fold S2. lia. }
      { fold S2. rewrite Hst. exact Hinc. }
    + (* the ranks agree *)
      assert (Hr : r = length S1) by (unfold r; lia).
      rewrite (padded_full r S1), (padded_full r S2) in Hinc by (unfold r; lia).
      rewrite (bindM_run (ret (x, y)) _ h h (x, y)) by done.
      cbn [fst snd].
      apply (broadcasted_aligned_raises x y tx ty h); try done.
      { fold S1. lia. }
      { fold S1 S2. lia. }
Qed.

End BroadcastingFailure.

Lemma broadcasted_incompatible_raises_witness :
  Tensor__broadcasted example_env 0%nat 1%nat mismatched_pair = Raise AssertionError.
Proof.
  apply (broadcasted_incompatible_raises example_env mismatched_pair 0 1 _ _ eq_refl eq_refl).
  - split; [repeat constructor; lia|]. split; reflexivity.
  - split; [repeat constructor; lia|]. split; reflexivity.
  - cbn. lia.
  - cbn. intros H. apply Forall2_cons in H as [H _]. lia.
Defined.

(** ** The shape of a gradient *)

Section GradientShape.

Context (env : Env).

(** A gradient of another shape than its parent trips over the assertion. *)
Lemma accumulate_mismatch (h : Heap) (parent g : addr) (p tg : Tensor) :
  h !! parent = Some p → requires_grad p = true → h !! g = Some tg →
  Storage_shape (storage tg) ≠ Storage_shape (storage p) →
  accumulate env parent (Some g) h = Raise AssertionError.
Proof.
  intros Hp Hrg Hg Hne. unfold accumulate.
  rewrite (bindM_run _ _ _ _ _ (load_run _ _ _ Hp)), Hrg.
  rewrite (bindM_run _ _ _ _ _ (Tensor_shape_run _ _ _ Hg)).
  rewrite (bindM_run _ _ _ _ _ (Tensor_shape_run _ _ _ Hp)).
  unfold bindM, lift. by rewrite bool_decide_eq_false_2.
Qed.

(** An accumulation that succeeds keeps the shape of the gradient slot:
    where the gradient that was there had the shape of its owner, the one
    that is there afterwards has it too. *)
Lemma accumulate_keeps_shape (h h' : Heap) (parent g : addr) (p : Tensor) :
  h !! parent = Some p → requires_grad p = true →
  (∀ old told, grad p = Some old → h !! old = Some told →
     Storage_shape (storage told) = Storage_shape (storage p)) →
  accumulate env parent (Some g) h = Ok (tt, h') →
  ∃ t' g' tg',
    h' !! parent = Some t' ∧ storage t' = storage p
    ∧ grad t' = Some g' ∧ h' !! g' = Some tg'
    ∧ Storage_shape (storage tg') = Storage_shape (storage t').
Proof.
  intros Hp Hrg Hinv H.
  pose proof (lookup_lt_Some _ _ _ Hp) as Hplt.
  unfold accumulate in H.
  rewrite (bindM_run _ _ _ _ _ (load_run _ _ _ Hp)), Hrg in H.
  apply bindM_Ok in H as (gshape & h1 & Hgs & H).
  unfold Tensor_shape in Hgs. apply bindM_Ok in Hgs as (tg & h0 & Hl & Hr).
  apply load_Ok in Hl as [Hg ->]. apply ret_Ok in Hr as [-> ->].
  rewrite (bindM_run _ _ _ _ _ (Tensor_shape_run _ _ _ Hp)) in H.
  apply bindM_Ok in H as ([] & h1 & Hassert & H).
  apply lift_Ok in Hassert as [Hassert ->].
  apply py_assert_Ok, bool_decide_eq_true in Hassert.
  destruct (grad p) as [old|] eqn:Hgrad.
  - apply bindM_Ok in H as (new & h2 & Hadd & Hset).
    unfold Tensor___add__ in Hadd.
    apply bindM_Ok in Hadd as (told & h0 & Hl & Hadd).
    apply load_Ok in Hl as [Hold ->].
    rewrite (bindM_run _ _ _ _ _ (load_run _ _ _ Hg)) in Hadd.
    apply bindM_Ok in Hadd as ([] & h0 & Hdebug & Hadd).
    assert (h0 = h) as ->.
    { destruct (DEBUG env).
      - by apply lift_Ok in Hdebug as [_ ->].
      - by apply ret_Ok in Hdebug as [_ ->]. }
    pose proof (Hinv old told eq_refl Hold) as Hshold.
    unfold Tensor_add, Tensor__broadcasted in Hadd.
    rewrite (bindM_run _ _ h h (old, g)) in Hadd.
    2:{ rewrite (bindM_run _ _ _ _ _ (Tensor_shape_run _ _ _ Hold)).
        rewrite (bindM_run _ _ _ _ _ (Tensor_shape_run _ _ _ Hg)).
        by rewrite Hshold, Hassert, bool_decide_eq_true_2. }
    cbn [fst snd] in Hadd.
    apply Function_apply_Ok in Hadd as (ts & out & c & Hts & Hout & _ & -> & ->).
    apply Forall2_cons_inv_l in Hts as (t1 & ts1 & Ht1 & Hts & ->).
    apply Forall2_cons_inv_l in Hts as (t2 & ts2 & Ht2 & Hts & ->).
    apply Forall2_nil_inv_l in Hts as ->.
    rewrite Hold in Ht1. injection Ht1 as <-.
    cbn [ops_Add op_forward fmap list_fmap] in Hout.
    apply Storage_add_shape in Hout.
    apply set_grad_Ok in Hset as (t & Ht & ->).
    rewrite lookup_app_l in Ht by done. rewrite Hp in Ht. injection Ht as <-.
    eexists _, _, _. split.
    { apply list_lookup_insert_eq. rewrite length_app. lia. }
    split; [reflexivity|]. split; [reflexivity|]. split.
    { rewrite list_lookup_insert_ne by lia.
      rewrite lookup_app_r by lia. by rewrite Nat.sub_diag. }
    cbn [storage with_grad]. by rewrite Hout.
  - apply set_grad_Ok in H as (t & Ht & ->).
    rewrite Hp in Ht. injection Ht as <-.
    destruct (decide (g = parent)) as [->|Hne].
    + eexists _, _, _. split; [by apply list_lookup_insert_eq|].
      split; [reflexivity|]. split; [reflexivity|].
      split; [by apply list_lookup_insert_eq|]. reflexivity.
    + eexists _, _, _. split; [by apply list_lookup_insert_eq|].
      split; [reflexivity|]. split; [reflexivity|].
      split; [by rewrite list_lookup_insert_ne|]. done.
Qed.

(** Claim C4. The gradient in a slot should always have the shape of its
    owner. The seed breaks this: [backward()] on a leaf of shape (3,)
    succeeds and leaves a gradient of shape (1,) in its slot. The
    accumulation keeps it: a gradient of another shape than the parent is
    refused with an [AssertionError], never broadcast, and an accumulation
    that succeeds on a slot whose gradient had the shape of the owner
    leaves a gradient of that shape. *)
Theorem gradient_shape_invariant :
  (∃ h' t g tg,
     Tensor_backward env 0%nat [leaf [1; 2; 3]%float [3] true] = Ok (tt, h')
     ∧ h' !! 0%nat = Some t ∧ grad t = Some g ∧ h' !! g = Some tg
     ∧ Storage_shape (storage t) = [3]
     ∧ Storage_shape (storage tg) = [1])
  ∧ (∀ (h : Heap) (parent g : addr) (p tg : Tensor),
       h !! parent = Some p → requires_grad p = true → h !! g = Some tg →
       Storage_shape (storage tg) ≠ Storage_shape (storage p) →
       accumulate env parent (Some g) h = Raise AssertionError)
  ∧ (∀ (h h' : Heap) (parent g : addr) (p : Tensor),
       h !! parent = Some p → requires_grad p = true →
       (∀ old told, grad p = Some old → h !! old = Some told →
          Storage_shape (storage told) = Storage_shape (storage p)) →
       accumulate env parent (Some g) h = Ok (tt, h') →
       ∃ t' g' tg',
         h' !! parent = Some t' ∧ storage t' = storage p
         ∧ grad t' = Some g' ∧ h' !! g' = Some tg'
         ∧ Storage_shape (storage tg') = Storage_shape (storage t')).
Proof.
  split; [|split].
  - eexists _, _, _, _. repeat split; reflexivity.
  - apply accumulate_mismatch.
  - apply accumulate_keeps_shape.
Qed.

End GradientShape.

(** * Further properties of the buffer operations *)

(** ** Loops that may raise *)

Lemma for_append_ext {A B : Type} (f g : A → result B) (l : list A) :
  Forall (λ a, f a = g a) l → Py.for_append f l = Py.for_append g l.
Proof.
  induction 1 as [|a l Ha _ IH]; [done|]. cbn [Py.for_append]. by rewrite Ha, IH.
Qed.

Lemma for_extend_ext {A B : Type} (f g : A → result (list B)) (l : list A) :
  Forall (λ a, f a = g a) l → Py.for_extend f l = Py.for_extend g l.
Proof.
  induction 1 as [|a l Ha _ IH]; [done|]. cbn [Py.for_extend]. by rewrite Ha, IH.
Qed.

Lemma for_append_app {A B : Type} (f : A → result B) (l k : list A) :
  Py.for_append f (l ++ k)
  = let* x := Py.for_append f l in let* y := Py.for_append f k in Ok (x ++ y).
Proof.
  induction l as [|a l IH]; cbn [app Py.for_append bind].
  - by destruct (Py.for_append f k).
  - destruct (f a) as [b|e]; [|done]. cbn [bind]. rewrite IH.
    destruct (Py.for_append f l) as [x|e]; [|done]. cbn [bind].
    by destruct (Py.for_append f k).
Qed.

(** A loop that extends by the results of inner loops is one loop over
    the concatenation, up to the exception that is raised first. *)
Lemma for_extend_for_append {A B C : Type} (f : B → result C) (g : A → list B)
    (l : list A) :
  Py.for_extend (λ a, Py.for_append f (g a)) l = Py.for_append f (l ≫= g).
Proof.
  induction l as [|a l IH]; [done|].
  cbn [Py.for_extend mbind list_bind]. rewrite for_append_app.
  change (foldr _ _ l) with (l ≫= g).
  destruct (Py.for_append f (g a)) as [x|e]; [|done]. cbn [bind].
  by rewrite IH.
Qed.

Lemma for_append_fmap_arg {A B C : Type} (f : B → result C) (g : A → B) (l : list A) :
  Py.for_append (λ a, f (g a)) l = Py.for_append f (g <$> l).
Proof. induction l as [|a l IH]; [done|]. cbn [Py.for_append fmap list_fmap]. by rewrite IH. Qed.

(** ** The walk of the binary operations *)

Lemma traverse_apply_op_walk (op : BinaryOp) (x y : MiniBuffer) (fuel d : nat) (px py : Z) :
  (d < length (shape x))%nat → (length (shape x) - d ≤ fuel)%nat →
  (length (shape x) ≤ length (strides x))%nat →
  (length (shape x) ≤ length (strides y))%nat →
  _traverse_dims_and_apply_op fuel (Z.of_nat d) (px, py) op x y
  = Py.for_append (binary_at op x y)
      (zip (offsets (drop d (shape x)) (drop d (strides x)) px)
           (offsets (drop d (shape x)) (drop d (strides y)) py)).
Proof.
  intros Hd Hfuel Hsx Hsy. revert d px py Hd Hfuel.
  induction fuel as [|fuel IH]; intros d px py Hd Hfuel; [lia|].
  destruct (lookup_lt_is_Some_2 (shape x) d Hd) as [n Hn].
  destruct (lookup_lt_is_Some_2 (strides x) d ltac:(lia)) as [sx Hsxd].
  destruct (lookup_lt_is_Some_2 (strides y) d ltac:(lia)) as [sy Hsyd].
  rewrite (drop_S _ _ _ Hn). cbn [offsets].
  rewrite !(drop_lookup_head (strides x)), !(drop_lookup_head (strides y)),
    !(tail_drop (strides x)), !(tail_drop (strides y)).
  rewrite Hsxd, Hsyd. cbn [default from_option id].
  cbn [_traverse_dims_and_apply_op].
  rewrite (index_nat _ _ _ Hn). cbn [bind fst snd].
  destruct (Z.eqb_spec (Z.of_nat d) (Z.of_nat (length (shape x)) - 1)) as [E|E].
  - rewrite (drop_ge (shape x) (S d)) by lia.
    cbn [offsets]. rewrite !bind_singleton. rewrite zip_with_fmap_same.
    rewrite <- for_append_fmap_arg. apply for_append_ext, Forall_forall. intros i _.
    rewrite (index_nat _ _ _ Hsxd), (index_nat _ _ _ Hsyd). reflexivity.
  - rewrite zip_with_bind by (intros; rewrite !length_offsets; reflexivity).
    rewrite <- for_extend_for_append. apply for_extend_ext, Forall_forall. intros i _.
    rewrite (index_nat _ _ _ Hsxd), (index_nat _ _ _ Hsyd). cbn [bind].
    replace (Z.of_nat d + 1) with (Z.of_nat (S d)) by lia.
    apply IH; lia.
Qed.

(** ** Buffers that an operation builds *)

Lemma init_contiguous (out : list float) (dims : list Z) :
  dims ≠ [] → Forall (λ n, 0 ≤ n) dims → Z.of_nat (length out) = Py.prod dims →
  contiguous (MiniBuffer_init out dims None).
Proof.
  intros Hrank Hdims Hlen. split; cbn [MiniBuffer_init shape strides data]; try done.
  apply get_strides_from_shape_contiguous.
Qed.

Lemma peek_fmap_seqZ (g : Z → float) (n p : Z) :
  0 ≤ p < n → peek (g <$> seqZ 0 n) p = g p.
Proof.
  intros Hp. unfold peek. rewrite list_lookup_fmap.
  rewrite (lookup_seqZ_lt 0 n (Z.to_nat p)) by lia. cbn. f_equal. lia.
Qed.

(** The element at a key of a buffer built from a function of the flat
    position. *)
Lemma init_getitem (g : Z → float) (dims key : list Z) :
  dims ≠ [] → valid_key key dims →
  getitem (MiniBuffer_init (g <$> seqZ 0 (Py.prod dims)) dims None) key
  = Ok (g (dot key (contiguous_strides dims))).
Proof.
  intros Hrank Hkey.
  pose proof (valid_key_dims _ _ Hkey) as Hdims.
  pose proof (dot_contiguous_bound _ _ Hkey) as Hb.
  rewrite getitem_element; [|apply contiguous_readable, init_contiguous; try done|done].
  - unfold element. cbn [MiniBuffer_init data strides].
    rewrite get_strides_from_shape_contiguous. by rewrite peek_fmap_seqZ.
  - rewrite length_fmap, length_seqZ. pose proof (prod_nonneg _ Hdims). lia.
Qed.

Lemma contiguous_getitem (b : MiniBuffer) (key : list Z) :
  contiguous b → valid_key key (shape b) →
  getitem b key = Ok (peek (data b) (dot key (contiguous_strides (shape b))))
  ∧ 0 ≤ dot key (contiguous_strides (shape b)) < Z.of_nat (length (data b)).
Proof.
  intros Hb Hkey. split.
  - rewrite getitem_element by (done || by apply contiguous_readable).
    unfold element. by rewrite (contiguous_strides_eq _ Hb).
  - rewrite (contiguous_length _ Hb). by apply dot_contiguous_bound.
Qed.

(** ** The binary operations *)

Lemma binary_walk_aligned (op : BinaryOp) (x y : MiniBuffer) :
  contiguous x → contiguous y → shape y = shape x →
  _traverse_dims_and_apply_op (stack_depth x) 0 (0, 0) op x y
  = Py.for_append (λ p, binary_at op x y (p, p)) (seqZ 0 (Py.prod (shape x))).
Proof.
  intros [Hrank Hdims Hstr Hlen] [_ _ Hstry _] Hshape.
  change 0 with (Z.of_nat 0) at 1.
  rewrite (traverse_apply_op_walk op x y (stack_depth x) 0 0 0).
  - rewrite !drop_0, Hstr, Hstry, Hshape, offsets_contiguous by done.
    rewrite zip_diag, <- for_append_fmap_arg. reflexivity.
  - destruct (shape x); [done|simpl; lia].
  - unfold stack_depth. lia.
  - rewrite Hstr, length_contiguous_strides. lia.
  - rewrite Hstry, Hshape, length_contiguous_strides. lia.
Qed.

Lemma binary_elementwise (op : BinaryOp) (f : float → float → float) (x y : MiniBuffer) :
  contiguous x → contiguous y → shape y = shape x →
  (∀ p, 0 ≤ p < Py.prod (shape x) →
     _apply_op_binary op (peek (data x) p) (peek (data y) p)
     = Ok (f (peek (data x) p) (peek (data y) p))) →
  elementwise f x y
    (let* out_data := _traverse_dims_and_apply_op (stack_depth x) 0 (0, 0) op x y in
     Ok (MiniBuffer_init out_data (shape x) None)).
Proof.
  intros Hx Hy Hshape Hop.
  pose proof Hx as [Hrank Hdims Hstr Hlen]. pose proof Hy as [_ _ Hstry Hleny].
  rewrite binary_walk_aligned by done.
  rewrite (for_append_fmap _ (λ p, f (peek (data x) p) (peek (data y) p))).
  2:{ apply Forall_forall. intros p Hp%elem_of_seqZ. unfold binary_at. cbn [fst snd].
      rewrite (index_peek (data x)) by (unfold in_range; lia).
      rewrite (index_peek (data y)) by (unfold in_range; rewrite Hleny, Hshape; lia).
      cbn [bind]. apply Hop. lia. }
  cbn [bind]. eexists. split; [reflexivity|]. split; [|split; [reflexivity|]].
  - apply init_contiguous; try done.
    rewrite length_fmap, length_seqZ. pose proof (prod_nonneg _ Hdims). lia.
  - intros key Hkey.
    destruct (contiguous_getitem x key Hx Hkey) as [Hgx _].
    destruct (contiguous_getitem y key Hy) as [Hgy _]; [by rewrite Hshape|].
    eexists _, _. split; [exact Hgx|]. split; [exact Hgy|].
    rewrite init_getitem by done. by rewrite Hshape.
Qed.

(** ** The gradient of a shared leaf *)

(** The sum of two row-major storages of one shape. *)
Lemma Storage_add_elements (x y : Storage) :
  contiguous (buffer x) → contiguous (buffer y) →
  Storage_shape y = Storage_shape x →
  ∃ s, Storage_add x y = Ok s ∧ sum_of_storages x y s.
Proof.
  intros Hx Hy Hshape.
  destruct (binary_elementwise ADD PrimFloat.add (buffer x) (buffer y) Hx Hy Hshape)
    as (z & Hz & _ & Hzs & Hget); [done|].
  exists (mkStorage z (dtype x)). split.
  - unfold Storage_add, add. by rewrite Hz.
  - split; [exact Hzs|]. exact Hget.
Qed.

Section SharedLeaf.

Context (env : Env).

(** Claim C2. A gradient that is not defined, or whose parent requires
    none, is dropped. The first defined gradient that reaches a parent
    requiring one is stored in its gradient slot, and every later one is
    added to the gradient that is there: the slot then holds a new tensor
    whose elements are the sums, key by key, of the elements of the
    gradient that was there and of the one that arrives. So in a diamond,
    where the leaf [a] feeds [b] and [c], which merge into the scalar [d],
    [backward()] on [d] succeeds and leaves in the slot of [a] a gradient
    whose element at every key is the sum of the element that comes back
    through [c] and the one that comes back through [b]. *)
Theorem shared_leaf_gradient_sum :
  (∀ (h : Heap) (parent : addr) (g : option addr) (p : Tensor),
     h !! parent = Some p → g = None ∨ requires_grad p = false →
     accumulate env parent g h = Ok (tt, h))
  ∧ (∀ (h : Heap) (parent g : addr) (p tg : Tensor),
     h !! parent = Some p → requires_grad p = true → grad p = None →
     h !! g = Some tg → Storage_shape (storage tg) = Storage_shape (storage p) →
     accumulate env parent (Some g) h = Ok (tt, <[parent := with_grad p (Some g)]> h))
  ∧ (∀ (h : Heap) (parent old g : addr) (p told tg : Tensor),
     h !! parent = Some p → requires_grad p = true → grad p = Some old →
     h !! old = Some told → h !! g = Some tg →
     Storage_shape (storage tg) = Storage_shape (storage p) →
     Storage_shape (storage told) = Storage_shape (storage tg) →
     tensor_dtype told = tensor_dtype tg →
     requires_grad told = false → requires_grad tg = false →
     Storage_rank (storage told) ≤ 4 →
     contiguous (buffer (storage told)) → contiguous (buffer (storage tg)) →
     ∃ s, accumulate env parent (Some g) h
          = Ok (tt, <[parent := with_grad p (Some (length h))]>
                      (h ++ [mkTensor s false DFloat None CtxNone]))
        ∧ sum_of_storages (storage told) (storage tg) s)
  ∧ (∀ (sa sb sc sd gb gc ga_b ga_c : Storage)
       (fb fc fd : Storage → result BackwardRet),
     Storage_is_scalar sd = true →
     fd (Storage_of_float 1%float DFloat) = Ok (Many [Some gb; Some gc]) →
     Storage_shape gb = Storage_shape sb → Storage_rank gb ≤ 4 →
     Storage_shape gc = Storage_shape sc → Storage_rank gc ≤ 4 →
     fc gc = Ok (One (Some ga_c)) → fb gb = Ok (One (Some ga_b)) →
     Storage_shape ga_c = Storage_shape sa → Storage_rank ga_c ≤ 4 →
     Storage_shape ga_b = Storage_shape sa → Storage_rank ga_b ≤ 4 →
     contiguous (buffer ga_c) → contiguous (buffer ga_b) →
     (2 ≤ spare_frames env)%nat →
     ∃ h' ta g tg,
       Tensor_backward env 3%nat (diamond sa sb sc sd fb fc fd) = Ok (tt, h')
       ∧ h' !! 0%nat = Some ta ∧ grad ta = Some g
       ∧ h' !! g = Some tg
       ∧ Storage_shape (storage tg) = Storage_shape sa
       ∧ ∀ key, valid_key key (Storage_shape sa) →
           ∃ u v, getitem (buffer ga_c) key = Ok u
                ∧ getitem (buffer ga_b) key = Ok v
                ∧ getitem (buffer (storage tg)) key = Ok (PrimFloat.add u v)).
Proof.
  split; [|split; [|split]].
  - intros h parent g p Hp [->|Hrg]; [done|].
    unfold accumulate. destruct g as [g|]; [|done].
    by rewrite (bindM_run _ _ _ _ _ (load_run _ _ _ Hp)), Hrg.
  - apply accumulate_first.
  - intros h parent old g p told tg Hp Hrg Hgrad Hold Hg Hshape Hshape' Hdt Hro Hrg'
      Hrank Hcold Hcg.
    destruct (Storage_add_elements (storage told) (storage tg) Hcold Hcg)
      as (s & Hadd & Hsum); [done|].
    exists s. split; [|exact Hsum].
    by apply (accumulate_add env h parent old g p told tg s).
  - intros sa sb sc sd gb gc ga_b ga_c fb fc fd Hscalar Hfd Hgb Hgbr Hgc Hgcr Hfc Hfb
      Hgac Hgacr Hgab Hgabr Hcc Hcb Hframes.
    destruct (Storage_add_elements ga_c ga_b Hcc Hcb) as (total & Hadd & Hs & Hget);
      [congruence|].
    destruct (diamond_backward env sa sb sc sd gb gc ga_b ga_c total fb fc fd)
      as (h' & ta & g & tg & Hrun & Hta & Hg & Htg & Hst); try done.
    exists h', ta, g, tg. rewrite Hst. repeat (split; [done|]).
    split; [congruence|]. rewrite <- Hgac. exact Hget.
Qed.

End SharedLeaf.

Lemma shared_leaf_gradient_sum_witness :
  ∃ h' ta g tg,
    Tensor_backward example_env 3%nat
      (diamond (Storage_of_float 3%float DFloat) (Storage_of_float 3%float DFloat)
         (Storage_of_float 3%float DFloat) (Storage_of_float 6%float DFloat)
         (λ g, Ok (One (Some g))) (λ g, Ok (One (Some g)))
         (λ g, Ok (Many [Some g; Some g]))) = Ok (tt, h')
    ∧ h' !! 0%nat = Some ta ∧ grad ta = Some g
    ∧ h' !! g = Some tg ∧ getitem (buffer (storage tg)) [0] = Ok 2%float.
Proof.
  destruct (shared_leaf_gradient_sum example_env) as (_ & _ & _ & H).
  destruct (H (Storage_of_float 3%float DFloat) (Storage_of_float 3%float DFloat)
              (Storage_of_float 3%float DFloat) (Storage_of_float 6%float DFloat)
              (Storage_of_float 1%float DFloat) (Storage_of_float 1%float DFloat)
              (Storage_of_float 1%float DFloat) (Storage_of_float 1%float DFloat)
              (λ g, Ok (One (Some g))) (λ g, Ok (One (Some g)))
              (λ g, Ok (Many [Some g; Some g])))
    as (h' & ta & g & tg & Hrun & Hta & Hg & Htg & _ & Hget);
    try reflexivity; try (by vm_compute).
  - split; [done|repeat constructor; lia|reflexivity|reflexivity].
  - split; [done|repeat constructor; lia|reflexivity|reflexivity].
  - cbn. lia.
  - exists h', ta, g, tg. repeat (split; [assumption|]).
    destruct (Hget [0]) as (u & v & Hu & Hv & Huv); [repeat constructor; lia|].
    injection Hu as <-. injection Hv as <-. exact Huv.
Defined.

(** Property X1. On two row-major buffers of one shape, [add], [sub],
    [mul] and [max] succeed; the result is a row-major buffer of that shape
    whose element at every key is the sum, the difference, the product or
    the larger of the two elements at that key ([max] keeps the first
    element unless the second is greater). *)
Theorem binary_operations_elementwise (x y : MiniBuffer) :
  contiguous x → contiguous y → shape y = shape x →
  elementwise PrimFloat.add x y (add x y)
  ∧ elementwise PrimFloat.sub x y (sub x y)
  ∧ elementwise PrimFloat.mul x y (mul x y)
  ∧ elementwise (λ a b, if PrimFloat.ltb a b then b else a) x y (MiniBuffer_max x y).
Proof.
  intros Hx Hy Hshape.
  repeat split; apply binary_elementwise; done.
Qed.

Lemma binary_operations_elementwise_witness :
  ∃ z, sub (MiniBuffer_init [1; 2; 3; 4]%float [2; 2] None)
           (MiniBuffer_init [10; 20; 30; 40]%float [2; 2] None) = Ok z
     ∧ shape z = [2; 2]
     ∧ getitem z [1; 0] = Ok (-27)%float.
Proof.
  destruct (binary_operations_elementwise
              (MiniBuffer_init [1; 2; 3; 4]%float [2; 2] None)
              (MiniBuffer_init [10; 20; 30; 40]%float [2; 2] None))
    as (_ & (z & Hz & _ & Hs & Hget) & _).
  - split; [done|repeat constructor; lia|reflexivity|reflexivity].
  - split; [done|repeat constructor; lia|reflexivity|reflexivity].
  - reflexivity.
  - exists z. split; [exact Hz|]. split; [exact Hs|].
    destruct (Hget [1; 0]) as (a & b & Ha & Hb & Hab).
    + repeat constructor; lia.
    + injection Ha as <-. injection Hb as <-. exact Hab.
Defined.

(** ** Division *)

Lemma for_append_raise {A B : Type} (f : A → result B) (e : PyExc) (l : list A) :
  Forall (λ a, (∃ b, f a = Ok b) ∨ f a = Raise e) l →
  Exists (λ a, f a = Raise e) l →
  Py.for_append f l = Raise e.
Proof.
  induction 1 as [|a l Ha _ IH]; intros Hex; [by apply Exists_nil in Hex|].
  cbn [Py.for_append]. destruct Ha as [[b Hb]|Ha].
  - rewrite Hb. cbn [bind]. apply Exists_cons in Hex as [Hex|Hex]; [congruence|].
    by rewrite IH.
  - by rewrite Ha.
Qed.

(** Property X2. On two row-major buffers of one shape, [div] raises
    [ZeroDivisionError] as soon as one element of the divisor is zero
    (of either sign), whatever the dividend; where no element of the
    divisor is zero it gives the quotients, element by element. *)
Theorem div_zero_divisor (x y : MiniBuffer) :
  contiguous x → contiguous y → shape y = shape x →
  (Exists (λ v, PrimFloat.eqb v PrimFloat.zero = true) (data y) →
   div x y = Raise ZeroDivisionError)
  ∧ (Forall (λ v, PrimFloat.eqb v PrimFloat.zero = false) (data y) →
     elementwise PrimFloat.div x y (div x y)).
Proof.
  intros Hx Hy Hshape.
  pose proof Hx as [Hrank Hdims Hstr Hlen]. pose proof Hy as [_ _ Hstry Hleny].
  assert (Hat : ∀ p, 0 ≤ p < Py.prod (shape x) →
            binary_at DIV x y (p, p)
            = _apply_op_binary DIV (peek (data x) p) (peek (data y) p)).
  { intros p Hp. unfold binary_at. cbn [fst snd].
    rewrite (index_peek (data x)) by (unfold in_range; lia).
    by rewrite (index_peek (data y)) by (unfold in_range; rewrite Hleny, Hshape; lia). }
  split.
  - intros Hex. unfold div. rewrite binary_walk_aligned by done.
    rewrite (for_append_raise _ ZeroDivisionError); [done| |].
    + apply Forall_forall. intros p Hp%elem_of_seqZ. rewrite Hat by lia.
      cbn [_apply_op_binary]. destruct (PrimFloat.eqb _ _); eauto.
    + apply Exists_exists in Hex as (v & Hv & Hzero).
      apply list_elem_of_lookup in Hv as [i Hi].
      pose proof (lookup_lt_Some _ _ _ Hi) as Hlt.
      apply Exists_exists. exists (Z.of_nat i). split.
      * apply elem_of_seqZ. rewrite <- Hshape, <- Hleny. lia.
      * rewrite Hat by (rewrite <- Hshape, <- Hleny; lia).
        cbn [_apply_op_binary]. unfold peek. rewrite Nat2Z.id, Hi. cbn [default from_option id].
        by rewrite Hzero.
  - intros Hall. apply binary_elementwise; try done.
    intros p Hp. cbn [_apply_op_binary]. rewrite Hshape in Hleny.
    destruct (lookup_lt_is_Some_2 (data y) (Z.to_nat p)) as [v Hv]; [lia|].
    rewrite Forall_forall in Hall.
    replace (peek (data y) p) with v by (unfold peek; by rewrite Hv).
    rewrite (Hall v); [done|].
    by eapply list_elem_of_lookup_2.
Qed.

Lemma div_zero_divisor_witness :
  div (MiniBuffer_init [1; 2]%float [2] None) (MiniBuffer_init [4; -0]%float [2] None)
  = Raise ZeroDivisionError.
Proof.
  apply (div_zero_divisor (MiniBuffer_init [1; 2]%float [2] None)
           (MiniBuffer_init [4; -0]%float [2] None)).
  - split; [done|repeat constructor; lia|reflexivity|reflexivity].
  - split; [done|repeat constructor; lia|reflexivity|reflexivity].
  - reflexivity.
  - apply Exists_cons_tl, Exists_cons_hd. reflexivity.
Defined.

(** ** What the walk reads of its second operand *)

Lemma traverse_apply_op_other (op : BinaryOp) (x y y' : MiniBuffer) (fuel : nat)
    (depth_idx : Z) (pos : Z * Z) :
  data y' = data y → strides y' = strides y →
  _traverse_dims_and_apply_op fuel depth_idx pos op x y'
  = _traverse_dims_and_apply_op fuel depth_idx pos op x y.
Proof.
  intros Hd Hs. revert depth_idx pos.
  induction fuel as [|fuel IH]; intros depth_idx pos; [done|].
  cbn [_traverse_dims_and_apply_op]. rewrite Hd, Hs.
  destruct (depth_idx =? _); [done|].
  destruct (Py.index (shape x) depth_idx) as [n|]; [|done]. cbn [bind].
  apply for_extend_ext, Forall_forall. intros i _.
  destruct (Py.index (strides x) depth_idx); [|done]. cbn [bind].
  destruct (Py.index (strides y) depth_idx); [|done]. cbn [bind].
  apply IH.
Qed.

(** Property X3. The binary operations never read the shape of their
    second operand: the walk follows the shape of the first one with the
    strides of the second, so any two second operands with the same flat
    data and strides give the same outcome, whatever shapes they claim. *)
Theorem binary_operations_ignore_other_shape (x y : MiniBuffer) (dims : list Z) :
  let y' := mkMiniBuffer (data y) dims (strides y) in
  add x y' = add x y ∧ sub x y' = sub x y ∧ mul x y' = mul x y
  ∧ div x y' = div x y ∧ MiniBuffer_max x y' = MiniBuffer_max x y.
Proof.
  intros y'. unfold add, sub, mul, div, MiniBuffer_max.
  by rewrite !(traverse_apply_op_other _ x y y').
Qed.

(** ** Walks over one buffer *)

Lemma offsets_drop_step (dims strides : list Z) (d : nat) (n s base : Z) :
  dims !! d = Some n → strides !! d = Some s →
  offsets (drop d dims) (drop d strides) base
  = Py.range n ≫= (λ i, offsets (drop (S d) dims) (drop (S d) strides) (base + i * s)).
Proof.
  intros Hn Hs. rewrite (drop_S _ _ _ Hn). cbn [offsets].
  rewrite drop_lookup_head, tail_drop, Hs. reflexivity.
Qed.

Lemma offsets_drop_last (dims strides : list Z) (d : nat) (n s base : Z) :
  dims !! d = Some n → strides !! d = Some s → S d = length dims →
  offsets (drop d dims) (drop d strides) base = (λ i, base + i * s) <$> Py.range n.
Proof.
  intros Hn Hs Hd. rewrite (offsets_drop_step _ _ _ _ _ _ Hn Hs).
  rewrite (drop_ge dims (S d)) by lia. cbn [offsets]. apply bind_singleton.
Qed.

Lemma traverse_apply_op_unary_walk (op : UnaryOp) (x : MiniBuffer) (fuel d : nat) (pos : Z) :
  (d < length (shape x))%nat → (length (shape x) - d ≤ fuel)%nat →
  (length (shape x) ≤ length (strides x))%nat →
  _traverse_dims_and_apply_op_unary fuel (Z.of_nat d) pos op x
  = Py.for_append (unary_at op x) (offsets (drop d (shape x)) (drop d (strides x)) pos).
Proof.
  intros Hd Hfuel Hsx. revert d pos Hd Hfuel.
  induction fuel as [|fuel IH]; intros d pos Hd Hfuel; [lia|].
  destruct (lookup_lt_is_Some_2 (shape x) d Hd) as [n Hn].
  destruct (lookup_lt_is_Some_2 (strides x) d ltac:(lia)) as [s Hs].
  cbn [_traverse_dims_and_apply_op_unary].
  rewrite (index_nat _ _ _ Hn). cbn [bind].
  destruct (Z.eqb_spec (Z.of_nat d) (Z.of_nat (length (shape x)) - 1)) as [E|E].
  - rewrite (offsets_drop_last _ _ _ _ _ _ Hn Hs) by lia.
    rewrite <- for_append_fmap_arg. apply for_append_ext, Forall_forall. intros i _.
    by rewrite (index_nat _ _ _ Hs).
  - rewrite (offsets_drop_step _ _ _ _ _ _ Hn Hs).
    rewrite <- for_extend_for_append. apply for_extend_ext, Forall_forall. intros i _.
    rewrite (index_nat _ _ _ Hs). cbn [bind].
    replace (Z.of_nat d + 1) with (Z.of_nat (S d)) by lia.
    apply IH; lia.
Qed.

Lemma opp_involutive (v : float) : PrimFloat.opp (PrimFloat.opp v) = v.
Proof.
  apply FloatAxioms.Prim2SF_inj. rewrite !FloatAxioms.opp_spec.
  destruct (Prim2SF v) as [s|s| |s m e]; cbn [SFopp]; by rewrite ?negb_involutive.
Qed.

Lemma fmap_peek_seqZ (d : list float) (n : Z) :
  Z.of_nat (length d) = n → peek d <$> seqZ 0 n = d.
Proof.
  intros Hn. apply list_eq. intros i. rewrite list_lookup_fmap.
  destruct (decide (i < length d)%nat) as [Hi|Hi].
  - rewrite lookup_seqZ_lt by lia. cbn. unfold peek.
    replace (Z.to_nat (0 + Z.of_nat i)) with i by lia.
    destruct (lookup_lt_is_Some_2 d i Hi) as [v Hv]. by rewrite Hv.
  - rewrite lookup_seqZ_ge by lia. cbn. symmetry. apply lookup_ge_None. lia.
Qed.

Lemma neg_contiguous (x : MiniBuffer) :
  contiguous x →
  neg x = Ok (MiniBuffer_init ((λ p, PrimFloat.opp (peek (data x) p))
                                 <$> seqZ 0 (Py.prod (shape x))) (shape x) None).
Proof.
  intros [Hrank Hdims Hstr Hlen]. unfold neg.
  change 0 with (Z.of_nat 0) at 1.
  rewrite (traverse_apply_op_unary_walk NEG x (stack_depth x) 0 0).
  - rewrite !drop_0, Hstr, offsets_contiguous by done.
    rewrite (for_append_fmap _ (λ p, PrimFloat.opp (peek (data x) p))); [done|].
    apply Forall_forall. intros p Hp%elem_of_seqZ. unfold unary_at.
    by rewrite index_peek by (unfold in_range; lia).
  - destruct (shape x); [done|simpl; lia].
  - unfold stack_depth. lia.
  - rewrite Hstr, length_contiguous_strides. lia.
Qed.

Lemma contiguous_eta (x : MiniBuffer) :
  contiguous x → MiniBuffer_init (data x) (shape x) None = x.
Proof.
  intros [_ _ Hstr _]. destruct x as [d sh st]. cbn in *.
  unfold MiniBuffer_init. by rewrite get_strides_from_shape_contiguous, Hstr.
Qed.

(** Property X4. On a row-major buffer [neg] succeeds; the result is a
    row-major buffer of the same shape that holds the negated element at
    every key, and negating it again gives back exactly the buffer one
    started from. *)
Theorem neg_involutive (x : MiniBuffer) :
  contiguous x →
  ∃ z, neg x = Ok z ∧ contiguous z ∧ shape z = shape x
     ∧ (∀ key, valid_key key (shape x) →
          ∃ a, getitem x key = Ok a ∧ getitem z key = Ok (PrimFloat.opp a))
     ∧ neg z = Ok x.
Proof.
  intros Hx. pose proof Hx as [Hrank Hdims Hstr Hlen].
  pose proof (prod_nonneg _ Hdims) as HP.
  assert (Hz : contiguous (MiniBuffer_init ((λ p, PrimFloat.opp (peek (data x) p))
                             <$> seqZ 0 (Py.prod (shape x))) (shape x) None)).
  { apply init_contiguous; try done. rewrite length_fmap, length_seqZ. lia. }
  eexists. split; [by apply neg_contiguous|]. split; [exact Hz|].
  split; [reflexivity|]. split.
  - intros key Hkey. destruct (contiguous_getitem x key Hx Hkey) as [Hgx _].
    eexists. split; [exact Hgx|]. by rewrite init_getitem.
  - rewrite neg_contiguous by exact Hz. cbn [MiniBuffer_init data shape].
    f_equal.
    transitivity (MiniBuffer_init (data x) (shape x) None); [|by apply contiguous_eta].
    unfold MiniBuffer_init. f_equal.
    etransitivity; [|exact (fmap_peek_seqZ (data x) (Py.prod (shape x)) Hlen)].
    apply list_fmap_ext. intros i p Hp.
    apply lookup_seqZ in Hp as [-> Hi].
    rewrite peek_fmap_seqZ by lia. apply opp_involutive.
Qed.

Lemma neg_involutive_witness :
  ∃ z, neg (MiniBuffer_init [1; -2; 0]%float [3] None) = Ok z
     ∧ getitem z [2] = Ok (-0)%float
     ∧ neg z = Ok (MiniBuffer_init [1; -2; 0]%float [3] None).
Proof.
  destruct (neg_involutive (MiniBuffer_init [1; -2; 0]%float [3] None))
    as (z & Hz & _ & _ & Hget & Hback).
  - split; [done|repeat constructor; lia|reflexivity|reflexivity].
  - exists z. split; [exact Hz|]. split; [|exact Hback].
    destruct (Hget [2]) as (a & Ha & Hza); [repeat constructor; lia|].
    injection Ha as <-. exact Hza.
Defined.

(** ** Comparison of floats *)

Lemma SFcompare_antisym (a b : spec_float) :
  SFcompare b a = option_map CompOpp (SFcompare a b).
Proof.
  destruct a as [s|s| |s m e], b as [s'|s'| |s' m' e']; try reflexivity;
    try (destruct s; reflexivity); try (destruct s'; reflexivity);
    try (destruct s, s'; reflexivity).
  cbn [SFcompare option_map].
  pose proof (ZC4 m' m) as Hm. change Pos.compare_cont with PosDef.Pos.compare_cont in Hm.
  destruct s, s'; try reflexivity.
  - rewrite (Z.compare_antisym e e'). destruct (e ?= e')%Z; try reflexivity.
    cbn [CompOpp]. by rewrite Hm.
  - rewrite (Z.compare_antisym e e'). destruct (e ?= e')%Z; try reflexivity.
    cbn [CompOpp]. by rewrite Hm.
Qed.

Lemma is_nan_spec (v : float) :
  PrimFloat.is_nan v = match Prim2SF v with S754_nan => true | _ => false end.
Proof.
  unfold PrimFloat.is_nan. rewrite FloatAxioms.eqb_spec. unfold SFeqb.
  destruct (Prim2SF v) as [s|s| |s m e]; cbn [SFcompare negb]; try reflexivity.
  - by destruct s.
  - rewrite Z.compare_refl.
    pose proof (Pos.compare_cont_refl m Eq) as Hm.
    change Pos.compare_cont with PosDef.Pos.compare_cont in Hm. rewrite Hm.
    by destruct s.
Qed.

Lemma float_trichotomy (v t : float) :
  (Nat.b2n (PrimFloat.ltb v t) + Nat.b2n (PrimFloat.eqb v t) + Nat.b2n (PrimFloat.ltb t v))%nat
  = if PrimFloat.is_nan v || PrimFloat.is_nan t then 0%nat else 1%nat.
Proof.
  rewrite !is_nan_spec.
  rewrite !FloatAxioms.ltb_spec, !FloatAxioms.eqb_spec. unfold SFltb, SFeqb.
  rewrite (SFcompare_antisym (Prim2SF v) (Prim2SF t)).
  destruct (Prim2SF v) as [s|s| |s m e], (Prim2SF t) as [s'|s'| |s' m' e'];
    cbn [SFcompare option_map orb Nat.b2n CompOpp]; try reflexivity;
    try (destruct s; reflexivity); try (destruct s'; reflexivity);
    try (destruct s, s'; reflexivity).
  destruct s, s'; try reflexivity.
  - destruct (e ?= e')%Z; try reflexivity.
    destruct (PosDef.Pos.compare_cont Eq m m'); reflexivity.
  - destruct (e ?= e')%Z; try reflexivity.
    destruct (PosDef.Pos.compare_cont Eq m m'); reflexivity.
Qed.

(** ** The elementwise comparisons *)

Lemma traverse_compare_elementwise_walk (op : CmpOp) (x : MiniBuffer) (target : float)
    (fuel d : nat) (pos : Z) :
  (d < length (shape x))%nat → (length (shape x) - d ≤ fuel)%nat →
  (length (shape x) ≤ length (strides x))%nat →
  _traverse_dims_and_compare_elementwise fuel (Z.of_nat d) pos op x target
  = Py.for_append (compare_at op x target)
      (offsets (drop d (shape x)) (drop d (strides x)) pos).
Proof.
  intros Hd Hfuel Hsx. revert d pos Hd Hfuel.
  induction fuel as [|fuel IH]; intros d pos Hd Hfuel; [lia|].
  destruct (lookup_lt_is_Some_2 (shape x) d Hd) as [n Hn].
  destruct (lookup_lt_is_Some_2 (strides x) d ltac:(lia)) as [s Hs].
  cbn [_traverse_dims_and_compare_elementwise].
  rewrite (index_nat _ _ _ Hn). cbn [bind].
  destruct (Z.eqb_spec (Z.of_nat d) (Z.of_nat (length (shape x)) - 1)) as [E|E].
  - rewrite (offsets_drop_last _ _ _ _ _ _ Hn Hs) by lia.
    rewrite <- for_append_fmap_arg. apply for_append_ext, Forall_forall. intros i _.
    by rewrite (index_nat _ _ _ Hs).
  - rewrite (offsets_drop_step _ _ _ _ _ _ Hn Hs).
    rewrite <- for_extend_for_append. apply for_extend_ext, Forall_forall. intros i _.
    rewrite (index_nat _ _ _ Hs). cbn [bind].
    replace (Z.of_nat d + 1) with (Z.of_nat (S d)) by lia.
    apply IH; lia.
Qed.

Lemma compare_elementwise_contiguous (op : CmpOp) (x : MiniBuffer) (target : float) :
  contiguous x →
  _traverse_dims_and_compare_elementwise (stack_depth x) 0 0 op x target
  = Ok ((λ v, match op with
              | LT => PrimFloat.ltb v target
              | EQ => PrimFloat.eqb v target
              | GT => PrimFloat.ltb target v
              end) <$> data x).
Proof.
  intros [Hrank Hdims Hstr Hlen].
  change 0 with (Z.of_nat 0) at 1.
  rewrite (traverse_compare_elementwise_walk op x target (stack_depth x) 0 0).
  - rewrite !drop_0, Hstr, offsets_contiguous by done.
    set (cmp := λ v : float, match op with
                             | LT => PrimFloat.ltb v target
                             | EQ => PrimFloat.eqb v target
                             | GT => PrimFloat.ltb target v
                             end).
    rewrite (for_append_fmap _ (cmp ∘ peek (data x))).
    + by rewrite list_fmap_compose, fmap_peek_seqZ.
    + apply Forall_forall. intros p Hp%elem_of_seqZ. unfold compare_at.
      rewrite index_peek by (unfold in_range; lia). cbn [bind compose].
      unfold cmp. by destruct op.
  - destruct (shape x); [done|simpl; lia].
  - unfold stack_depth. lia.
  - rewrite Hstr, length_contiguous_strides. lia.
Qed.

(** Property X5. On a row-major buffer the three elementwise comparisons
    with a number succeed and return one truth value per element, in the
    order of the flat data and without the shape. At every position
    exactly one of less-than, equal-to and greater-than holds, unless the
    element or the number is not a number: then none of them does. *)
Theorem elementwise_comparisons (x : MiniBuffer) (target : float) :
  contiguous x →
  is_elementwise_less_than x target = Ok ((λ v, PrimFloat.ltb v target) <$> data x)
  ∧ is_elementwise_equal_to x target = Ok ((λ v, PrimFloat.eqb v target) <$> data x)
  ∧ is_elementwise_greater_than x target = Ok ((λ v, PrimFloat.ltb target v) <$> data x)
  ∧ ∀ i lt eq gt,
      (∃ l, is_elementwise_less_than x target = Ok l ∧ l !! i = Some lt) →
      (∃ l, is_elementwise_equal_to x target = Ok l ∧ l !! i = Some eq) →
      (∃ l, is_elementwise_greater_than x target = Ok l ∧ l !! i = Some gt) →
      ∃ v, data x !! i = Some v
         ∧ (Nat.b2n lt + Nat.b2n eq + Nat.b2n gt)%nat
           = if PrimFloat.is_nan v || PrimFloat.is_nan target then 0%nat else 1%nat.
Proof.
  intros Hx.
  unfold is_elementwise_less_than, is_elementwise_equal_to, is_elementwise_greater_than.
  rewrite !compare_elementwise_contiguous by done.
  repeat (split; [reflexivity|]).
  intros i lt eq gt (l1 & [= <-] & H1) (l2 & [= <-] & H2) (l3 & [= <-] & H3).
  rewrite list_lookup_fmap in H1, H2, H3.
  destruct (data x !! i) as [v|]; [|done].
  injection H1 as <-. injection H2 as <-. injection H3 as <-.
  exists v. split; [done|]. apply float_trichotomy.
Qed.

Lemma elementwise_comparisons_witness :
  is_elementwise_greater_than (MiniBuffer_init [1; 5; 3; nan]%float [2; 2] None) 3%float
  = Ok [false; true; false; false].
Proof.
  destruct (elementwise_comparisons (MiniBuffer_init [1; 5; 3; nan]%float [2; 2] None)
              3%float) as (_ & _ & H & _).
  - split; [done|repeat constructor; lia|reflexivity|reflexivity].
  - exact H.
Defined.

(** ** [replace] *)

Lemma eqb_nan_r (v t : float) : PrimFloat.is_nan t = true → PrimFloat.eqb v t = false.
Proof.
  rewrite is_nan_spec, FloatAxioms.eqb_spec. unfold SFeqb.
  destruct (Prim2SF t); try done. intros _. by destruct (Prim2SF v).
Qed.

Lemma peek_fmap (g : float → float) (d : list float) (p : Z) :
  in_range d p → peek (g <$> d) p = g (peek d p).
Proof.
  intros Hp. unfold peek. rewrite list_lookup_fmap.
  destruct (lookup_lt_is_Some_2 d (Z.to_nat p)) as [v Hv]; [unfold in_range in Hp; lia|].
  by rewrite Hv.
Qed.

(** Property X6. [replace] cannot fail. On a row-major buffer the result
    is row-major of the same shape and holds, at every key, the new value
    where the element compares equal to the target and the element itself
    elsewhere. A target that is not a number compares equal to nothing, so
    the result is then the buffer it was given. *)
Theorem replace_elements (x : MiniBuffer) (target new : float) :
  contiguous x →
  contiguous (replace x target new)
  ∧ shape (replace x target new) = shape x
  ∧ (∀ key, valid_key key (shape x) →
       ∃ a, getitem x key = Ok a
          ∧ getitem (replace x target new) key
            = Ok (if PrimFloat.eqb a target then new else a))
  ∧ (PrimFloat.is_nan target = true → replace x target new = x).
Proof.
  intros Hx. pose proof Hx as [Hrank Hdims Hstr Hlen].
  assert (Hr : contiguous (replace x target new)).
  { apply init_contiguous; try done. by rewrite length_fmap. }
  split; [exact Hr|]. split; [reflexivity|]. split.
  - intros key Hkey. destruct (contiguous_getitem x key Hx Hkey) as [Hgx Hb].
    eexists. split; [exact Hgx|].
    destruct (contiguous_getitem _ key Hr Hkey) as [Hgr _]. rewrite Hgr.
    cbn [replace MiniBuffer_init data shape]. by rewrite peek_fmap.
  - intros Hnan. unfold replace.
    rewrite <- (contiguous_eta x Hx) at 3. f_equal.
    rewrite <- (list_fmap_id (data x)) at 2. apply list_fmap_ext.
    intros i v _. by rewrite eqb_nan_r.
Qed.

Lemma replace_elements_witness :
  getitem (replace (MiniBuffer_init [0; 7; -0; 7]%float [2; 2] None) 0 1) [1; 0] = Ok 1%float
  ∧ getitem (replace (MiniBuffer_init [0; 7; -0; 7]%float [2; 2] None) 0 1) [1; 1] = Ok 7%float.
Proof.
  destruct (replace_elements (MiniBuffer_init [0; 7; -0; 7]%float [2; 2] None) 0 1)
    as (_ & _ & Hget & _).
  - split; [done|repeat constructor; lia|reflexivity|reflexivity].
  - split.
    + destruct (Hget [1; 0]) as (a & Ha & Hr); [repeat constructor; lia|].
      injection Ha as <-. exact Hr.
    + destruct (Hget [1; 1]) as (a & Ha & Hr); [repeat constructor; lia|].
      injection Ha as <-. exact Hr.
Defined.

(** ** [masked_fill] *)

Lemma traverse_masked_fill_walk (mask : list bool) (value : float) (x : MiniBuffer)
    (fuel d : nat) (pos : Z) :
  (d < length (shape x))%nat → (length (shape x) - d ≤ fuel)%nat →
  (length (shape x) ≤ length (strides x))%nat →
  _traverse_dims_and_masked_fill fuel (Z.of_nat d) pos mask value x
  = Py.for_append (mask_at mask value x)
      (offsets (drop d (shape x)) (drop d (strides x)) pos).
Proof.
  intros Hd Hfuel Hsx. revert d pos Hd Hfuel.
  induction fuel as [|fuel IH]; intros d pos Hd Hfuel; [lia|].
  destruct (lookup_lt_is_Some_2 (shape x) d Hd) as [n Hn].
  destruct (lookup_lt_is_Some_2 (strides x) d ltac:(lia)) as [s Hs].
  cbn [_traverse_dims_and_masked_fill].
  rewrite (index_nat _ _ _ Hn). cbn [bind].
  destruct (Z.eqb_spec (Z.of_nat d) (Z.of_nat (length (shape x)) - 1)) as [E|E].
  - rewrite (offsets_drop_last _ _ _ _ _ _ Hn Hs) by lia.
    rewrite <- for_append_fmap_arg. apply for_append_ext, Forall_forall. intros i _.
    by rewrite (index_nat _ _ _ Hs).
  - rewrite (offsets_drop_step _ _ _ _ _ _ Hn Hs).
    rewrite <- for_extend_for_append. apply for_extend_ext, Forall_forall. intros i _.
    rewrite (index_nat _ _ _ Hs). cbn [bind].
    replace (Z.of_nat d + 1) with (Z.of_nat (S d)) by lia.
    apply IH; lia.
Qed.

Lemma masked_fill_walk (mask : list bool) (value : float) (x : MiniBuffer) :
  contiguous x →
  masked_fill x mask value
  = let* out_data := Py.for_append (mask_at mask value x) (seqZ 0 (Py.prod (shape x))) in
    Ok (MiniBuffer_init out_data (shape x) None).
Proof.
  intros [Hrank Hdims Hstr Hlen]. unfold masked_fill.
  change 0 with (Z.of_nat 0) at 1.
  rewrite (traverse_masked_fill_walk mask value x (stack_depth x) 0 0).
  - by rewrite !drop_0, Hstr, offsets_contiguous.
  - destruct (shape x); [done|simpl; lia].
  - unfold stack_depth. lia.
  - rewrite Hstr, length_contiguous_strides. lia.
Qed.

Lemma index_out_of_range {A : Type} (l : list A) (p : Z) :
  Z.of_nat (length l) ≤ p → Py.index l p = Raise IndexError.
Proof.
  intros Hp. unfold Py.index.
  destruct (Z.ltb_spec p 0) as [?|_]; [lia|].
  destruct (Z.leb_spec 0 p) as [_|?]; [|lia].
  destruct (Z.ltb_spec p (Z.of_nat (length l))) as [?|_]; [lia|]. done.
Qed.

(** Property X7. On a row-major buffer [masked_fill] reads the mask at the
    flat position of every element. A mask with at least as many entries
    as the buffer has elements gives a row-major buffer of the same shape
    that holds the fill value where the mask is true and the element where
    it is false (entries beyond the data are never read); a shorter mask
    raises [IndexError]. *)
Theorem masked_fill_elements (x : MiniBuffer) (mask : list bool) (value : float) :
  contiguous x →
  ((length (data x) ≤ length mask)%nat →
   ∃ z, masked_fill x mask value = Ok z
      ∧ data z = zip_with (λ (m : bool) v, if m then value else v) mask (data x)
      ∧ contiguous z ∧ shape z = shape x
      ∧ ∀ key, valid_key key (shape x) →
          ∃ (m : bool) a, Py.index mask (dot key (strides x)) = Ok m
                 ∧ getitem x key = Ok a
                 ∧ getitem z key = Ok (if m then value else a))
  ∧ ((length mask < length (data x))%nat →
     masked_fill x mask value = Raise IndexError).
Proof.
  intros Hx. pose proof Hx as [Hrank Hdims Hstr Hlen].
  pose proof (prod_nonneg _ Hdims) as HP.
  rewrite masked_fill_walk by done. split.
  - intros Hmask.
    set (g := λ p, if default false (mask !! Z.to_nat p) then value else peek (data x) p).
    rewrite (for_append_fmap _ g).
    2:{ apply Forall_forall. intros p Hp%elem_of_seqZ. unfold mask_at, g.
        destruct (lookup_lt_is_Some_2 mask (Z.to_nat p)) as [m Hm]; [lia|].
        rewrite (index_lookup _ _ m) by (lia || done). rewrite Hm. cbn.
        destruct m; [done|]. apply index_peek. unfold in_range. lia. }
    cbn [bind].
    assert (Hz : contiguous (MiniBuffer_init (g <$> seqZ 0 (Py.prod (shape x))) (shape x) None)).
    { apply init_contiguous; try done. rewrite length_fmap, length_seqZ. lia. }
    eexists. split; [reflexivity|]. split; [|split; [exact Hz|split; [reflexivity|]]].
    + cbn [MiniBuffer_init data]. apply list_eq. intros i.
      rewrite list_lookup_fmap, lookup_zip_with.
      destruct (decide (i < length (data x))%nat) as [Hi|Hi].
      * rewrite lookup_seqZ_lt by lia. cbn. unfold g, peek.
        replace (Z.to_nat (0 + Z.of_nat i)) with i by lia.
        destruct (lookup_lt_is_Some_2 mask i) as [m Hm]; [lia|].
        destruct (lookup_lt_is_Some_2 (data x) i Hi) as [v Hv].
        by rewrite Hm, Hv.
      * rewrite lookup_seqZ_ge by lia. cbn.
        rewrite (proj2 (lookup_ge_None (data x) i)) by lia.
        by destruct (mask !! i).
    + intros key Hkey. destruct (contiguous_getitem x key Hx Hkey) as [Hgx Hb].
      rewrite Hstr.
      destruct (lookup_lt_is_Some_2 mask (Z.to_nat (dot key (contiguous_strides (shape x)))))
        as [m Hm]; [lia|].
      exists m. eexists. split; [apply index_lookup; [lia|exact Hm]|].
      split; [exact Hgx|]. rewrite init_getitem by done. unfold g. by rewrite Hm.
  - intros Hmask. rewrite (for_append_raise _ IndexError); [done| |].
    + apply Forall_forall. intros p Hp%elem_of_seqZ. unfold mask_at.
      destruct (decide (p < Z.of_nat (length mask))) as [Hlt|Hge].
      * destruct (lookup_lt_is_Some_2 mask (Z.to_nat p)) as [m Hm]; [lia|].
        rewrite (index_lookup _ _ m) by (lia || done). cbn [bind].
        destruct m; [eauto|]. left. eexists. apply index_peek. unfold in_range. lia.
      * right. by rewrite index_out_of_range by lia.
    + apply Exists_exists. exists (Z.of_nat (length mask)). split.
      * apply elem_of_seqZ. lia.
      * unfold mask_at. by rewrite index_out_of_range by lia.
Qed.

Lemma masked_fill_elements_witness :
  ∃ z, masked_fill (MiniBuffer_init [1; 2; 3; 4]%float [2; 2] None)
         [false; true; true; false] 9%float = Ok z
     ∧ data z = [1; 9; 9; 4]%float.
Proof.
  destruct (masked_fill_elements (MiniBuffer_init [1; 2; 3; 4]%float [2; 2] None)
              [false; true; true; false] 9%float) as [H _].
  - split; [done|repeat constructor; lia|reflexivity|reflexivity].
  - destruct H as (z & Hz & Hd & _); [cbn; lia|].
    exists z. split; [exact Hz|exact Hd].
Defined.

(** ** Row-major addressing *)

Lemma dot_contiguous_inj (key key' dims : list Z) :
  valid_key key dims → valid_key key' dims →
  dot key (contiguous_strides dims) = dot key' (contiguous_strides dims) →
  key = key'.
Proof.
  intros Hk. revert key'. induction Hk as [|k n key dims Hkn Hk IH]; intros key' Hk' Hdot.
  - by apply Forall2_nil_inv_r in Hk'.
  - apply Forall2_cons_inv_r in Hk' as (k' & ks' & Hk'n & Hk' & ->).
    cbn [contiguous_strides] in Hdot. rewrite !dot_cons in Hdot.
    pose proof (dot_contiguous_bound _ _ Hk) as Hb.
    pose proof (dot_contiguous_bound _ _ Hk') as Hb'.
    assert (k = k') as -> by nia.
    f_equal. apply IH; [done|lia].
Qed.

(** Property X8. The strides that the constructor computes address the
    flat data in row-major order without gaps or overlaps: the flat
    position of a valid key lies inside the data, two valid keys never
    share a position, every position belongs to a valid key, and
    [__getitem__] at a valid key returns the element at that position. *)
Theorem row_major_addressing (d : list float) (dims : list Z) :
  Forall (λ n, 0 ≤ n) dims → Z.of_nat (length d) = Py.prod dims →
  let b := MiniBuffer_init d dims None in
  let pos := λ key, dot key (strides b) in
  (∀ key, valid_key key dims →
     0 ≤ pos key < Z.of_nat (length d) ∧ getitem b key = Py.index d (pos key))
  ∧ (∀ key key', valid_key key dims → valid_key key' dims →
       pos key = pos key' → key = key')
  ∧ (∀ p, 0 ≤ p < Z.of_nat (length d) → ∃ key, valid_key key dims ∧ pos key = p).
Proof.
  intros Hdims Hlen b pos. unfold pos, b. cbn [MiniBuffer_init strides].
  rewrite get_strides_from_shape_contiguous. split; [|split].
  - intros key Hkey. pose proof (dot_contiguous_bound _ _ Hkey) as Hb.
    split; [lia|]. rewrite getitem_dot.
    + cbn [data strides]. reflexivity.
    + cbn [strides]. rewrite length_contiguous_strides.
      apply Forall2_length in Hkey. lia.
  - intros key key'. apply dot_contiguous_inj.
  - intros p Hp.
    assert (Hin : p ∈ offsets dims (contiguous_strides dims) 0).
    { rewrite offsets_contiguous by done. apply elem_of_seqZ. lia. }
    apply elem_of_offsets in Hin as (key & Hkey & ->). exists key. split; [done|lia].
Qed.

Lemma row_major_addressing_witness :
  getitem (MiniBuffer_init [1; 2; 3; 4; 5; 6]%float [2; 3] None) [1; 1] = Ok 5%float.
Proof.
  destruct (row_major_addressing [1; 2; 3; 4; 5; 6]%float [2; 3]) as (H & _ & _).
  - repeat constructor; lia.
  - reflexivity.
  - destruct (H [1; 1]) as [_ Hg]; [repeat constructor; lia|]. exact Hg.
Defined.

(** ** [reshape] and [flatten] *)

(** Property X9. [reshape] to a shape with as many elements keeps the flat
    data and the row-major order: the result is row-major, a key of the
    new shape and a key of the old one that have the same flat position
    name the same element, and reshaping back to the old shape gives the
    buffer one started from. *)
Theorem reshape_round_trip (x : MiniBuffer) (new_shape : list Z) :
  contiguous x → new_shape ≠ [] → Forall (λ n, 0 ≤ n) new_shape →
  Py.prod new_shape = Py.prod (shape x) →
  contiguous (reshape x new_shape)
  ∧ (∀ key key', valid_key key new_shape → valid_key key' (shape x) →
       dot key (strides (reshape x new_shape)) = dot key' (strides x) →
       getitem (reshape x new_shape) key = getitem x key')
  ∧ reshape (reshape x new_shape) (shape x) = x.
Proof.
  intros Hx Hrank Hdims Hprod. pose proof Hx as [Hrankx Hdimsx Hstr Hlen].
  assert (Hr : contiguous (reshape x new_shape)).
  { apply init_contiguous; try done. by rewrite Hprod. }
  split; [exact Hr|]. split.
  - intros key key' Hkey Hkey' Hdot.
    rewrite !getitem_element by (done || by apply contiguous_readable).
    unfold element. by rewrite Hdot.
  - change (MiniBuffer_init (data x) (shape x) None = x). by apply contiguous_eta.
Qed.

Lemma reshape_round_trip_witness :
  getitem (reshape (MiniBuffer_init [1; 2; 3; 4; 5; 6]%float [2; 3] None) [3; 2]) [2; 0]
  = getitem (MiniBuffer_init [1; 2; 3; 4; 5; 6]%float [2; 3] None) [1; 1].
Proof.
  destruct (reshape_round_trip (MiniBuffer_init [1; 2; 3; 4; 5; 6]%float [2; 3] None)
              [3; 2]) as (_ & H & _).
  - split; [done|repeat constructor; lia|reflexivity|reflexivity].
  - done.
  - repeat constructor; lia.
  - reflexivity.
  - apply H; [repeat constructor; lia|repeat constructor; lia|reflexivity].
Defined.

(** Property X10. [flatten] of a row-major buffer is the row-major buffer
    of one axis over the same flat data: the element of the buffer at a
    valid key is the element of the flattened buffer at the flat position
    of the key, and reshaping the flattened buffer to the old shape gives
    the buffer back. *)
Theorem flatten_round_trip (x : MiniBuffer) :
  contiguous x →
  contiguous (flatten x)
  ∧ shape (flatten x) = [Z.of_nat (length (data x))]
  ∧ (∀ key, valid_key key (shape x) →
       getitem (flatten x) [dot key (strides x)] = getitem x key)
  ∧ reshape (flatten x) (shape x) = x.
Proof.
  intros Hx. pose proof Hx as [Hrank Hdims Hstr Hlen].
  pose proof (prod_nonneg _ Hdims) as HP.
  assert (Hf : contiguous (flatten x)).
  { apply init_contiguous; [done|repeat constructor; lia|].
    cbn [Py.prod foldr]. lia. }
  split; [exact Hf|]. split; [cbn; by rewrite Hlen|]. split.
  - intros key Hkey. destruct (contiguous_getitem x key Hx Hkey) as [Hgx Hb].
    rewrite Hgx, Hstr. rewrite getitem_dot.
    + cbn [flatten MiniBuffer_init data strides get_strides_from_shape].
      rewrite Hlen in Hb.
      rewrite get_strides_from_shape_contiguous.
      replace (dot [dot key (contiguous_strides (shape x))] _)
        with (dot key (contiguous_strides (shape x))) by (cbn; lia).
      apply index_peek. unfold in_range. lia.
    + cbn [flatten MiniBuffer_init strides].
      rewrite get_strides_from_shape_contiguous. simpl. lia.
  - change (MiniBuffer_init (data x) (shape x) None = x). by apply contiguous_eta.
Qed.

Lemma flatten_round_trip_witness :
  getitem (flatten (MiniBuffer_init [1; 2; 3; 4; 5; 6]%float [2; 3] None)) [4] = Ok 5%float.
Proof.
  destruct (flatten_round_trip (MiniBuffer_init [1; 2; 3; 4; 5; 6]%float [2; 3] None))
    as (_ & _ & H & _).
  - split; [done|repeat constructor; lia|reflexivity|reflexivity].
  - apply (H [1; 1]). repeat constructor; lia.
Defined.

(** ** The length of a key *)

Lemma dot_app_zeros (key strides : list Z) (n : nat) :
  dot (key ++ replicate n 0) strides = dot key strides.
Proof.
  revert strides. induction key as [|k key IH]; intros [|s strides].
  - by rewrite !dot_nil_r.
  - cbn [app]. unfold dot at 2. cbn. revert s strides.
    induction n as [|n IHn]; intros s strides; [done|].
    cbn [replicate]. rewrite dot_cons. destruct strides as [|s' strides].
    + rewrite dot_nil_r. lia.
    + rewrite IHn. lia.
  - by rewrite !dot_nil_r.
  - cbn [app]. by rewrite !dot_cons, IH.
Qed.

Lemma getitem_long_key (b : MiniBuffer) (key : list Z) :
  (length (strides b) < length key)%nat → getitem b key = Raise IndexError.
Proof.
  intros Hlen. unfold getitem.
  assert (H : ∀ (l : list Z) (j : nat) (acc : Z),
            (length (strides b) < j + length l)%nat → (j ≤ length (strides b))%nat →
            foldl (λ acc '(dim_idx, key),
                let* item_pos := acc in
                let* s := Py.index (strides b) (Z.of_nat dim_idx) in
                Ok (item_pos + s * key)) (Ok acc) (imap (λ i k, (j + i, k)%nat) l)
            = Raise IndexError).
  { induction l as [|k l IH]; intros j acc Hl Hj; [simpl in Hl; lia|].
    cbn [imap foldl bind]. rewrite Nat.add_0_r.
    destruct (decide (j < length (strides b))%nat) as [Hlt|Hge].
    - destruct (lookup_lt_is_Some_2 (strides b) j Hlt) as [s Hs].
      rewrite (index_nat _ _ _ Hs). cbn [bind].
      rewrite (imap_ext _ (λ i k0, (S j + i, k0)%nat))
        by (intros; unfold compose; f_equal; lia).
      apply IH; simpl in *; lia.
    - rewrite index_out_of_range by lia. cbn [bind].
      generalize (imap ((λ (i : nat) (k0 : Z), ((j + i)%nat, k0)) ∘ S) l).
      intros l'. induction l' as [|[i0 k0] l' IHl']; [done|].
      cbn [foldl bind]. exact IHl'. }
  pose proof (H key 0%nat 0 ltac:(simpl; lia) ltac:(lia)) as H0.
  cbn [Nat.add] in H0. by rewrite H0.
Qed.

(** Property X11. [__getitem__] does not check the length of the key
    against the rank either. A key with more components than the buffer
    has axes raises [IndexError], whatever the components are; a key with
    fewer components is accepted and returns what the key filled up with
    zeros returns, the first element of the block that the key names. *)
Theorem getitem_key_length (b : MiniBuffer) (key : list Z) :
  length (strides b) = length (shape b) →
  ((length (shape b) < length key)%nat → getitem b key = Raise IndexError)
  ∧ ((length key ≤ length (shape b))%nat →
     getitem b key
     = getitem b (key ++ replicate (length (shape b) - length key) 0)).
Proof.
  intros Hstr. split.
  - intros Hlen. apply getitem_long_key. lia.
  - intros Hlen. rewrite !getitem_dot.
    + by rewrite dot_app_zeros.
    + rewrite length_app, length_replicate. lia.
    + lia.
Qed.

Lemma getitem_key_length_witness :
  getitem (MiniBuffer_init [1; 2; 3; 4; 5; 6]%float [2; 3] None) [1] = Ok 4%float
  ∧ getitem (MiniBuffer_init [1; 2; 3; 4; 5; 6]%float [2; 3] None) [0; 0; 0]
    = Raise IndexError.
Proof.
  destruct (getitem_key_length (MiniBuffer_init [1; 2; 3; 4; 5; 6]%float [2; 3] None) [1])
    as [_ H1]; [reflexivity|].
  destruct (getitem_key_length (MiniBuffer_init [1; 2; 3; 4; 5; 6]%float [2; 3] None)
              [0; 0; 0]) as [H2 _]; [reflexivity|].
  split.
  - rewrite H1 by (cbn; lia). reflexivity.
  - apply H2. cbn. lia.
Defined.

(** * [pad], [shrink] and [tril] *)

(** ** Rows of a walk *)

Lemma for_extend_app {A B : Type} (f : A → result (list B)) (l k : list A) :
  Py.for_extend f (l ++ k)
  = let* x := Py.for_extend f l in let* y := Py.for_extend f k in Ok (x ++ y).
Proof.
  induction l as [|a l IH]; cbn [app Py.for_extend bind].
  - by destruct (Py.for_extend f k).
  - destruct (f a) as [b|e]; [|done]. cbn [bind]. rewrite IH.
    destruct (Py.for_extend f l) as [x|e]; [|done]. cbn [bind].
    destruct (Py.for_extend f k); [|done]. cbn [bind]. by rewrite app_assoc.
Qed.

Lemma for_extend_for_extend {A B C : Type} (f : B → result (list C)) (g : A → list B)
    (l : list A) :
  Py.for_extend (λ a, Py.for_extend f (g a)) l = Py.for_extend f (l ≫= g).
Proof.
  induction l as [|a l IH]; [done|].
  cbn [Py.for_extend mbind list_bind]. rewrite for_extend_app.
  change (foldr _ _ l) with (l ≫= g).
  destruct (Py.for_extend f (g a)) as [x|e]; [|done]. cbn [bind].
  by rewrite IH.
Qed.

Lemma for_extend_singleton {A B : Type} (f : A → result (list B)) (a : A) :
  Py.for_extend f [a] = f a.
Proof. cbn. destruct (f a); [|done]. cbn. by rewrite app_nil_r. Qed.

Lemma for_extend_fmap {A B : Type} (f : A → result (list B)) (g : A → list B) (l : list A) :
  Forall (λ a, f a = Ok (g a)) l → Py.for_extend f l = Ok (l ≫= g).
Proof. apply for_extend_bind. Qed.

Lemma list_bind_assoc {A B C : Type} (f : A → list B) (g : B → list C) (l : list A) :
  (l ≫= f) ≫= g = l ≫= (λ a, f a ≫= g).
Proof.
  induction l as [|a l IH]; [done|]. rewrite !bind_cons, bind_app. by rewrite IH.
Qed.

Lemma offsets_app (pre tail strides : list Z) (base : Z) :
  offsets (pre ++ tail) strides base
  = offsets pre strides base ≫= (λ b, offsets tail (drop (length pre) strides) b).
Proof.
  revert strides base. induction pre as [|n pre IH]; intros strides base.
  - cbn. by rewrite app_nil_r.
  - cbn [app offsets length]. rewrite list_bind_assoc. apply list_bind_ext; [|done].
    intros i. rewrite IH. destruct strides; [|done]. simpl. by rewrite !drop_nil.
Qed.

Lemma contiguous_strides_app (pre tail : list Z) :
  contiguous_strides (pre ++ tail)
  = ((λ s, s * Py.prod tail) <$> contiguous_strides pre) ++ contiguous_strides tail.
Proof.
  induction pre as [|n pre IH]; [done|].
  cbn [app contiguous_strides fmap list_fmap]. rewrite IH. f_equal.
  clear. induction pre as [|m pre IH]; [unfold Py.prod; cbn; lia|].
  cbn [app]. rewrite !prod_cons, IH. lia.
Qed.

Lemma dot_fmap_mul (key st : list Z) (c : Z) :
  dot key ((λ s, s * c) <$> st) = dot key st * c.
Proof.
  revert st. induction key as [|k key IH]; intros [|s st]; try done.
  cbn [fmap list_fmap]. rewrite !dot_cons, IH. lia.
Qed.

Lemma dot_contiguous_app (kpre ktail pre tail : list Z) :
  length kpre = length pre →
  dot (kpre ++ ktail) (contiguous_strides (pre ++ tail))
  = dot kpre (contiguous_strides pre) * Py.prod tail + dot ktail (contiguous_strides tail).
Proof.
  intros Hlen. rewrite contiguous_strides_app, dot_app.
  - by rewrite dot_fmap_mul.
  - by rewrite length_fmap, length_contiguous_strides.
Qed.

Lemma valid_key_app (kpre ktail pre tail : list Z) :
  length kpre = length pre →
  valid_key (kpre ++ ktail) (pre ++ tail) → valid_key kpre pre ∧ valid_key ktail tail.
Proof.
  intros Hlen H. apply Forall2_app_inv in H; [done|exact Hlen].
Qed.

(** The element at a key of a buffer whose data is made of rows: one row
    for every position of the walk over the axes before the last. *)
Lemma rows_lookup (row : Z → list float) (pre strides kpre : list Z) (n j : Z) :
  valid_key kpre pre → (∀ b, length (row b) = Z.to_nat n) → 0 ≤ j < n →
  (offsets pre strides 0 ≫= row)
    !! Z.to_nat (dot (kpre ++ [j]) (contiguous_strides (pre ++ [n])))
  = row (dot kpre strides) !! Z.to_nat j.
Proof.
  intros Hkey Hrow Hj.
  rewrite dot_contiguous_app by (by eapply Forall2_length).
  pose proof (dot_contiguous_bound _ _ Hkey) as Hb.
  replace (Py.prod [n]) with n by (unfold Py.prod; cbn; lia).
  replace (dot [j] (contiguous_strides [n])) with j by (unfold dot, Py.prod; cbn; lia).
  replace (Z.to_nat (dot kpre (contiguous_strides pre) * n + j))
    with (Z.to_nat (dot kpre (contiguous_strides pre)) * Z.to_nat n + Z.to_nat j)%nat by nia.
  rewrite (lookup_bind_blocks _ _ (Z.to_nat n) _ _ (dot kpre strides)); [done|done| |lia].
  rewrite offsets_lookup_key by done. by rewrite Z.add_0_l.
Qed.

(** ** The walk of [pad] and [shrink] *)

Lemma lookup_take_Some {A : Type} (l : list A) (n d : nat) (a : A) :
  l !! d = Some a → (d < n)%nat → take n l !! d = Some a.
Proof. intros H Hd. by rewrite lookup_take_lt. Qed.

Lemma traverse_reshape_rows (op : ReshapeOp) (new_shape : list Z) (x : MiniBuffer)
    (fuel d : nat) (pos : Z) :
  (d < length new_shape)%nat → (length new_shape - d ≤ fuel)%nat →
  (length new_shape - 1 ≤ length (strides x))%nat →
  _traverse_dims_and_apply_reshape_op fuel (Z.of_nat d) pos op new_shape x
  = Py.for_extend (reshape_row op new_shape x)
      (offsets (drop d (take (length new_shape - 1) new_shape)) (drop d (strides x)) pos).
Proof.
  intros Hd Hfuel Hsx. revert d pos Hd Hfuel.
  induction fuel as [|fuel IH]; intros d pos Hd Hfuel; [lia|].
  cbn [_traverse_dims_and_apply_reshape_op].
  destruct (Z.eqb_spec (Z.of_nat d) (Z.of_nat (length new_shape) - 1)) as [E|E].
  - rewrite drop_ge by (rewrite length_take; lia). cbn [offsets].
    rewrite for_extend_singleton. unfold reshape_row. rewrite <- E. by destruct op.
  - destruct (lookup_lt_is_Some_2 new_shape d Hd) as [n Hn].
    destruct (lookup_lt_is_Some_2 (strides x) d ltac:(lia)) as [s Hs].
    rewrite (index_nat _ _ _ Hn). cbn [bind].
    rewrite (offsets_drop_step _ _ d n s); [|apply lookup_take_Some; [done|lia]|done].
    rewrite <- for_extend_for_extend. apply for_extend_ext, Forall_forall. intros i _.
    rewrite (index_nat _ _ _ Hs). cbn [bind].
    replace (Z.of_nat d + 1) with (Z.of_nat (S d)) by lia.
    apply IH; lia.
Qed.

Lemma for_append_length {A B : Type} (f : A → result B) (l : list A) (out : list B) :
  Py.for_append f l = Ok out → length out = length l.
Proof.
  revert out. induction l as [|a l IH]; intros out H; cbn [Py.for_append] in H.
  - by injection H as <-.
  - apply bind_Ok in H as (b & _ & H). apply bind_Ok in H as (bs & Hbs & H).
    injection H as <-. cbn. f_equal. by apply IH.
Qed.

(** The row of [shrink]: the guard on the length of the row never stops
    the loop. *)
Lemma shrink_row (depth_idx : Z) (pos : Z) (new_shape : list Z) (x : MiniBuffer) (n : Z) :
  Py.index new_shape depth_idx = Ok n →
  _shrink depth_idx pos new_shape x
  = Py.for_append (λ i, let* s := Py.index (strides x) depth_idx in
                        Py.index (data x) (pos + i * s)) (Py.range n).
Proof.
  intros Hn. unfold _shrink.
  set (F := λ (acc : result (list float)) (val_idx : Z),
      let* current_dim := acc in
      let* s := Py.index (strides x) depth_idx in
      let val_pos := pos + val_idx * s in
      let* n' := Py.index new_shape depth_idx in
      if Z.of_nat (length current_dim) <? n' then
        let* v := Py.index (data x) val_pos in
        Ok (current_dim ++ [v])
      else Ok current_dim).
  set (g := λ i, let* s := Py.index (strides x) depth_idx in
                 Py.index (data x) (pos + i * s)).
  rewrite Hn. cbn [bind].
  assert (H : ∀ k : nat, Z.of_nat k ≤ n →
            foldl F (Ok []) (Py.range (Z.of_nat k)) = Py.for_append g (Py.range (Z.of_nat k))).
  { induction k as [|k IHk]; intros Hk; [done|].
    rewrite range_S, foldl_app, for_append_app, IHk by lia. cbn [foldl].
    destruct (Py.for_append g (Py.range (Z.of_nat k))) as [out|e] eqn:Hout; [|done].
    apply for_append_length in Hout. rewrite length_range in Hout.
    cbn [bind Py.for_append]. unfold F, g. cbn [bind].
    destruct (Py.index (strides x) depth_idx) as [s|e]; [|done]. cbn [bind].
    rewrite Hn. cbn [bind].
    destruct (Z.ltb_spec (Z.of_nat (length out)) n) as [_|?]; [|lia].
    by destruct (Py.index (data x) (pos + Z.of_nat k * s)). }
  destruct (Z.le_gt_cases 0 n) as [Hpos|Hneg].
  - rewrite <- (Z2Nat.id n Hpos) at 1 2. apply H. lia.
  - rewrite (range_nonpos n) by lia. done.
Qed.

Lemma take_app_length' {A : Type} (pre : list A) (a : A) :
  take (length (pre ++ [a]) - 1) (pre ++ [a]) = pre.
Proof.
  rewrite length_app. cbn [length]. replace (length pre + 1 - 1)%nat with (length pre) by lia.
  by rewrite take_app_length.
Qed.

Lemma lookup_app_last {A : Type} (pre : list A) (a : A) :
  (pre ++ [a]) !! (length (pre ++ [a]) - 1)%nat = Some a.
Proof.
  rewrite length_app. cbn [length]. replace (length pre + 1 - 1)%nat with (length pre) by lia.
  by rewrite list_lookup_middle.
Qed.

(** [shrink] reads the flat data along the walk over the new shape. *)
Lemma shrink_walk (x : MiniBuffer) (new_shape : list Z) :
  new_shape ≠ [] → (length new_shape ≤ length (strides x))%nat →
  shrink x new_shape
  = let* out_data := Py.for_append (Py.index (data x))
                       (offsets new_shape (strides x) 0) in
    Ok (MiniBuffer_init out_data new_shape None).
Proof.
  intros Hrank Hstr. unfold shrink. f_equal.
  destruct (split_last new_shape Hrank) as (pre & n & -> & Hpre).
  rewrite length_app in Hstr. cbn [length] in Hstr.
  change 0 with (Z.of_nat 0) at 1.
  rewrite traverse_reshape_rows;
    [|rewrite length_app; simpl; lia|lia|rewrite length_app; simpl; lia].
  rewrite !drop_0, take_app_length'.
  rewrite offsets_app, <- for_extend_for_append.
  apply for_extend_ext, Forall_forall. intros base _.
  unfold reshape_row.
  destruct (lookup_lt_is_Some_2 (strides x) (length pre)) as [s Hs]; [lia|].
  replace (Z.of_nat (length (pre ++ [n])) - 1) with (Z.of_nat (length pre))
    by (rewrite length_app; simpl; lia).
  rewrite (shrink_row _ _ _ _ n).
  - rewrite (drop_S _ _ _ Hs). cbn [offsets]. rewrite bind_singleton.
    cbn [head default from_option id].
    rewrite <- for_append_fmap_arg. apply for_append_ext, Forall_forall. intros i _.
    by rewrite (index_nat _ _ _ Hs).
  - apply index_nat. by rewrite list_lookup_middle.
Qed.

Lemma valid_key_le (key dims dims' : list Z) :
  valid_key key dims → Forall2 (λ m n, m ≤ n) dims dims' → valid_key key dims'.
Proof.
  intros Hk. revert dims'. induction Hk as [|k n key dims Hkn Hk IH]; intros dims' Hle.
  - apply Forall2_nil_inv_l in Hle as ->. constructor.
  - apply Forall2_cons_inv_l in Hle as (n' & ds' & Hn & Hle & ->).
    constructor; [lia|]. by apply IH.
Qed.

Lemma shrink_contiguous (x : MiniBuffer) (new_shape : list Z) :
  contiguous x →
  Forall (λ n, 0 ≤ n) new_shape →
  Forall2 (λ m n, m ≤ n) new_shape (shape x) →
  ∃ z, shrink x new_shape = Ok z ∧ contiguous z ∧ shape z = new_shape
     ∧ ∀ key, valid_key key new_shape →
         ∃ a, getitem x key = Ok a ∧ getitem z key = Ok a.
Proof.
  intros Hx Hdims Hle. pose proof Hx as [Hrank Hdimsx Hstr Hlen].
  pose proof (Forall2_length _ _ _ Hle) as Hlen2.
  assert (Hrank' : new_shape ≠ []).
  { intros ->. by destruct (shape x). }
  rewrite shrink_walk by (done || rewrite Hstr, length_contiguous_strides; lia).
  rewrite (for_append_fmap _ (peek (data x))).
  2:{ apply Forall_forall. intros p Hp.
      apply elem_of_offsets in Hp as (key & Hkey & ->).
      apply index_peek. unfold in_range. rewrite Hlen, Hstr, Z.add_0_l.
      apply dot_contiguous_bound. by eapply valid_key_le. }
  cbn [bind]. eexists. split; [reflexivity|].
  assert (Hz : contiguous (MiniBuffer_init (peek (data x) <$> offsets new_shape (strides x) 0)
                             new_shape None)).
  { apply init_contiguous; try done.
    rewrite length_fmap, length_offsets. by apply size_prod. }
  split; [exact Hz|]. split; [reflexivity|].
  intros key Hkey.
  destruct (contiguous_getitem x key Hx) as [Hgx _]; [by eapply valid_key_le|].
  eexists. split; [exact Hgx|].
  destruct (contiguous_getitem _ key Hz Hkey) as [Hgz Hb]. rewrite Hgz. f_equal.
  cbn [MiniBuffer_init data shape]. unfold peek at 1.
  rewrite list_lookup_fmap, offsets_lookup_key by done. cbn.
  by rewrite Z.add_0_l, Hstr.
Qed.

(** Property X12. [shrink] of a row-major buffer to a shape of the same
    rank that is no larger on any axis succeeds: the result is row-major,
    has the new shape and holds, at every key of the new shape, the
    element that the buffer holds at that key. *)
Theorem shrink_leading_block (x : MiniBuffer) (new_shape : list Z) :
  contiguous x →
  Forall (λ n, 0 ≤ n) new_shape →
  Forall2 (λ m n, m ≤ n) new_shape (shape x) →
  ∃ z, shrink x new_shape = Ok z ∧ contiguous z ∧ shape z = new_shape
     ∧ ∀ key, valid_key key new_shape →
         ∃ a, getitem x key = Ok a ∧ getitem z key = Ok a.
Proof. apply shrink_contiguous. Qed.

Lemma shrink_leading_block_witness :
  ∃ z, shrink (MiniBuffer_init [1; 2; 3; 4; 5; 6]%float [2; 3] None) [2; 2] = Ok z
     ∧ shape z = [2; 2]
     ∧ getitem z [1; 1] = Ok 5%float.
Proof.
  destruct (shrink_leading_block (MiniBuffer_init [1; 2; 3; 4; 5; 6]%float [2; 3] None)
              [2; 2]) as (z & Hz & _ & Hs & Hget).
  - split; [done|repeat constructor; lia|reflexivity|reflexivity].
  - repeat constructor; lia.
  - repeat constructor; lia.
  - exists z. split; [exact Hz|]. split; [exact Hs|].
    destruct (Hget [1; 1]) as (a & Ha & Hza); [repeat constructor; lia|].
    injection Ha as <-. exact Hza.
Defined.

(** ** [pad] *)

Lemma dot_strides_app (key st extra : list Z) :
  (length key ≤ length st)%nat → dot key (st ++ extra) = dot key st.
Proof.
  revert st. induction key as [|k key IH]; intros [|s st] Hlen;
    try done; try (simpl in Hlen; lia).
  cbn [app]. rewrite !dot_cons, IH by (simpl in Hlen; lia). reflexivity.
Qed.

Lemma dot_nonneg (key st : list Z) :
  Forall (λ k, 0 ≤ k) key → Forall (λ s, 0 ≤ s) st → 0 ≤ dot key st.
Proof.
  intros Hk. revert st. induction Hk as [|k key Hk0 Hk IH]; intros st Hst.
  - unfold dot. cbn. lia.
  - destruct Hst as [|s st Hs0 Hst]; [rewrite dot_nil_r; lia|].
    rewrite dot_cons. specialize (IH st Hst). nia.
Qed.

Lemma contiguous_strides_nonneg (dims : list Z) :
  Forall (λ n, 0 ≤ n) dims → Forall (λ s, 0 ≤ s) (contiguous_strides dims).
Proof.
  induction 1 as [|n dims Hn Hdims IH]; [constructor|].
  cbn [contiguous_strides]. constructor; [by apply prod_nonneg|done].
Qed.

Lemma valid_key_nonneg (key dims : list Z) :
  valid_key key dims → Forall (λ k, 0 ≤ k) key.
Proof. induction 1 as [|k n key dims Hk _ IH]; constructor; [lia|done]. Qed.

Lemma contiguous_strides_last (pre : list Z) (d : Z) :
  contiguous_strides (pre ++ [d]) !! length pre = Some 1.
Proof.
  rewrite contiguous_strides_app.
  rewrite lookup_app_r by (rewrite length_fmap, length_contiguous_strides; lia).
  rewrite length_fmap, length_contiguous_strides, Nat.sub_diag. reflexivity.
Qed.

(** The row of [pad] on a row-major buffer, from a position that is not
    negative. *)
Lemma pad_row (x : MiniBuffer) (pre_new pre : list Z) (n d base : Z) :
  contiguous x → shape x = pre ++ [d] → length pre_new = length pre → 0 ≤ base →
  reshape_row PAD (pre_new ++ [n]) x base
  = Ok ((λ i, if (i <? d) && (base + i <? Z.of_nat (length (data x)))
              then peek (data x) (base + i) else PrimFloat.zero) <$> Py.range n).
Proof.
  intros [Hrank Hdims Hstr Hlen] Hshape Hpre Hbase.
  unfold reshape_row, _pad.
  replace (Z.of_nat (length (pre_new ++ [n])) - 1) with (Z.of_nat (length pre_new))
    by (rewrite length_app; simpl; lia).
  rewrite (index_nat _ _ n) by (by rewrite list_lookup_middle). cbn [bind].
  apply for_append_fmap, Forall_forall. intros i Hi%elem_of_range.
  rewrite (index_nat (strides x) _ 1).
  2:{ rewrite Hstr, Hshape, Hpre. apply contiguous_strides_last. }
  cbn [bind].
  rewrite (index_nat (shape x) _ d) by (by rewrite Hshape, Hpre, list_lookup_middle).
  cbn [bind]. rewrite Z.mul_1_r.
  destruct (i <? d); [|done]. cbn [andb].
  destruct (Z.ltb_spec (base + i) (Z.of_nat (length (data x)))) as [Hlt|_]; [|done].
  apply index_peek. unfold in_range. lia.
Qed.

Lemma last_app_singleton {A : Type} (l : list A) (a : A) : last (l ++ [a]) = Some a.
Proof. by rewrite last_snoc. Qed.

Lemma pad_contiguous (x : MiniBuffer) (new_shape : list Z) :
  contiguous x → length new_shape = length (shape x) →
  Forall (λ n, 0 ≤ n) new_shape →
  ∃ z, pad x new_shape = Ok z ∧ contiguous z ∧ shape z = new_shape
     ∧ (∀ key, valid_key key new_shape → getitem z key = Ok (pad_value x key))
     ∧ (∀ key, valid_key key new_shape → valid_key key (shape x) →
          getitem z key = getitem x key).
Proof.
  intros Hx Hlen2 Hdims. pose proof Hx as [Hrank Hdimsx Hstr Hlen].
  assert (Hrank' : new_shape ≠ []).
  { intros ->. by destruct (shape x). }
  destruct (split_last new_shape Hrank') as (pre_new & n & -> & Hpre_new).
  destruct (split_last (shape x) Hrank) as (pre & d & Hshape & Hpre).
  assert (Hpre2 : length pre_new = length pre) by lia.
  apply Forall_app in Hdims as [Hdims_pre Hn]. apply Forall_inv in Hn.
  set (row := λ base, (λ i, if (i <? d) && (base + i <? Z.of_nat (length (data x)))
                            then peek (data x) (base + i) else PrimFloat.zero)
                        <$> Py.range n).
  assert (Hpad : pad x (pre_new ++ [n])
                 = Ok (MiniBuffer_init (offsets pre_new (strides x) 0 ≫= row)
                         (pre_new ++ [n]) None)).
  { unfold pad. change 0 with (Z.of_nat 0) at 1.
    rewrite traverse_reshape_rows;
      [|rewrite length_app; simpl; lia|lia
       |rewrite Hstr, length_contiguous_strides, length_app; simpl; lia].
    rewrite !drop_0, take_app_length'.
    rewrite (for_extend_fmap _ row); [done|].
    apply Forall_forall. intros base Hb.
    apply elem_of_offsets in Hb as (key & Hkey & ->).
    apply (pad_row x pre_new pre n d); try done.
    rewrite Z.add_0_l. apply dot_nonneg; [by eapply valid_key_nonneg|].
    rewrite Hstr. by apply contiguous_strides_nonneg. }
  assert (Hz : contiguous (MiniBuffer_init (offsets pre_new (strides x) 0 ≫= row)
                             (pre_new ++ [n]) None)).
  { apply init_contiguous; [done|apply Forall_app; by repeat constructor|].
    rewrite (length_bind_const _ _ (Z.to_nat n)).
    - rewrite length_offsets.
      assert (Py.prod (pre_new ++ [n]) = Py.prod pre_new * n) as ->.
      { clear. induction pre_new as [|m l IH]; [unfold Py.prod; cbn; lia|].
        cbn [app]. rewrite !prod_cons, IH. lia. }
      pose proof (size_prod _ Hdims_pre). nia.
    - intros b. unfold row. rewrite length_fmap. unfold Py.range. rewrite length_seqZ. lia. }
  assert (Hget : ∀ key, valid_key key (pre_new ++ [n]) →
            getitem (MiniBuffer_init (offsets pre_new (strides x) 0 ≫= row)
                       (pre_new ++ [n]) None) key = Ok (pad_value x key)).
  { intros key Hkey.
    destruct (contiguous_getitem _ key Hz Hkey) as [Hg _]. rewrite Hg. f_equal.
    cbn [MiniBuffer_init data shape].
    pose proof (Forall2_length _ _ _ Hkey) as Hkl. rewrite length_app in Hkl. cbn in Hkl.
    assert (key ≠ []) as Hkne by (intros ->; simpl in Hkl; lia).
    destruct (split_last key Hkne) as (kpre & j & -> & Hkpre).
    apply valid_key_app in Hkey as [Hkpre_valid Hj]; [|lia].
    apply Forall2_cons_1 in Hj as [Hj _].
    unfold peek at 1.
    rewrite (rows_lookup row pre_new (strides x) kpre n j); try done.
    2:{ intros b. unfold row. rewrite length_fmap. unfold Py.range.
        rewrite length_seqZ. lia. }
    unfold row. rewrite list_lookup_fmap. unfold Py.range.
    rewrite lookup_seqZ_lt by lia. cbn [fmap option_fmap option_map default from_option id].
    unfold pad_value. rewrite last_app_singleton, Hshape, last_app_singleton.
    cbn [default from_option id].
    replace (0 + Z.of_nat (Z.to_nat j)) with j by lia.
    assert (Hdot : dot (kpre ++ [j]) (strides x) = dot kpre (strides x) + j).
    { rewrite Hstr, Hshape, contiguous_strides_app.
      rewrite dot_app by (rewrite length_fmap, length_contiguous_strides; lia).
      rewrite (dot_strides_app kpre) by
        (rewrite length_fmap, length_contiguous_strides; lia).
      f_equal. unfold dot, Py.prod. cbn. lia. }
    by rewrite Hdot. }
  eexists. split; [exact Hpad|]. split; [exact Hz|]. split; [reflexivity|].
  split; [exact Hget|].
  intros key Hkey Hkeyx. rewrite Hget by done.
  destruct (contiguous_getitem x key Hx Hkeyx) as [Hgx Hb]. rewrite Hgx. f_equal.
  unfold pad_value. rewrite Hstr.
  pose proof (Forall2_length _ _ _ Hkeyx) as Hkl.
  assert (key ≠ []) as Hkne by (intros ->; by destruct (shape x)).
  destruct (split_last key Hkne) as (kpre & j & -> & Hkpre).
  rewrite Hshape in Hkeyx. apply valid_key_app in Hkeyx as [_ Hj].
  2:{ rewrite Hshape, !length_app in Hkl. simpl in Hkl. lia. }
  apply Forall2_cons_1 in Hj as [Hj _].
  rewrite last_app_singleton, Hshape, last_app_singleton. cbn [default from_option id].
  rewrite Hshape in Hb.
  destruct (Z.ltb_spec j d) as [_|?]; [|lia].
  destruct (Z.ltb_spec (dot (kpre ++ [j]) (contiguous_strides (pre ++ [d])))
              (Z.of_nat (length (data x)))) as [_|?]; [done|lia].
Qed.
(** Property X13. [pad] of a row-major buffer to a shape of the same rank
    cannot fail. The result is row-major with the new shape; at a key it
    holds the element found at the flat position that the key has under
    the strides of the buffer, provided that the last component of the key
    is inside the last axis of the buffer and that the position is inside
    the data, and zero otherwise. No other axis is checked. A key that is
    valid for the buffer keeps its element. *)
Theorem pad_elements (x : MiniBuffer) (new_shape : list Z) :
  contiguous x → length new_shape = length (shape x) →
  Forall (λ n, 0 ≤ n) new_shape →
  ∃ z, pad x new_shape = Ok z ∧ contiguous z ∧ shape z = new_shape
     ∧ (∀ key, valid_key key new_shape → getitem z key = Ok (pad_value x key))
     ∧ (∀ key, valid_key key new_shape → valid_key key (shape x) →
          getitem z key = getitem x key).
Proof. apply pad_contiguous. Qed.

Lemma pad_elements_witness :
  ∃ z, pad (MiniBuffer_init [1; 2; 3; 4]%float [2; 2] None) [2; 3] = Ok z
     ∧ shape z = [2; 3]
     ∧ getitem z [1; 1] = Ok 4%float
     ∧ getitem z [1; 2] = Ok 0%float.
Proof.
  destruct (pad_elements (MiniBuffer_init [1; 2; 3; 4]%float [2; 2] None) [2; 3])
    as (z & Hz & _ & Hs & Hget & _).
  - split; [done|repeat constructor; lia|reflexivity|reflexivity].
  - reflexivity.
  - repeat constructor; lia.
  - exists z. split; [exact Hz|]. split; [exact Hs|]. split.
    + rewrite Hget by (repeat constructor; lia). reflexivity.
    + rewrite Hget by (repeat constructor; lia). reflexivity.
Defined.

(** Property X14. On a matrix [pad] is zero padding at the end of both
    axes: whatever the new numbers of rows and columns, the element of the
    result at row [i] and column [j] is the element of the matrix there
    when the matrix has that row and that column, and zero otherwise. *)
Theorem pad_matrix_exact (x : MiniBuffer) (m n m' n' : Z) :
  contiguous x → shape x = [m; n] → 0 ≤ m' → 0 ≤ n' →
  ∃ z, pad x [m'; n'] = Ok z ∧ shape z = [m'; n']
     ∧ ∀ i j, 0 ≤ i < m' → 0 ≤ j < n' →
         getitem z [i; j]
         = if (i <? m) && (j <? n) then getitem x [i; j] else Ok PrimFloat.zero.
Proof.
  intros Hx Hshape Hm' Hn'. pose proof Hx as [Hrank Hdims Hstr Hlen].
  destruct (pad_contiguous x [m'; n']) as (z & Hz & _ & Hs & Hget & _);
    [done|by rewrite Hshape|repeat constructor; lia|].
  exists z. split; [exact Hz|]. split; [exact Hs|].
  intros i j Hi Hj. rewrite Hget by (repeat constructor; lia).
  unfold pad_value. rewrite Hstr, Hshape. cbn [contiguous_strides last default from_option id].
  rewrite Hshape in Hlen, Hdims.
  assert (0 ≤ m ∧ 0 ≤ n) as [Hm Hn].
  { apply Forall_cons in Hdims as [? Hdims]. by apply Forall_cons in Hdims as [? _]. }
  assert (Hdot : dot [i; j] [Py.prod [n]; Py.prod []] = i * n + j)
    by (unfold dot, Py.prod; cbn; lia).
  assert (HP : Py.prod [m; n] = m * n) by (unfold Py.prod; cbn; lia).
  rewrite Hdot, Hlen, HP.
  destruct (Z.ltb_spec j n) as [Hjn|Hjn]; [|by rewrite andb_false_r].
  rewrite andb_true_r. cbn [andb].
  destruct (Z.ltb_spec i m) as [Him|Him].
  - destruct (Z.ltb_spec (i * n + j) (m * n)) as [_|?]; [|nia].
    destruct (contiguous_getitem x [i; j] Hx) as [Hgx _].
    { rewrite Hshape. repeat constructor; lia. }
    rewrite Hgx, Hshape. cbn [contiguous_strides]. by rewrite Hdot.
  - destruct (Z.ltb_spec (i * n + j) (m * n)) as [?|_]; [nia|done].
Qed.

Lemma pad_matrix_exact_witness :
  ∃ z, pad (MiniBuffer_init [1; 2; 3; 4]%float [2; 2] None) [3; 3] = Ok z
     ∧ getitem z [2; 0] = Ok 0%float
     ∧ getitem z [1; 0] = Ok 3%float.
Proof.
  destruct (pad_matrix_exact (MiniBuffer_init [1; 2; 3; 4]%float [2; 2] None) 2 2 3 3)
    as (z & Hz & _ & Hget).
  - split; [done|repeat constructor; lia|reflexivity|reflexivity].
  - reflexivity.
  - lia.
  - lia.
  - exists z. split; [exact Hz|]. split.
    + rewrite Hget by lia. reflexivity.
    + rewrite Hget by lia. reflexivity.
Defined.

(** Property X15. Beyond two axes [pad] is not zero padding: since only
    the last axis is checked, a key of the new shape that lies outside the
    buffer on the middle axis, but whose flat position is still inside the
    data, receives an element of the buffer, the one of the next block,
    where zero padding would put a zero. *)
Theorem pad_middle_axis_reads_next_block (x : MiniBuffer) (a b c b' i j k : Z) :
  contiguous x → shape x = [a; b; c] → 0 < b →
  0 ≤ i → b ≤ j < b' → 0 ≤ k < c → i + j / b < a →
  ∃ z v, pad x [a; b'; c] = Ok z
       ∧ ¬ valid_key [i; j; k] (shape x)
       ∧ valid_key [i + j / b; j `mod` b; k] (shape x)
       ∧ getitem x [i + j / b; j `mod` b; k] = Ok v
       ∧ getitem z [i; j; k] = Ok v.
Proof.
  intros Hx Hshape Hb Hi Hj Hk Hblock. pose proof Hx as [Hrank Hdims Hstr Hlen].
  rewrite Hshape in Hlen, Hdims.
  assert (0 ≤ a ∧ 0 ≤ c) as [Ha Hc].
  { apply Forall_cons in Hdims as [? Hdims]. apply Forall_cons in Hdims as [? Hdims].
    by apply Forall_cons in Hdims as [? _]. }
  assert (Hia : i < a).
  { assert (0 < j / b) by (apply Z.div_str_pos; lia). lia. }
  destruct (pad_contiguous x [a; b'; c]) as (z & Hz & _ & Hs & Hget & _);
    [done|by rewrite Hshape|repeat constructor; lia|].
  pose proof (Z.div_mod j b ltac:(lia)) as Hdm.
  pose proof (Z.mod_pos_bound j b Hb) as Hmod.
  assert (Hvalid : valid_key [i + j / b; j `mod` b; k] (shape x)).
  { rewrite Hshape. assert (0 ≤ j / b) by (apply Z.div_pos; lia).
    repeat constructor; lia. }
  destruct (contiguous_getitem x _ Hx Hvalid) as [Hgx Hbound].
  exists z. eexists. split; [exact Hz|]. split; [|split; [exact Hvalid|split; [exact Hgx|]]].
  - rewrite Hshape. intros Hbad.
    apply Forall2_cons_1 in Hbad as [_ Hbad]. apply Forall2_cons_1 in Hbad as [? _]. lia.
  - rewrite Hget by (repeat constructor; lia). f_equal.
    unfold pad_value. rewrite Hstr, Hshape.
    cbn [contiguous_strides last default from_option id].
    assert (Hdot : ∀ u v w, dot [u; v; w] [Py.prod [b; c]; Py.prod [c]; Py.prod []]
                            = (u * b + v) * c + w)
      by (intros; unfold dot, Py.prod; cbn; lia).
    rewrite Hshape in Hbound. cbn [contiguous_strides] in Hbound.
    rewrite !Hdot in *.
    replace ((i + j / b) * b + j `mod` b) with (i * b + j) in * by lia.
    destruct (Z.ltb_spec k c) as [_|?]; [|lia].
    destruct (Z.ltb_spec ((i * b + j) * c + k) (Z.of_nat (length (data x)))) as [_|?];
      [done|lia].
Qed.

Lemma pad_middle_axis_reads_next_block_witness :
  ∃ z, pad (MiniBuffer_init [1; 2; 3; 4]%float [2; 2; 1] None) [2; 3; 1] = Ok z
     ∧ getitem z [0; 2; 0] = Ok 3%float.
Proof.
  destruct (pad_middle_axis_reads_next_block
              (MiniBuffer_init [1; 2; 3; 4]%float [2; 2; 1] None) 2 2 1 3 0 2 0)
    as (z & v & Hz & _ & _ & Hv & Hzv); try lia.
  - split; [done|repeat constructor; lia|reflexivity|reflexivity].
  - reflexivity.
  - reflexivity.
  - exists z. split; [exact Hz|]. injection Hv as <-. exact Hzv.
Defined.

(** ** Round trip of [pad] and [shrink] *)

Lemma contiguous_ext (a b : MiniBuffer) :
  contiguous a → contiguous b → shape a = shape b →
  (∀ key, valid_key key (shape a) → getitem a key = getitem b key) →
  a = b.
Proof.
  intros Ha Hb Hshape Hget.
  rewrite <- (contiguous_eta a Ha), <- (contiguous_eta b Hb), Hshape. f_equal.
  pose proof (contiguous_length _ Ha) as Hla. pose proof (contiguous_length _ Hb) as Hlb.
  assert (length (data b) = length (data a)) by (rewrite Hshape in Hla; lia).
  apply list_eq_same_length with (length (data a)); [done|done|].
  intros i u v Hi Hu Hv.
  assert (Hin : Z.of_nat i ∈ offsets (shape a) (contiguous_strides (shape a)) 0).
  { rewrite offsets_contiguous by apply Ha. apply elem_of_seqZ. lia. }
  apply elem_of_offsets in Hin as (key & Hkey & Hp). rewrite Z.add_0_l in Hp.
  destruct (contiguous_getitem a key Ha Hkey) as [Hga _].
  destruct (contiguous_getitem b key Hb) as [Hgb _]; [by rewrite <- Hshape|].
  specialize (Hget key Hkey). rewrite Hga, Hgb, <- Hshape, <- Hp in Hget.
  unfold peek in Hget. rewrite Nat2Z.id, Hu, Hv in Hget. by injection Hget.
Qed.

(** Property X16. Padding a row-major buffer to a shape that is no smaller
    on any axis and shrinking the result back to the old shape gives
    exactly the buffer one started from, whatever [pad] has put outside
    the old shape. *)
Theorem shrink_pad_round_trip (x : MiniBuffer) (new_shape : list Z) :
  contiguous x → Forall2 (λ m n, m ≤ n) (shape x) new_shape →
  ∃ z, pad x new_shape = Ok z ∧ shrink z (shape x) = Ok x.
Proof.
  intros Hx Hle. pose proof Hx as [Hrank Hdims Hstr Hlen].
  pose proof (Forall2_length _ _ _ Hle) as Hlen2.
  assert (Hdims' : Forall (λ n, 0 ≤ n) new_shape).
  { clear -Hdims Hle. induction Hle as [|m n l k Hmn Hle IH]; [constructor|].
    apply Forall_cons in Hdims as [Hm Hdims]. constructor; [lia|by apply IH]. }
  destruct (pad_contiguous x new_shape) as (z & Hz & Hzc & Hs & _ & Hkeep);
    [done|done|done|].
  exists z. split; [exact Hz|].
  destruct (shrink_contiguous z (shape x)) as (w & Hw & Hwc & Hws & Hget);
    [done|done|by rewrite Hs|].
  rewrite Hw. f_equal. apply contiguous_ext; try done.
  intros key Hkey. rewrite Hws in Hkey.
  destruct (Hget key Hkey) as (v & Hzv & Hwv).
  rewrite Hwv, <- Hzv. apply Hkeep; [|done].
  by eapply valid_key_le.
Qed.

Lemma shrink_pad_round_trip_witness :
  ∃ z, pad (MiniBuffer_init [1; 2; 3; 4]%float [2; 2] None) [3; 4] = Ok z
     ∧ shrink z [2; 2] = Ok (MiniBuffer_init [1; 2; 3; 4]%float [2; 2] None).
Proof.
  apply (shrink_pad_round_trip (MiniBuffer_init [1; 2; 3; 4]%float [2; 2] None) [3; 4]).
  - split; [done|repeat constructor; lia|reflexivity|reflexivity].
  - repeat constructor; lia.
Defined.

(** ** [tril] *)

Lemma blocks_lookup (blk : Z → list float) (pre tail strides kpre ktail : list Z) :
  valid_key kpre pre → valid_key ktail tail →
  (∀ b, length (blk b) = Z.to_nat (Py.prod tail)) →
  (offsets pre strides 0 ≫= blk)
    !! Z.to_nat (dot (kpre ++ ktail) (contiguous_strides (pre ++ tail)))
  = blk (dot kpre strides) !! Z.to_nat (dot ktail (contiguous_strides tail)).
Proof.
  intros Hkey Hktail Hblk.
  rewrite dot_contiguous_app by (by eapply Forall2_length).
  pose proof (dot_contiguous_bound _ _ Hkey) as Hb.
  pose proof (dot_contiguous_bound _ _ Hktail) as Hbt.
  replace (Z.to_nat (dot kpre (contiguous_strides pre) * Py.prod tail
                     + dot ktail (contiguous_strides tail)))
    with (Z.to_nat (dot kpre (contiguous_strides pre)) * Z.to_nat (Py.prod tail)
          + Z.to_nat (dot ktail (contiguous_strides tail)))%nat by nia.
  rewrite (lookup_bind_blocks _ _ (Z.to_nat (Py.prod tail)) _ _ (dot kpre strides));
    [done|done| |lia].
  rewrite offsets_lookup_key by done. by rewrite Z.add_0_l.
Qed.

Lemma tril_rows (x : MiniBuffer) (depth_idx base diagonal n s0 s1 : Z) (a : Z) (k : nat)
    (out : list float) (c : Z) :
  Py.index (strides x) depth_idx = Ok s0 →
  Py.index (shape x) (depth_idx + 1) = Ok n →
  Py.index (strides x) (depth_idx + 1) = Ok s1 →
  (∀ i j, a ≤ i < a + Z.of_nat k → 0 ≤ j < n → in_range (data x) (base + i * s0 + j * s1)) →
  foldl (λ acc row_idx,
      let* st := acc in
      let out_data := st.1 in
      let tril_cursor := st.2 in
      let* s := Py.index (strides x) depth_idx in
      let row_pos := base + row_idx * s in
      let* cols := Py.index (shape x) (depth_idx + 1) in
      let* out_row := Py.for_append (λ val_idx,
          let* s1 := Py.index (strides x) (depth_idx + 1) in
          let val_pos := row_pos + val_idx * s1 in
          let should_keep_value := val_idx <? tril_cursor in
          if should_keep_value then Py.index (data x) val_pos
          else Ok PrimFloat.zero) (Py.range cols) in
      Ok (out_data ++ out_row, tril_cursor + 1))
    (Ok (out, c)) (seqZ a (Z.of_nat k))
  = Ok (out ++ (seqZ a (Z.of_nat k) ≫= (λ i,
            (λ j, if j <? c + (i - a) then peek (data x) (base + i * s0 + j * s1)
                  else PrimFloat.zero) <$> Py.range n)),
        c + Z.of_nat k).
Proof.
  intros Hs0 Hn Hs1.
  set (row := λ (i c : Z), (λ j, if j <? c then peek (data x) (base + i * s0 + j * s1)
                                 else PrimFloat.zero) <$> Py.range n).
  set (F := λ (acc : result (list float * Z)) (row_idx : Z), _).
  assert (Hstep : ∀ out' c' i,
            (∀ j, 0 ≤ j < n → in_range (data x) (base + i * s0 + j * s1)) →
            F (Ok (out', c')) i = Ok (out' ++ row i c', c' + 1)).
  { intros out' c' i Hin. unfold F. cbn [bind fst snd]. rewrite Hs0, Hn. cbn [bind].
    rewrite (for_append_fmap _ (λ j, if j <? c' then peek (data x) (base + i * s0 + j * s1)
                                      else PrimFloat.zero)); [done|].
    apply Forall_forall. intros j Hj%elem_of_range. rewrite Hs1. cbn [bind].
    destruct (j <? c'); [|done]. apply index_peek. by apply Hin. }
  clearbody F. revert a out c.
  induction k as [|k IH]; intros a out c Hin.
  - cbn. by rewrite app_nil_r, Z.add_0_r.
  - rewrite seqZ_cons by lia. cbn [foldl].
    rewrite Hstep by (intros; apply Hin; lia).
    replace (Z.pred (Z.of_nat (S k))) with (Z.of_nat k) by lia.
    rewrite IH by (intros; apply Hin; lia).
    rewrite bind_cons, app_assoc. f_equal. f_equal; [|lia]. f_equal.
    + f_equal. unfold row. apply list_fmap_ext. intros _ j _.
      by replace (c + (a - a)) with c by lia.
    + apply list_bind_ext; [|done]. intros i. apply list_fmap_ext. intros _ j _.
      by replace (c + 1 + (i - Z.succ a)) with (c + (i - a)) by lia.
Qed.

Lemma tril_block_run (x : MiniBuffer) (depth_idx base diagonal m n s0 s1 : Z) :
  Py.index (shape x) depth_idx = Ok m →
  Py.index (strides x) depth_idx = Ok s0 →
  Py.index (shape x) (depth_idx + 1) = Ok n →
  Py.index (strides x) (depth_idx + 1) = Ok s1 →
  (∀ i j, 0 ≤ i < m → 0 ≤ j < n → in_range (data x) (base + i * s0 + j * s1)) →
  _tril depth_idx base diagonal x = Ok (tril_block (data x) diagonal m n s0 s1 base).
Proof.
  intros Hm Hs0 Hn Hs1 Hin. unfold _tril. rewrite Hm. cbn [bind].
  destruct (Z.le_gt_cases 0 m) as [Hpos|Hneg].
  - change (Py.range m) with (seqZ 0 m).
    replace (seqZ 0 m) with (seqZ 0 (Z.of_nat (Z.to_nat m))) by (by rewrite Z2Nat.id).
    match goal with
    | |- bind ?t _ = _ =>
        replace t with
          (Ok ([] ++ (seqZ 0 (Z.of_nat (Z.to_nat m)) ≫= (λ i,
                   (λ j, if j <? 1 + diagonal + (i - 0)
                         then peek (data x) (base + i * s0 + j * s1)
                         else PrimFloat.zero) <$> Py.range n)),
               1 + diagonal + Z.of_nat (Z.to_nat m)))
    end.
    2:{ symmetry.
        apply (tril_rows x depth_idx base diagonal n s0 s1 0 (Z.to_nat m) []
                 (1 + diagonal) Hs0 Hn Hs1).
        intros i j Hi Hj. apply Hin; lia. }
    cbn [bind fst app]. rewrite Z2Nat.id by done. f_equal. unfold tril_block, Py.range.
    apply list_bind_ext; [|done]. intros i. apply list_fmap_ext. intros _ j _.
    by replace (1 + diagonal + (i - 0)) with (1 + diagonal + i) by lia.
  - unfold tril_block. rewrite (range_nonpos m) by lia. done.
Qed.

Lemma traverse_tril_walk (x : MiniBuffer) (diagonal : Z) (fuel d : nat) (pos : Z) :
  (2 ≤ length (shape x))%nat → (d ≤ length (shape x) - 2)%nat →
  (length (shape x) - 1 - d ≤ fuel)%nat →
  (length (shape x) - 2 ≤ length (strides x))%nat →
  _traverse_dims_and_tril fuel (Z.of_nat d) pos diagonal x
  = Py.for_extend (λ base, _tril (Z.of_nat (length (shape x)) - 2) base diagonal x)
      (offsets (drop d (take (length (shape x) - 2) (shape x))) (drop d (strides x)) pos).
Proof.
  intros Hrank Hd Hfuel Hsx. revert d pos Hd Hfuel.
  induction fuel as [|fuel IH]; intros d pos Hd Hfuel; [lia|].
  cbn [_traverse_dims_and_tril].
  destruct (Z.eqb_spec (Z.of_nat d) (Z.of_nat (length (shape x)) - 2)) as [E|E].
  - rewrite drop_ge by (rewrite length_take; lia). cbn [offsets].
    rewrite for_extend_singleton. by rewrite <- E.
  - destruct (lookup_lt_is_Some_2 (shape x) d ltac:(lia)) as [n Hn].
    destruct (lookup_lt_is_Some_2 (strides x) d ltac:(lia)) as [s Hs].
    rewrite (index_nat _ _ _ Hn). cbn [bind].
    rewrite (offsets_drop_step _ _ d n s); [|apply lookup_take_Some; [done|lia]|done].
    rewrite <- for_extend_for_extend. apply for_extend_ext, Forall_forall. intros i _.
    rewrite (index_nat _ _ _ Hs). cbn [bind].
    replace (Z.of_nat d + 1) with (Z.of_nat (S d)) by lia.
    apply IH; lia.
Qed.

Lemma length_tril_block (d : list float) (diagonal m n s0 s1 base : Z) :
  length (tril_block d diagonal m n s0 s1 base) = (Z.to_nat m * Z.to_nat n)%nat.
Proof.
  unfold tril_block. rewrite (length_bind_const _ _ (Z.to_nat n)).
  - unfold Py.range. by rewrite length_seqZ.
  - intros i. rewrite length_fmap. unfold Py.range. by rewrite length_seqZ.
Qed.

Lemma prod_app (l k : list Z) : Py.prod (l ++ k) = Py.prod l * Py.prod k.
Proof.
  induction l as [|a l IH]; [unfold Py.prod; cbn; lia|].
  cbn [app]. rewrite !prod_cons, IH. lia.
Qed.

Lemma tril_contiguous (x : MiniBuffer) (diagonal : Z) (pre : list Z) (m n : Z) :
  contiguous x → shape x = pre ++ [m; n] →
  ∃ z, tril x diagonal = Ok z ∧ contiguous z ∧ shape z = shape x
     ∧ ∀ kpre i j, valid_key (kpre ++ [i; j]) (shape x) →
         ∃ a, getitem x (kpre ++ [i; j]) = Ok a
            ∧ getitem z (kpre ++ [i; j])
              = Ok (if j <? 1 + diagonal + i then a else PrimFloat.zero).
Proof.
  intros Hx Hshape. pose proof Hx as [Hrank Hdims Hstr Hlen].
  assert (HL : length (shape x) = (length pre + 2)%nat).
  { rewrite Hshape, length_app. reflexivity. }
  rewrite Hshape in Hdims. apply Forall_app in Hdims as [Hdims_pre Hmn].
  apply Forall_cons in Hmn as [Hm Hn]. apply Forall_cons in Hn as [Hn _].
  assert (Hcs : contiguous_strides (shape x)
                = ((λ s, s * (m * n)) <$> contiguous_strides pre) ++ [n; 1]).
  { rewrite Hshape, contiguous_strides_app. f_equal.
    - apply list_fmap_ext. intros _ s _. unfold Py.prod. cbn. lia.
    - unfold Py.prod. cbn. do 2 f_equal. lia. }
  assert (Hs0 : strides x !! length pre = Some n).
  { rewrite Hstr, Hcs, lookup_app_r by (rewrite length_fmap, length_contiguous_strides; lia).
    by rewrite length_fmap, length_contiguous_strides, Nat.sub_diag. }
  assert (Hs1 : strides x !! S (length pre) = Some 1).
  { rewrite Hstr, Hcs, lookup_app_r by (rewrite length_fmap, length_contiguous_strides; lia).
    rewrite length_fmap, length_contiguous_strides.
    by replace (S (length pre) - length pre)%nat with 1%nat by lia. }
  assert (Hprod : Py.prod (shape x) = Py.prod pre * (m * n)).
  { rewrite Hshape, prod_app. unfold Py.prod at 2. cbn. lia. }
  assert (Hdotx : ∀ kpre i j, length kpre = length pre →
            dot (kpre ++ [i; j]) (strides x) = dot kpre (strides x) + i * n + j * 1).
  { intros kpre i j Hkl. rewrite Hstr, Hcs.
    rewrite dot_app by (rewrite length_fmap, length_contiguous_strides; lia).
    rewrite (dot_strides_app kpre) by (rewrite length_fmap, length_contiguous_strides; lia).
    unfold dot at 2. cbn. lia. }
  set (blk := λ base, tril_block (data x) diagonal m n n 1 base).
  assert (Htril : tril x diagonal
                  = Ok (MiniBuffer_init (offsets pre (strides x) 0 ≫= blk) (shape x) None)).
  { unfold tril. change 0 with (Z.of_nat 0) at 1.
    rewrite traverse_tril_walk;
      [|lia|lia|unfold stack_depth; lia|rewrite Hstr, length_contiguous_strides; lia].
    rewrite !drop_0. replace (length (shape x) - 2)%nat with (length pre) by lia.
    rewrite Hshape at 1. rewrite take_app_length.
    rewrite (for_extend_fmap _ blk); [done|].
    apply Forall_forall. intros base Hb.
    apply elem_of_offsets in Hb as (kpre & Hkpre & ->). rewrite Z.add_0_l.
    replace (Z.of_nat (length (shape x)) - 2) with (Z.of_nat (length pre)) by lia.
    apply tril_block_run.
    - apply index_nat. rewrite Hshape. by rewrite list_lookup_middle.
    - by apply index_nat.
    - replace (Z.of_nat (length pre) + 1) with (Z.of_nat (S (length pre))) by lia.
      apply index_nat. rewrite Hshape, lookup_app_r by lia.
      by replace (S (length pre) - length pre)%nat with 1%nat by lia.
    - replace (Z.of_nat (length pre) + 1) with (Z.of_nat (S (length pre))) by lia.
      by apply index_nat.
    - intros i j Hi Hj. unfold in_range.
      rewrite <- Hdotx by (by eapply Forall2_length).
      rewrite Hlen, Hstr. apply dot_contiguous_bound. rewrite Hshape.
      apply Forall2_app; [done|]. repeat constructor; lia. }
  assert (Hz : contiguous (MiniBuffer_init (offsets pre (strides x) 0 ≫= blk) (shape x) None)).
  { apply init_contiguous; [done|apply Hx|].
    rewrite (length_bind_const _ _ (Z.to_nat m * Z.to_nat n)%nat)
      by (intros; apply length_tril_block).
    rewrite length_offsets, Hprod. pose proof (size_prod _ Hdims_pre). nia. }
  eexists. split; [exact Htril|]. split; [exact Hz|]. split; [reflexivity|].
  intros kpre i j Hkey.
  destruct (contiguous_getitem x _ Hx Hkey) as [Hgx _].
  eexists. split; [exact Hgx|].
  destruct (contiguous_getitem _ _ Hz Hkey) as [Hgz _]. rewrite Hgz. f_equal.
  cbn [MiniBuffer_init data shape].
  rewrite Hshape in Hkey |- *.
  pose proof (Forall2_length _ _ _ Hkey) as Hkl. rewrite !length_app in Hkl. simpl in Hkl.
  apply valid_key_app in Hkey as [Hkpre Hij]; [|lia].
  apply Forall2_cons_1 in Hij as [Hi Hij]. apply Forall2_cons_1 in Hij as [Hj _].
  unfold peek at 1.
  rewrite (blocks_lookup blk pre [m; n] (strides x) kpre [i; j]); try done.
  2:{ repeat constructor; lia. }
  2:{ intros b. unfold blk. rewrite length_tril_block. unfold Py.prod. cbn. nia. }
  assert (Hij : dot [i; j] (contiguous_strides [m; n]) = i * n + j)
    by (unfold dot, Py.prod; cbn; lia).
  rewrite Hij. unfold blk, tril_block.
  replace (Z.to_nat (i * n + j)) with (Z.to_nat i * Z.to_nat n + Z.to_nat j)%nat by nia.
  rewrite (lookup_bind_blocks _ _ (Z.to_nat n) _ _ i).
  - rewrite list_lookup_fmap. unfold Py.range. rewrite lookup_seqZ_lt by lia.
    cbn [fmap option_fmap option_map default from_option id].
    replace (0 + Z.of_nat (Z.to_nat j)) with j by lia.
    destruct (j <? 1 + diagonal + i); [|done]. f_equal.
    rewrite <- Hshape, <- Hstr, Hdotx by (by eapply Forall2_length). lia.
  - intros a. rewrite length_fmap. unfold Py.range. by rewrite length_seqZ.
  - unfold Py.range. rewrite lookup_seqZ. split; [f_equal; lia|lia].
  - lia.
Qed.

(** Property X17. On a row-major buffer of at least two axes [tril]
    succeeds and treats every block of the last two axes as a matrix: the
    result is row-major of the same shape and keeps the element at row [i]
    and column [j] where [j] is at most [i + diagonal]; everywhere else it
    holds zero. *)
Theorem tril_elements (x : MiniBuffer) (diagonal : Z) (pre : list Z) (m n : Z) :
  contiguous x → shape x = pre ++ [m; n] →
  ∃ z, tril x diagonal = Ok z ∧ contiguous z ∧ shape z = shape x
     ∧ ∀ kpre i j, valid_key (kpre ++ [i; j]) (shape x) →
         ∃ a, getitem x (kpre ++ [i; j]) = Ok a
            ∧ getitem z (kpre ++ [i; j])
              = Ok (if j <=? i + diagonal then a else PrimFloat.zero).
Proof.
  intros Hx Hshape.
  destruct (tril_contiguous x diagonal pre m n Hx Hshape) as (z & Hz & Hc & Hs & Hget).
  exists z. repeat (split; [done|]).
  intros kpre i j Hkey. destruct (Hget kpre i j Hkey) as (a & Ha & Hza).
  exists a. split; [done|]. rewrite Hza. do 2 f_equal.
  destruct (Z.ltb_spec j (1 + diagonal + i)), (Z.leb_spec j (i + diagonal)); done || lia.
Qed.

Lemma tril_elements_witness :
  ∃ z, tril (MiniBuffer_init [1; 2; 3; 4; 5; 6; 7; 8; 9]%float [3; 3] None) 0 = Ok z
     ∧ data z = [1; 0; 0; 4; 5; 0; 7; 8; 9]%float
     ∧ getitem z [1; 2] = Ok 0%float.
Proof.
  destruct (tril_elements (MiniBuffer_init [1; 2; 3; 4; 5; 6; 7; 8; 9]%float [3; 3] None)
              0 [] 3 3) as (z & Hz & _ & _ & Hget).
  - split; [done|repeat constructor; lia|reflexivity|reflexivity].
  - reflexivity.
  - exists z. split; [exact Hz|]. split.
    + by injection Hz as <-.
    + destruct (Hget [] 1 2) as (a & Ha & Hza); [repeat constructor; lia|]. exact Hza.
Defined.

(** Property X18. [tril] of a buffer of one axis that is not empty raises
    [IndexError]: the walk looks for the last but one axis, which is never
    reached, and goes on to an axis that the buffer does not have. *)
Theorem tril_one_axis_raises (x : MiniBuffer) (diagonal n : Z) :
  shape x = [n] → 0 < n → strides x ≠ [] →
  tril x diagonal = Raise IndexError.
Proof.
  intros Hshape Hn Hstr. unfold tril, stack_depth. rewrite Hshape.
  cbn [length _traverse_dims_and_tril]. rewrite Hshape. cbn [length].
  destruct (Z.eqb_spec 0 (Z.of_nat 1 - 2)) as [?|_]; [lia|].
  rewrite (index_lookup [n] 0 n) by done. cbn [bind].
  destruct (range_pos n Hn) as [l ->]. cbn [Py.for_extend].
  destruct (strides x) as [|s st] eqn:Hst; [done|].
  rewrite (index_lookup (s :: st) 0 s) by done. cbn [bind].
  destruct (Z.eqb_spec (0 + 1) (Z.of_nat 1 - 2)) as [?|_]; [lia|].
  rewrite (index_out_of_range [n]) by (simpl; lia). reflexivity.
Qed.

Lemma tril_one_axis_raises_witness :
  tril (MiniBuffer_init [1; 2; 3]%float [3] None) 0 = Raise IndexError.
Proof.
  apply (tril_one_axis_raises (MiniBuffer_init [1; 2; 3]%float [3] None) 0 3);
    [reflexivity|lia|done].
Defined.

Lemma toposort_adds_refl (h : Heap) (node : addr) (V : gset addr) (N : list addr) :
  toposort_adds h node V N V [].
Proof.
  split; [done|]. split; [by intros v Hv%elem_of_nil|].
  split; [done|]. split; [constructor|]. by intros i n p Hi.
Qed.

Lemma toposort_adds_step (h : Heap) (node p : addr) (V0 Vi V' : gset addr)
    (N newi new' : list addr) :
  parent_of h p node →
  toposort_adds h node V0 N Vi newi → toposort_adds h p Vi (N ++ newi) V' new' →
  toposort_adds h node V0 N V' (newi ++ new').
Proof.
  intros Hp (HV & Hin & Hcomp & Hnd & Hord) (HV' & Hin' & Hcomp' & Hnd' & Hord').
  split; [set_solver + HV HV'|]. split; [|split; [|split]].
  - intros v [Hv|Hv]%elem_of_app.
    + destruct (Hin v Hv) as (Hv1&Hv2&?&?). split; [set_solver + Hv1 HV'|done].
    + destruct (Hin' v Hv) as (Hv1&Hv2&?&?). repeat split; [done|set_solver + Hv2 HV|done|].
      eapply rtc_l; [exact Hp|done].
  - intros v Hv HvV Hrec. apply elem_of_app.
    destruct (decide (v ∈ Vi)); [left; by apply Hcomp|right; by apply Hcomp'].
  - apply NoDup_app. split; [done|]. split; [|done]. intros v Hv Hv'.
    destruct (Hin v Hv) as [? _]. by destruct (Hin' v Hv') as (_ & ? & _).
  - intros i n q Hi Hq Hrec. destruct (decide (i < length newi)%nat).
    + rewrite lookup_app_l in Hi by done. rewrite take_app_le by lia. by eapply Hord.
    + rewrite lookup_app_r in Hi by lia. rewrite take_app_ge by lia.
      rewrite app_assoc. by eapply Hord'.
Qed.

Lemma _toposort_adds (h : Heap) (fuel : nat) (node : addr) (V V' : gset addr)
    (N N' : list addr) :
  inputs_older h →
  _toposort fuel h node (V, N) = Ok (V', N') →
  node ∉ V →
  (∀ v, v ∈ V → recorded h v → v ∈ N ∨ (node < v)%nat) →
  ∃ new, N' = N ++ new ∧ node ∈ V' ∧ toposort_adds h node V N V' new
         ∧ (recorded h node → ∃ l, new = l ++ [node]).
Proof.
  intros Hdag. revert node V V' N N'.
  induction fuel as [|fuel IH]; intros node V V' N N' H HnV Hpre; [done|].
  cbn [_toposort fst snd] in H.
  destruct (h !! node) as [t|] eqn:Ht; [|done].
  destruct (getattr_ctx t) as [ctx|] eqn:Hctx.
  - destruct (Hdag _ _ _ Ht Hctx) as (ps & Hps & Hlt).
    unfold Function_parents in H. rewrite Hps in H. cbn [bind] in H.
    apply bind_Ok in H as (st1 & Hfold & H). injection H as <- <-.
    assert (Hrec : recorded h node) by (by exists t, ctx).
    assert (Hloop : ∀ ps' Vi newi st',
      (∀ p, p ∈ ps' → p ∈ ps) →
      toposort_adds h node ({[node]} ∪ V) N Vi newi →
      foldl (λ acc parent,
          bind acc (λ st, if bool_decide (parent ∈ st.1) then Ok st
                          else _toposort fuel h parent st))
        (Ok (Vi, N ++ newi)) ps' = Ok st' →
      ∃ new', st'.2 = N ++ new' ∧ toposort_adds h node ({[node]} ∪ V) N st'.1 new'
              ∧ Vi ⊆ st'.1 ∧ ∀ p, p ∈ ps' → p ∈ st'.1).
    { induction ps' as [|p ps' IHps]; intros Vi newi st' Hsub HL Hf.
      - cbn [foldl] in Hf. injection Hf as <-. exists newi.
        split; [done|]. split; [done|]. split; [done|]. by intros p Hp%elem_of_nil.
      - cbn [foldl bind fst] in Hf.
        assert (Hpp : parent_of h p node).
        { exists t, ctx, ps. repeat split; try done. apply Hsub. by left. }
        assert (Hsub' : ∀ q, q ∈ ps' → q ∈ ps) by (intros q Hq; apply Hsub; by right).
        case_bool_decide as HpV.
        + destruct (IHps _ _ _ Hsub' HL Hf) as (new' & ? & ? & HVi & Hall).
          exists new'. split; [done|]. split; [done|]. split; [done|].
          intros q [->|Hq]%elem_of_cons; [set_solver|by apply Hall].
        + destruct (_toposort fuel h p (Vi, N ++ newi)) as [[V1 N1]|e] eqn:Hcall;
            [|by rewrite foldl_bind_Raise in Hf].
          destruct (IH _ _ _ _ _ Hcall HpV) as (new1 & -> & HpV1 & Hadd & _).
          { intros v Hv Hvrec. destruct HL as (HV0 & HinL & HcompL & _).
            destruct (decide (v ∈ {[node]} ∪ V)) as [Hv0|Hv0].
            - apply elem_of_union in Hv0 as [Hv0|Hv0].
              + apply elem_of_singleton in Hv0 as ->. right. apply Hlt, Hsub. by left.
              + destruct (Hpre v Hv0 Hvrec) as [?|?].
                * left. apply elem_of_app. by left.
                * right. assert (p < node)%nat by (apply Hlt, Hsub; by left). lia.
            - left. apply elem_of_app. right. by apply HcompL. }
          pose proof (toposort_adds_step _ _ _ _ _ _ _ _ _ Hpp HL Hadd) as HL'.
          rewrite <- app_assoc in Hf.
          destruct (IHps _ _ _ Hsub' HL' Hf) as (new' & ? & ? & HVi & Hall).
          exists new'. destruct Hadd as (HV1 & _).
          split; [done|]. split; [done|]. split.
          * set_solver.
          * intros q [->|Hq]%elem_of_cons; [set_solver|by apply Hall]. }
    destruct st1 as [V1 N1]. rewrite <- (app_nil_r N) in Hfold.
    destruct (Hloop ps _ [] (V1, N1) (ltac:(done)) (toposort_adds_refl _ _ _ _) Hfold)
      as (new1 & HN1 & HL & HV1 & Hall).
    cbn [fst snd] in *. subst N1. exists (new1 ++ [node]).
    destruct HL as (HV0 & Hin & Hcomp & Hnd & Hord).
    split; [by rewrite app_assoc|]. split; [set_solver + HV0|].
    split; [|by intros _; exists new1].
    split; [set_solver + HV0|]. split; [|split; [|split]].
    + intros v [Hv|Hv]%elem_of_app.
      * destruct (Hin v Hv) as (Hv1&Hv2&?&?). split; [done|]. split; [set_solver + Hv2|done].
      * apply list_elem_of_singleton in Hv as ->. repeat split; [set_solver + HV0|done|done|].
        apply rtc_refl.
    + intros v Hv HvV Hvrec. apply elem_of_app.
      destruct (decide (v = node)) as [->|Hne]; [right; by apply list_elem_of_singleton|].
      left. apply Hcomp; [done| |done]. intros [?%elem_of_singleton|?]%elem_of_union; done.
    + apply NoDup_app. split; [done|]. split; [|apply NoDup_singleton].
      intros v Hv Hv'. apply list_elem_of_singleton in Hv' as ->.
      destruct (Hin node Hv) as (_ & Hv2 & _). set_solver + Hv2.
    + intros i n q Hi Hq Hqrec. destruct (decide (i < length new1)%nat).
      * rewrite lookup_app_l in Hi by done. rewrite take_app_le by lia. by eapply Hord.
      * rewrite lookup_app_r in Hi by lia.
        destruct (i - length new1)%nat as [|k] eqn:Hk; [|done].
        injection Hi as <-. rewrite take_app_ge by lia. rewrite Hk. cbn [take].
        rewrite app_nil_r.
        destruct Hq as (t' & ctx' & ps' & Ht' & Hctx' & Hps' & Hq).
        rewrite Ht in Ht'. injection Ht' as <-. rewrite Hctx in Hctx'.
        injection Hctx' as <-. rewrite Hps in Hps'. injection Hps' as <-.
        assert (q < node)%nat by by apply Hlt.
        destruct (decide (q ∈ V)) as [HqV|HqV].
        -- destruct (Hpre q HqV Hqrec); [|lia]. apply elem_of_app. by left.
        -- apply elem_of_app. right. apply Hcomp; [by apply Hall| |done].
           intros [->%elem_of_singleton|?]%elem_of_union; [lia|done].
  - injection H as <- <-. exists []. split; [by rewrite app_nil_r|].
    split; [set_solver|]. split.
    + split; [set_solver|]. split; [by intros v Hv%elem_of_nil|].
      split; [|split; [constructor|by intros i n p Hi]].
      intros v Hv HvV (t' & ctx' & Ht' & Hctx').
      assert (v = node) as -> by (apply elem_of_union in Hv as [?%elem_of_singleton|?]; done). congruence.
    + intros (t' & ctx' & Ht' & Hctx'). congruence.
Qed.

Lemma ancestor_recorded (h : Heap) (n v : addr) :
  ancestor h n v → recorded h v → recorded h n.
Proof.
  intros Hanc Hv. destruct Hanc as [|n y v (t & ctx & ps & Ht & Hctx & _) _]; [done|].
  by exists t, ctx.
Qed.

(** Property X19. On a graph built by [Function.apply], where the inputs of
    an operation are older than its result, [toposort] leaves the heap as
    it is and returns a topological order of the recorded part of the
    graph: no tensor twice, exactly the tensors that carry an operation
    record and are reached from the root along recorded inputs, every
    recorded input before the tensor computed from it, and the root last. *)
Theorem toposort_order (env : Env) (h h' : Heap) (root : addr) (graph : list addr) :
  inputs_older h →
  Tensor_toposort env root h = Ok (graph, h') →
  h' = h ∧ NoDup graph
  ∧ (∀ v, v ∈ graph ↔ recorded h v ∧ ancestor h root v)
  ∧ (∀ i n p, graph !! i = Some n → parent_of h p n → recorded h p →
       p ∈ take i graph)
  ∧ (recorded h root → last graph = Some root).
Proof.
  intros Hdag H. unfold Tensor_toposort in H.
  apply bind_Ok in H as ([V' N'] & Hcall & H). injection H as <- <-.
  destruct (_toposort_adds _ _ _ _ _ _ _ Hdag Hcall) as (new & -> & HV' & Hadd & Hlast);
    [set_solver|set_solver|].
  cbn [snd app]. destruct Hadd as (_ & Hin & _ & Hnd & Hord). cbn [app] in Hord.
  assert (Hroot : recorded h root → last new = Some root).
  { intros Hrec. destruct (Hlast Hrec) as [l ->]. apply last_snoc. }
  split; [done|]. split; [done|]. split; [|by split].
  intros v. split.
  - intros Hv. by destruct (Hin v Hv) as (_ & _ & ? & ?).
  - intros [Hv Hanc].
    assert (Hr : root ∈ new).
    { destruct (Hlast (ancestor_recorded _ _ _ Hanc Hv)) as [l ->].
      apply elem_of_app. right. by apply list_elem_of_singleton. }
    clear Hroot Hlast HV' Hcall Hin. revert Hr. unfold ancestor in Hanc.
    induction Hanc as [n|n y v Hy Hanc IH]; [tauto|]. intros Hn.
    apply IH; [done|]. apply list_elem_of_lookup in Hn as [i Hi].
    eapply (subseteq_take i), Hord; [done..|].
    by eapply ancestor_recorded.
Qed.

Lemma example_diamond_inputs_older : inputs_older example_diamond.
Proof.
  intros n t ctx Hn Hctx.
  destruct n as [|[|[|[|n]]]]; cbn in Hn; [| | | |done]; injection Hn as <-;
    cbn in Hctx; [done|injection Hctx as <-; eexists; split; [reflexivity|]..].
  - intros p ->%list_elem_of_singleton. lia.
  - intros p ->%list_elem_of_singleton. lia.
  - intros p [-> | ->%list_elem_of_singleton]%elem_of_cons; lia.
Qed.

Lemma toposort_order_witness :
  Tensor_toposort example_env 3%nat example_diamond
  = Ok ([1; 2; 3]%nat, example_diamond)
  ∧ (∀ v, v ∈ [1; 2; 3]%nat ↔ recorded example_diamond v ∧ ancestor example_diamond 3%nat v).
Proof.
  assert (Hrun : Tensor_toposort example_env 3%nat example_diamond
                 = Ok ([1; 2; 3]%nat, example_diamond)) by (by vm_compute).
  split; [exact Hrun|].
  by destruct (toposort_order _ _ _ _ _ example_diamond_inputs_older Hrun)
    as (_ & _ & H & _).
Defined.

Lemma unvisited_mono (h : Heap) (V V' : gset addr) :
  V ⊆ V' → (unvisited h V' ≤ unvisited h V)%nat.
Proof. intros HV. unfold unvisited. apply subseteq_size.
  intros a [Ha Hn]%elem_of_difference. apply elem_of_difference.
  split; [done|]. intros ?. apply Hn. by apply HV. Qed.

Lemma unvisited_visit (h : Heap) (V : gset addr) (node : addr) :
  (node < length h)%nat → node ∉ V →
  (unvisited h ({[node]} ∪ V) < unvisited h V)%nat.
Proof.
  intros Hn HV. unfold unvisited. apply subset_size.
  assert (node ∈ (list_to_set (seq 0 (length h)) : gset addr)).
  { apply elem_of_list_to_set, elem_of_seq. lia. }
  split.
  - intros a [Ha Hna]%elem_of_difference. apply elem_of_difference.
    split; [done|]. intros ?. apply Hna, elem_of_union. by right.
  - intros Hsub.
    assert (node ∈ (list_to_set (seq 0 (length h)) : gset addr) ∖ ({[node]} ∪ V)) as Hc.
    { apply Hsub, elem_of_difference. done. }
    apply elem_of_difference in Hc as [_ Hc]. apply Hc, elem_of_union. left.
    by apply elem_of_singleton.
Qed.

(** On a heap whose records name tensors of the heap, a call of
    [_toposort] on a tensor that is not visited yet succeeds as soon as
    there is a frame for every tensor that is not visited yet, whether the
    graph has cycles or not. *)
Lemma _toposort_depth (h : Heap) (fuel : nat) (node : addr) (V : gset addr)
    (N : list addr) :
  inputs_in_heap h → (node < length h)%nat → node ∉ V →
  (unvisited h V ≤ fuel)%nat →
  ∃ st', _toposort fuel h node (V, N) = Ok st' ∧ {[node]} ∪ V ⊆ st'.1.
Proof.
  intros Hin. revert node V N.
  induction fuel as [|fuel IH]; intros node V N Hnode HnV Hfuel.
  { pose proof (unvisited_visit h V node Hnode HnV). lia. }
  cbn [_toposort fst snd].
  destruct (lookup_lt_is_Some_2 h node Hnode) as [t Ht]. rewrite Ht.
  destruct (getattr_ctx t) as [ctx|] eqn:Hctx; [|by eexists].
  destruct (Hin _ _ _ Ht Hctx) as (ps & Hps & Hall).
  unfold Function_parents. rewrite Hps. cbn [bind].
  assert (Hloop : ∀ ps' Vi Ni,
    (∀ p, p ∈ ps' → p ∈ ps) → {[node]} ∪ V ⊆ Vi →
    ∃ st', foldl (λ acc parent,
            bind acc (λ st, if bool_decide (parent ∈ st.1) then Ok st
                            else _toposort fuel h parent st))
          (Ok (Vi, Ni)) ps' = Ok st' ∧ Vi ⊆ st'.1).
  { induction ps' as [|p ps' IHps]; intros Vi Ni Hsub HVi; [by eexists|].
    cbn [foldl bind fst].
    assert (Hsub' : ∀ q, q ∈ ps' → q ∈ ps) by (intros q Hq; apply Hsub; by right).
    case_bool_decide as HpV; [by apply IHps|].
    destruct (IH p Vi Ni) as ([V1 N1] & Hcall & HV1).
    { apply Hall, Hsub. by left. }
    { done. }
    { pose proof (unvisited_mono h _ _ HVi).
      pose proof (unvisited_visit h V node Hnode HnV). lia. }
    rewrite Hcall. cbn [fst] in HV1.
    assert (HViV1 : Vi ⊆ V1) by (etransitivity; [apply union_subseteq_r|exact HV1]).
    destruct (IHps V1 N1 Hsub') as (st' & Hrun & Hst'); [by etransitivity|].
    exists st'. split; [done|]. by etransitivity. }
  destruct (Hloop ps ({[node]} ∪ V) N (λ p Hp, Hp) (reflexivity _)) as (st' & Hrun & Hst').
  rewrite Hrun. cbn [bind]. by eexists.
Qed.

Lemma chain_leaf (s : Storage) (f : Storage → result BackwardRet) (n : nat) :
  chain s f n !! 0%nat = Some (mkTensor s true DFloat None CtxNone).
Proof. reflexivity. Qed.

Lemma chain_node (s : Storage) (f : Storage → result BackwardRet) (n i : nat) :
  (i < n)%nat →
  chain s f n !! S i
  = Some (mkTensor s true DFloat None (CtxSome (mkFunction [true] true (Some [i]) f))).
Proof.
  intros Hi. unfold chain. rewrite lookup_cons.
  by rewrite list_lookup_fmap, lookup_seq_lt.
Qed.

(** The walk along a chain takes one frame per tensor. *)
Lemma chain_toposort (s : Storage) (f : Storage → result BackwardRet) (n fuel : nat) :
  ∀ (k : nat) (V : gset addr) (N : list addr),
  (k ≤ n)%nat → (∀ i, (i ≤ k)%nat → i ∉ V) →
  ((k < fuel)%nat → ∃ V', _toposort fuel (chain s f n) k (V, N) = Ok (V', N ++ seq 1 k))
  ∧ ((fuel ≤ k)%nat → _toposort fuel (chain s f n) k (V, N) = Raise RecursionError).
Proof.
  induction fuel as [|fuel IH]; intros k V N Hk HV.
  { split; [lia|done]. }
  cbn [_toposort fst snd]. destruct k as [|k].
  - rewrite chain_leaf. cbn [getattr_ctx _ctx]. split; [|lia].
    intros _. eexists. by rewrite app_nil_r.
  - rewrite chain_node by lia. cbn [getattr_ctx _ctx Function_parents parents bind foldl fst].
    rewrite bool_decide_eq_false_2.
    2:{ intros [Hk'%elem_of_singleton|Hk']%elem_of_union; [lia|].
        by apply (HV k); [lia|]. }
    destruct (IH k ({[S k]} ∪ V) N) as [Hok Hraise]; [lia| |].
    { intros i Hi [Hi'%elem_of_singleton|Hi']%elem_of_union; [lia|].
      by apply (HV i); [lia|]. }
    split.
    + intros Hlt. destruct Hok as [V' ->]; [lia|]. cbn [bind fst snd].
      exists V'. rewrite seq_S, app_assoc. done.
    + intros Hge. rewrite Hraise by lia. done.
Qed.

(** Property X20. The recursion of [toposort] takes one frame of the
    interpreter per tensor on the path it follows, and a tensor is marked
    as visited before its inputs are walked. So on a heap whose records
    name inputs that exist, cycles included, it returns an order as soon
    as the interpreter has a frame for every tensor; and on a chain of [n]
    operations over a leaf it returns the [n] results in the order of
    their computation when [n] further frames can be nested in the first
    call, and raises [RecursionError] when they cannot. *)
Theorem toposort_recursion_depth (env : Env) :
  (∀ (h : Heap) (root : addr),
     inputs_in_heap h → (root < length h)%nat →
     (length h ≤ S (spare_frames env))%nat →
     ∃ graph, Tensor_toposort env root h = Ok (graph, h))
  ∧ (∀ (s : Storage) (f : Storage → result BackwardRet) (n : nat),
     ((n ≤ spare_frames env)%nat →
      Tensor_toposort env n (chain s f n) = Ok (seq 1 n, chain s f n))
     ∧ ((spare_frames env < n)%nat →
        Tensor_toposort env n (chain s f n) = Raise RecursionError)).
Proof.
  split.
  - intros h root Hin Hroot Hlen. unfold Tensor_toposort.
    destruct (_toposort_depth h (S (spare_frames env)) root ∅ [] Hin Hroot)
      as (st' & -> & _); [apply not_elem_of_empty| |by eexists].
    unfold unvisited. rewrite difference_empty_L.
    rewrite size_list_to_set by apply NoDup_seq. by rewrite length_seq.
  - intros s f n. unfold Tensor_toposort.
    destruct (chain_toposort s f n (S (spare_frames env)) n ∅ []) as [Hok Hraise];
      [lia|intros i _; apply not_elem_of_empty|].
    split.
    + intros Hn. destruct Hok as [V' ->]; [lia|]. reflexivity.
    + intros Hn. rewrite Hraise by lia. reflexivity.
Qed.

Lemma toposort_recursion_depth_witness :
  (∃ graph, Tensor_toposort example_env 0%nat example_cycle = Ok (graph, example_cycle))
  ∧ Tensor_toposort example_env 1200%nat
      (chain (Storage_of_float 1%float DFloat) (λ g, Ok (One (Some g))) 1200)
    = Raise RecursionError.
Proof.
  destruct (toposort_recursion_depth example_env) as [Hheap Hchain]. split.
  - apply Hheap.
    + intros n t ctx Hn Hctx. destruct n as [|n]; [|done]. injection Hn as <-.
      injection Hctx as <-. eexists. split; [reflexivity|].
      intros p ->%list_elem_of_singleton. cbn. lia.
    + cbn. lia.
    + cbn. lia.
  - apply Hchain. cbn [spare_frames example_env]. lia.
Defined.

(** ** What [backward] leaves alone *)

Lemma quiet_refl (h : Heap) : quiet h h.
Proof. split; [done|]. intros a t Ht. by exists t. Qed.

Lemma quiet_trans (h1 h2 h3 : Heap) : quiet h1 h2 → quiet h2 h3 → quiet h1 h3.
Proof.
  intros [Hl1 H1] [Hl2 H2]. split; [lia|].
  intros a t Ht. destruct (H1 a t Ht) as (t' & Ht' & Hd & Hr & Hg).
  destruct (H2 a t' Ht') as (t'' & Ht'' & Hd' & Hr' & Hg').
  exists t''. split; [done|]. split; [congruence|]. split; [congruence|].
  intros Hf. rewrite Hg' by congruence. by apply Hg.
Qed.

Lemma quiet_prefix (h h' : Heap) : h `prefix_of` h' → quiet h h'.
Proof.
  intros [l ->]. split; [rewrite length_app; lia|].
  intros a t Ht. exists t. split; [|done]. by apply lookup_app_l_Some.
Qed.

Lemma quiet_insert (h : Heap) (a : addr) (t t' : Tensor) :
  h !! a = Some t → tensor_dtype t' = tensor_dtype t →
  requires_grad t' = requires_grad t →
  (requires_grad t = false → grad t' = grad t) → quiet h (<[a := t']> h).
Proof.
  intros Ht Hd Hr Hg. split; [by rewrite length_insert|].
  intros b tb Hb. destruct (decide (b = a)) as [->|Hne].
  - rewrite list_lookup_insert_eq by (by eapply lookup_lt_Some).
    exists t'. assert (tb = t) as -> by congruence. done.
  - rewrite list_lookup_insert_ne by done. by exists tb.
Qed.

Lemma Function_apply_prefix (op : OpClass) (inputs : list addr) (h h' : Heap) (r : addr) :
  Function_apply op inputs h = Ok (r, h') → h `prefix_of` h'.
Proof.
  intros H. apply Function_apply_Ok in H as (ts & out & c & _ & _ & _ & _ & ->).
  by eexists.
Qed.

Lemma foldl_bindM_prefix {A : Type} (body : addr → A → M addr) (l : list A)
    (acc : M addr) :
  (∀ x i h r h', body x i h = Ok (r, h') → h `prefix_of` h') →
  (∀ h r h', acc h = Ok (r, h') → h `prefix_of` h') →
  ∀ h r h', foldl (λ acc i, bindM acc (λ x, body x i)) acc l h = Ok (r, h') →
            h `prefix_of` h'.
Proof.
  intros Hbody. revert acc. induction l as [|i l IH]; intros acc Hacc h r h' H.
  - by eapply Hacc.
  - cbn [foldl] in H. eapply IH; [|exact H].
    intros h1 r1 h1' H1. apply bindM_Ok in H1 as (x & h2 & Hx & H1).
    etransitivity; [by eapply Hacc|by eapply Hbody].
Qed.

Section Growth.

Context (env : Env).

Lemma Tensor_reshape_prefix (self : addr) (new_shape : list Z) (h h' : Heap) (r : addr) :
  Tensor_reshape env self new_shape h = Ok (r, h') → h `prefix_of` h'.
Proof.
  unfold Tensor_reshape, Tensor_shape. intros H.
  apply bindM_Ok in H as (? & ? & H1 & H). apply lift_Ok in H1 as [_ ->].
  apply bindM_Ok in H as (? & ? & H1 & H).
  apply bindM_Ok in H1 as (? & ? & H1 & H2). apply load_Ok in H1 as [_ ->].
  apply ret_Ok in H2 as [-> ->].
  apply bindM_Ok in H as (? & ? & H1 & H). apply lift_Ok in H1 as [_ ->].
  by eapply Function_apply_prefix.
Qed.

Lemma Tensor_pad_shapes_prefix (d : Z) (x : addr) (h h' : Heap) (r : addr) :
  Tensor_pad_shapes env d x h = Ok (r, h') → h `prefix_of` h'.
Proof.
  unfold Tensor_pad_shapes, Tensor_shape. intros H.
  apply bindM_Ok in H as (? & ? & H1 & H).
  apply bindM_Ok in H1 as (? & ? & H1 & H2). apply load_Ok in H1 as [_ ->].
  apply ret_Ok in H2 as [-> ->].
  by eapply Function_apply_prefix.
Qed.

Lemma Tensor_expand_prefix (self : addr) (new_shape : list Z) (h h' : Heap) (r : addr) :
  Tensor_expand env self new_shape h = Ok (r, h') → h `prefix_of` h'.
Proof.
  unfold Tensor_expand, Tensor_shape. intros H.
  apply bindM_Ok in H as (? & ? & H1 & H).
  apply bindM_Ok in H1 as (? & ? & H1 & H2). apply load_Ok in H1 as [_ ->].
  apply ret_Ok in H2 as [-> ->].
  apply bindM_Ok in H as (? & ? & H1 & H). apply lift_Ok in H1 as [_ ->].
  apply bindM_Ok in H as (xa & ha & Hx & H).
  assert (Hp1 : h `prefix_of` ha).
  { destruct (0 <? _).
    - by eapply Tensor_pad_shapes_prefix.
    - by apply ret_Ok in Hx as [-> ->]. }
  apply bindM_Ok in H as (? & ? & H1 & H).
  apply bindM_Ok in H1 as (? & ? & H1 & H2). apply load_Ok in H1 as [_ ->].
  apply ret_Ok in H2 as [-> ->].
  etransitivity; [exact Hp1|].
  eapply (foldl_bindM_prefix
            (λ x dim_idx,
               let! sh := (let! t := load x in ret (Storage_shape (storage t))) in
               let! d := lift (Py.index sh dim_idx) in
               let! n := lift (Py.index new_shape dim_idx) in
               if negb (d =? n) then
                 let! _ := lift (py_assert (d =? 1)) in
                 Function_apply (ops_Expand env dim_idx n) [x]
               else ret x)); [| |exact H].
  - clear. intros x i h r h' H.
    apply bindM_Ok in H as (? & ? & H1 & H).
    apply bindM_Ok in H1 as (? & ? & H1 & H2). apply load_Ok in H1 as [_ ->].
    apply ret_Ok in H2 as [-> ->].
    apply bindM_Ok in H as (? & ? & H1 & H). apply lift_Ok in H1 as [_ ->].
    apply bindM_Ok in H as (? & ? & H1 & H). apply lift_Ok in H1 as [_ ->].
    destruct (negb _).
    + apply bindM_Ok in H as (? & ? & H1 & H). apply lift_Ok in H1 as [_ ->].
      by eapply Function_apply_prefix.
    + by apply ret_Ok in H as [-> ->].
  - intros h2 r2 h2' H2. by apply ret_Ok in H2 as [-> ->].
Qed.

Lemma Tensor__broadcasted_prefix (x y : addr) (h h' : Heap) (r : addr * addr) :
  Tensor__broadcasted env x y h = Ok (r, h') → h `prefix_of` h'.
Proof.
  unfold Tensor__broadcasted, Tensor_shape. intros H.
  apply bindM_Ok in H as (xs & ? & H1 & H).
  apply bindM_Ok in H1 as (? & ? & H1 & H2). apply load_Ok in H1 as [_ ->].
  apply ret_Ok in H2 as [-> ->].
  apply bindM_Ok in H as (ys & ? & H1 & H).
  apply bindM_Ok in H1 as (? & ? & H1 & H2). apply load_Ok in H1 as [_ ->].
  apply ret_Ok in H2 as [-> ->].
  case_bool_decide.
  { by apply ret_Ok in H as [-> ->]. }
  apply bindM_Ok in H as (xy & hb & Hxy & H).
  assert (Hp1 : h `prefix_of` hb).
  { destruct (0 <? _); [|destruct (_ <? 0)].
    - apply bindM_Ok in Hxy as (? & ? & H1 & H2). apply ret_Ok in H2 as [-> ->].
      by eapply Tensor_reshape_prefix.
    - apply bindM_Ok in Hxy as (? & ? & H1 & H2). apply ret_Ok in H2 as [-> ->].
      by eapply Tensor_reshape_prefix.
    - by apply ret_Ok in Hxy as [-> ->]. }
  etransitivity; [exact Hp1|]. clear Hp1 Hxy.
  apply bindM_Ok in H as (? & ? & H1 & H).
  apply bindM_Ok in H1 as (? & ? & H1 & H2). apply load_Ok in H1 as [_ ->].
  apply ret_Ok in H2 as [-> ->].
  apply bindM_Ok in H as (? & ? & H1 & H).
  apply bindM_Ok in H1 as (? & ? & H1 & H2). apply load_Ok in H1 as [_ ->].
  apply ret_Ok in H2 as [-> ->].
  case_bool_decide.
  { by apply ret_Ok in H as [-> ->]. }
  apply bindM_Ok in H as (x' & hc & Hx & H).
  apply bindM_Ok in H as (y' & hd & Hy & H). apply ret_Ok in H as [-> ->].
  etransitivity.
  - match type of Hx with context [bool_decide ?P] => destruct (bool_decide P) end.
    + by eapply Tensor_expand_prefix.
    + by apply ret_Ok in Hx as [-> ->].
  - match type of Hy with context [bool_decide ?P] => destruct (bool_decide P) end.
    + by eapply Tensor_expand_prefix.
    + by apply ret_Ok in Hy as [-> ->].
Qed.

Lemma Tensor___add___prefix (x y : addr) (h h' : Heap) (r : addr) :
  Tensor___add__ env x y h = Ok (r, h') → h `prefix_of` h'.
Proof.
  unfold Tensor___add__, Tensor_add. intros H.
  apply bindM_Ok in H as (? & ? & H1 & H). apply load_Ok in H1 as [_ ->].
  apply bindM_Ok in H as (? & ? & H1 & H). apply load_Ok in H1 as [_ ->].
  apply bindM_Ok in H as (? & hb & H1 & H).
  assert (hb = h) as ->.
  { destruct (DEBUG env).
    - by apply lift_Ok in H1 as [_ ->].
    - by apply ret_Ok in H1 as [_ ->]. }
  apply bindM_Ok in H as (xy & hc & Hxy & H).
  etransitivity.
  - by eapply Tensor__broadcasted_prefix.
  - by eapply Function_apply_prefix.
Qed.

Lemma accumulate_quiet (parent : addr) (g : option addr) (h h' : Heap) (u : unit) :
  accumulate env parent g h = Ok (u, h') → quiet h h'.
Proof.
  unfold accumulate, Tensor_shape. intros H. destruct g as [g|].
  2:{ apply ret_Ok in H as [_ ->]. apply quiet_refl. }
  apply bindM_Ok in H as (p & ? & H1 & H). apply load_Ok in H1 as [Hp ->].
  destruct (requires_grad p) eqn:Hrg.
  2:{ apply ret_Ok in H as [_ ->]. apply quiet_refl. }
  apply bindM_Ok in H as (? & ? & H1 & H).
  apply bindM_Ok in H1 as (? & ? & H1 & H2). apply load_Ok in H1 as [_ ->].
  apply ret_Ok in H2 as [-> ->].
  apply bindM_Ok in H as (? & ? & H1 & H).
  apply bindM_Ok in H1 as (? & ? & H1 & H2). apply load_Ok in H1 as [_ ->].
  apply ret_Ok in H2 as [-> ->].
  apply bindM_Ok in H as (? & ? & H1 & H). apply lift_Ok in H1 as [_ ->].
  destruct (grad p) as [old|].
  - apply bindM_Ok in H as (new & hb & Hnew & H).
    apply set_grad_Ok in H as (t & Ht & ->).
    apply Tensor___add___prefix in Hnew.
    eapply quiet_trans; [by apply quiet_prefix|].
    apply (quiet_insert _ _ t); [done..|].
    destruct Hnew as [l ->]. rewrite (lookup_app_l_Some _ _ _ _ Hp) in Ht.
    injection Ht as <-. cbn. congruence.
  - apply set_grad_Ok in H as (t & Ht & ->).
    apply (quiet_insert _ _ t); [done..|]. cbn. congruence.
Qed.

Lemma for_each_quiet {A : Type} (f : A → M unit) (l : list A) :
  (∀ a h u h', f a h = Ok (u, h') → quiet h h') →
  ∀ h u h', for_each f l h = Ok (u, h') → quiet h h'.
Proof.
  intros Hf. induction l as [|a l IH]; intros h u h' H; cbn [for_each] in H.
  - apply ret_Ok in H as [_ ->]. apply quiet_refl.
  - apply bindM_Ok in H as (? & h1 & H1 & H).
    eapply quiet_trans; [by eapply Hf|by eapply IH].
Qed.

Lemma for_collect_quiet {A B : Type} (f : A → M B) (l : list A) :
  (∀ a h b h', f a h = Ok (b, h') → quiet h h') →
  ∀ h bs h', for_collect f l h = Ok (bs, h') → quiet h h'.
Proof.
  intros Hf. induction l as [|a l IH]; intros h bs h' H; cbn [for_collect] in H.
  - apply ret_Ok in H as [_ ->]. apply quiet_refl.
  - apply bindM_Ok in H as (? & h1 & H1 & H).
    apply bindM_Ok in H as (? & h2 & H2 & H). apply ret_Ok in H as [_ ->].
    eapply quiet_trans; [by eapply Hf|by eapply IH].
Qed.

Lemma backward_step_quiet (node : addr) (h h' : Heap) (u : unit) :
  backward_step env node h = Ok (u, h') → quiet h h'.
Proof.
  unfold backward_step. intros H.
  apply bindM_Ok in H as (t & ? & H1 & H). apply load_Ok in H1 as [Ht ->].
  apply bindM_Ok in H as (? & ? & H1 & H). apply lift_Ok in H1 as [_ ->].
  apply bindM_Ok in H as (ctx & ? & H1 & H). apply lift_Ok in H1 as [_ ->].
  apply bindM_Ok in H as (g & ? & H1 & H). apply load_Ok in H1 as [_ ->].
  apply bindM_Ok in H as (r & ? & H1 & H). apply lift_Ok in H1 as [_ ->].
  apply bindM_Ok in H as (ps & ? & H1 & H). apply lift_Ok in H1 as [_ ->].
  apply bindM_Ok in H as (gs & ? & H1 & H). apply lift_Ok in H1 as [_ ->].
  apply bindM_Ok in H as (grads & ha & Hgrads & H).
  apply bindM_Ok in H as (? & hb & Hacc & H).
  eapply quiet_trans; [|eapply quiet_trans].
  - eapply for_collect_quiet; [|exact Hgrads].
    intros [s|] h1 b h1' Hb.
    + apply bindM_Ok in Hb as (? & ? & Hb1 & Hb). apply ret_Ok in Hb as [_ ->].
      apply Tensor_init_Ok in Hb1 as (_ & _ & ->). apply quiet_prefix. by eexists.
    + apply ret_Ok in Hb as [_ ->]. apply quiet_refl.
  - eapply for_each_quiet; [|exact Hacc].
    intros [p g'] h1 u1 h1' Hb. by eapply accumulate_quiet.
  - apply del_ctx_Ok in H as (tn & Htn & _ & ->). by apply (quiet_insert _ _ tn).
Qed.

End Growth.

(** Only tensors with an operation record enter the order. *)
Lemma _toposort_recorded (fuel : nat) (h : Heap) (node : addr)
    (st st' : gset addr * list addr) :
  _toposort fuel h node st = Ok st' →
  ∀ a, a ∈ st'.2 → a ∈ st.2 ∨ recorded h a.
Proof.
  revert node st st'. induction fuel as [|fuel IH]; intros node st st' H; [done|].
  cbn [_toposort] in H.
  destruct (h !! node) as [t|] eqn:Ht; [|done].
  destruct (getattr_ctx t) as [ctx|] eqn:Hctx.
  - apply bind_Ok in H as (ps & Hps & H).
    apply bind_Ok in H as (st1 & Hfold & H). injection H as <-.
    cbn [snd]. intros a Ha. apply elem_of_app in Ha as [Ha|Ha].
    + revert a Ha.
      eapply (foldl_bind_inv _ (λ s, ∀ a, a ∈ s.2 → a ∈ st.2 ∨ recorded h a));
        [| |exact Hfold].
      * intros s p s1 _ Hs Hp a Ha. cbn beta in Hp.
        destruct (bool_decide (p ∈ s.1)).
        -- injection Hp as <-. by apply Hs.
        -- destruct (IH _ _ _ Hp a Ha) as [?|?]; [by apply Hs|by right].
      * cbn [snd]. by left.
    + apply list_elem_of_singleton in Ha. subst a. right. by exists t, ctx.
  - injection H as <-. cbn [snd]. by left.
Qed.

Section BackwardFrame.

Context (env : Env).

(** Property X21. A [backward()] that succeeds allocates new tensors and
    leaves every tensor that was there with its storage, dtype and
    [requires_grad]. A tensor that does not require a gradient is given
    none (the root apart, whose gradient is seeded in any case), and a
    tensor without an operation record still has none afterwards. *)
Theorem backward_frame (h h' : Heap) (root : addr) :
  Tensor_backward env root h = Ok (tt, h') →
  (length h < length h')%nat
  ∧ ∀ a t, h !! a = Some t →
      ∃ t', h' !! a = Some t' ∧ storage t' = storage t
          ∧ tensor_dtype t' = tensor_dtype t
          ∧ requires_grad t' = requires_grad t
          ∧ (requires_grad t = false → a ≠ root → grad t' = grad t)
          ∧ (getattr_ctx t = None → _ctx t' = _ctx t).
Proof.
  intros H.
  destruct (h !! root) as [tr|] eqn:Hroot.
  2:{ unfold Tensor_backward, Tensor_is_scalar, bindM, load in H. by rewrite Hroot in H. }
  pose proof (lookup_lt_Some _ _ _ Hroot) as Hlt.
  rewrite (Tensor_backward_unfold env root h tr Hroot) in H.
  destruct (Storage_is_scalar (storage tr)); [|done].
  apply bindM_Ok in H as (graph & hs & Htopo & Hloop).
  unfold Tensor_toposort in Htopo. apply bind_Ok in Htopo as (st & Hcall & Htopo).
  injection Htopo as <- <-.
  pose proof (for_each_backward_step_released env _ _ _ _ Hloop) as [Hl Hrel].
  pose proof (for_each_quiet _ _ (λ a h0 u h1, backward_step_quiet env a h0 h1 u)
                _ _ _ Hloop) as [_ Hq].
  assert (Hlen : length (seeded h root) = S (length h)).
  { unfold seeded. rewrite Hroot, length_insert, length_app. cbn. lia. }
  split; [lia|]. intros a t Ht.
  assert (Hs : ∃ ts, seeded h root !! a = Some ts ∧ storage ts = storage t
            ∧ tensor_dtype ts = tensor_dtype t ∧ requires_grad ts = requires_grad t
            ∧ _ctx ts = _ctx t ∧ (a ≠ root → grad ts = grad t)).
  { unfold seeded. rewrite Hroot. destruct (decide (a = root)) as [->|Hne].
    - rewrite list_lookup_insert_eq by (rewrite length_app; lia).
      assert (t = tr) as -> by congruence. by eexists.
    - rewrite list_lookup_insert_ne by done. exists t. split; [|done].
      by apply lookup_app_l_Some. }
  destruct Hs as (ts & Hts & Hss & Hsd & Hsr & Hsc & Hsg).
  destruct (Hrel a ts Hts) as (t' & Ht' & Hst & Hrg & _ & Hout).
  destruct (Hq a ts Hts) as (t'' & Ht'' & Hdt & _ & Hg).
  assert (t'' = t') by congruence. subst t''.
  exists t'. split; [done|]. split; [congruence|]. split; [congruence|].
  split; [congruence|]. split.
  - intros Hf Hne. rewrite Hg by congruence. by apply Hsg.
  - intros Hnone. rewrite Hout; [done|]. intros Ha. rewrite elem_of_reverse in Ha.
    destruct (_toposort_recorded _ _ _ _ _ Hcall a Ha) as [Hin|(tx & cx & Htx & Hcx)].
    + by apply elem_of_nil in Hin.
    + assert (tx = ts) as -> by congruence. unfold getattr_ctx in *.
      rewrite Hsc in Hcx. congruence.
Qed.

End BackwardFrame.

Lemma backward_frame_witness :
  Tensor_backward example_env 2%nat example_graph = Ok (tt, example_graph_consumed)
  ∧ ∃ t', example_graph_consumed !! 0%nat = Some t'
          ∧ storage t' = Storage_of_float 3%float DFloat.
Proof.
  assert (Hrun : Tensor_backward example_env 2%nat example_graph
                 = Ok (tt, example_graph_consumed)) by reflexivity.
  split; [exact Hrun|].
  destruct (backward_frame example_env _ _ _ Hrun) as [_ H].
  destruct (H 0%nat (leaf [3%float] [1] true) eq_refl) as (t' & Ht' & Hs & _).
  by exists t'.
Defined.

(** ** The graph that [Function.apply] builds *)

Lemma existsb_requires_grad (h : Heap) (inputs : list addr) (ts : list Tensor) :
  Forall2 (λ a t, h !! a = Some t) inputs ts →
  existsb id (requires_grad <$> ts) = true
  ↔ ∃ a ta, a ∈ inputs ∧ h !! a = Some ta ∧ requires_grad ta = true.
Proof.
  induction 1 as [|a t inputs ts Ha _ IH]; cbn [fmap list_fmap existsb].
  - split; [done|]. by intros (a & ta & ?%elem_of_nil & _).
  - rewrite orb_true_iff, IH. unfold id. split.
    + intros [Ht|(b & tb & Hb & Hlook & Hrg)].
      * exists a, t. split; [by left|done].
      * exists b, tb. split; [by right|done].
    + intros (b & tb & [->|Hb]%elem_of_cons & Hlook & Hrg).
      * left. congruence.
      * right. by exists b, tb.
Qed.

(** Property X22. [Function.apply] allocates one tensor, the result, and
    changes no other. The result requires a gradient exactly when one of
    the inputs does; exactly then it carries an operation record, and the
    record names the inputs as its parents. The inputs are older than the
    result, so a graph in which every record names older tensors stays
    one. *)
Theorem Function_apply_records (op : OpClass) (inputs : list addr) (h h' : Heap)
    (r : addr) :
  inputs_older h →
  Function_apply op inputs h = Ok (r, h') →
  let needs_grad := ∃ a ta, a ∈ inputs ∧ h !! a = Some ta ∧ requires_grad ta = true in
  r = length h
  ∧ (∃ t, h' = h ++ [t] ∧ grad t = None ∧ (requires_grad t = true ↔ needs_grad))
  ∧ (recorded h' r ↔ needs_grad)
  ∧ (∀ p, parent_of h' p r ↔ needs_grad ∧ p ∈ inputs)
  ∧ inputs_older h'.
Proof.
  intros Hdag H needs_grad.
  pose proof (Function_apply_Ok _ _ _ _ _ H) as (ts & out & c & Hts & Hout & Hrank & -> & _).
  rewrite (Function_apply_run op inputs ts out h Hts Hout Hrank) in H.
  cbv zeta in H. injection H as <-.
  pose proof (existsb_requires_grad h inputs ts Hts) as Hrg. fold needs_grad in Hrg.
  set (rg := existsb id (requires_grad <$> ts)) in *.
  set (t := mkTensor out rg DFloat None _).
  assert (Hr : (h ++ [t]) !! length h = Some t).
  { rewrite lookup_app_r by lia. by rewrite Nat.sub_diag. }
  assert (Hinputs : ∀ p, p ∈ inputs → (p < length h)%nat).
  { intros p Hp. apply list_elem_of_lookup in Hp as [i Hi].
    destruct (Forall2_lookup_l _ _ _ _ _ Hts Hi) as (tp & _ & Htp).
    by eapply lookup_lt_Some. }
  split; [done|]. split; [by exists t|]. split; [|split].
  - split.
    + intros (t' & ctx & Ht' & Hctx). rewrite Hr in Ht'. injection Ht' as <-.
      apply Hrg. unfold getattr_ctx, t in Hctx. cbn [_ctx] in Hctx.
      by destruct rg.
    + intros Hn. apply Hrg in Hn. exists t. eexists. split; [exact Hr|].
      unfold getattr_ctx, t. cbn [_ctx]. by rewrite Hn.
  - intros p. split.
    + intros (t' & ctx & ps & Ht' & Hctx & Hps & Hp). rewrite Hr in Ht'.
      injection Ht' as <-. unfold getattr_ctx, t in Hctx. cbn [_ctx] in Hctx.
      destruct rg eqn:E; [|done]. injection Hctx as <-. cbn [parents] in Hps.
      injection Hps as <-. split; [by apply Hrg|done].
    + intros [Hn Hp]. apply Hrg in Hn. exists t. eexists _, inputs.
      split; [exact Hr|]. unfold getattr_ctx, t. cbn [_ctx]. rewrite Hn.
      by repeat split.
  - intros n tn ctx Hn Hctx. destruct (decide (n < length h)%nat) as [Hlt|Hge].
    + rewrite lookup_app_l in Hn by done. by eapply Hdag.
    + assert (n = length h) as ->.
      { apply lookup_lt_Some in Hn. rewrite length_app in Hn. cbn in Hn. lia. }
      rewrite Hr in Hn. injection Hn as <-. unfold getattr_ctx, t in Hctx.
      cbn [_ctx] in Hctx. destruct rg; [|done]. injection Hctx as <-.
      by exists inputs.
Qed.

Lemma Function_apply_records_witness :
  inputs_older [leaf [3%float] [1] true; leaf [2%float] [1] true]
  ∧ Function_apply (ops_Add example_env) [0; 1]%nat
      [leaf [3%float] [1] true; leaf [2%float] [1] true] = Ok (2%nat, example_graph)
  ∧ inputs_older example_graph.
Proof.
  assert (Hdag : inputs_older [leaf [3%float] [1] true; leaf [2%float] [1] true]).
  { intros n t ctx Hn Hctx. destruct n as [|[|n]]; [| |done]; by injection Hn as <-. }
  assert (Hrun : Function_apply (ops_Add example_env) [0; 1]%nat
                   [leaf [3%float] [1] true; leaf [2%float] [1] true]
                 = Ok (2%nat, example_graph)) by reflexivity.
  split; [exact Hdag|]. split; [exact Hrun|].
  by destruct (Function_apply_records _ _ _ _ _ Hdag Hrun) as (_ & _ & _ & _ & H).
Defined.

(** ** Constant buffers *)

Lemma peek_fill (dims : list Z) (a : float) (p : Z) :
  0 ≤ p < Py.prod dims → peek (data (fill dims a)) p = a.
Proof.
  intros Hp. unfold peek, fill. cbn [MiniBuffer_init data].
  rewrite lookup_replicate_2 by lia. done.
Qed.

Lemma fmap_const_seqZ (c : float) (n : Z) :
  (λ _ : Z, c) <$> seqZ 0 n = replicate (Z.to_nat n) c.
Proof. rewrite (const_fmap _ _ c) by done. by rewrite length_seqZ. Qed.

Lemma fill_binary (op : BinaryOp) (f : float → float → float) (dims : list Z)
    (a b : float) :
  dims ≠ [] → Forall (λ n, 0 ≤ n) dims →
  _apply_op_binary op a b = Ok (f a b) →
  (let* out_data := _traverse_dims_and_apply_op (stack_depth (fill dims a)) 0 (0, 0) op
                      (fill dims a) (fill dims b) in
   Ok (MiniBuffer_init out_data dims None)) = Ok (fill dims (f a b)).
Proof.
  intros Hrank Hdims Hop.
  rewrite binary_walk_aligned by (done || by apply fill_contiguous).
  rewrite (for_append_fmap _ (λ _, f a b)).
  - cbn [bind]. unfold fill. cbn [MiniBuffer_init shape]. by rewrite fmap_const_seqZ.
  - apply Forall_forall. intros p Hp%elem_of_seqZ. unfold binary_at. cbn [fst snd].
    change (shape (fill dims a)) with dims in Hp.
    pose proof (contiguous_length _ (fill_contiguous dims a Hrank Hdims)) as Hla.
    pose proof (contiguous_length _ (fill_contiguous dims b Hrank Hdims)) as Hlb.
    change (shape (fill dims _)) with dims in Hla, Hlb.
    rewrite (index_peek (data (fill dims a))) by (unfold in_range; lia).
    rewrite (index_peek (data (fill dims b))) by (unfold in_range; lia).
    cbn [bind]. by rewrite !peek_fill by lia.
Qed.

(** Property X23. [fill] builds a row-major buffer that reads the value at
    every valid key, and the constant buffers of one shape are closed under
    the operations: the sum, difference and product of two of them and the
    negation of one are the constant buffers of the sum, difference,
    product and negation of the values, and [full_like] of one is the
    constant buffer of the new value. *)
Theorem fill_constant (dims : list Z) (a b : float) :
  dims ≠ [] → Forall (λ n, 0 ≤ n) dims →
  contiguous (fill dims a)
  ∧ (∀ key, valid_key key dims → getitem (fill dims a) key = Ok a)
  ∧ add (fill dims a) (fill dims b) = Ok (fill dims (a + b)%float)
  ∧ sub (fill dims a) (fill dims b) = Ok (fill dims (a - b)%float)
  ∧ mul (fill dims a) (fill dims b) = Ok (fill dims (a * b)%float)
  ∧ neg (fill dims a) = Ok (fill dims (- a)%float)
  ∧ full_like (fill dims a) b = fill dims b.
Proof.
  intros Hrank Hdims.
  pose proof (fill_contiguous dims a Hrank Hdims) as Hc.
  split; [exact Hc|]. split; [|split; [|split; [|split; [|split]]]].
  - intros key Hkey. destruct (contiguous_getitem _ key Hc Hkey) as [-> Hb].
    rewrite peek_fill; [done|].
    rewrite (contiguous_length _ Hc) in Hb. exact Hb.
  - by apply (fill_binary ADD PrimFloat.add).
  - by apply (fill_binary SUB PrimFloat.sub).
  - by apply (fill_binary MUL PrimFloat.mul).
  - rewrite neg_contiguous by done. f_equal.
    change (shape (fill dims a)) with dims.
    transitivity (MiniBuffer_init ((λ _, (- a)%float) <$> seqZ 0 (Py.prod dims)) dims None);
      [|unfold fill; by rewrite fmap_const_seqZ].
    f_equal. apply list_fmap_ext.
    intros i p Hp%lookup_seqZ. cbn beta. rewrite peek_fill by lia. done.
  - reflexivity.
Qed.

Lemma fill_constant_witness :
  getitem (fill [2; 3] 7%float) [1; 2] = Ok 7%float
  ∧ mul (fill [2; 3] 7%float) (fill [2; 3] 2%float) = Ok (fill [2; 3] (7 * 2)%float).
Proof.
  destruct (fill_constant [2; 3] 7%float 2%float) as (_ & Hget & _ & _ & Hmul & _).
  - done.
  - repeat constructor; lia.
  - split; [|exact Hmul]. apply Hget. repeat constructor; lia.
Defined.

(** ** [assign] and [detach] *)

(** Property X24. [detach] allocates a tensor with the storage of its
    argument and with no gradient, no operation record and no need of a
    gradient, so [assign] never refuses it for its flag: assigning the
    detached copy of [x] to [self] succeeds exactly when the shapes agree,
    returns [self], and changes only the storage of [self], whose flag,
    gradient and operation record stay. A source that requires a gradient
    is refused with an [AssertionError] whatever its shape. *)
Theorem assign_detach (self x : addr) (ts tx : Tensor) (h : Heap) :
  h !! self = Some ts → h !! x = Some tx → Storage_rank (storage tx) ≤ 4 →
  let copy := mkTensor (storage tx) false DFloat None CtxNone in
  let run := (let! d := Tensor_detach x in Tensor_assign self d) h in
  Tensor_detach x h = Ok (length h, h ++ [copy])
  ∧ (Storage_shape (storage ts) = Storage_shape (storage tx) →
     run = Ok (self, <[self := mkTensor (storage tx) (requires_grad ts)
                                  (tensor_dtype ts) (grad ts) (_ctx ts)]>
                       (h ++ [copy])))
  ∧ (Storage_shape (storage ts) ≠ Storage_shape (storage tx) →
     run = Raise AssertionError)
  ∧ (requires_grad tx = true → Tensor_assign self x h = Raise AssertionError).
Proof.
  intros Hs Hx Hrank copy run.
  pose proof (lookup_lt_Some _ _ _ Hs) as Hlt.
  assert (Hd : Tensor_detach x h = Ok (length h, h ++ [copy])).
  { unfold Tensor_detach, bindM, load. rewrite Hx.
    by apply Tensor_init_run. }
  assert (Hs' : (h ++ [copy]) !! self = Some ts) by (by apply lookup_app_l_Some).
  assert (Hc : (h ++ [copy]) !! length h = Some copy).
  { rewrite lookup_app_r by lia. by rewrite Nat.sub_diag. }
  split; [exact Hd|]. split; [|split].
  - intros Hshape. unfold run, bindM at 1. rewrite Hd.
    unfold Tensor_assign, Tensor_shape, bindM, load, ret, lift, modify.
    rewrite Hs', Hc. cbn [storage requires_grad negb py_assert].
    rewrite bool_decide_eq_true_2 by done. cbn [py_assert]. rewrite Hc.
    change (requires_grad copy) with false. cbn [negb py_assert]. by rewrite Hs'.
  - intros Hshape. unfold run, bindM at 1. rewrite Hd.
    unfold Tensor_assign, Tensor_shape, bindM, load, ret, lift, modify.
    rewrite Hs', Hc. cbn [storage requires_grad negb py_assert].
    rewrite bool_decide_eq_false_2 by done. done.
  - intros Hrg. unfold Tensor_assign, Tensor_shape, bindM, load, ret, lift, modify.
    rewrite Hs, Hx. case_bool_decide; cbn [py_assert]; [|done].
    rewrite ?Hx, Hrg. done.
Qed.

Lemma assign_detach_witness :
  ∃ h', (let! d := Tensor_detach 0%nat in Tensor_assign 1%nat d)
          [leaf [3%float] [1] true; leaf [2%float] [1] false] = Ok (1%nat, h')
        ∧ h' !! 1%nat = Some (leaf [3%float] [1] false).
Proof.
  destruct (assign_detach 1%nat 0%nat (leaf [2%float] [1] false) (leaf [3%float] [1] true)
              [leaf [3%float] [1] true; leaf [2%float] [1] false])
    as (_ & Hrun & _); [reflexivity|reflexivity|by vm_compute|].
  eexists. split; [by apply Hrun|]. reflexivity.
Defined.
